(** * Klondike solitaire: the rules engine of [Game] (game logic module)

    A shallow embedding of the game object [Game]: cards, piles, the
    seeded generator and shuffle, dealing, the undo history, the legality
    predicates, the draw, move and auto-move commands and the hint engine;
    followed by the properties established about them. *)

From Stdlib Require Import ZArith QArith Qround Floats Uint63 Lia.
From stdpp Require Import base list strings pretty.

Local Open Scope Z_scope.

(** ** JavaScript numbers

    Counters, ranks, indices and seeds are integer-valued and stay far below
    2^53, so they are modelled in [Z].  Only the generator's arithmetic
    leaves the exactly representable range; there every operation is the
    exact rational result rounded to binary64 (round to nearest, ties to
    even), written out in [Double.round]. Magnitudes stay far below 2^1024,
    so overflow to infinity is not modelled. *)

Module Double.

Definition emin : Z := -1074.

(** The largest [k] with [2^k <= n/d], for positive [n] and [d]. *)
Definition ilog2 (n d : Z) : Z :=
  let k0 := Z.log2 n - Z.log2 d in
  if n * 2 ^ Z.max (- k0) 0 <? d * 2 ^ Z.max k0 0 then k0 - 1 else k0.

(** Nearest binary64 value of [n/d] (both positive): a 53-bit significand
    [m] and an exponent [e], ties to the even significand. *)
Definition round_pos (n d : Z) : Q :=
  let e := Z.max (ilog2 n d - 52) emin in
  let num := n * 2 ^ Z.max (- e) 0 in
  let den := d * 2 ^ Z.max e 0 in
  let q := num / den in
  let r := num mod den in
  let m := if 2 * r <? den then q
           else if den <? 2 * r then q + 1
           else if Z.even q then q else q + 1 in
  if 0 <=? e then inject_Z (m * 2 ^ e) else Qmake m (Z.to_pos (2 ^ (- e))).

(** Rounding a rational, taken in lowest terms. *)
Definition round (x : Q) : Q :=
  let g := Z.gcd (Qnum x) (Zpos (Qden x)) in
  let n := Qnum x / g in
  let d := Zpos (Qden x) / g in
  match n with
  | Z0 => 0%Q
  | Zpos _ => round_pos n d
  | Zneg _ => Qopp (round_pos (- n) d)
  end.

Definition mul (x y : Q) : Q := round (x * y)%Q.
Definition add (x y : Q) : Q := round (x + y)%Q.
Definition div (x y : Q) : Q := round (x / y)%Q.

(** [Math.floor]. *)
Definition floor (x : Q) : Z := Qfloor x.

(** [ToInt32], the conversion applied to the operands of [&]: truncate,
    reduce modulo 2^32, read as a signed 32-bit integer. *)
Definition ToInt32 (x : Q) : Z :=
  (Z.quot (Qnum x) (Zpos (Qden x)) + 2 ^ 31) mod 2 ^ 32 - 2 ^ 31.

(** [x & y]. *)
Definition band (x y : Q) : Z := Z.land (ToInt32 x) (ToInt32 y).

(** The value of a finite hardware binary64 number, for comparing the
    rounding written out above with the processor's arithmetic. *)
Definition of_float (f : float) : option Q :=
  match Prim2SF f with
  | S754_zero _ => Some 0%Q
  | S754_finite s m e =>
      let v := if 0 <=? e then inject_Z (Zpos m * 2 ^ e)
               else Qmake (Zpos m) (Z.to_pos (2 ^ (- e))) in
      Some (if s then Qopp v else v)
  | _ => None
  end.

Definition to_float (z : Z) : float := PrimFloat.of_uint63 (Uint63.of_Z z).

End Double.

(** ** Cards *)

Inductive suit : Type := hearts | diamonds | clubs | spades.

Global Instance suit_eq_dec : EqDecision suit.
Proof. solve_decision. Defined.

Definition SUITS : list suit := [hearts; diamonds; clubs; spades].
Definition RED_SUITS : list suit := [hearts; diamonds].
Definition BLACK_SUITS : list suit := [clubs; spades].

Definition suit_name (s : suit) : string :=
  match s with
  | hearts => "hearts" | diamonds => "diamonds"
  | clubs => "clubs" | spades => "spades"
  end.

Record card : Type := mkCard {
  c_suit : suit;
  rank : Z;
  faceUp : bool;
  id : string
}.

Global Instance card_eq_dec : EqDecision card.
Proof. solve_decision. Defined.

(** An array element: a card object, or [undefined] (what [pop] gives on an
    empty array), or [null] (what [undefined] becomes in a JSON snapshot). *)
Inductive slot : Type :=
| Undefined
| Null
| Card (c : card).

Global Instance slot_eq_dec : EqDecision slot.
Proof. solve_decision. Defined.

(** A pile is an array of elements. *)
Abbreviation pile := (list slot).

Definition set_faceUp (b : bool) (c : card) : card :=
  mkCard (c_suit c) (rank c) b (id c).

(** [createCard].  The id is the template literal of suit and rank.  For
    a rank that is a whole number below 2^53 in magnitude the literal
    prints its decimal digits, which is what [pretty] gives; [createDeck]
    calls it with the ranks 1 to 13.  Larger numbers, which are printed
    rounded or in exponent notation, are outside this definition. *)
Definition createCard (s : suit) (r : Z) : card :=
  mkCard s r false (suit_name s +:+ "-" +:+ pretty r).

Definition RANKS : list Z := [1; 2; 3; 4; 5; 6; 7; 8; 9; 10; 11; 12; 13].

Definition createDeck : list card :=
  s ← SUITS; (createCard s) <$> RANKS.

(** ** Arrays *)

(** [a[i]] for a numeric index. *)
Definition js_get {A} (l : list A) (i : Z) : option A :=
  if i <? 0 then None else l !! Z.to_nat i.

(** [a[i]] where [i] may be [undefined]. *)
Definition js_index {A} (l : list A) (i : option Z) : option A :=
  i ≫= js_get l.

(** [a[i]] on an array of slots: a missing element reads as [undefined]. *)
Definition js_read (l : pile) (i : Z) : slot := default Undefined (js_get l i).

(** [a[i] = v]: in range it overwrites; beyond the end the array grows, the
    skipped indices reading as [undefined]; a negative index is not an
    element. *)
Definition js_write (l : pile) (i : Z) (v : slot) : pile :=
  if i <? 0 then l
  else if (Z.to_nat i <? length l)%nat then <[Z.to_nat i := v]> l
  else l ++ replicate (Z.to_nat i - length l)%nat Undefined ++ [v].

(** [a.pop()]: the last element ([undefined] on an empty array) and the rest. *)
Definition js_pop (l : pile) : slot * pile :=
  (default Undefined (last l), removelast l).

(** The start position of [a.splice(start)]. *)
Definition splice_start (len : nat) (start : option Z) : nat :=
  match start with
  | None => 0%nat
  | Some z => if z <? 0 then Z.to_nat (Z.max (Z.of_nat len + z) 0)
              else Z.to_nat (Z.min z (Z.of_nat len))
  end.

(** [a.splice(start)]: the removed tail and what is left. *)
Definition js_splice (l : pile) (start : option Z) : pile * pile :=
  let k := splice_start (length l) start in (drop k l, take k l).

(** ** The seeded generator *)

Module seededRandom.

Record rng : Type := mkRng { seed : Z }.

Definition setSeed (s : Z) : rng := mkRng s.

Definition next (r : rng) : Q * rng :=
  let s' := Double.band
              (Double.add (Double.mul (inject_Z (seed r)) (inject_Z 1103515245))
                          (inject_Z 12345))
              (inject_Z 2147483647) in
  (Double.div (inject_Z s') (inject_Z 2147483647), mkRng s').

Definition nextInt (max : Z) (r : rng) : Z * rng :=
  let '(x, r') := next r in
  (Double.floor (Double.mul x (inject_Z max)), r').

End seededRandom.

(** The same generator on hardware binary64 numbers: the state after
    [next()], the value returned, and [Math.floor] of that value times
    [max] (as a rational, if finite). *)
Definition next_binary64 (s max : Z) : Z * option Q * option Z :=
  let f := PrimFloat.add (PrimFloat.mul (Double.to_float s) 1103515245%float)
                         12345%float in
  let s' := match Double.of_float f with
            | Some v => Double.band v (inject_Z 2147483647)
            | None => 0
            end in
  let x := PrimFloat.div (Double.to_float s') 2147483647%float in
  (s', Double.of_float x,
   Double.floor <$> Double.of_float (PrimFloat.mul x (Double.to_float max))).

(** [n] calls of [nextInt], with [max] going down from [n + 1] as in
    [shuffle], give the same on both. *)
Fixpoint agrees_with_binary64 (n : nat) (s : Z) : bool :=
  match n with
  | O => true
  | S n' =>
      let max := Z.of_nat n + 1 in
      let '(x, r) := seededRandom.next (seededRandom.mkRng s) in
      let '(j, _) := seededRandom.nextInt max (seededRandom.mkRng s) in
      let '(s', fx, fj) := next_binary64 s max in
      (s' =? seededRandom.seed r)
      && match fx with Some v => Qeq_bool v x | None => false end
      && bool_decide (fj = Some j)
      && agrees_with_binary64 n' s'
  end.

(** ** Shuffle *)

Definition swap (a : pile) (i j : Z) : pile :=
  let ai := js_read a i in
  let aj := js_read a j in
  js_write (js_write a i aj) j ai.

Fixpoint shuffle_loop (i : nat) (a : pile) (r : seededRandom.rng)
  : pile * seededRandom.rng :=
  match i with
  | O => (a, r)
  | S i' =>
      let '(j, r') := seededRandom.nextInt (Z.of_nat i + 1) r in
      shuffle_loop i' (swap a (Z.of_nat i) j) r'
  end.

Definition shuffle (deck : pile) (sd : Z) : pile * seededRandom.rng :=
  shuffle_loop (length deck - 1) deck (seededRandom.setSeed sd).

Definition WINNABLE_SEEDS : list Z := [
    11982; 15196; 17392; 25147; 27384; 31465; 39472; 41253; 44891; 48627;
    52983; 56128; 59374; 61847; 64291; 68453; 71629; 74815; 78362; 81947;
    85213; 88476; 91738; 94152; 97483; 101294; 104827; 108361; 111945; 115283;
    118627; 122184; 125739; 129461; 132847; 136294; 139728; 143162; 146895; 150324;
    153867; 157291; 160834; 164278; 167912; 171356; 174893; 178427; 181964; 185392;
    188736; 192184; 195627; 199183; 202647; 206194; 209738; 213275; 216819; 220364;
    223918; 227453; 230987; 234621; 238156; 241793; 245328; 248962; 252497; 256134;
    259678; 263215; 266849; 270384; 273928; 277463; 281097; 284632; 288276; 291813;
    295348; 298984; 302519; 306153; 309688; 313324; 316859; 320493; 324028; 327664;
    331199; 334835; 338370; 342006; 345541; 349177; 352712; 356348; 359883; 363519;
    367054; 370690; 374225; 377861; 381396; 385032; 388567; 392203; 395738; 399374;
    402909; 406545; 410080; 413716; 417251; 420887; 424422; 428058; 431593; 435229;
    438764; 442400; 445935; 449571; 453106; 456742; 460277; 463913; 467448; 471084;
    474619; 478255; 481790; 485426; 488961; 492597; 496132; 499768; 503303; 506939;
    510474; 514110; 517645; 521281; 524816; 528452; 531987; 535623; 539158; 542794;
    546329; 549965; 553500; 557136; 560671; 564307; 567842; 571478; 575013; 578649;
    582184; 585820; 589355; 592991; 596526; 600162; 603697; 607333; 610868; 614504;
    618039; 621675; 625210; 628846; 632381; 636017; 639552; 643188; 646723; 650359;
    653894; 657530; 661065; 664701; 668236; 671872; 675407; 679043; 682578; 686214;
    689749; 693385; 696920; 700556; 704091; 707727; 711262; 714898; 718433; 722069
  ].

(** ** Game state *)

(** What [saveState] stores: the parsed content of the JSON string. *)
Record snapshot : Type := mkSnapshot {
  snap_stock : pile;
  snap_waste : pile;
  snap_foundations : list pile;
  snap_tableau : list pile;
  snap_moves : Z;
  snap_score : Z
}.

Record state : Type := mkState {
  stock : pile;
  waste : pile;
  foundations : list pile;
  tableau : list pile;
  history : list snapshot;
  moves : Z;
  score : Z;
  startTime : Z;
  seed : Z
}.

Record settings : Type := mkSettings {
  drawCount : Z;
  scoring : string
}.

Definition set_stock (x : pile) (s : state) : state :=
  mkState x (waste s) (foundations s) (tableau s) (history s) (moves s)
          (score s) (startTime s) (seed s).
Definition set_waste (x : pile) (s : state) : state :=
  mkState (stock s) x (foundations s) (tableau s) (history s) (moves s)
          (score s) (startTime s) (seed s).
Definition set_foundations (x : list pile) (s : state) : state :=
  mkState (stock s) (waste s) x (tableau s) (history s) (moves s)
          (score s) (startTime s) (seed s).
Definition set_tableau (x : list pile) (s : state) : state :=
  mkState (stock s) (waste s) (foundations s) x (history s) (moves s)
          (score s) (startTime s) (seed s).
Definition set_history (x : list snapshot) (s : state) : state :=
  mkState (stock s) (waste s) (foundations s) (tableau s) x (moves s)
          (score s) (startTime s) (seed s).
Definition set_moves (x : Z) (s : state) : state :=
  mkState (stock s) (waste s) (foundations s) (tableau s) (history s) x
          (score s) (startTime s) (seed s).
Definition set_score (x : Z) (s : state) : state :=
  mkState (stock s) (waste s) (foundations s) (tableau s) (history s)
          (moves s) x (startTime s) (seed s).

(** A location descriptor [{location, pileIndex, index}]; an absent field
    is [None]. *)
Record loc : Type := mkLoc {
  location : string;
  pileIndex : option Z;
  index : option Z
}.

(** ** Results *)

(** A query either gives a value or raises a [TypeError] (a property read
    on [undefined] or [null]). *)
Inductive result (A : Type) : Type :=
| Ok (a : A)
| TypeError.
Arguments Ok {A} a.
Arguments TypeError {A}.

Definition rbind {A B} (r : result A) (f : A → result B) : result B :=
  match r with Ok a => f a | TypeError => TypeError end.

(** A command either returns a value or raises; in both cases it leaves a
    state behind, with the mutations made so far. *)
Inductive outcome (A : Type) : Type :=
| Returns (a : A) (s : state)
| Throws (s : state).
Arguments Returns {A} a s.
Arguments Throws {A} s.

Definition final {A} (o : outcome A) : state :=
  match o with Returns _ s => s | Throws s => s end.

Definition M (A : Type) : Type := state → outcome A.

Definition ret {A} (a : A) : M A := λ s, Returns a s.
Definition bind {A B} (m : M A) (f : A → M B) : M B :=
  λ s, match m s with Returns a s' => f a s' | Throws s' => Throws s' end.
Definition throw {A} : M A := λ s, Throws s.
Definition get : M state := λ s, Returns s s.
Definition modify (f : state → state) : M unit := λ s, Returns tt (f s).
Definition lift {A} (r : state → result A) : M A :=
  λ s, match r s with Ok a => Returns a s | TypeError => Throws s end.

Declare Scope game_scope.
Delimit Scope game_scope with game.
Notation "'let*' x ':=' m 'in' k" := (bind m (λ x, k))
  (at level 10, x name, m at level 100, k at level 200) : game_scope.
Notation "'run' m 'then' k" := (bind m (λ _, k))
  (at level 10, m at level 100, k at level 200) : game_scope.
Notation "'let?' x ':=' r 'in' k" := (rbind r (λ x, k))
  (at level 10, x name, r at level 100, k at level 200) : game_scope.
Local Open Scope game_scope.

(** ** History *)

(** [JSON.parse(JSON.stringify(a))] on an array element: a card object
    comes back as it was, [undefined] comes back as [null]. *)
Definition json_slot (x : slot) : slot :=
  match x with Undefined => Null | _ => x end.

Definition json_pile (p : pile) : pile := json_slot <$> p.

Definition snapshot_of (s : state) : snapshot :=
  mkSnapshot (json_pile (stock s)) (json_pile (waste s))
             (json_pile <$> foundations s) (json_pile <$> tableau s)
             (moves s) (score s).

Definition saveState (s : state) : state :=
  let h := history s ++ [snapshot_of s] in
  set_history (if (50 <? length h)%nat then tail h else h) s.

Definition undo (s : state) : outcome bool :=
  match last (history s) with
  | None => Returns false s
  | Some previous =>
      Returns true
        (mkState (snap_stock previous) (snap_waste previous)
                 (snap_foundations previous) (snap_tableau previous)
                 (removelast (history s))
                 (snap_moves previous) (snap_score previous)
                 (startTime s) (seed s))
  end.

(** ** Legality predicates *)

Definition isRed (c : card) : bool := bool_decide (c_suit c ∈ RED_SUITS).

Definition areOppositeColors (c1 c2 : card) : bool :=
  negb (eqb (isRed c1) (isRed c2)).

Fixpoint indexOf_from (x : suit) (l : list suit) (i : Z) : Z :=
  match l with
  | [] => -1
  | y :: l' => if decide (x = y) then i else indexOf_from x l' (i + 1)
  end.

Definition getFoundationIndex (x : suit) : Z := indexOf_from x SUITS 0.

Definition canPlaceOnFoundation (s : state) (c : card) (foundationIndex : Z)
  : result bool :=
  let foundation := js_get (foundations s) foundationIndex in
  let expectedSuit := js_get SUITS foundationIndex in
  if negb (bool_decide (Some (c_suit c) = expectedSuit)) then Ok false
  else match foundation with
       | None => TypeError
       | Some f =>
           if (length f =? 0)%nat then Ok (rank c =? 1)
           else match last f with
                | Some (Card topCard) => Ok (rank c =? rank topCard + 1)
                | _ => TypeError
                end
       end.

Definition canPlaceOnTableau (s : state) (c : card) (tableauIndex : Z)
  : result bool :=
  match js_get (tableau s) tableauIndex with
  | None => TypeError
  | Some p =>
      if (length p =? 0)%nat then Ok (rank c =? 13)
      else match last p with
           | Some (Card topCard) =>
               Ok (faceUp topCard && areOppositeColors c topCard
                   && (rank c =? rank topCard - 1))
           | _ => TypeError
           end
  end.

(** ** Drawing from the stock *)

(** [waste.map(card => { card.faceUp = false; return card; })]: the cards
    are flipped in place, in order; the flag is [false] when an element
    that is no card object stopped the loop with a [TypeError]. *)
Fixpoint flip_down (l : pile) : pile * bool :=
  match l with
  | [] => ([], true)
  | Card c :: r =>
      let '(r', ok) := flip_down r in (Card (set_faceUp false c) :: r', ok)
  | x :: r => (x :: r, false)
  end.

(** The body of the draw loop, [n] more times. *)
Fixpoint draw_loop (n : nat) : M unit :=
  match n with
  | O => ret tt
  | S n' =>
      λ s, let '(x, rest) := js_pop (stock s) in
           match x with
           | Card c =>
               draw_loop n'
                 (set_waste (waste s ++ [Card (set_faceUp true c)])
                            (set_stock rest s))
           | _ => Throws (set_stock rest s)
           end
  end.

Definition drawFromStock (cfg : settings) : M bool :=
  λ s,
  if (length (stock s) =? 0)%nat then
    if (length (waste s) =? 0)%nat then Returns false s
    else
      let s1 := saveState s in
      let '(w, ok) := flip_down (reverse (waste s1)) in
      if ok then
        let s2 := set_waste [] (set_stock w s1) in
        Returns true
          (if String.eqb (scoring cfg) "vegas"
           then set_score (Z.max 0 (score s2 - 100)) s2 else s2)
      else Throws (set_waste w s1)
  else
    let s1 := saveState s in
    let count := Z.min (drawCount cfg) (Z.of_nat (length (stock s1))) in
    (run draw_loop (Z.to_nat count) then
     run modify (λ s, set_moves (moves s + 1) s) then
     ret true) s1.

(** ** Finding a card *)

(** [pile.findIndex(c => c.id === cardId)], counting from [i]. *)
Fixpoint findIndex_from (cardId : string) (l : pile) (i : Z) : result Z :=
  match l with
  | [] => Ok (-1)
  | Card c :: r =>
      if String.eqb (id c) cardId then Ok i
      else findIndex_from cardId r (i + 1)
  | _ :: _ => TypeError
  end.

Definition findIndex (cardId : string) (l : pile) : result Z :=
  findIndex_from cardId l 0.

(** One of the two [for] loops of [findCard], over the pile indices [ixs]. *)
Fixpoint find_in_piles (tag : string) (piles : list pile) (cardId : string)
    (ixs : list Z) : result (option loc) :=
  match ixs with
  | [] => Ok None
  | i :: rest =>
      match js_get piles i with
      | None => TypeError
      | Some p =>
          let? foundIndex := findIndex cardId p in
          if negb (foundIndex =? -1)
          then Ok (Some (mkLoc tag (Some i) (Some foundIndex)))
          else find_in_piles tag piles cardId rest
      end
  end.

Definition findCard (s : state) (cardId : string) : result (option loc) :=
  let? wasteIndex := findIndex cardId (waste s) in
  if negb (wasteIndex =? -1)
  then Ok (Some (mkLoc "waste" None (Some wasteIndex)))
  else
    let? f := find_in_piles "foundation" (foundations s) cardId (seqZ 0 4) in
    match f with
    | Some l => Ok (Some l)
    | None => find_in_piles "tableau" (tableau s) cardId (seqZ 0 7)
    end.

Definition getTopWasteCard (s : state) : slot :=
  if (length (waste s) =? 0)%nat then Null
  else default Undefined (last (waste s)).

(** ** Moving cards *)

(** [piles[i] = p] for an index at which a pile was found. *)
Definition js_store (piles : list pile) (i : option Z) (p : pile) : list pile :=
  match i with
  | Some z => <[Z.to_nat z := p]> piles
  | None => piles
  end.

(** The first half of [moveCards]: the cards taken from the source, and
    [sourceFlipped]. *)
Definition remove_from_source (fromLocation : loc) : M (pile * bool) :=
  λ s,
  if String.eqb (location fromLocation) "waste" then
    let '(x, rest) := js_pop (waste s) in
    Returns ([x], false) (set_waste rest s)
  else if String.eqb (location fromLocation) "foundation" then
    match js_index (foundations s) (pileIndex fromLocation) with
    | None => Throws s
    | Some p =>
        let '(x, rest) := js_pop p in
        Returns ([x], false)
          (set_foundations
             (js_store (foundations s) (pileIndex fromLocation) rest) s)
    end
  else if String.eqb (location fromLocation) "tableau" then
    match js_index (tableau s) (pileIndex fromLocation) with
    | None => Throws s
    | Some p =>
        let '(cards, rest) := js_splice p (index fromLocation) in
        let s' := set_tableau
                    (js_store (tableau s) (pileIndex fromLocation) rest) s in
        if (0 <? length rest)%nat then
          match last rest with
          | Some (Card top) =>
              if negb (faceUp top) then
                Returns (cards, true)
                  (set_tableau
                     (js_store (tableau s) (pileIndex fromLocation)
                        (removelast rest ++ [Card (set_faceUp true top)])) s)
              else Returns (cards, false) s'
          | _ => Throws s'
          end
        else Returns (cards, false) s'
    end
  else Returns ([], false) s.

(** The second half of [moveCards]: the cards pushed on the destination,
    and the score. *)
Definition add_to_destination (cfg : settings) (toLocation : loc)
    (cards : pile) (sourceFlipped : bool) : M unit :=
  λ s,
  if String.eqb (location toLocation) "foundation" then
    match js_index (foundations s) (pileIndex toLocation) with
    | None => Throws s
    | Some p =>
        let s' := set_foundations
                    (js_store (foundations s) (pileIndex toLocation)
                       (p ++ cards)) s in
        Returns tt
          (if String.eqb (scoring cfg) "standard"
           then set_score (score s' + 10) s'
           else if String.eqb (scoring cfg) "vegas"
           then set_score (score s' + 5) s'
           else s')
    end
  else if String.eqb (location toLocation) "tableau" then
    match js_index (tableau s) (pileIndex toLocation) with
    | None => Throws s
    | Some p =>
        let s' := set_tableau
                    (js_store (tableau s) (pileIndex toLocation)
                       (p ++ cards)) s in
        Returns tt
          (if sourceFlipped && String.eqb (scoring cfg) "standard"
           then set_score (score s' + 5) s' else s')
    end
  else Returns tt s.

Definition moveCards (cfg : settings) (fromLocation toLocation : loc) : M bool :=
  run modify saveState then
  let* r := remove_from_source fromLocation in
  run add_to_destination cfg toLocation (fst r) (snd r) then
  run modify (λ s, set_moves (moves s + 1) s) then
  ret true.

(** ** Auto-move *)

(** [pile[i]] where [i] may be [undefined]. *)
Definition js_read_at (p : pile) (i : option Z) : slot :=
  default Undefined (js_index p i).

(** The card named by a location, as [tryAutoMove] reads it. *)
Definition card_at (s : state) (l : loc) : result slot :=
  if String.eqb (location l) "waste" then Ok (js_read_at (waste s) (index l))
  else if String.eqb (location l) "tableau" then
    match js_index (tableau s) (pileIndex l) with
    | None => TypeError
    | Some p => Ok (js_read_at p (index l))
    end
  else if String.eqb (location l) "foundation" then
    match js_index (foundations s) (pileIndex l) with
    | None => TypeError
    | Some p => Ok (js_read_at p (index l))
    end
  else Ok Undefined.

Definition isSingleCard (s : state) (l : loc) : result bool :=
  if String.eqb (location l) "waste" then Ok true
  else if String.eqb (location l) "tableau" then
    match js_index (tableau s) (pileIndex l) with
    | None => TypeError
    | Some p => Ok (bool_decide (index l = Some (Z.of_nat (length p) - 1)))
    end
  else Ok false.

(** First attempt of [tryAutoMove]: the card's own foundation. *)
Definition auto_foundation (cfg : settings) (l : loc) (c : card)
  : M (option loc) :=
  let* single := lift (λ s, isSingleCard s l) in
  if single then
    let foundationIndex := getFoundationIndex (c_suit c) in
    let* ok := lift (λ s, canPlaceOnFoundation s c foundationIndex) in
    if ok then
      let dest := mkLoc "foundation" (Some foundationIndex) None in
      run moveCards cfg l dest then ret (Some dest)
    else ret None
  else ret None.

(** Second attempt: the tableau piles [ixs], in order. *)
Fixpoint auto_tableau (cfg : settings) (l : loc) (c : card) (ixs : list Z)
  : M (option loc) :=
  match ixs with
  | [] => ret None
  | i :: rest =>
      if String.eqb (location l) "tableau" && bool_decide (pileIndex l = Some i)
      then auto_tableau cfg l c rest
      else
        let* ok := lift (λ s, canPlaceOnTableau s c i) in
        if ok then
          let dest := mkLoc "tableau" (Some i) None in
          run moveCards cfg l dest then ret (Some dest)
        else auto_tableau cfg l c rest
  end.

Definition tryAutoMove (cfg : settings) (cardId : string) : M (option loc) :=
  let* found := lift (λ s, findCard s cardId) in
  match found with
  | None => ret None
  | Some l =>
      let* x := lift (λ s, card_at s l) in
      match x with
      | Card c =>
          if String.eqb (location l) "tableau" && negb (faceUp c) then ret None
          else
            let* moved :=
              (if negb (String.eqb (location l) "foundation")
               then auto_foundation cfg l c else ret None) in
            match moved with
            | Some dest => ret (Some dest)
            | None => auto_tableau cfg l c (seqZ 0 7)
            end
      | _ => throw (* not reached: [findCard] names the place of a card *)
      end
  end.

(** ** Hints *)

Record hint : Type := mkHint {
  cardId : option string;
  hint_from : loc;
  hint_to : loc;
  exposesCard : option bool;
  action : option string
}.

Definition or_else {A} (r k : result (option A)) : result (option A) :=
  let? x := r in
  match x with Some a => Ok (Some a) | None => k end.

(** Priority 1, the waste card. *)
Definition hint_waste_foundation (s : state) : result (option hint) :=
  match getTopWasteCard s with
  | Card wasteCard =>
      let fi := getFoundationIndex (c_suit wasteCard) in
      let? ok := canPlaceOnFoundation s wasteCard fi in
      if ok then
        Ok (Some (mkHint (Some (id wasteCard)) (mkLoc "waste" None None)
                         (mkLoc "foundation" (Some fi) None) None None))
      else Ok None
  | _ => Ok None
  end.

(** Priority 1, the top cards of the tableau piles [ixs]. *)
Fixpoint hint_tableau_foundation (s : state) (ixs : list Z)
  : result (option hint) :=
  match ixs with
  | [] => Ok None
  | i :: rest =>
      match js_get (tableau s) i with
      | None => TypeError
      | Some p =>
          if (length p =? 0)%nat then hint_tableau_foundation s rest
          else match last p with
               | Some (Card topCard) =>
                   if negb (faceUp topCard) then hint_tableau_foundation s rest
                   else
                     let fi := getFoundationIndex (c_suit topCard) in
                     let? ok := canPlaceOnFoundation s topCard fi in
                     if ok then
                       Ok (Some (mkHint (Some (id topCard))
                                   (mkLoc "tableau" (Some i) None)
                                   (mkLoc "foundation" (Some fi) None)
                                   None None))
                     else hint_tableau_foundation s rest
               | _ => TypeError
               end
      end
  end.

(** Priority 2: the waste card on the tableau piles [ixs]. *)
Fixpoint hint_waste_tableau_loop (s : state) (wasteCard : card) (ixs : list Z)
  : result (option hint) :=
  match ixs with
  | [] => Ok None
  | i :: rest =>
      let? ok := canPlaceOnTableau s wasteCard i in
      if ok then
        Ok (Some (mkHint (Some (id wasteCard)) (mkLoc "waste" None None)
                         (mkLoc "tableau" (Some i) None) None None))
      else hint_waste_tableau_loop s wasteCard rest
  end.

Definition hint_waste_tableau (s : state) : result (option hint) :=
  match getTopWasteCard s with
  | Card wasteCard => hint_waste_tableau_loop s wasteCard (seqZ 0 7)
  | _ => Ok None
  end.

(** Priority 3, innermost loop: the destination piles [ks] for the card
    [c] at index [j] of pile [i]. *)
Fixpoint hint_destination (s : state) (i j : Z) (c : card) (ks : list Z)
  : result (option Z) :=
  match ks with
  | [] => Ok None
  | k :: rest =>
      if k =? i then hint_destination s i j c rest
      else
        let? ok := canPlaceOnTableau s c k in
        if ok then
          if (rank c =? 13) && (j =? 0)
             && (length (default [] (js_get (tableau s) k)) =? 0)%nat
          then hint_destination s i j c rest
          else Ok (Some k)
        else hint_destination s i j c rest
  end.

(** Priority 3, middle loop: the indices [js] of pile [i]. *)
Fixpoint hint_cards (s : state) (i : Z) (p : pile) (js : list Z)
  : result (option hint) :=
  match js with
  | [] => Ok None
  | j :: rest =>
      match js_read p j with
      | Card c =>
          if negb (faceUp c) then hint_cards s i p rest
          else
            let? wouldExpose :=
              (if 0 <? j then
                 match js_read p (j - 1) with
                 | Card below => Ok (negb (faceUp below))
                 | _ => TypeError
                 end
               else Ok false) in
            let? dest := hint_destination s i j c (seqZ 0 7) in
            match dest with
            | Some k =>
                Ok (Some (mkHint (Some (id c))
                            (mkLoc "tableau" (Some i) (Some j))
                            (mkLoc "tableau" (Some k) None)
                            (Some wouldExpose) None))
            | None => hint_cards s i p rest
            end
      | _ => TypeError
      end
  end.

(** Priority 3, outer loop: the source piles [ixs]. *)
Fixpoint hint_tableau_tableau (s : state) (ixs : list Z)
  : result (option hint) :=
  match ixs with
  | [] => Ok None
  | i :: rest =>
      match js_get (tableau s) i with
      | None => TypeError
      | Some p =>
          or_else (hint_cards s i p (seqZ 0 (Z.of_nat (length p))))
                  (hint_tableau_tableau s rest)
      end
  end.

(** Priorities 4 and 5. *)
Definition hint_draw (s : state) : result (option hint) :=
  if (0 <? length (stock s))%nat then
    Ok (Some (mkHint None (mkLoc "stock" None None) (mkLoc "waste" None None)
                     None (Some "draw"%string)))
  else if (0 <? length (waste s))%nat then
    Ok (Some (mkHint None (mkLoc "waste" None None) (mkLoc "stock" None None)
                     None (Some "reset"%string)))
  else Ok None.

Definition getHint (s : state) : result (option hint) :=
  or_else (hint_waste_foundation s)
    (or_else (hint_tableau_foundation s (seqZ 0 7))
       (or_else (hint_waste_tableau s)
          (or_else (hint_tableau_tableau s (seqZ 0 7))
             (hint_draw s)))).

(** ** A new game *)

Definition fresh (sd now : Z) : state :=
  mkState [] [] [[]; []; []; []] [[]; []; []; []; []; []; []] [] 0 0 now sd.

(** The (column, row) pairs of the deal, in dealing order. *)
Definition cells : list (nat * nat) :=
  col ← seq 0 7; row ← seq 0 (S col); [(col, row)].

(** The dealing loops over the cells [cs], on the tableau [t]: the card
    index reached, the tableau, and [false] when [deck[cardIndex]] was no
    card object and the loop stopped with a [TypeError]. *)
Fixpoint deal (cs : list (nat * nat)) (cardIndex : nat) (deck : pile)
    (t : list pile) : nat * list pile * bool :=
  match cs with
  | [] => (cardIndex, t, true)
  | (col, row) :: rest =>
      match js_read deck (Z.of_nat cardIndex) with
      | Card c =>
          deal rest (S cardIndex) deck
            (alter (λ p, p ++ [Card (set_faceUp (row =? col)%nat c)]) col t)
      | _ => (cardIndex, t, false)
      end
  end.

(** [newGame], for the seed [sd] picked from [WINNABLE_SEEDS] and the clock
    reading [now]. *)
Definition newGame (sd now : Z) : outcome state :=
  let deck := fst (shuffle (Card <$> createDeck) sd) in
  let '(cardIndex, t, ok) := deal cells 0 deck (tableau (fresh sd now)) in
  if ok then
    let s := set_stock (drop cardIndex deck) (set_tableau t (fresh sd now)) in
    Returns s s
  else Throws (set_tableau t (fresh sd now)).

(** ** Vocabulary of the properties *)

Definition opposite_color (c1 c2 : card) : Prop := isRed c1 ≠ isRed c2.

Definition standard_draw1 : settings := mkSettings 1 "standard".
Definition vegas_draw1 : settings := mkSettings 1 "vegas".

(** A card as it lies face up on the table. *)
Definition face_up (s : suit) (r : Z) : card := set_faceUp true (createCard s r).

(** The element [x] is the card [c0] (same suit, rank and id) lying face up
    ([b = true]) or face down. *)
Definition shown (b : bool) (c0 : card) (x : slot) : Prop :=
  ∃ c, x = Card c ∧ c_suit c = c_suit c0 ∧ rank c = rank c0 ∧ id c = id c0
       ∧ faceUp c = b.

(** Example positions. *)
Definition ace_of_spades_waste (points : Z) : state :=
  mkState [] [Card (face_up spades 1)] [[]; []; []; []]
          [[]; []; []; []; []; []; []] [] 0 points 0 0.

(** The waste shows the ace of hearts while the eight of hearts on pile 0
    could also go on the nine of spades on pile 1. *)
Definition ace_or_eight : state :=
  mkState [] [Card (face_up hearts 1)] [[]; []; []; []]
          [[Card (face_up hearts 8)]; [Card (face_up spades 9)];
           []; []; []; []; []] [] 0 0 0 0.

(** The same with the ace of spades on the waste. *)
Definition spade_ace_or_eight : state :=
  mkState [] [Card (mkCard spades 1 true "spades-1")] [[]; []; []; []]
          [[Card (mkCard hearts 8 true "hearts-8")];
           [Card (mkCard spades 9 true "spades-9")];
           []; []; []; []; []] [] 0 0 0 0.

(** The ace of spades on the waste under the five of clubs. *)
Definition buried_spade_ace : state :=
  mkState [] [Card (mkCard spades 1 true "spades-1");
              Card (mkCard clubs 5 true "clubs-5")]
          [[]; []; []; []] [[]; []; []; []; []; []; []] [] 0 0 0 0.

(** Pile 0 holds the nine of clubs face down under the eight of hearts and
    the seven of spades; pile 2 holds the nine of spades. *)
Definition nine_face_down : state :=
  mkState [] [] [[]; []; []; []]
          [[Card (mkCard clubs 9 false "clubs-9");
            Card (mkCard hearts 8 true "hearts-8");
            Card (mkCard spades 7 true "spades-7")];
           []; [Card (mkCard spades 9 true "spades-9")];
           []; []; []; []] [] 0 0 0 0.

(** Hearts built up to the two; pile 0 holds the nine of clubs face down
    under the three of hearts. *)
Definition three_on_nine : state :=
  mkState [] []
          [[Card (mkCard hearts 1 true "hearts-1");
            Card (mkCard hearts 2 true "hearts-2")]; []; []; []]
          [[Card (mkCard clubs 9 false "clubs-9");
            Card (mkCard hearts 3 true "hearts-3")];
           []; []; []; []; []; []] [] 0 0 0 0.

(** The stock used up: ace, two and three of hearts on the waste. *)
Definition three_on_waste : state :=
  mkState [] [Card (mkCard hearts 1 true "hearts-1");
              Card (mkCard hearts 2 true "hearts-2");
              Card (mkCard hearts 3 true "hearts-3")]
          [[]; []; []; []] [[]; []; []; []; []; []; []] [] 0 0 0 0.

(** Hearts built up to the two, a five of spades on pile 0. *)
Definition two_hearts_five_spades : state :=
  mkState [] [] [[Card (face_up hearts 1); Card (face_up hearts 2)]; []; []; []]
          [[Card (face_up spades 5)]; []; []; []; []; []; []] [] 0 0 0 0.

(** ** Operations on a game in progress *)

Inductive op : Type :=
| Draw (cfg : settings)
| Move (cfg : settings) (fromLocation toLocation : loc)
| AutoMove (cfg : settings) (cardId : string)
| Undo
| Save.

(** The state an operation leaves behind, whether it returns or raises. *)
Definition perform (o : op) (s : state) : state :=
  match o with
  | Draw cfg => final (drawFromStock cfg s)
  | Move cfg fromLocation toLocation =>
      final (moveCards cfg fromLocation toLocation s)
  | AutoMove cfg cardId => final (tryAutoMove cfg cardId s)
  | Undo => final (undo s)
  | Save => saveState s
  end.

Definition perform_all (ops : list op) (s : state) : state :=
  fold_left (λ st o, perform o st) ops s.

(** A descriptor tagged with a pile group carries the index of a pile. *)
Definition names_pile (s : state) (l : loc) : Prop :=
  (location l = "foundation"%string
   → is_Some (js_index (foundations s) (pileIndex l)))
  ∧ (location l = "tableau"%string
     → is_Some (js_index (tableau s) (pileIndex l))).

(** For a tableau source: what [splice] leaves on top of the pile, if
    anything, is a card object. *)
Definition leaves_card_on_top (s : state) (l : loc) : Prop :=
  location l = "tableau"%string →
  ∀ p, js_index (tableau s) (pileIndex l) = Some p →
       match last (snd (js_splice p (index l))) with
       | Some (Card _) | None => True
       | Some _ => False
       end.

Definition known_tag (t : string) : Prop :=
  t = "waste"%string ∨ t = "foundation"%string ∨ t = "tableau"%string.

(** The state after a mutating operation that succeeded: [drawFromStock]
    or [moveCards] returning [true], [tryAutoMove] returning a destination. *)
Definition succeed (o : op) (s : state) : option state :=
  match o with
  | Draw cfg =>
      match drawFromStock cfg s with Returns true s' => Some s' | _ => None end
  | Move cfg fromLocation toLocation =>
      match moveCards cfg fromLocation toLocation s with
      | Returns true s' => Some s'
      | _ => None
      end
  | AutoMove cfg cardId =>
      match tryAutoMove cfg cardId s with
      | Returns (Some _) s' => Some s'
      | _ => None
      end
  | Undo | Save => None
  end.

Fixpoint succeed_all (ops : list op) (s : state) : option state :=
  match ops with
  | [] => Some s
  | o :: rest => succeed o s ≫= succeed_all rest
  end.

(** [n] calls of [undo]. *)
Fixpoint undo_times (n : nat) (s : state) : state :=
  match n with
  | O => s
  | S n' => undo_times n' (final (undo s))
  end.

(** The values these [n] calls return, in order. *)
Fixpoint undo_returns (n : nat) (s : state) : list bool :=
  match n with
  | O => []
  | S n' =>
      match undo s with
      | Returns b s' => b :: undo_returns n' s'
      | Throws _ => []
      end
  end.

(** Every element of every pile, as one list. *)
Definition all_slots (s : state) : pile :=
  stock s ++ waste s ++ concat (foundations s) ++ concat (tableau s).

(** The six fields a snapshot holds agree. *)
Definition same_position (s s' : state) : Prop :=
  stock s' = stock s ∧ waste s' = waste s
  ∧ foundations s' = foundations s ∧ tableau s' = tableau s
  ∧ moves s' = moves s ∧ score s' = score s.

(** A stock of one card, nothing else. *)
Definition lone_stock_card : state :=
  mkState [Card (createCard spades 1)] [] [[]; []; []; []]
          [[]; []; []; []; []; []; []] [] 0 0 0 0.

(** A projection of the state that reads none of the piles, the score or
    the move count, such as the history, or the clock origin and seed. *)
Record off_table {X : Type} (f : state → X) : Prop := {
  off_stock : ∀ x s, f (set_stock x s) = f s;
  off_waste : ∀ x s, f (set_waste x s) = f s;
  off_foundations : ∀ x s, f (set_foundations x s) = f s;
  off_tableau : ∀ x s, f (set_tableau x s) = f s;
  off_moves : ∀ x s, f (set_moves x s) = f s;
  off_score : ∀ x s, f (set_score x s) = f s
}.

(** The command [m] leaves the projection [f] as it was, whether it
    returns or raises. *)
Definition keeps {X A : Type} (f : state → X) (m : M A) : Prop :=
  ∀ s, f (final (m s)) = f s.

(** The clock origin and the seed of the game. *)
Definition game_of (s : state) : Z * Z := (startTime s, seed s).

(** The history after [saveState] pushed [x] on [h]. *)
Definition pushed (h : list snapshot) (x : snapshot) : list snapshot :=
  let h' := h ++ [x] in if (50 <? length h')%nat then tail h' else h'.

(** The state [undo] builds from the snapshot [x], leaving the history [h]. *)
Definition restored (x : snapshot) (h : list snapshot) (s : state) : state :=
  mkState (snap_stock x) (snap_waste x) (snap_foundations x) (snap_tableau x)
          h (snap_moves x) (snap_score x) (startTime s) (seed s).

(** Where [tryAutoMove] sends the card [c]: its foundation, or a tableau
    pile, where the predicate said yes. *)
Definition auto_destination (s : state) (c : card) (d : loc) : Prop :=
  (d = mkLoc "foundation" (Some (getFoundationIndex (c_suit c))) None
   ∧ canPlaceOnFoundation s c (getFoundationIndex (c_suit c)) = Ok true)
  ∨ (∃ i, d = mkLoc "tableau" (Some i) None
          ∧ canPlaceOnTableau s c i = Ok true).

(** Reset the stock, draw, play the ace, then auto-move the eight. *)
Definition four_moves : list op :=
  [Draw standard_draw1; Draw standard_draw1;
   Move standard_draw1 (mkLoc "waste" None (Some 0))
        (mkLoc "foundation" (Some 0) None);
   AutoMove standard_draw1 "hearts-8"].

(** ** The 52 cards *)

(** What identifies a card: its suit and rank. *)
Definition slot_key (x : slot) : option (suit * Z) :=
  match x with
  | Card c => Some (c_suit c, rank c)
  | _ => None
  end.

Definition deck_keys : list (option (suit * Z)) :=
  (λ c, Some (c_suit c, rank c)) <$> createDeck.

(** Two lists hold the same cards, each as often, whatever the order and
    the faces shown. *)
Definition same_cards (l l' : pile) : Prop :=
  slot_key <$> l ≡ₚ slot_key <$> l'.

(** [l] holds each card of the deck once, and nothing else. *)
Definition full_deck (l : pile) : Prop := slot_key <$> l ≡ₚ deck_keys.

Definition snapshot_slots (x : snapshot) : pile :=
  snap_stock x ++ snap_waste x
  ++ concat (snap_foundations x) ++ concat (snap_tableau x).

(** The piles hold the deck, and so does every snapshot kept for [undo]. *)
Definition sound (s : state) : Prop :=
  full_deck (all_slots s)
  ∧ Forall (λ x, full_deck (snapshot_slots x)) (history s).

(** The arguments of [moveCards] name cards to take and a pile to put them
    on: a non-empty waste or foundation pile or an existing tableau pile as
    source, an existing foundation or tableau pile as destination.  Every
    move a caller has validated is of this kind: its source is the place of
    a card found by [findCard], its destination a pile for which
    [canPlaceOnFoundation] or [canPlaceOnTableau] said yes. *)
Definition takes_cards (s : state) (l : loc) : Prop :=
  (location l = "waste"%string ∧ waste s ≠ [])
  ∨ (location l = "foundation"%string
     ∧ ∃ p, js_index (foundations s) (pileIndex l) = Some p ∧ p ≠ [])
  ∨ (location l = "tableau"%string
     ∧ is_Some (js_index (tableau s) (pileIndex l))).

Definition receives_cards (s : state) (l : loc) : Prop :=
  (location l = "foundation"%string
   ∧ is_Some (js_index (foundations s) (pileIndex l)))
  ∨ (location l = "tableau"%string
     ∧ is_Some (js_index (tableau s) (pileIndex l))).

Definition movable (s : state) (fromLocation toLocation : loc) : Prop :=
  takes_cards s fromLocation ∧ receives_cards s toLocation.

(** The states a game can be in. *)
Inductive reachable : state → Prop :=
| reach_newGame (sd now : Z) :
    sd ∈ WINNABLE_SEEDS → reachable (final (newGame sd now))
| reach_drawFromStock (cfg : settings) (s : state) :
    reachable s → reachable (final (drawFromStock cfg s))
| reach_moveCards (cfg : settings) (fromLocation toLocation : loc) (s : state) :
    reachable s → movable s fromLocation toLocation →
    reachable (final (moveCards cfg fromLocation toLocation s))
| reach_tryAutoMove (cfg : settings) (cardId : string) (s : state) :
    reachable s → reachable (final (tryAutoMove cfg cardId s))
| reach_undo (s : state) :
    reachable s → reachable (final (undo s)).

(** The generator as the specification words it: the state is updated
    modulo [2^31] in exact arithmetic and divided by [2^31]. *)
Definition next_as_specified (s : Z) : Q * Z :=
  let s' := (s * 1103515245 + 12345) mod 2 ^ 31 in
  (Double.div (inject_Z s') (inject_Z (2 ^ 31)), s').

(** ** The tableau-to-tableau stage of [getHint], flattened *)

Definition is_card (x : slot) : bool :=
  match x with Card _ => true | _ => false end.

(** Seven tableau piles, holding card objects only. *)
Definition tidy_tableau (s : state) : Prop :=
  length (tableau s) = 7%nat
  ∧ forallb (forallb is_card) (tableau s) = true.

Definition pile_at (s : state) (i : Z) : pile :=
  default [] (js_get (tableau s) i).

Definition can_place (s : state) (c : card) (k : Z) : bool :=
  match canPlaceOnTableau s c k with Ok b => b | TypeError => false end.

(** Pile [k] is offered as destination for the card [c] at index [j] of
    pile [i]: another pile, where [c] may be placed, and not the case of a
    King at index 0 going to an empty pile. *)
Definition destination_ok (s : state) (i j : Z) (c : card) (k : Z) : bool :=
  negb (k =? i) && can_place s c k
  && negb ((rank c =? 13) && (j =? 0) && (length (pile_at s k) =? 0)%nat).

(** The move (source pile, index in it, destination pile) is offered. *)
Definition offered (s : state) (m : Z * Z * Z) : bool :=
  let '(i, j, k) := m in
  match js_read (pile_at s i) j with
  | Card c => faceUp c && destination_ok s i j c k
  | _ => false
  end.

(** All moves in scanning order: source piles 0..6, within a pile the
    indices upwards from 0 (the card lying deepest first), destination
    piles 0..6. *)
Definition candidates (s : state) (ixs : list Z) : list (Z * Z * Z) :=
  i ← ixs; j ← seqZ 0 (Z.of_nat (length (pile_at s i)));
  k ← seqZ 0 7; [(i, j, k)].

Definition exposes (p : pile) (j : Z) : bool :=
  (0 <? j) && match js_read p (j - 1) with
              | Card below => negb (faceUp below)
              | _ => false
              end.

Definition hint_of_move (s : state) (m : Z * Z * Z) : option hint :=
  let '(i, j, k) := m in
  match js_read (pile_at s i) j with
  | Card c =>
      Some (mkHint (Some (id c)) (mkLoc "tableau" (Some i) (Some j))
                   (mkLoc "tableau" (Some k) None)
                   (Some (exposes (pile_at s i) j)) None)
  | _ => None
  end.

Definition first_offered (s : state) : option (Z * Z * Z) :=
  find (offered s) (candidates s (seqZ 0 7)).

(** The same stage as the specification words it: within a pile the
    face-up cards are scanned from the top card down, and the only move
    passed over is that of a King which is alone in its pile to an empty
    pile. *)
Definition offered_as_specified (s : state) (m : Z * Z * Z) : bool :=
  let '(i, j, k) := m in
  match js_read (pile_at s i) j with
  | Card c =>
      faceUp c && negb (k =? i) && can_place s c k
      && negb ((rank c =? 13) && (length (pile_at s i) =? 1)%nat
               && (length (pile_at s k) =? 0)%nat)
  | _ => false
  end.

Definition candidates_as_specified (s : state) (ixs : list Z)
  : list (Z * Z * Z) :=
  i ← ixs; j ← reverse (seqZ 0 (Z.of_nat (length (pile_at s i))));
  k ← seqZ 0 7; [(i, j, k)].

Definition first_as_specified (s : state) : option (Z * Z * Z) :=
  find (offered_as_specified s) (candidates_as_specified s (seqZ 0 7)).

(** Pile 0 holds the eight of hearts under the seven of spades; the eight
    (with the seven) fits the nine of spades on pile 2, the seven alone
    fits the eight of diamonds on pile 1. *)
Definition eight_under_seven : state :=
  mkState [] [] [[]; []; []; []]
          [[Card (face_up hearts 8); Card (face_up spades 7)];
           [Card (face_up diamonds 8)]; [Card (face_up spades 9)];
           []; []; []; []] [] 0 0 0 0.

(** Pile 0 holds a King with a Queen on it; pile 1 is empty. *)
Definition king_and_queen : state :=
  mkState [] [] [[]; []; []; []]
          [[Card (face_up spades 13); Card (face_up hearts 12)];
           []; [Card (face_up clubs 5)]; [Card (face_up clubs 6)];
           [Card (face_up clubs 7)]; [Card (face_up clubs 8)];
           [Card (face_up clubs 9)]] [] 0 0 0 0.

(** The waste of [three_on_waste] turned over by a reset, and then dealt
    again three cards at a time. *)
Definition standard_draw3 : settings := mkSettings 3 "standard".
Definition waste_turned_over : state :=
  final (drawFromStock standard_draw3 three_on_waste).
Definition waste_dealt_again : state :=
  final (drawFromStock standard_draw3 waste_turned_over).

(** A game in progress: the deal of seed 11982, a draw, the ace of hearts
    auto-moved to its foundation, the six of diamonds moved on the seven
    of spades, and that move undone. *)
Definition opening : state := final (newGame 11982 0).
Definition after_draw : state := final (drawFromStock standard_draw1 opening).
Definition after_ace : state :=
  final (tryAutoMove standard_draw1 "hearts-1" after_draw).
Definition six_on_seven : state :=
  final (moveCards standard_draw1 (mkLoc "tableau" (Some 2) (Some 2))
           (mkLoc "tableau" (Some 6) None) after_ace).
Definition taken_back : state := final (undo six_on_seven).

(** ** Winning *)

Definition isWon (s : state) : bool :=
  forallb (λ f : pile, (length f =? 13)%nat) (foundations s).

(** ** Remaining moves *)

(** The waste card of [hasValidMoves] on the tableau piles [ixs]. *)
Fixpoint valid_waste_tableau (s : state) (wasteCard : card) (ixs : list Z)
  : result bool :=
  match ixs with
  | [] => Ok false
  | i :: rest =>
      let? ok := canPlaceOnTableau s wasteCard i in
      if ok then Ok true else valid_waste_tableau s wasteCard rest
  end.

(** The block guarded by [if (wasteCard)]. *)
Definition valid_waste (s : state) : result bool :=
  match getTopWasteCard s with
  | Card wasteCard =>
      let fi := getFoundationIndex (c_suit wasteCard) in
      let? ok := canPlaceOnFoundation s wasteCard fi in
      if ok then Ok true else valid_waste_tableau s wasteCard (seqZ 0 7)
  | _ => Ok false
  end.

(** Innermost loop over the other tableau piles [ks], for a card of
    pile [i]. *)
Fixpoint valid_destination (s : state) (i : Z) (c : card) (ks : list Z)
  : result bool :=
  match ks with
  | [] => Ok false
  | k :: rest =>
      if k =? i then valid_destination s i c rest
      else
        let? ok := canPlaceOnTableau s c k in
        if ok then Ok true else valid_destination s i c rest
  end.

(** Middle loop: the indices [js] of pile [i]. *)
Fixpoint valid_cards (s : state) (i : Z) (p : pile) (js : list Z)
  : result bool :=
  match js with
  | [] => Ok false
  | j :: rest =>
      match js_read p j with
      | Card c =>
          if negb (faceUp c) then valid_cards s i p rest
          else
            let? onFoundation :=
              (if j =? Z.of_nat (length p) - 1
               then canPlaceOnFoundation s c (getFoundationIndex (c_suit c))
               else Ok false) in
            if onFoundation then Ok true
            else
              let? onTableau := valid_destination s i c (seqZ 0 7) in
              if onTableau then Ok true else valid_cards s i p rest
      | _ => TypeError
      end
  end.

(** Outer loop: the tableau piles [ixs]. *)
Fixpoint valid_tableau (s : state) (ixs : list Z) : result bool :=
  match ixs with
  | [] => Ok false
  | i :: rest =>
      match js_get (tableau s) i with
      | None => TypeError
      | Some p =>
          let? found := valid_cards s i p (seqZ 0 (Z.of_nat (length p))) in
          if found then Ok true else valid_tableau s rest
      end
  end.

Definition hasValidMoves (s : state) : result bool :=
  if (0 <? length (stock s))%nat || (0 <? length (waste s))%nat then Ok true
  else
    let? w := valid_waste s in
    if w then Ok true else valid_tableau s (seqZ 0 7).

(** ** The clock *)

(** [getElapsedTime], for the game object's [state] ([None] when it is
    [null]) and the clock reading [now], in milliseconds. *)
Definition getElapsedTime (st : option state) (now : Z) : Z :=
  match st with
  | None => 0
  | Some s =>
      if startTime s =? 0 then 0
      else Double.floor (Double.div (inject_Z (now - startTime s))
                                    (inject_Z 1000))
  end.

(** [str.padStart(targetLength, padString)] for a filler of one character. *)
Definition padStart (targetLength : nat) (padString str : string) : string :=
  String.concat "" (replicate (targetLength - String.length str) padString)
  +:+ str.

(** [formatTime] on a whole number of seconds. *)
Definition formatTime (seconds : Z) : string :=
  let mins := Double.floor (Double.div (inject_Z seconds) (inject_Z 60)) in
  let secs := Z.rem seconds 60 in
  pretty mins +:+ ":" +:+ padStart 2 "0" (pretty secs).

(** ** Picking a seed *)

(** [getRandomWinnableSeed], for the value [u] that [Math.random()]
    returned; [None] is [undefined]. *)
Definition getRandomWinnableSeed (u : Q) : option Z :=
  js_get WINNABLE_SEEDS
    (Double.floor
       (Double.mul u (inject_Z (Z.of_nat (length WINNABLE_SEEDS))))).

(** ** Vocabulary of further properties *)

(** A command leaves a state with the property [Inv] when started in one,
    whether it returns or raises. *)
Definition preserves {A : Type} (Inv : state → Prop) (m : M A) : Prop :=
  ∀ s, Inv s → Inv (final (m s)).

(** Four foundations and seven tableau piles. *)
Definition board_shape (fs ts : list pile) : Prop :=
  length fs = 4%nat ∧ length ts = 7%nat.

(** The board has its shape, and had it in every snapshot kept. *)
Definition well_shaped (s : state) : Prop :=
  board_shape (foundations s) (tableau s)
  ∧ Forall (λ x, board_shape (snap_foundations x) (snap_tableau x))
           (history s).

(** Score and move count are not negative, now and in every snapshot. *)
Definition nonneg_counts (s : state) : Prop :=
  (0 ≤ score s ∧ 0 ≤ moves s)
  ∧ Forall (λ x, 0 ≤ snap_score x ∧ 0 ≤ snap_moves x) (history s).

(** At most 50 snapshots are kept. *)
Definition bounded_history (s : state) : Prop := (length (history s) ≤ 50)%nat.

(** A query that gives a value, a command that returns. *)
Definition is_ok {A : Type} (r : result A) : Prop := ∃ a, r = Ok a.
Definition returns {A : Type} (o : outcome A) : Prop := ∃ a s', o = Returns a s'.

(** Four foundations and seven tableau piles, and nothing but card objects
    in any pile. *)
Definition tidy_board (s : state) : Prop :=
  tidy_tableau s
  ∧ length (foundations s) = 4%nat
  ∧ forallb (forallb is_card) (foundations s) = true
  ∧ forallb is_card (waste s) = true
  ∧ forallb is_card (stock s) = true.

Definition on_foundation (s : state) (c : card) : bool :=
  match canPlaceOnFoundation s c (getFoundationIndex (c_suit c)) with
  | Ok b => b
  | TypeError => false
  end.

(** The card at index [j] of tableau pile [i] is face up and may go
    somewhere: on the foundation of its suit if it is the top card of the
    pile, or on another tableau pile. *)
Definition has_move (s : state) (i j : Z) : bool :=
  match js_read (pile_at s i) j with
  | Card c =>
      faceUp c
      && (((j =? Z.of_nat (length (pile_at s i)) - 1) && on_foundation s c)
          || existsb (λ k, negb (k =? i) && can_place s c k) (seqZ 0 7))
  | _ => false
  end.

Definition some_tableau_move (s : state) : bool :=
  existsb (λ i, existsb (has_move s i)
                  (seqZ 0 (Z.of_nat (length (pile_at s i)))))
          (seqZ 0 7).

(** The card [c] lies where the [from] part of a hint says, face up if on
    the tableau: on top of the waste; on top of a tableau pile when no
    index is given; at the index given otherwise. *)
Definition hinted_card (s : state) (l : loc) (c : card) : Prop :=
  (l = mkLoc "waste" None None ∧ getTopWasteCard s = Card c)
  ∨ (∃ i p, l = mkLoc "tableau" (Some i) None
            ∧ js_get (tableau s) i = Some p ∧ last p = Some (Card c)
            ∧ faceUp c = true)
  ∨ (∃ i j p, l = mkLoc "tableau" (Some i) (Some j)
              ∧ js_get (tableau s) i = Some p ∧ js_get p j = Some (Card c)
              ∧ faceUp c = true).

(** A hint that can be followed: a card that lies where the hint says and
    a destination, another pile, that accepts it; or a draw from a stock
    that has cards; or a reset of an empty stock from a waste that has. *)
Definition legal_hint (s : state) (h : hint) : Prop :=
  match action h with
  | None =>
      ∃ c, cardId h = Some (id c) ∧ hinted_card s (hint_from h) c
           ∧ auto_destination s c (hint_to h)
           ∧ (location (hint_from h), pileIndex (hint_from h))
             ≠ (location (hint_to h), pileIndex (hint_to h))
  | Some a =>
      cardId h = None
      ∧ ((a = "draw"%string ∧ hint_from h = mkLoc "stock" None None
          ∧ hint_to h = mkLoc "waste" None None ∧ stock s ≠ [])
         ∨ (a = "reset"%string ∧ hint_from h = mkLoc "waste" None None
            ∧ hint_to h = mkLoc "stock" None None
            ∧ stock s = [] ∧ waste s ≠ []))
  end.

(** Tableau pile [i] is not the pile the card at [l] lies on. *)
Definition other_pile (l : loc) (i : Z) : Prop :=
  location l = "tableau"%string → pileIndex l ≠ Some i.

(** What [tryAutoMove] does with the card [c] found at [l], when it moves
    it to [d].  With [fi] the foundation of the card's suit (the index at
    which [SUITS] holds the suit): [d] is foundation [fi], for a single
    card (the waste card or the top card of a tableau pile) that this
    foundation accepts; failing that, the first tableau pile other than its
    own that accepts it. *)
Definition auto_choice (s : state) (l : loc) (c : card) (d : loc) : Prop :=
  ∃ fi, js_get SUITS fi = Some (c_suit c)
        ∧ let to_foundation :=
            location l ≠ "foundation"%string ∧ isSingleCard s l = Ok true
            ∧ canPlaceOnFoundation s c fi = Ok true in
          (d = mkLoc "foundation" (Some fi) None ∧ to_foundation)
          ∨ (∃ i, d = mkLoc "tableau" (Some i) None ∧ 0 ≤ i < 7
                  ∧ ¬ to_foundation
                  ∧ other_pile l i ∧ canPlaceOnTableau s c i = Ok true
                  ∧ ∀ k, 0 ≤ k < i → other_pile l k →
                         canPlaceOnTableau s c k = Ok false).

(** A pile with its top card turned face up, and whether that top card
    lay face down. *)
Definition top_up (p : pile) : pile :=
  match last p with
  | Some (Card t) =>
      if faceUp t then p else removelast p ++ [Card (set_faceUp true t)]
  | _ => p
  end.

Definition top_down (p : pile) : bool :=
  match last p with
  | Some (Card t) => negb (faceUp t)
  | _ => false
  end.

(** [p'] is the pile [p] with its top card lying face up: nothing differs
    below the top card, and the top card is the same card with [faceUp]
    equal to [true]; a pile without a card on top is as it was. *)
Definition top_turned_up (p p' : pile) : Prop :=
  match last p with
  | Some (Card t) => ∃ x, p' = removelast p ++ [x] ∧ shown true t x
  | _ => p' = p
  end.

(** What is on top of a pile after the cards above it are gone is a card
    object, if anything. *)
Definition card_on_top (p : pile) : Prop :=
  match last p with
  | Some (Card _) | None => True
  | Some _ => False
  end.

(** The points a move to a foundation earns. *)
Definition foundation_points (cfg : settings) : Z :=
  if String.eqb (scoring cfg) "standard" then 10
  else if String.eqb (scoring cfg) "vegas" then 5 else 0.

(** Column [col] of the deal from the shuffled cards [cs]: the [col]
    cards from position [col (col + 1) / 2] on, face down, and the next one
    face up on top. *)
Definition dealt_column (cs : list card) (col : nat) : pile :=
  let start := (col * (col + 1) / 2)%nat in
  (Card <$> (set_faceUp false <$> take col (drop start cs)))
  ++ (Card <$> (set_faceUp true <$> take 1 (drop (start + col) cs))).

(** The card object an element is, if it is one. *)
Definition card_of (x : slot) : option card :=
  match x with Card c => Some c | _ => None end.

(** Every card object of a pile has the property [P]. *)
Definition pile_has (P : card → Prop) (p : pile) : Prop :=
  Forall (λ x, match x with Card c => P c | _ => True end) p.

Definition snapshot_has (P : card → Prop) (x : snapshot) : Prop :=
  pile_has P (snap_stock x) ∧ pile_has P (snap_waste x)
  ∧ Forall (pile_has P) (snap_foundations x)
  ∧ Forall (pile_has P) (snap_tableau x).

(** Every card object on the board and in the snapshots kept has the
    property [P]. *)
Definition every_card (P : card → Prop) (s : state) : Prop :=
  (pile_has P (stock s) ∧ pile_has P (waste s)
   ∧ Forall (pile_has P) (foundations s) ∧ Forall (pile_has P) (tableau s))
  ∧ Forall (snapshot_has P) (history s).

(** The id [createCard] gives to a card of this suit and rank. *)
Definition id_of (c : card) : string :=
  suit_name (c_suit c) +:+ "-" +:+ pretty (rank c).

(** The id of the card object an element is. *)
Definition slot_id (x : slot) : option string :=
  match x with Card c => Some (id c) | _ => None end.

(** The id that goes with a suit and rank. *)
Definition key_id (k : option (suit * Z)) : option string :=
  match k with
  | Some (s, r) => Some (suit_name s +:+ "-" +:+ pretty r)
  | None => None
  end.

(** A won game: each suit on its foundation from the ace up, face up. *)
Definition all_played : state :=
  mkState [] []
          ((λ s, (λ r, Card (face_up s r)) <$> RANKS) <$> SUITS)
          [[]; []; []; []; []; []; []] [] 0 0 0 0.

(** ** Playing with the pointer

    The part of the pointer handling ([Drag]) that reads and changes the
    game: which card may be picked up, where it may be dropped, and what a
    click does.  Movement thresholds, styles and animation are left out. *)

(** [Drag.getCardFromLocation]. *)
Definition getCardFromLocation (s : state) (l : loc) : result slot :=
  if String.eqb (location l) "waste" then Ok (js_read_at (waste s) (index l))
  else if String.eqb (location l) "foundation" then
    match js_index (foundations s) (pileIndex l) with
    | None => TypeError
    | Some p => Ok (js_read_at p (index l))
    end
  else if String.eqb (location l) "tableau" then
    match js_index (tableau s) (pileIndex l) with
    | None => TypeError
    | Some p => Ok (js_read_at p (index l))
    end
  else Ok Null.

(** The cards whose elements [UI.getCardsToMove] returns for the element of
    the card [x] at [l].  The board shown is the one rendered from the
    state ([render] runs after every change, and [renderTableau] puts one
    element per card of a tableau pile, in order): in a tableau pile these
    are the card and all cards lying on it, elsewhere the card alone. *)
Definition getCardsToMove (s : state) (l : loc) (x : slot) : pile :=
  if String.eqb (location l) "tableau" then
    match js_index (tableau s) (pileIndex l), index l with
    | Some p, Some j => drop (Z.to_nat j) p
    | _, _ => [x]
    end
  else [x].

(** What [onPointerDown] records when a card is picked up. *)
Record drag : Type := mkDrag {
  sourceLocation : loc;
  draggedCardElements : pile
}.

(** [Drag.onPointerDown] on the element of the card [cardId]: the pick-up
    recorded, or [None] when the handler returns before recording one. *)
Definition onPointerDown (cfg : settings) (cardId : string) : M (option drag) :=
  let* found := lift (λ s, findCard s cardId) in
  match found with
  | None => ret None
  | Some l =>
      let* x := lift (λ s, getCardFromLocation s l) in
      if String.eqb (location l) "stock" then
        run drawFromStock cfg then ret None
      else
        match x with
        | Card card =>
            if negb (faceUp card) then
              if String.eqb (location l) "tableau" then
                λ s, match js_index (tableau s) (pileIndex l) with
                     | None => Throws s
                     | Some _ => Returns None s
                     end
              else ret None
            else
              λ s,
              if String.eqb (location l) "waste" then
                if bool_decide (index l = Some (Z.of_nat (length (waste s)) - 1))
                then Returns (Some (mkDrag l (getCardsToMove s l x))) s
                else Returns None s
              else if String.eqb (location l) "foundation" then
                match js_index (foundations s) (pileIndex l) with
                | None => Throws s
                | Some p =>
                    if bool_decide (index l = Some (Z.of_nat (length p) - 1))
                    then Returns (Some (mkDrag l (getCardsToMove s l x))) s
                    else Returns None s
                end
              else Returns (Some (mkDrag l (getCardsToMove s l x))) s
        | _ => throw
        end
  end.

(** [canPlaceOnFoundation] and [canPlaceOnTableau] on what
    [getCardFromLocation] gave: on something that is no card object the
    first property read raises, which in [canPlaceOnTableau] comes after
    the test of [topCard.faceUp]. *)
Definition placeOnFoundation (s : state) (x : slot) (i : Z) : result bool :=
  match x with
  | Card c => canPlaceOnFoundation s c i
  | _ => TypeError
  end.

Definition placeOnTableau (s : state) (x : slot) (i : Z) : result bool :=
  match x with
  | Card c => canPlaceOnTableau s c i
  | _ =>
      match js_get (tableau s) i with
      | None => TypeError
      | Some p =>
          if (length p =? 0)%nat then TypeError
          else match last p with
               | Some (Card topCard) =>
                   if faceUp topCard then TypeError else Ok false
               | _ => TypeError
               end
      end
  end.

(** The flip branch of [handleClick], for the face-down card [c] found at
    [l] on the tableau: [true] when the card was on top, was turned and the
    handler returned. *)
Definition flip_clicked (cfg : settings) (l : loc) (c : card) : M bool :=
  λ s,
  match js_index (tableau s) (pileIndex l) with
  | None => Throws s
  | Some p =>
      if bool_decide (index l = Some (Z.of_nat (length p) - 1)) then
        let s1 := saveState s in
        let s2 := set_tableau
                    (js_store (tableau s1) (pileIndex l)
                       (<[Z.to_nat (Z.of_nat (length p) - 1)
                          := Card (set_faceUp true c)]> p)) s1 in
        let s3 := set_moves (moves s2 + 1) s2 in
        Returns true
          (if String.eqb (scoring cfg) "standard"
           then set_score (score s3 + 5) s3 else s3)
      else Returns false s
  end.

(** [Drag.handleClick] on the element of the card [cardId]. *)
Definition handleClick (cfg : settings) (cardId : string) : M unit :=
  let* found := lift (λ s, findCard s cardId) in
  match found with
  | None => ret tt
  | Some l =>
      let* x := lift (λ s, getCardFromLocation s l) in
      match x with
      | Card card =>
          let* flipped :=
            (if negb (faceUp card) && String.eqb (location l) "tableau"
             then flip_clicked cfg l card else ret false) in
          if flipped then ret tt
          else if faceUp card then run tryAutoMove cfg cardId then ret tt
          else ret tt
      | _ => throw
      end
  end.

(** How a press ends: released where it was pressed (below the drag
    threshold), or after a drag, on the drop target [UI.getDropTarget] finds
    under the pointer, if any: the type and the index of a pile. *)
Inductive release : Type :=
| Click
| Drop (dropTarget : option (string * Z)).

(** [Drag.onPointerUp] after the pick-up [d] of the card [cardId].  The
    pressed element holds the pointer capture, so a click is handled on the
    card that was pressed. *)
Definition onPointerUp (cfg : settings) (cardId : string) (d : drag)
    (r : release) : M unit :=
  match r with
  | Drop None => ret tt
  | Drop (Some (type, i)) =>
      let* firstCard := lift (λ s, getCardFromLocation s (sourceLocation d)) in
      let* canDrop :=
        lift (λ s,
              if String.eqb type "foundation" then
                if (length (draggedCardElements d) =? 1)%nat
                then placeOnFoundation s firstCard i else Ok false
              else if String.eqb type "tableau" then placeOnTableau s firstCard i
              else Ok false) in
      if canDrop then
        run moveCards cfg (sourceLocation d) (mkLoc type (Some i) None) then
        ret tt
      else ret tt
  | Click => handleClick cfg cardId
  end.

(** A press on the element of the card [cardId], ended by [r]: without a
    pick-up recorded, [onPointerUp] returns at once.  The two handlers run
    on the same state: no other command comes between them (a click on the
    stock is refused during a drag; an undo or draw from the keyboard in
    the middle of a drag is not covered). *)
Definition press (cfg : settings) (cardId : string) (r : release) : M unit :=
  let* picked := onPointerDown cfg cardId in
  match picked with
  | None => ret tt
  | Some d => onPointerUp cfg cardId d r
  end.

(** The states of a game played with the controls of the page: a new game,
    a click on the stock (or the space bar), undo, and presses on cards,
    under any settings.  The debug key of [App] that fills the foundations
    ([simulateWin]) is not one of them. *)
Inductive played : state → Prop :=
| play_newGame (sd now : Z) :
    sd ∈ WINNABLE_SEEDS → played (final (newGame sd now))
| play_stock (cfg : settings) (s : state) :
    played s → played (final (drawFromStock cfg s))
| play_undo (s : state) :
    played s → played (final (undo s))
| play_press (cfg : settings) (cardId : string) (r : release) (s : state) :
    played s → played (final (press cfg cardId r s)).

(** The game [after_draw] after a click on the ace of hearts. *)
Definition ace_clicked : state :=
  final (press standard_draw1 "hearts-1" Click after_draw).

(** ** The layout of a Klondike game *)

(** The element is a card object lying face up ([b = true]) or face down. *)
Definition shows (b : bool) (x : slot) : Prop :=
  match x with Card c => faceUp c = b | _ => False end.

(** The card [c] may lie on the card [below] in a tableau pile: of the
    other colour and one rank lower. *)
Definition fits_on (below c : card) : Prop :=
  areOppositeColors c below = true ∧ rank c = rank below - 1.

(** Each card fits on the one before it. *)
Fixpoint built_down (l : list card) : Prop :=
  match l with
  | below :: rest =>
      match rest with
      | c :: _ => fits_on below c ∧ built_down rest
      | [] => True
      end
  | [] => True
  end.

(** A tableau pile: face-down cards, and on them face-up cards built down
    in alternating colours; the top card of a pile that has cards is face
    up. *)
Definition tableau_pile_ok (p : pile) : Prop :=
  ∃ down up : list card,
    p = Card <$> (down ++ up)
    ∧ Forall (λ c, faceUp c = false) down
    ∧ Forall (λ c, faceUp c = true) up
    ∧ built_down up
    ∧ (p ≠ [] → up ≠ []).

(** A foundation of the suit [su]: its cards face up, the ace first and
    each next card one rank higher. *)
Definition foundation_ok (su : suit) (f : pile) : Prop :=
  Forall (shows true) f
  ∧ slot_key <$> f = (λ r, Some (su, r)) <$> seqZ 1 (Z.of_nat (length f)).

(** Stock face down, waste face up, the foundations in the order of
    [SUITS], seven tableau piles. *)
Definition layout (st w : pile) (fs ts : list pile) : Prop :=
  Forall (shows false) st ∧ Forall (shows true) w
  ∧ Forall2 foundation_ok SUITS fs
  ∧ length ts = 7%nat ∧ Forall tableau_pile_ok ts.

(** The board is laid out by the rules, and so is every snapshot kept. *)
Definition klondike (s : state) : Prop :=
  layout (stock s) (waste s) (foundations s) (tableau s)
  ∧ Forall (λ x, layout (snap_stock x) (snap_waste x)
                        (snap_foundations x) (snap_tableau x)) (history s).

(** The card [c] can be picked up at [l] with the cards [hand]: the top
    card of the waste or of a foundation, or a face-up card of a tableau
    pile with all cards lying on it. *)
Definition can_pick (s : state) (l : loc) (c : card) (hand : pile) : Prop :=
  (∃ w, l = mkLoc "waste" None (Some (Z.of_nat (length w)))
        ∧ waste s = w ++ [Card c] ∧ hand = [Card c])
  ∨ (∃ i f, l = mkLoc "foundation" (Some i) (Some (Z.of_nat (length f)))
            ∧ js_get (foundations s) i = Some (f ++ [Card c])
            ∧ hand = [Card c])
  ∨ (∃ i rest above,
       l = mkLoc "tableau" (Some i) (Some (Z.of_nat (length rest)))
       ∧ js_get (tableau s) i = Some (rest ++ hand)
       ∧ hand = Card c :: above ∧ faceUp c = true).

(** The pile [d] accepted the card [c]: a foundation, for a single card,
    or a tableau pile. *)
Definition accepted (s : state) (c : card) (hand : pile) (d : loc) : Prop :=
  (∃ k, d = mkLoc "foundation" (Some k) None ∧ length hand = 1%nat
        ∧ canPlaceOnFoundation s c k = Ok true)
  ∨ (∃ k, d = mkLoc "tableau" (Some k) None
          ∧ canPlaceOnTableau s c k = Ok true).

(** The card [cardId] was found at [l], where it can be picked up, and
    the pile [d] accepted it. *)
Definition validated (s : state) (cardId : string) (l d : loc) : Prop :=
  ∃ c hand, findCard s cardId = Ok (Some l) ∧ can_pick s l c hand
            ∧ accepted s c hand d.

(** * Properties *)

(** ** Basic facts about arrays *)

Lemma length_zero_iff {A} (l : list A) : (length l =? 0)%nat = true ↔ l = [].
Proof. destruct l; simpl; split; intros; congruence. Qed.

Lemma length_snoc_nonzero {A} (l : list A) (x : A) :
  (length (l ++ [x]) =? 0)%nat = false.
Proof. rewrite length_app, Nat.add_comm. reflexivity. Qed.

Lemma js_pop_snoc (l : pile) (x : slot) : js_pop (l ++ [x]) = (x, l).
Proof. unfold js_pop. rewrite last_snoc, removelast_last. reflexivity. Qed.

Lemma flip_down_cards (cs : list card) :
  flip_down (Card <$> cs) = (Card <$> (set_faceUp false <$> cs), true).
Proof.
  induction cs as [|c cs IH]; [reflexivity|].
  rewrite !fmap_cons. cbn [flip_down]. rewrite IH. reflexivity.
Qed.

Lemma Zeqb_decide (a b : Z) : (a =? b) = bool_decide (a = b).
Proof.
  destruct (Z.eqb_spec a b).
  - rewrite bool_decide_eq_true_2; auto.
  - rewrite bool_decide_eq_false_2; auto.
Qed.

(** ** Legality predicates (C3) *)

Lemma areOppositeColors_spec c1 c2 :
  areOppositeColors c1 c2 = true ↔ opposite_color c1 c2.
Proof.
  unfold areOppositeColors, opposite_color.
  destruct (isRed c1), (isRed c2); simpl; split; intros; congruence.
Qed.

(** C3. [canPlaceOnFoundation] answers [false] when the card's suit is not
    the suit fixed for that foundation; with the right suit it answers, on
    an empty foundation, whether the rank is 1, and on a foundation whose
    top card is [t], whether the rank is [rank t + 1].
    [canPlaceOnTableau] answers, on an empty pile, whether the rank is 13,
    and on a pile whose top card is [t], whether [t] is face up, of the
    opposite colour, and the rank is [rank t - 1]. *)
Theorem canPlace_rules (s : state) (c : card) :
  (∀ i, js_get SUITS i ≠ Some (c_suit c) →
        canPlaceOnFoundation s c i = Ok false)
  ∧ (∀ i, js_get SUITS i = Some (c_suit c) →
          js_get (foundations s) i = Some [] →
          canPlaceOnFoundation s c i = Ok (bool_decide (rank c = 1)))
  ∧ (∀ i f t, js_get SUITS i = Some (c_suit c) →
              js_get (foundations s) i = Some (f ++ [Card t]) →
              canPlaceOnFoundation s c i
              = Ok (bool_decide (rank c = rank t + 1)))
  ∧ (∀ j, js_get (tableau s) j = Some [] →
          canPlaceOnTableau s c j = Ok (bool_decide (rank c = 13)))
  ∧ (∀ j p t, js_get (tableau s) j = Some (p ++ [Card t]) →
              canPlaceOnTableau s c j
              = Ok (bool_decide (faceUp t = true ∧ opposite_color c t
                                 ∧ rank c = rank t - 1))).
Proof.
  repeat split.
  - intros i Hne. unfold canPlaceOnFoundation.
    rewrite bool_decide_eq_false_2 by congruence. reflexivity.
  - intros i Hs Hf. unfold canPlaceOnFoundation.
    rewrite bool_decide_eq_true_2 by congruence. rewrite Hf. simpl.
    f_equal. apply Zeqb_decide.
  - intros i f t Hs Hf. unfold canPlaceOnFoundation.
    rewrite bool_decide_eq_true_2 by congruence. rewrite Hf. simpl.
    rewrite length_snoc_nonzero, last_snoc.
    f_equal. apply Zeqb_decide.
  - intros j Hp. unfold canPlaceOnTableau. rewrite Hp. simpl.
    f_equal. apply Zeqb_decide.
  - intros j p t Hp. unfold canPlaceOnTableau. rewrite Hp.
    rewrite length_snoc_nonzero, last_snoc. f_equal.
    apply eq_true_iff_eq.
    rewrite bool_decide_eq_true, !andb_true_iff, Z.eqb_eq,
      areOppositeColors_spec.
    tauto.
Qed.

Lemma canPlace_rules_witness :
  canPlaceOnFoundation two_hearts_five_spades (face_up hearts 3) 1 = Ok false
  ∧ canPlaceOnFoundation two_hearts_five_spades (face_up diamonds 1) 1 = Ok true
  ∧ canPlaceOnFoundation two_hearts_five_spades (face_up hearts 3) 0 = Ok true
  ∧ canPlaceOnTableau two_hearts_five_spades (face_up clubs 13) 1 = Ok true
  ∧ canPlaceOnTableau two_hearts_five_spades (face_up clubs 4) 0 = Ok false
  ∧ canPlaceOnTableau two_hearts_five_spades (face_up hearts 4) 0 = Ok true.
Proof.
  pose proof (canPlace_rules two_hearts_five_spades (face_up hearts 3))
    as (H1 & _ & H3 & _ & _).
  pose proof (canPlace_rules two_hearts_five_spades (face_up diamonds 1))
    as (_ & H2 & _ & _ & _).
  pose proof (canPlace_rules two_hearts_five_spades (face_up clubs 13))
    as (_ & _ & _ & H4 & _).
  pose proof (canPlace_rules two_hearts_five_spades (face_up clubs 4))
    as (_ & _ & _ & _ & H5).
  pose proof (canPlace_rules two_hearts_five_spades (face_up hearts 4))
    as (_ & _ & _ & _ & H6).
  refine (conj _ (conj _ (conj _ (conj _ (conj _ _))))).
  - apply H1. vm_compute. discriminate.
  - apply (H2 1); reflexivity.
  - apply (H3 0 [Card (face_up hearts 1)] (face_up hearts 2)); reflexivity.
  - apply (H4 1); reflexivity.
  - apply (H5 0 [] (face_up spades 5)); reflexivity.
  - apply (H6 0 [] (face_up spades 5)); reflexivity.
Defined.

(** ** No-op calls (C8) *)

(** C8. [undo] on an empty history returns [false] and leaves the whole
    state as it was; [drawFromStock] with an empty stock and an empty waste
    returns [false] and leaves the whole state as it was (no snapshot, same
    move count and score). *)
Theorem undo_draw_nothing_to_do (cfg : settings) (s : state) :
  (history s = [] → undo s = Returns false s)
  ∧ (stock s = [] → waste s = [] → drawFromStock cfg s = Returns false s).
Proof.
  split.
  - intros H. unfold undo. rewrite H. reflexivity.
  - intros Hs Hw. unfold drawFromStock. rewrite Hs, Hw. reflexivity.
Qed.

Lemma undo_draw_nothing_to_do_witness :
  undo (fresh 0 0) = Returns false (fresh 0 0)
  ∧ drawFromStock standard_draw1 (fresh 0 0) = Returns false (fresh 0 0).
Proof.
  pose proof (undo_draw_nothing_to_do standard_draw1 (fresh 0 0)) as [H1 H2].
  split; [apply H1 | apply H2]; reflexivity.
Defined.

(** ** Stock reset (C4) *)

Lemma shown_set_faceUp (b : bool) (c : card) : shown b c (Card (set_faceUp b c)).
Proof. exists (set_faceUp b c). repeat split; reflexivity. Qed.

Lemma shown_cards (b : bool) (cs : list card) :
  Forall2 (shown b) cs (Card <$> (set_faceUp b <$> cs)).
Proof.
  induction cs as [|c cs IH]; [constructor|].
  constructor; [apply shown_set_faceUp | exact IH].
Qed.

(** C4. With an empty stock and a waste of cards [cs] (not empty),
    [drawFromStock] returns [true]; the new stock holds the cards of [cs]
    in reverse order, each with its suit, rank and id and with [faceUp]
    equal to [false]; the waste is empty, and under Vegas scoring the
    score is [max 0 (score - 100)] (otherwise unchanged).  The snapshot of
    the state before is pushed on the history and the move count stays. *)
Theorem drawFromStock_reset (cfg : settings) (s : state) (cs : list card) :
  stock s = [] → waste s = Card <$> cs → cs ≠ [] →
  ∃ s', drawFromStock cfg s = Returns true s'
        ∧ Forall2 (shown false) (reverse cs) (stock s')
        ∧ waste s' = []
        ∧ score s' = (if String.eqb (scoring cfg) "vegas"
                      then Z.max 0 (score s - 100) else score s)
        ∧ history s' = pushed (history s) (snapshot_of s)
        ∧ moves s' = moves s
        ∧ foundations s' = foundations s
        ∧ tableau s' = tableau s.
Proof.
  intros Hs Hw Hne. unfold drawFromStock. rewrite Hs. simpl length. simpl Nat.eqb.
  destruct (length (waste s) =? 0)%nat eqn:E.
  { apply length_zero_iff in E. rewrite Hw in E.
    destruct cs; [congruence | discriminate]. }
  change (waste (saveState s)) with (waste s).
  rewrite Hw, <- fmap_reverse, flip_down_cards.
  eexists. split; [reflexivity|].
  destruct (String.eqb (scoring cfg) "vegas");
    (split; [apply shown_cards|]); repeat split; reflexivity.
Qed.

(** The stock-reset scenario: stock empty, waste = [A♠] face up, Vegas
    score 50; afterwards the ace of spades is the stock, face down. *)
Lemma drawFromStock_reset_witness :
  (∃ c0, waste (ace_of_spades_waste 50) = [Card c0] ∧ faceUp c0 = true)
  ∧ ∃ s' c, drawFromStock vegas_draw1 (ace_of_spades_waste 50) = Returns true s'
            ∧ stock s' = [Card c]
            ∧ c_suit c = spades ∧ rank c = 1 ∧ faceUp c = false
            ∧ waste s' = []
            ∧ score s' = 0.
Proof.
  split; [eexists; split; reflexivity|].
  destruct (drawFromStock_reset vegas_draw1 (ace_of_spades_waste 50)
              [face_up spades 1])
    as (s' & H & Hst & Hw & Hsc & _); [reflexivity | reflexivity | discriminate |].
  apply Forall2_cons_inv_l in Hst as (x & rest & (c & -> & Hsu & Hr & _ & Hf) & Hnil & Hst).
  apply Forall2_nil_inv_l in Hnil. subst rest.
  exists s', c. exact (conj H (conj Hst (conj Hsu (conj Hr (conj Hf (conj Hw Hsc)))))).
Defined.

(** ** Hint priority (C6) *)

(** The index that [getFoundationIndex] gives is the one at which [SUITS]
    holds the suit. *)
Lemma getFoundationIndex_SUITS (su : suit) (i : Z) :
  js_get SUITS i = Some su → getFoundationIndex su = i.
Proof.
  unfold js_get. destruct (Z.ltb_spec i 0) as [|Hi]; [discriminate|].
  intros H. assert (Hlt : (Z.to_nat i < 4)%nat).
  { apply lookup_lt_Some in H. exact H. }
  destruct (Z.to_nat i) as [|[|[|[|n]]]] eqn:E; [..|lia];
    injection H as <-; cbv; lia.
Qed.

(** C6. When the top card [c] of the waste may go on the foundation of its
    suit, that is on the foundation [i] with [SUITS[i]] the suit of [c],
    [getHint] returns the move of [c] from the waste to foundation [i],
    whatever else is possible. *)
Theorem getHint_waste_to_foundation (s : state) (w : pile) (c : card) (i : Z) :
  waste s = w ++ [Card c] →
  js_get SUITS i = Some (c_suit c) →
  canPlaceOnFoundation s c i = Ok true →
  getHint s
  = Ok (Some (mkHint (Some (id c)) (mkLoc "waste" None None)
                (mkLoc "foundation" (Some i) None) None None)).
Proof.
  intros Hw Hi Hok. apply getFoundationIndex_SUITS in Hi.
  unfold getHint, hint_waste_foundation, getTopWasteCard.
  rewrite Hw, length_snoc_nonzero, last_snoc.
  unfold or_else. cbn [default from_option Datatypes.id rbind].
  rewrite Hi, Hok. reflexivity.
Qed.

(** The ace of spades on the waste goes to foundation 3, the foundation of
    spades, although the eight of hearts could go on the nine of spades. *)
Lemma getHint_waste_to_foundation_witness :
  canPlaceOnTableau spade_ace_or_eight (mkCard hearts 8 true "hearts-8") 1
  = Ok true
  ∧ getHint spade_ace_or_eight
    = Ok (Some (mkHint (Some "spades-1"%string) (mkLoc "waste" None None)
                  (mkLoc "foundation" (Some 3) None) None None)).
Proof.
  split; [reflexivity|].
  apply (getHint_waste_to_foundation spade_ace_or_eight []
           (mkCard spades 1 true "spades-1") 3);
    reflexivity.
Defined.

(** ** What the commands leave alone *)

Lemma history_off_table : off_table history.
Proof. split; reflexivity. Qed.

Lemma game_off_table : off_table game_of.
Proof. split; reflexivity. Qed.

Section keeps.
Context {X : Type} (f : state → X).

Lemma keeps_ret {A} (a : A) : keeps f (ret a).
Proof. intros s. reflexivity. Qed.

Lemma keeps_throw {A} : keeps f (@throw A).
Proof. intros s. reflexivity. Qed.

Lemma keeps_lift {A} (r : state → result A) : keeps f (lift r).
Proof. intros s. unfold lift. destruct (r s); reflexivity. Qed.

Lemma keeps_modify (g : state → state) :
  (∀ s, f (g s) = f s) → keeps f (modify g).
Proof. intros H s. apply H. Qed.

Lemma keeps_bind {A B} (m : M A) (k : A → M B) :
  keeps f m → (∀ a, keeps f (k a)) → keeps f (bind m k).
Proof.
  intros Hm Hk s. unfold bind. specialize (Hm s).
  destruct (m s) as [a s'|s']; simpl in *; [|assumption].
  rewrite <- Hm. apply Hk.
Qed.

Hypothesis Hoff : off_table f.

Lemma draw_loop_keeps n : keeps f (draw_loop n).
Proof.
  induction n as [|n IH]; intros s; [reflexivity|].
  cbn [draw_loop]. destruct (js_pop (stock s)) as [[| |c] rest];
    try (simpl; apply Hoff).
  rewrite IH, (off_waste f Hoff). apply Hoff.
Qed.

Lemma remove_from_source_keeps l : keeps f (remove_from_source l).
Proof.
  intros s. unfold remove_from_source.
  repeat match goal with
         | |- context [if ?b then _ else _] => destruct b
         | |- context [match js_index ?a ?b with _ => _ end] =>
             destruct (js_index a b)
         | |- context [let '(_, _) := ?p in _] => destruct p
         | |- context [match last ?p with _ => _ end] => destruct (last p)
         | |- context [match ?x with Card _ => _ | _ => _ end] => destruct x
         end; simpl; try reflexivity; apply Hoff.
Qed.

Lemma add_to_destination_keeps cfg l cards b :
  keeps f (add_to_destination cfg l cards b).
Proof.
  intros s. unfold add_to_destination.
  repeat match goal with
         | |- context [if ?b then _ else _] => destruct b
         | |- context [match js_index ?a ?b with _ => _ end] =>
             destruct (js_index a b)
         end; simpl; try reflexivity;
    rewrite ?(off_score f Hoff); apply Hoff.
Qed.

(** Past its [saveState], [moveCards] keeps [f]. *)
Lemma moveCards_keeps cfg l1 l2 s :
  f (final (moveCards cfg l1 l2 s)) = f (saveState s).
Proof.
  unfold moveCards. unfold bind at 1. unfold modify at 1.
  revert s. generalize saveState. intros g s. generalize (g s). clear s g.
  change (keeps f (let* r := remove_from_source l1 in
                 run add_to_destination cfg l2 (fst r) (snd r) then
                 run modify (λ s, set_moves (moves s + 1) s) then ret true)).
  apply keeps_bind; [apply remove_from_source_keeps|]. intros r.
  apply keeps_bind; [apply add_to_destination_keeps|]. intros _.
  apply keeps_bind; [|intros; apply keeps_ret].
  apply keeps_modify. intros; apply Hoff.
Qed.

(** Unless there is nothing to draw, [drawFromStock] keeps [f] past its
    [saveState]. *)
Lemma drawFromStock_keeps cfg s :
  drawFromStock cfg s = Returns false s
  ∨ f (final (drawFromStock cfg s)) = f (saveState s).
Proof.
  unfold drawFromStock.
  destruct (length (stock s) =? 0)%nat.
  - destruct (length (waste s) =? 0)%nat; [left; reflexivity|]. right.
    destruct (flip_down (reverse (waste (saveState s)))) as [w [|]].
    + destruct (String.eqb (scoring cfg) "vegas"); simpl;
        rewrite ?(off_score f Hoff), (off_waste f Hoff); apply Hoff.
    + simpl. apply Hoff.
  - right. generalize (saveState s). intros s1.
    generalize (Z.to_nat (Z.min (drawCount cfg) (Z.of_nat (length (stock s1))))).
    intros n. revert s1.
    change (keeps f (run draw_loop n then
                     run modify (λ s, set_moves (moves s + 1) s) then ret true)).
    apply keeps_bind; [apply draw_loop_keeps|]. intros _.
    apply keeps_bind; [|intros; apply keeps_ret].
    apply keeps_modify. intros; apply Hoff.
Qed.

End keeps.

(** ** Frame: the clock origin and the seed (C10) *)

Lemma saveState_game s : game_of (saveState s) = game_of s.
Proof. reflexivity. Qed.

Lemma moveCards_keeps_game cfg l1 l2 : keeps game_of (moveCards cfg l1 l2).
Proof.
  intros s. rewrite (moveCards_keeps game_of game_off_table). reflexivity.
Qed.

Lemma auto_foundation_keeps_game cfg l c :
  keeps game_of (auto_foundation cfg l c).
Proof.
  unfold auto_foundation.
  apply keeps_bind; [apply keeps_lift|]. intros [|]; [|apply keeps_ret].
  apply keeps_bind; [apply keeps_lift|]. intros [|]; [|apply keeps_ret].
  apply keeps_bind; [apply moveCards_keeps_game|]. intros; apply keeps_ret.
Qed.

Lemma auto_tableau_keeps_game cfg l c ixs :
  keeps game_of (auto_tableau cfg l c ixs).
Proof.
  induction ixs as [|i rest IH]; simpl; [apply keeps_ret|].
  destruct (_ && _); [assumption|].
  apply keeps_bind; [apply keeps_lift|]. intros [|]; [|assumption].
  apply keeps_bind; [apply moveCards_keeps_game|]. intros; apply keeps_ret.
Qed.

Lemma tryAutoMove_keeps_game cfg cid : keeps game_of (tryAutoMove cfg cid).
Proof.
  unfold tryAutoMove.
  apply keeps_bind; [apply keeps_lift|]. intros [l|]; [|apply keeps_ret].
  apply keeps_bind; [apply keeps_lift|]. intros [| |c]; try apply keeps_throw.
  destruct (_ && _); [apply keeps_ret|].
  apply keeps_bind.
  - destruct (negb _); [apply auto_foundation_keeps_game | apply keeps_ret].
  - intros [d|]; [apply keeps_ret | apply auto_tableau_keeps_game].
Qed.

Lemma perform_game o s : game_of (perform o s) = game_of s.
Proof.
  destruct o; simpl.
  - destruct (drawFromStock_keeps game_of game_off_table cfg s) as [H|H];
      rewrite H; reflexivity.
  - apply moveCards_keeps_game.
  - apply tryAutoMove_keeps_game.
  - unfold undo. destruct (last (history s)); reflexivity.
  - reflexivity.
Qed.

(** C10. Whatever sequence of [drawFromStock], [moveCards], [tryAutoMove],
    [undo] and [saveState] calls is made (returning or raising), the state
    keeps its [startTime] and its [seed]: a snapshot has only the six
    fields stock, waste, foundations, tableau, moves and score, and [undo]
    writes back only those. *)
Theorem startTime_seed_persist (ops : list op) (s : state) :
  startTime (perform_all ops s) = startTime s
  ∧ seed (perform_all ops s) = seed s.
Proof.
  enough (game_of (perform_all ops s) = game_of s) as H
    by (injection H; auto).
  revert s. induction ops as [|o ops IH]; intros s; [reflexivity|].
  simpl. rewrite IH. apply perform_game.
Qed.

(** ** [moveCards] on arbitrary descriptors (C9) *)

Lemma js_get_is_Some {A} (l : list A) (z : Z) :
  is_Some (js_get l z) ↔ 0 ≤ z < Z.of_nat (length l).
Proof.
  unfold js_get. destruct (Z.ltb_spec z 0).
  - split; [intros [? ?]; discriminate | lia].
  - rewrite lookup_lt_is_Some. lia.
Qed.

Lemma js_index_is_Some {A} (l : list A) (i : option Z) :
  is_Some (js_index l i) ↔ ∃ z, i = Some z ∧ 0 ≤ z < Z.of_nat (length l).
Proof.
  destruct i as [z|]; simpl.
  - rewrite js_get_is_Some. split; [eauto | intros (? & [= <-] & ?); auto].
  - split; [intros [? ?]; discriminate | intros (? & ? & ?); discriminate].
Qed.

Lemma js_index_Some {A} (l : list A) (i : option Z) (x : A) :
  js_index l i = Some x →
  ∃ z, i = Some z ∧ 0 ≤ z ∧ l !! Z.to_nat z = Some x.
Proof.
  destruct i as [z|]; simpl; [|discriminate].
  unfold js_get. destruct (Z.ltb_spec z 0); [discriminate|]. eauto.
Qed.

Lemma length_js_store (l : list pile) (i : option Z) (p : pile) :
  length (js_store l i p) = length l.
Proof. destruct i; simpl; [apply length_insert | reflexivity]. Qed.

Lemma js_store_same (l : list pile) (i : option Z) (p : pile) :
  js_index l i = Some p → js_store l i p = l.
Proof.
  intros H. apply js_index_Some in H as (z & -> & _ & H). simpl.
  apply list_insert_id, H.
Qed.

Lemma names_pile_lengths s s' l :
  length (foundations s') = length (foundations s) →
  length (tableau s') = length (tableau s) →
  names_pile s l → names_pile s' l.
Proof.
  intros Hf Ht [H1 H2]. split; intros H.
  - apply js_index_is_Some. rewrite Hf. apply js_index_is_Some, H1, H.
  - apply js_index_is_Some. rewrite Ht. apply js_index_is_Some, H2, H.
Qed.

Lemma last_None_nil {A} (l : list A) : last l = None → l = [].
Proof.
  destruct l as [|x l] using rev_ind; [reflexivity|].
  rewrite last_snoc. discriminate.
Qed.

Lemma remove_from_source_returns (l : loc) (s : state) :
  names_pile s l → leaves_card_on_top s l →
  ∃ cards b s',
    remove_from_source l s = Returns (cards, b) s'
    ∧ history s' = history s ∧ moves s' = moves s
    ∧ length (foundations s') = length (foundations s)
    ∧ length (tableau s') = length (tableau s)
    ∧ (¬ known_tag (location l) → s' = s ∧ cards = []).
Proof.
  intros [Hf Ht] Htop. unfold remove_from_source.
  destruct (String.eqb_spec (location l) "waste") as [Ew|Ew].
  { destruct (js_pop (waste s)) as [x rest]. do 3 eexists.
    split; [reflexivity|]. repeat split; try reflexivity;
      exfalso; apply H; left; assumption. }
  destruct (String.eqb_spec (location l) "foundation") as [Ef|Ef].
  { destruct (Hf Ef) as [p Hp]. rewrite Hp.
    destruct (js_pop p) as [x rest]. do 3 eexists.
    split; [reflexivity|]. repeat split; try reflexivity.
    - simpl. apply length_js_store.
    - exfalso; apply H; right; left; assumption.
    - exfalso; apply H; right; left; assumption. }
  destruct (String.eqb_spec (location l) "tableau") as [Et|Et].
  { destruct (Ht Et) as [p Hp]. rewrite Hp.
    specialize (Htop Et p Hp).
    destruct (js_splice p (index l)) as [cards rest]. simpl in Htop.
    assert (Hfin : ∀ (b : bool) (q : pile),
      ∃ (cards0 : pile) (b0 : bool) s',
        Returns (cards, b)
          (set_tableau (js_store (tableau s) (pileIndex l) q) s)
        = Returns (cards0, b0) s'
        ∧ history s' = history s ∧ moves s' = moves s
        ∧ length (foundations s') = length (foundations s)
        ∧ length (tableau s') = length (tableau s)
        ∧ (¬ known_tag (location l) → s' = s ∧ cards0 = [])).
    { intros b q. do 3 eexists. split; [reflexivity|].
      repeat split; try reflexivity.
      - simpl. apply length_js_store.
      - exfalso; apply H; right; right; assumption.
      - exfalso; apply H; right; right; assumption. }
    destruct (0 <? length rest)%nat eqn:E; [|apply Hfin].
    destruct (last rest) as [[| |top]|] eqn:El; try contradiction.
    - destruct (negb (faceUp top)); apply Hfin.
    - apply last_None_nil in El. subst rest. discriminate. }
  do 3 eexists. split; [reflexivity|].
  repeat split; reflexivity.
Qed.

Lemma add_to_destination_returns cfg (l : loc) cards b (s : state) :
  names_pile s l →
  ∃ s', add_to_destination cfg l cards b s = Returns tt s'
        ∧ history s' = history s ∧ moves s' = moves s
        ∧ (cards = [] → stock s' = stock s ∧ waste s' = waste s
                        ∧ foundations s' = foundations s
                        ∧ tableau s' = tableau s).
Proof.
  intros [Hf Ht]. unfold add_to_destination.
  destruct (String.eqb_spec (location l) "foundation") as [Ef|Ef].
  { destruct (Hf Ef) as [p Hp]. rewrite Hp. eexists. split; [reflexivity|].
    assert (Hsame : cards = [] →
      js_store (foundations s) (pileIndex l) (p ++ cards) = foundations s).
    { intros ->. rewrite app_nil_r. apply js_store_same, Hp. }
    destruct (String.eqb (scoring cfg) "standard");
      [|destruct (String.eqb (scoring cfg) "vegas")];
      (split; [reflexivity|]; split; [reflexivity|];
       intros Hc; simpl; rewrite (Hsame Hc); repeat split; reflexivity). }
  destruct (String.eqb_spec (location l) "tableau") as [Et|Et].
  { destruct (Ht Et) as [p Hp]. rewrite Hp. eexists. split; [reflexivity|].
    assert (Hsame : cards = [] →
      js_store (tableau s) (pileIndex l) (p ++ cards) = tableau s).
    { intros ->. rewrite app_nil_r. apply js_store_same, Hp. }
    destruct (b && String.eqb (scoring cfg) "standard");
      (split; [reflexivity|]; split; [reflexivity|];
       intros Hc; simpl; rewrite (Hsame Hc); repeat split; reflexivity). }
  eexists. split; [reflexivity|]. repeat split; reflexivity.
Qed.

(** What [remove_from_source] leaves on the piles. *)
Lemma remove_from_source_piles (l : loc) (s : state) (r : pile * bool) (s2 : state) :
  remove_from_source l s = Returns r s2 →
  stock s2 = stock s ∧ score s2 = score s
  ∧ (location l = "waste"%string →
     waste s2 = removelast (waste s)
     ∧ foundations s2 = foundations s ∧ tableau s2 = tableau s)
  ∧ (location l = "foundation"%string →
     ∀ p, js_index (foundations s) (pileIndex l) = Some p →
          waste s2 = waste s
          ∧ foundations s2 = js_store (foundations s) (pileIndex l) (removelast p)
          ∧ tableau s2 = tableau s)
  ∧ (location l = "tableau"%string →
     ∀ p, js_index (tableau s) (pileIndex l) = Some p →
          waste s2 = waste s ∧ foundations s2 = foundations s
          ∧ ∃ q, tableau s2 = js_store (tableau s) (pileIndex l) q
                 ∧ slot_key <$> q
                   = slot_key <$> take (splice_start (length p) (index l)) p).
Proof.
  unfold remove_from_source.
  destruct (String.eqb_spec (location l) "waste") as [Ew|Ew].
  { unfold js_pop. cbv beta iota zeta. intros [= _ <-]. rewrite Ew.
    split; [reflexivity|]. split; [reflexivity|].
    split; [intros _; repeat split; reflexivity|].
    split; intros E; discriminate E. }
  destruct (String.eqb_spec (location l) "foundation") as [Ef|Ef].
  { destruct (js_index (foundations s) (pileIndex l)) as [p|] eqn:Ep;
      [|discriminate].
    unfold js_pop. cbv beta iota zeta. intros [= _ <-]. rewrite Ef.
    split; [reflexivity|]. split; [reflexivity|].
    split; [intros E; discriminate E|].
    split; [|intros E; discriminate E].
    intros _ p' [= <-]. repeat split; reflexivity. }
  destruct (String.eqb_spec (location l) "tableau") as [Et|Et].
  { destruct (js_index (tableau s) (pileIndex l)) as [p|] eqn:Ep;
      [|discriminate].
    unfold js_splice. cbv zeta.
    set (k := splice_start (length p) (index l)).
    assert (Hfin : ∀ (b : bool) (q : pile),
      slot_key <$> q = slot_key <$> take k p →
      Returns (drop k p, b)
        (set_tableau (js_store (tableau s) (pileIndex l) q) s)
      = Returns r s2 →
      stock s2 = stock s ∧ score s2 = score s
      ∧ (location l = "waste"%string →
         waste s2 = removelast (waste s)
         ∧ foundations s2 = foundations s ∧ tableau s2 = tableau s)
      ∧ (location l = "foundation"%string →
         ∀ p0, js_index (foundations s) (pileIndex l) = Some p0 →
               waste s2 = waste s
               ∧ foundations s2
                 = js_store (foundations s) (pileIndex l) (removelast p0)
               ∧ tableau s2 = tableau s)
      ∧ (location l = "tableau"%string →
         ∀ p0, Some p = Some p0 →
               waste s2 = waste s ∧ foundations s2 = foundations s
               ∧ ∃ q0, tableau s2 = js_store (tableau s) (pileIndex l) q0
                       ∧ slot_key <$> q0
                         = slot_key
                             <$> take (splice_start (length p0) (index l)) p0)).
    { intros b q Hq [= _ <-]. rewrite Et.
      split; [reflexivity|]. split; [reflexivity|].
      split; [intros E; discriminate E|].
      split; [intros E; discriminate E|].
      intros _ p0 [= <-].
      split; [reflexivity|]. split; [reflexivity|].
      exists q. split; [reflexivity | exact Hq]. }
    destruct (0 <? length (take k p))%nat; [|apply Hfin; reflexivity].
    destruct (last (take k p)) as [[| |top]|] eqn:El; try discriminate.
    destruct (negb (faceUp top)); [|apply Hfin; reflexivity].
    apply Hfin. apply last_Some in El as [rest El]. rewrite El.
    rewrite removelast_last, !fmap_app. reflexivity. }
  intros [= _ <-].
  split; [reflexivity|]. split; [reflexivity|].
  split; [intros E; contradiction|]. split; intros E; contradiction.
Qed.

(** With a destination tag that is neither ['foundation'] nor ['tableau']
    the piles are left as [remove_from_source] left them. *)
Lemma moveCards_unknown_destination cfg (l d : loc) (s : state) (b : bool)
    (s' : state) :
  location d ≠ "foundation"%string → location d ≠ "tableau"%string →
  moveCards cfg l d s = Returns b s' →
  ∃ r s2, remove_from_source l (saveState s) = Returns r s2
          ∧ stock s' = stock s2 ∧ waste s' = waste s2
          ∧ foundations s' = foundations s2 ∧ tableau s' = tableau s2
          ∧ score s' = score s2.
Proof.
  intros Hf Ht. unfold moveCards, bind, modify.
  destruct (remove_from_source l (saveState s)) as [r s2|]; [|discriminate].
  unfold add_to_destination.
  destruct (String.eqb_spec (location d) "foundation") as [|_]; [contradiction|].
  destruct (String.eqb_spec (location d) "tableau") as [|_]; [contradiction|].
  cbn [ret]. intros [= _ <-]. exists r, s2. repeat split; reflexivity.
Qed.

(** C9 (amended). [moveCards] returns [true], pushes a snapshot on the
    history (dropping the oldest beyond 50) and increments the move count
    whenever every descriptor tagged ['foundation'] or ['tableau'] carries
    the index of an existing pile and a tableau source is left with a card
    object, or nothing, on top.  That covers unknown tags.  With an unknown
    source tag no pile changes.  With a known source tag and a destination
    tag that is neither ['foundation'] nor ['tableau'] the cards taken are
    dropped: the source loses them (the waste or the foundation its last
    element, the tableau pile everything from the index on) and stock,
    score and all other piles are as before, so that no pile receives
    them. *)
Theorem moveCards_returns_true (cfg : settings) (fromLocation toLocation : loc)
    (s : state) :
  names_pile s fromLocation → names_pile s toLocation →
  leaves_card_on_top s fromLocation →
  ∃ s', moveCards cfg fromLocation toLocation s = Returns true s'
        ∧ history s'
          = (let h := history s ++ [snapshot_of s] in
             if (50 <? length h)%nat then tail h else h)
        ∧ moves s' = moves s + 1
        ∧ (¬ known_tag (location fromLocation) →
           stock s' = stock s ∧ waste s' = waste s
           ∧ foundations s' = foundations s ∧ tableau s' = tableau s)
        ∧ (location toLocation ≠ "foundation"%string →
           location toLocation ≠ "tableau"%string →
           stock s' = stock s ∧ score s' = score s
           ∧ (location fromLocation = "waste"%string →
              waste s' = removelast (waste s)
              ∧ foundations s' = foundations s ∧ tableau s' = tableau s)
           ∧ (location fromLocation = "foundation"%string →
              ∀ p, js_index (foundations s) (pileIndex fromLocation) = Some p →
                   waste s' = waste s
                   ∧ foundations s'
                     = js_store (foundations s) (pileIndex fromLocation)
                                (removelast p)
                   ∧ tableau s' = tableau s)
           ∧ (location fromLocation = "tableau"%string →
              ∀ p, js_index (tableau s) (pileIndex fromLocation) = Some p →
                   waste s' = waste s ∧ foundations s' = foundations s
                   ∧ ∃ q, tableau s'
                          = js_store (tableau s) (pileIndex fromLocation) q
                          ∧ slot_key <$> q
                            = slot_key
                                <$> take (splice_start (length p)
                                            (index fromLocation)) p)).
Proof.
  intros Hfrom Hto Htop.
  assert (H : ∃ s', moveCards cfg fromLocation toLocation s = Returns true s'
        ∧ history s'
          = (let h := history s ++ [snapshot_of s] in
             if (50 <? length h)%nat then tail h else h)
        ∧ moves s' = moves s + 1
        ∧ (¬ known_tag (location fromLocation) →
           stock s' = stock s ∧ waste s' = waste s
           ∧ foundations s' = foundations s ∧ tableau s' = tableau s)).
  { unfold moveCards, bind, modify.
    destruct (remove_from_source_returns fromLocation (saveState s))
      as (cards & b & s2 & E2 & Hh2 & Hm2 & Hlf & Hlt & Hunk);
      [exact Hfrom | exact Htop |].
    rewrite E2. cbn [fst snd].
    destruct (add_to_destination_returns cfg toLocation cards b s2)
      as (s3 & E3 & Hh3 & Hm3 & Hsame).
    { eapply names_pile_lengths; [..|exact Hto]; assumption. }
    rewrite E3. eexists. split; [reflexivity|]. simpl.
    split; [rewrite Hh3, Hh2; reflexivity|].
    split; [rewrite Hm3, Hm2; reflexivity|].
    intros Hk. destruct (Hunk Hk) as [-> ->].
    destruct (Hsame eq_refl) as (-> & -> & -> & ->). auto. }
  destruct H as (s' & E & Hh & Hm & Hunk). exists s'.
  split; [exact E|]. split; [exact Hh|]. split; [exact Hm|].
  split; [exact Hunk|].
  intros Hnf Hnt.
  destruct (moveCards_unknown_destination cfg _ _ s true s' Hnf Hnt E)
    as (r & s2 & Er & Hst & Hw & Hf & Ht & Hsc).
  destruct (remove_from_source_piles _ _ _ _ Er) as (Hst2 & Hsc2 & Hwa & Hfo & Hta).
  rewrite Hst, Hsc, Hw, Hf, Ht.
  split; [exact Hst2|]. split; [exact Hsc2|].
  split; [exact Hwa|]. split; [exact Hfo | exact Hta].
Qed.

(** An unknown source tag: nothing moves, the snapshot is pushed and the
    move counted.  A waste card moved to ['stock']: it leaves the waste
    and arrives nowhere. *)
Lemma moveCards_returns_true_witness :
  (∃ s', moveCards standard_draw1 (mkLoc "stock" None None)
           (mkLoc "foundation" (Some 0) None) ace_or_eight = Returns true s'
         ∧ length (history s') = 1%nat
         ∧ moves s' = 1
         ∧ waste s' = waste ace_or_eight
         ∧ foundations s' = foundations ace_or_eight)
  ∧ (∃ s', moveCards standard_draw1 (mkLoc "waste" None None)
             (mkLoc "stock" None None) ace_or_eight = Returns true s'
           ∧ waste ace_or_eight ≠ []
           ∧ waste s' = []
           ∧ stock s' = stock ace_or_eight
           ∧ foundations s' = foundations ace_or_eight
           ∧ tableau s' = tableau ace_or_eight).
Proof.
  split.
  - destruct (moveCards_returns_true standard_draw1 (mkLoc "stock" None None)
                (mkLoc "foundation" (Some 0) None) ace_or_eight)
      as (s' & H & Hh & Hm & Hsame & _).
    + split; intros E; discriminate E.
    + split; intros E; [eexists; reflexivity | discriminate E].
    + intros E; discriminate E.
    + destruct Hsame as (_ & Hw & Hf & _).
      { intros [E|[E|E]]; discriminate E. }
      exists s'. refine (conj H (conj _ (conj Hm (conj Hw Hf)))).
      rewrite Hh. reflexivity.
  - destruct (moveCards_returns_true standard_draw1 (mkLoc "waste" None None)
                (mkLoc "stock" None None) ace_or_eight)
      as (s' & H & _ & _ & _ & Hdrop).
    + split; intros E; discriminate E.
    + split; intros E; discriminate E.
    + intros E; discriminate E.
    + destruct Hdrop as (Hst & _ & Hwaste & _); [discriminate..|].
      destruct (Hwaste eq_refl) as (Hw & Hf & Ht).
      exists s'. split; [exact H|]. split; [discriminate|].
      split; [exact Hw|]. split; [exact Hst|]. split; [exact Hf | exact Ht].
Defined.

(** C9 as stated fails: a foundation descriptor with no such pile makes
    [moveCards] raise after the snapshot was pushed, so nothing is returned
    and the move count stays; and with a known source and an unknown
    destination tag the card taken from the source ends up on no pile. *)
Lemma moveCards_raises_or_drops :
  (∀ s', moveCards standard_draw1 (mkLoc "foundation" (Some 9) None)
           (mkLoc "tableau" (Some 0) None) (fresh 0 0) ≠ Returns true s')
  ∧ (let s' := final (moveCards standard_draw1 (mkLoc "foundation" (Some 9) None)
                        (mkLoc "tableau" (Some 0) None) (fresh 0 0)) in
     moves s' = moves (fresh 0 0) ∧ length (history s') = 1%nat)
  ∧ (∃ s', moveCards standard_draw1 (mkLoc "waste" None None)
             (mkLoc "stock" None None) (ace_of_spades_waste 0) = Returns true s'
           ∧ stock s' = [] ∧ waste s' = []
           ∧ foundations s' = [[]; []; []; []]
           ∧ tableau s' = [[]; []; []; []; []; []; []]).
Proof.
  split; [|split].
  - intros s'. vm_compute. discriminate.
  - split; reflexivity.
  - eexists. split; [reflexivity|]. repeat split; reflexivity.
Qed.

(** ** What [tryAutoMove] amounts to *)

Lemma bind_lift {A B} (r : state → result A) (k : A → M B) (s : state) :
  bind (lift r) k s = match r s with Ok a => k a s | TypeError => Throws s end.
Proof. unfold bind, lift. destruct (r s); reflexivity. Qed.

Lemma auto_foundation_cases cfg l c s :
  (auto_foundation cfg l c s = Returns None s
   ∨ auto_foundation cfg l c s = Throws s)
  ∨ (canPlaceOnFoundation s c (getFoundationIndex (c_suit c)) = Ok true
     ∧ auto_foundation cfg l c s
       = (let d := mkLoc "foundation" (Some (getFoundationIndex (c_suit c))) None in
          run moveCards cfg l d then ret (Some d)) s).
Proof.
  unfold auto_foundation. rewrite bind_lift.
  destruct (isSingleCard s l) as [[|]|]; auto.
  rewrite bind_lift.
  destruct (canPlaceOnFoundation s c _) as [[|]|]; auto.
Qed.

Lemma auto_tableau_cases cfg l c ixs s :
  (auto_tableau cfg l c ixs s = Returns None s
   ∨ auto_tableau cfg l c ixs s = Throws s)
  ∨ (∃ i, canPlaceOnTableau s c i = Ok true
          ∧ auto_tableau cfg l c ixs s
            = (let d := mkLoc "tableau" (Some i) None in
               run moveCards cfg l d then ret (Some d)) s).
Proof.
  induction ixs as [|i rest IH]; cbn [auto_tableau]; [left; left; reflexivity|].
  destruct (_ && _); [exact IH|].
  rewrite bind_lift.
  destruct (canPlaceOnTableau s c i) as [[|]|] eqn:E; auto.
  right. exists i. auto.
Qed.

Lemma bind_unfold {A B} (m : M A) (k : A → M B) (s : state) :
  bind m k s
  = match m s with Returns a s' => k a s' | Throws s' => Throws s' end.
Proof. reflexivity. Qed.

Lemma tryAutoMove_cases cfg cid s :
  (tryAutoMove cfg cid s = Returns None s ∨ tryAutoMove cfg cid s = Throws s)
  ∨ (∃ l c d, findCard s cid = Ok (Some l) ∧ card_at s l = Ok (Card c)
              ∧ auto_destination s c d
              ∧ tryAutoMove cfg cid s
                = (run moveCards cfg l d then ret (Some d)) s).
Proof.
  assert (Htab : ∀ l c,
    findCard s cid = Ok (Some l) → card_at s l = Ok (Card c) →
    (auto_tableau cfg l c (seqZ 0 7) s = Returns None s
     ∨ auto_tableau cfg l c (seqZ 0 7) s = Throws s)
    ∨ (∃ l' c' d, findCard s cid = Ok (Some l') ∧ card_at s l' = Ok (Card c')
                  ∧ auto_destination s c' d
                  ∧ auto_tableau cfg l c (seqZ 0 7) s
                    = (run moveCards cfg l' d then ret (Some d)) s)).
  { intros l c Ef Ec.
    destruct (auto_tableau_cases cfg l c (seqZ 0 7) s) as [H|(i & Hok & H)];
      [left; exact H|].
    right. exists l, c, (mkLoc "tableau" (Some i) None).
    split; [exact Ef|]. split; [exact Ec|]. split; [right; eauto | exact H]. }
  unfold tryAutoMove. rewrite bind_lift.
  destruct (findCard s cid) as [[l|]|] eqn:Ef; auto.
  rewrite bind_lift.
  destruct (card_at s l) as [[| |c]|] eqn:Ec; auto.
  destruct (_ && _); auto.
  rewrite bind_unfold.
  destruct (negb (String.eqb (location l) "foundation")).
  - destruct (auto_foundation_cases cfg l c s) as [[H|H]|[Hok H]]; rewrite H.
    + apply Htab; auto.
    + auto.
    + right.
      exists l, c, (mkLoc "foundation" (Some (getFoundationIndex (c_suit c))) None).
      split; [reflexivity|]. split; [exact Ec|]. split; [left; auto|].
      cbv zeta. rewrite bind_unfold.
      destruct (moveCards cfg l _ s); reflexivity.
  - apply Htab; auto.
Qed.

(** ** Undo after a run of moves (C2) *)

Lemma succeed_history o s s' :
  succeed o s = Some s' → history s' = pushed (history s) (snapshot_of s).
Proof.
  destruct o as [cfg|cfg l1 l2|cfg cid| |]; simpl; try discriminate.
  - destruct (drawFromStock_keeps history history_off_table cfg s) as [H|H].
    + rewrite H. discriminate.
    + destruct (drawFromStock cfg s) as [[|] s1|s1]; try discriminate.
      intros [= <-]. exact H.
  - pose proof (moveCards_keeps history history_off_table cfg l1 l2 s) as H.
    destruct (moveCards cfg l1 l2 s) as [[|] s1|s1]; try discriminate.
    intros [= <-]. exact H.
  - destruct (tryAutoMove_cases cfg cid s) as [[H|H]|(l & c & d & _ & _ & _ & H)];
      rewrite H; try discriminate.
    rewrite bind_unfold.
    pose proof (moveCards_keeps history history_off_table cfg l d s) as Hh.
    destruct (moveCards cfg l d s) as [b s1|s1]; [|discriminate].
    intros [= <-]. exact Hh.
Qed.

Lemma succeed_all_snoc ops o s :
  succeed_all (ops ++ [o]) s = succeed_all ops s ≫= succeed o.
Proof.
  revert s. induction ops as [|o' ops IH]; intros s; simpl.
  - destruct (succeed o s); reflexivity.
  - destruct (succeed o' s) as [s1|]; simpl; [apply IH | reflexivity].
Qed.

Lemma pushed_keeps_recent (h snaps : list snapshot) (x : snapshot) :
  (length snaps < 50)%nat →
  ∃ h', pushed (h ++ snaps) x = h' ++ snaps ++ [x].
Proof.
  intros Hlen. unfold pushed. cbv zeta.
  destruct (Nat.ltb_spec 50 (length ((h ++ snaps) ++ [x]))) as [Hlt|Hge].
  - destruct h as [|y h].
    + simpl in Hlt. rewrite length_app in Hlt. simpl in Hlt. lia.
    + exists h. simpl. rewrite <- app_assoc. reflexivity.
  - exists h. rewrite <- app_assoc. reflexivity.
Qed.

(** After [n ≤ 50] successful operations the history ends with their [n]
    snapshots, the first of which is that of the starting state. *)
Lemma succeed_all_history ops s s1 :
  succeed_all ops s = Some s1 → (length ops ≤ 50)%nat →
  ∃ h snaps, history s1 = h ++ snaps ∧ length snaps = length ops
             ∧ (ops ≠ [] → head snaps = Some (snapshot_of s)).
Proof.
  revert s1. induction ops as [|o ops IH] using rev_ind; intros s1 Hrun Hlen.
  - injection Hrun as <-. exists (history s), [].
    rewrite app_nil_r. repeat split; congruence.
  - rewrite succeed_all_snoc in Hrun. rewrite length_app in Hlen. simpl in Hlen.
    destruct (succeed_all ops s) as [s0|] eqn:E0; [|discriminate].
    simpl in Hrun. destruct (IH s0 eq_refl) as (h & snaps & Hh & Hn & Hhd); [lia|].
    apply succeed_history in Hrun. rewrite Hh in Hrun.
    destruct (pushed_keeps_recent h snaps (snapshot_of s0)) as [h' Hp]; [lia|].
    exists h', (snaps ++ [snapshot_of s0]). rewrite Hrun, Hp.
    split; [reflexivity|]. split.
    + rewrite !length_app. simpl. lia.
    + intros _. destruct ops as [|o' ops'].
      * injection E0 as <-. destruct snaps; [reflexivity | discriminate].
      * destruct snaps as [|y snaps]; [discriminate|].
        simpl. apply Hhd. discriminate.
Qed.

Lemma undo_snoc s h x :
  history s = h ++ [x] → undo s = Returns true (restored x h s).
Proof.
  intros H. unfold undo. rewrite H, last_snoc, removelast_last. reflexivity.
Qed.

Lemma undo_times_restores snaps x h s1 :
  history s1 = h ++ x :: snaps →
  undo_times (S (length snaps)) s1 = restored x h s1.
Proof.
  revert s1. induction snaps as [|y snaps IH] using rev_ind; intros s1 H.
  - simpl. rewrite (undo_snoc s1 h x H). reflexivity.
  - rewrite length_app, Nat.add_comm. cbn [length Nat.add undo_times].
    change (S (length snaps)) with (S (length snaps)).
    rewrite (undo_snoc s1 (h ++ x :: snaps) y).
    2:{ rewrite H, <- app_assoc. reflexivity. }
    cbn [final].
    change (undo_times (S (length snaps))
              (restored y (h ++ x :: snaps) s1) = restored x h s1).
    rewrite IH; reflexivity.
Qed.

Lemma json_pile_defined (p : pile) : Undefined ∉ p → json_pile p = p.
Proof.
  induction p as [|x p IH]; intros H; [reflexivity|].
  unfold json_pile in *. rewrite fmap_cons. f_equal.
  - destruct x; try reflexivity. exfalso. apply H. left.
  - apply IH. intros Hin. apply H. right. exact Hin.
Qed.

Lemma json_piles_defined (ps : list pile) :
  Undefined ∉ concat ps → json_pile <$> ps = ps.
Proof.
  induction ps as [|p ps IH]; intros H; [reflexivity|].
  rewrite fmap_cons. simpl in H. f_equal.
  - apply json_pile_defined. intros Hin. apply H, elem_of_app. auto.
  - apply IH. intros Hin. apply H, elem_of_app. auto.
Qed.

Lemma restored_snapshot s h s1 :
  Undefined ∉ all_slots s → same_position s (restored (snapshot_of s) h s1).
Proof.
  unfold all_slots. intros H.
  rewrite !elem_of_app in H.
  unfold same_position, restored, snapshot_of. simpl.
  rewrite !json_pile_defined, !json_piles_defined by tauto.
  repeat split; reflexivity.
Qed.

Lemma succeed_all_app ops1 ops2 s :
  succeed_all (ops1 ++ ops2) s = succeed_all ops1 s ≫= succeed_all ops2.
Proof.
  revert s. induction ops1 as [|o ops1 IH]; intros s; simpl.
  - destruct (succeed_all ops2 s); reflexivity.
  - destruct (succeed o s) as [s1|]; simpl; [apply IH | reflexivity].
Qed.

Lemma pushed_bounded (h : list snapshot) (x : snapshot) :
  (length h ≤ 50)%nat → (length (pushed h x) ≤ 50)%nat.
Proof.
  intros H. unfold pushed. cbv zeta.
  destruct (Nat.ltb_spec 50 (length (h ++ [x]))) as [Hlt|Hge]; [|exact Hge].
  rewrite length_app in Hlt. simpl in Hlt.
  destruct h as [|y h]; simpl in *; [lia|]. rewrite length_app. simpl. lia.
Qed.

Lemma succeed_all_bounded ops s s1 :
  succeed_all ops s = Some s1 → (length (history s) ≤ 50)%nat →
  (length (history s1) ≤ 50)%nat.
Proof.
  revert s. induction ops as [|o ops IH]; intros s; simpl.
  - intros [= <-] H. exact H.
  - destruct (succeed o s) as [s0|] eqn:E; simpl; [|discriminate].
    intros Hrun H. apply (IH s0 Hrun).
    rewrite (succeed_history o s s0 E). apply pushed_bounded, H.
Qed.

Lemma undo_times_add (a b : nat) (s : state) :
  undo_times (a + b) s = undo_times b (undo_times a s).
Proof.
  revert s. induction a as [|a IH]; intros s; [reflexivity|].
  cbn [Nat.add undo_times]. apply IH.
Qed.

Lemma undo_returns_add (a b : nat) (s : state) :
  undo_returns (a + b) s = undo_returns a s ++ undo_returns b (undo_times a s).
Proof.
  revert s. induction a as [|a IH]; intros s; [reflexivity|].
  cbn [Nat.add undo_times undo_returns].
  assert (H : ∃ b0 s0, undo s = Returns b0 s0).
  { unfold undo. destruct (last (history s)); eexists _, _; reflexivity. }
  destruct H as (b0 & s0 & ->). cbn [final app]. rewrite IH. reflexivity.
Qed.

(** With snapshots to go back to, [undo] returns [true]. *)
Lemma undo_returns_true snaps h s1 :
  history s1 = h ++ snaps →
  undo_returns (length snaps) s1 = replicate (length snaps) true.
Proof.
  revert s1. induction snaps as [|y snaps IH] using rev_ind; intros s1 H;
    [reflexivity|].
  rewrite length_app, Nat.add_comm. cbn [length Nat.add undo_returns replicate].
  rewrite (undo_snoc s1 (h ++ snaps) y) by (rewrite H, <- app_assoc; reflexivity).
  f_equal. apply IH. reflexivity.
Qed.

(** With an empty history, [undo] returns [false] and changes nothing. *)
Lemma undo_nothing_left (k : nat) (s : state) :
  history s = [] →
  undo_times k s = s ∧ undo_returns k s = replicate k false.
Proof.
  intros H. induction k as [|k [IH1 IH2]]; [split; reflexivity|].
  cbn [undo_times undo_returns replicate]. unfold undo. rewrite H.
  cbn [last final]. rewrite IH1, IH2. split; reflexivity.
Qed.

(** C2 (amended). After [n ≤ 50] successful operations ([drawFromStock] or
    [moveCards] returning [true], [tryAutoMove] returning a destination)
    from a state whose piles hold no [undefined], [n] calls of [undo] all
    return [true] and give back the stock, waste, foundations, tableau,
    move count and score of the starting state.  After [n > 50] successful
    operations from a state whose history holds at most 50 snapshots, only
    the last 50 snapshots are left: of the [n] calls of [undo] the first 50
    return [true] and the other [n - 50] return [false], and the state
    reached is the one restored from the snapshot taken after the first
    [n - 50] operations, with an empty history. *)
Theorem undo_reverses_run (ops : list op) (s s1 : state) :
  succeed_all ops s = Some s1 →
  ((length ops ≤ 50)%nat →
   undo_returns (length ops) s1 = replicate (length ops) true
   ∧ (Undefined ∉ all_slots s →
      same_position s (undo_times (length ops) s1)))
  ∧ ((50 < length ops)%nat → (length (history s) ≤ 50)%nat →
     ∃ mid, succeed_all (take (length ops - 50) ops) s = Some mid
            ∧ undo_returns (length ops) s1
              = replicate 50 true ++ replicate (length ops - 50) false
            ∧ undo_times (length ops) s1 = restored (snapshot_of mid) [] s1).
Proof.
  intros Hrun. split.
  - intros Hlen.
    destruct (succeed_all_history ops s s1 Hrun Hlen) as (h & snaps & Hh & Hn & Hhd).
    split; [rewrite <- Hn; apply (undo_returns_true snaps h s1 Hh)|].
    intros Hdef. destruct ops as [|o ops].
    + injection Hrun as <-. simpl. repeat split; reflexivity.
    + destruct snaps as [|x snaps]; [discriminate|].
      specialize (Hhd ltac:(discriminate)). injection Hhd as ->.
      simpl in Hn. injection Hn as Hn.
      cbn [length]. rewrite <- Hn, (undo_times_restores snaps _ h s1 Hh).
      apply restored_snapshot, Hdef.
  - intros Hlen Hb.
    set (k := (length ops - 50)%nat).
    rewrite <- (take_drop k ops), succeed_all_app in Hrun.
    destruct (succeed_all (take k ops) s) as [mid|] eqn:Emid; [|discriminate].
    simpl in Hrun. exists mid. split; [reflexivity|].
    assert (Hl50 : length (drop k ops) = 50%nat)
      by (rewrite length_drop; unfold k; lia).
    destruct (succeed_all_history (drop k ops) mid s1 Hrun) as (h & snaps & Hh & Hn & Hhd);
      [lia|].
    pose proof (succeed_all_bounded _ _ _ Emid Hb) as Hbm.
    pose proof (succeed_all_bounded _ _ _ Hrun Hbm) as Hb1.
    rewrite Hh, length_app, Hn, Hl50 in Hb1.
    destruct h as [|? ?]; [|simpl in Hb1; lia]. cbn [app] in Hh.
    rewrite Hl50 in Hn.
    destruct snaps as [|x snaps]; [discriminate|].
    specialize (Hhd ltac:(intros E; rewrite E in Hl50; discriminate)).
    injection Hhd as ->. simpl in Hn. injection Hn as Hn.
    replace (length ops) with (50 + k)%nat by (unfold k; lia).
    rewrite undo_times_add, undo_returns_add.
    assert (E50 : undo_times 50 s1 = restored (snapshot_of mid) [] s1).
    { rewrite <- Hn. apply (undo_times_restores snaps _ [] s1 Hh). }
    assert (R50 : undo_returns 50 s1 = replicate 50 true).
    { change 50%nat with (S 49) at 1 2. rewrite <- Hn.
      apply (undo_returns_true (snapshot_of mid :: snaps) [] s1 Hh). }
    rewrite E50, R50.
    destruct (undo_nothing_left k (restored (snapshot_of mid) [] s1) eq_refl)
      as [-> ->].
    replace (50 + k - 50)%nat with k by lia. split; reflexivity.
Qed.

(** Four moves undone; and 51 draws on a stock of one card, after which
    the fifty-first [undo] returns [false]. *)
Lemma undo_reverses_run_witness :
  (∃ s1, succeed_all four_moves ace_or_eight = Some s1
         ∧ moves s1 = 3
         ∧ undo_returns 4 s1 = [true; true; true; true]
         ∧ same_position ace_or_eight (undo_times 4 s1))
  ∧ (∃ s1, succeed_all (replicate 51 (Draw standard_draw1)) lone_stock_card
           = Some s1
           ∧ undo_returns 51 s1 = replicate 50 true ++ [false]).
Proof.
  split.
  - eexists. split; [vm_compute; reflexivity|]. split; [reflexivity|].
    destruct (undo_reverses_run four_moves ace_or_eight _ ltac:(vm_compute; reflexivity))
      as [H _].
    destruct H as [Hr Hs]; [vm_compute; lia|].
    split; [exact Hr|]. apply Hs.
    apply (bool_decide_unpack _). vm_compute. exact I.
  - eexists. split; [vm_compute; reflexivity|].
    destruct (undo_reverses_run (replicate 51 (Draw standard_draw1))
                lone_stock_card _ ltac:(vm_compute; reflexivity))
      as [_ H].
    destruct H as (mid & _ & Hr & _); [vm_compute; lia | vm_compute; lia |].
    exact Hr.
Defined.

(** C2 as stated fails beyond the capacity of the history: after 51
    successful draws (draw, reset, draw, ...) on a stock of one card, 51
    undos end in the state after the first draw, not the starting state. *)
Lemma undo_beyond_capacity :
  ∃ s1, succeed_all (replicate 51 (Draw standard_draw1)) lone_stock_card = Some s1
        ∧ moves (undo_times 51 s1) = 1
        ∧ stock (undo_times 51 s1) = []
        ∧ ¬ same_position lone_stock_card (undo_times 51 s1).
Proof.
  eexists. split; [vm_compute; reflexivity|].
  split; [vm_compute; reflexivity|]. split; [vm_compute; reflexivity|].
  intros (Hst & _). revert Hst. vm_compute. discriminate.
Qed.

(** ** The partition invariant (C1) *)

Global Instance same_cards_equiv : Equivalence same_cards.
Proof.
  unfold same_cards. split.
  - intros l. reflexivity.
  - intros l l' H. symmetry. exact H.
  - intros l1 l2 l3 H1 H2. etransitivity; eassumption.
Qed.

Global Instance same_cards_app :
  Proper (same_cards ==> same_cards ==> same_cards) app.
Proof.
  unfold same_cards. intros a a' Ha b b' Hb.
  rewrite !fmap_app, Ha, Hb. reflexivity.
Qed.

Global Instance full_deck_same_cards : Proper (same_cards ==> iff) full_deck.
Proof.
  unfold same_cards, full_deck. intros l l' H. rewrite H. reflexivity.
Qed.

Lemma same_cards_Permutation (l l' : pile) : l ≡ₚ l' → same_cards l l'.
Proof. unfold same_cards. intros H. rewrite H. reflexivity. Qed.

Lemma same_cards_keys (l l' : pile) :
  slot_key <$> l = slot_key <$> l' → same_cards l l'.
Proof. unfold same_cards. intros ->. reflexivity. Qed.

Lemma same_cards_json (l : pile) : same_cards (json_pile l) l.
Proof.
  apply same_cards_keys. unfold json_pile. rewrite <- list_fmap_compose.
  apply list_fmap_ext. intros _ [| |c] _; reflexivity.
Qed.

Lemma same_cards_concat_json (ps : list pile) :
  same_cards (concat (json_pile <$> ps)) (concat ps).
Proof.
  induction ps as [|p ps IH]; [reflexivity|].
  rewrite fmap_cons. simpl. rewrite IH, same_cards_json. reflexivity.
Qed.

Lemma deck_keys_all_cards : None ∉ deck_keys.
Proof. apply (bool_decide_unpack _). vm_compute. exact I. Qed.

Lemma full_deck_card (l : pile) (x : slot) :
  full_deck l → x ∈ l → ∃ c, x = Card c.
Proof.
  unfold full_deck. intros Hd Hx. destruct x as [| |c]; [| |eauto]; exfalso;
    apply deck_keys_all_cards; rewrite <- Hd;
    apply (list_elem_of_fmap_2 slot_key) in Hx; exact Hx.
Qed.

Lemma last_elem_of {A} (l : list A) (x : A) : last l = Some x → x ∈ l.
Proof.
  destruct l as [|y l] using rev_ind; [discriminate|].
  rewrite last_snoc. intros [= ->]. apply elem_of_app. right. left.
Qed.

Lemma last_removelast {A} (l : list A) (x : A) :
  last l = Some x → l = removelast l ++ [x].
Proof.
  destruct l as [|y l] using rev_ind; [discriminate|].
  rewrite last_snoc, removelast_last. intros [= ->]. reflexivity.
Qed.

(** *** Snapshots and undo *)

Lemma snapshot_of_cards s : same_cards (snapshot_slots (snapshot_of s)) (all_slots s).
Proof.
  unfold snapshot_slots, snapshot_of, all_slots. simpl.
  rewrite !same_cards_json, !same_cards_concat_json. reflexivity.
Qed.

Lemma saveState_sound s : sound s → sound (saveState s).
Proof.
  intros [Hp Hh]. split; [exact Hp|].
  unfold saveState. simpl.
  assert (Forall (λ x, full_deck (snapshot_slots x))
                 (history s ++ [snapshot_of s])) as H.
  { apply Forall_app. split; [exact Hh|].
    apply Forall_singleton. cbv beta. rewrite snapshot_of_cards. exact Hp. }
  destruct (50 <? _)%nat; [|exact H].
  destruct (history s ++ [snapshot_of s]); [constructor|].
  simpl. inversion H; assumption.
Qed.

Lemma undo_sound s : sound s → sound (final (undo s)).
Proof.
  intros [Hp Hh]. unfold undo.
  destruct (last (history s)) as [x|] eqn:E; [|split; assumption].
  rewrite (last_removelast _ _ E) in Hh. apply Forall_app in Hh as [Hh Hx].
  apply (proj1 (Forall_singleton _ _)) in Hx. split; [exact Hx | exact Hh].
Qed.

(** *** Drawing *)

Lemma flip_down_cards_kept (l : pile) :
  slot_key <$> (flip_down l).1 = slot_key <$> l.
Proof.
  induction l as [|[| |c] l IH]; try reflexivity.
  cbn [flip_down]. destruct (flip_down l) as [r ok]. cbn [fst] in *.
  rewrite !fmap_cons, IH. reflexivity.
Qed.

Lemma draw_loop_sound n s : sound s → sound (final (draw_loop n s)).
Proof.
  revert s. induction n as [|n IH]; intros s Hs; [exact Hs|].
  cbn [draw_loop]. unfold js_pop.
  destruct (last (stock s)) as [x|] eqn:E.
  - destruct Hs as [Hp Hh].
    destruct (full_deck_card _ x Hp) as [c ->].
    { unfold all_slots. apply elem_of_app. left. apply last_elem_of, E. }
    simpl. apply IH. split; [|exact Hh].
    unfold all_slots in *. simpl.
    rewrite (last_removelast _ _ E) in Hp.
    unfold full_deck in *. rewrite <- Hp, !fmap_app. simpl.
    solve_Permutation.
  - simpl. apply last_None_nil in E.
    destruct Hs as [Hp Hh]. split; [|exact Hh].
    unfold all_slots in *. simpl. rewrite E in *. exact Hp.
Qed.

Lemma drawFromStock_sound cfg s : sound s → sound (final (drawFromStock cfg s)).
Proof.
  intros Hs. unfold drawFromStock.
  destruct (length (stock s) =? 0)%nat eqn:Est.
  - destruct (length (waste s) =? 0)%nat; [exact Hs|].
    apply length_zero_iff in Est.
    apply saveState_sound in Hs. destruct Hs as [Hp Hh].
    change (stock (saveState s)) with (stock s) in *.
    pose proof (flip_down_cards_kept (reverse (waste (saveState s)))) as Hk.
    destruct (flip_down (reverse (waste (saveState s)))) as [w ok].
    simpl in Hk.
    assert (Hw : same_cards w (waste (saveState s))).
    { unfold same_cards. rewrite Hk, fmap_reverse, reverse_Permutation.
      reflexivity. }
    assert (Hd : full_deck (w ++ concat (foundations (saveState s))
                              ++ concat (tableau (saveState s)))).
    { unfold all_slots in Hp. change (stock (saveState s)) with (stock s) in Hp.
      rewrite Est in Hp. rewrite Hw. exact Hp. }
    destruct ok.
    + destruct (String.eqb (scoring cfg) "vegas"); (split; [|exact Hh]);
        unfold all_slots; simpl; exact Hd.
    + split; [|exact Hh]. unfold all_slots. simpl.
      change (stock s) with (stock s). rewrite Est. exact Hd.
  - apply saveState_sound in Hs. revert Hs. generalize (saveState s).
    intros s1 Hs. rewrite bind_unfold.
    pose proof (draw_loop_sound
      (Z.to_nat (Z.min (drawCount cfg) (Z.of_nat (length (stock s1))))) s1 Hs) as H.
    destruct (draw_loop _ s1) as [[] s2|s2]; exact H.
Qed.

(** *** Moving *)

Lemma concat_insert_cards (l : list pile) (i : nat) (p q r r' : pile) :
  l !! i = Some p → same_cards (q ++ r) (p ++ r') →
  same_cards (concat (<[i:=q]> l) ++ r) (concat l ++ r').
Proof.
  intros Hl H. pose proof (lookup_lt_Some _ _ _ Hl) as Hlt.
  rewrite insert_take_drop by exact Hlt.
  rewrite <- (take_drop_middle l i p Hl) at 3.
  rewrite !concat_app. simpl.
  unfold same_cards in *. rewrite !fmap_app in *.
  etransitivity; [|etransitivity].
  2:{ apply (Permutation_app_head
               ((slot_key <$> concat (take i l))
                ++ (slot_key <$> concat (drop (S i) l))) H). }
  - solve_Permutation.
  - solve_Permutation.
Qed.

Lemma js_store_cards (l : list pile) (i : option Z) (p q r r' : pile) :
  js_index l i = Some p → same_cards (q ++ r) (p ++ r') →
  same_cards (concat (js_store l i q) ++ r) (concat l ++ r').
Proof.
  intros Hl H. apply js_index_Some in Hl as (z & -> & _ & Hl).
  simpl. eapply concat_insert_cards; eassumption.
Qed.

Lemma nonempty_snoc {A} (l : list A) :
  l ≠ [] → ∃ l' x, l = l' ++ [x].
Proof.
  destruct l as [|x l] using rev_ind; [congruence | eauto].
Qed.

Lemma remove_from_source_cards (l : loc) (s : state) :
  takes_cards s l → full_deck (all_slots s) →
  ∃ cards b s',
    remove_from_source l s = Returns (cards, b) s'
    ∧ same_cards (all_slots s' ++ cards) (all_slots s)
    ∧ history s' = history s
    ∧ length (foundations s') = length (foundations s)
    ∧ length (tableau s') = length (tableau s).
Proof.
  intros Htake Hd. unfold remove_from_source.
  destruct Htake as [[Htag Hne]|[(Htag & p & Hp & Hne)|[Htag [p Hp]]]];
    rewrite Htag; cbn [String.eqb Ascii.eqb Bool.eqb andb].
  - apply nonempty_snoc in Hne as (w & x & Hw). rewrite Hw, js_pop_snoc.
    do 3 eexists. split; [reflexivity|]. repeat split.
    unfold all_slots. simpl. rewrite Hw.
    apply same_cards_Permutation. solve_Permutation.
  - rewrite Hp. apply nonempty_snoc in Hne as (p' & x & Hp').
    rewrite Hp', js_pop_snoc.
    do 3 eexists. split; [reflexivity|]. simpl.
    split; [|split; [reflexivity|split; [apply length_js_store|reflexivity]]].
    unfold all_slots. simpl.
    assert (H : same_cards (concat (js_store (foundations s) (pileIndex l) p') ++ [x])
                           (concat (foundations s) ++ [])).
    { eapply js_store_cards; [exact Hp|]. rewrite Hp', app_nil_r. reflexivity. }
    rewrite app_nil_r in H. rewrite <- H.
    apply same_cards_Permutation. solve_Permutation.
  - rewrite Hp. unfold js_splice.
    set (k := splice_start (length p) (index l)).
    assert (Hfin : ∀ (b : bool) (q : pile),
      same_cards q (take k p) →
      ∃ (cards : pile) (b0 : bool) s',
        Returns (drop k p, b)
          (set_tableau (js_store (tableau s) (pileIndex l) q) s)
        = Returns (cards, b0) s'
        ∧ same_cards (all_slots s' ++ cards) (all_slots s)
        ∧ history s' = history s
        ∧ length (foundations s') = length (foundations s)
        ∧ length (tableau s') = length (tableau s)).
    { intros b q Hq. do 3 eexists. split; [reflexivity|]. simpl.
      split; [|split; [reflexivity|split; [reflexivity|apply length_js_store]]].
      unfold all_slots. simpl.
      assert (H : same_cards (concat (js_store (tableau s) (pileIndex l) q)
                              ++ drop k p)
                             (concat (tableau s) ++ [])).
      { eapply js_store_cards; [exact Hp|].
        rewrite Hq, take_drop, app_nil_r. reflexivity. }
      rewrite app_nil_r in H. rewrite <- H, !app_assoc. reflexivity. }
    destruct (0 <? length (take k p))%nat eqn:E; [|apply Hfin; reflexivity].
    destruct (last (take k p)) as [x|] eqn:El.
    2:{ apply last_None_nil in El. rewrite El in E. discriminate. }
    destruct (full_deck_card _ x Hd) as [top ->].
    { unfold all_slots. rewrite !elem_of_app. right. right. right.
      apply list_elem_of_In, in_concat. exists p. split.
      - apply js_index_Some in Hp as (z & _ & _ & Hp).
        apply list_elem_of_In. eapply list_elem_of_lookup_2, Hp.
      - apply list_elem_of_In. eapply (subseteq_take k p).
        apply last_elem_of. exact El. }
    destruct (negb (faceUp top)); [|apply Hfin; reflexivity].
    apply Hfin. rewrite (last_removelast _ _ El) at 2.
    apply same_cards_keys. rewrite !fmap_app. reflexivity.
Qed.

Lemma add_to_destination_cards cfg (l : loc) (cards : pile) (b : bool) (s : state) :
  receives_cards s l →
  ∃ s', add_to_destination cfg l cards b s = Returns tt s'
        ∧ same_cards (all_slots s') (all_slots s ++ cards)
        ∧ history s' = history s.
Proof.
  intros Hrec. unfold add_to_destination.
  destruct Hrec as [[Htag [p Hp]]|[Htag [p Hp]]];
    rewrite Htag; cbn [String.eqb Ascii.eqb Bool.eqb andb]; rewrite Hp.
  - assert (H : same_cards
                  (concat (js_store (foundations s) (pileIndex l) (p ++ cards)) ++ [])
                  (concat (foundations s) ++ cards)).
    { eapply js_store_cards; [exact Hp|]. rewrite app_nil_r. reflexivity. }
    rewrite app_nil_r in H.
    eexists. split; [reflexivity|].
    split; [|destruct (String.eqb (scoring cfg) "standard");
              [|destruct (String.eqb (scoring cfg) "vegas")]; reflexivity].
    assert (Hs : same_cards
              (stock s ++ waste s
               ++ concat (js_store (foundations s) (pileIndex l) (p ++ cards))
               ++ concat (tableau s))
              (all_slots s ++ cards)).
    { unfold all_slots. rewrite H. apply same_cards_Permutation.
      solve_Permutation. }
    destruct (String.eqb (scoring cfg) "standard");
      [|destruct (String.eqb (scoring cfg) "vegas")]; exact Hs.
  - assert (H : same_cards
                  (concat (js_store (tableau s) (pileIndex l) (p ++ cards)) ++ [])
                  (concat (tableau s) ++ cards)).
    { eapply js_store_cards; [exact Hp|]. rewrite app_nil_r. reflexivity. }
    rewrite app_nil_r in H.
    eexists. split; [reflexivity|].
    split; [|destruct (b && String.eqb (scoring cfg) "standard"); reflexivity].
    assert (Hs : same_cards
              (stock s ++ waste s ++ concat (foundations s)
               ++ concat (js_store (tableau s) (pileIndex l) (p ++ cards)))
              (all_slots s ++ cards)).
    { unfold all_slots. rewrite H, !app_assoc. reflexivity. }
    destruct (b && String.eqb (scoring cfg) "standard"); exact Hs.
Qed.

Lemma receives_cards_lengths s s' l :
  length (foundations s') = length (foundations s) →
  length (tableau s') = length (tableau s) →
  receives_cards s l → receives_cards s' l.
Proof.
  intros Hf Ht [[Htag H]|[Htag H]]; [left|right]; (split; [exact Htag|]);
    apply js_index_is_Some; apply js_index_is_Some in H;
    destruct H as (z & Hz & Hrange); exists z; (split; [exact Hz|]);
    rewrite ?Hf, ?Ht; exact Hrange.
Qed.

Lemma moveCards_sound cfg fromLocation toLocation s :
  sound s → movable s fromLocation toLocation →
  sound (final (moveCards cfg fromLocation toLocation s)).
Proof.
  intros Hs [Hfrom Hto]. apply saveState_sound in Hs. destruct Hs as [Hd Hh].
  unfold moveCards. rewrite bind_unfold. unfold modify at 1.
  change (all_slots (saveState s)) with (all_slots s) in Hd.
  destruct (remove_from_source_cards fromLocation (saveState s))
    as (cards & b & s2 & E2 & Hc2 & Hh2 & Hlf & Hlt); [exact Hfrom | exact Hd |].
  rewrite bind_unfold, E2. cbn [fst snd].
  destruct (add_to_destination_cards cfg toLocation cards b s2)
    as (s3 & E3 & Hc3 & Hh3).
  { eapply receives_cards_lengths; [exact Hlf | exact Hlt | exact Hto]. }
  rewrite bind_unfold, E3. split.
  - change (full_deck (all_slots s3)). rewrite Hc3, Hc2. exact Hd.
  - change (Forall (λ x, full_deck (snapshot_slots x)) (history s3)).
    rewrite Hh3, Hh2. exact Hh.
Qed.

(** *** Auto-move *)

Lemma findIndex_from_found cid (p : pile) (i k : Z) :
  findIndex_from cid p i = Ok k → k ≠ -1 → p ≠ [].
Proof. destruct p; simpl; [intros [= <-] H; congruence | discriminate]. Qed.

Lemma find_in_piles_found tag (piles : list pile) cid ixs l :
  find_in_piles tag piles cid ixs = Ok (Some l) →
  location l = tag
  ∧ ∃ p, js_index piles (pileIndex l) = Some p ∧ p ≠ [].
Proof.
  induction ixs as [|i rest IH]; simpl; [discriminate|].
  destruct (js_get piles i) as [p|] eqn:Ep; [|discriminate].
  destruct (findIndex cid p) as [k|] eqn:Ek; simpl; [|discriminate].
  destruct (Z.eqb_spec k (-1)) as [->|Hk]; simpl; [exact IH|].
  intros [= <-]. split; [reflexivity|]. exists p. split; [exact Ep|].
  eapply findIndex_from_found; eassumption.
Qed.

Lemma findCard_takes_cards s cid l :
  findCard s cid = Ok (Some l) → takes_cards s l.
Proof.
  unfold findCard.
  destruct (findIndex cid (waste s)) as [k|] eqn:Ek; cbn [rbind]; [|discriminate].
  destruct (Z.eqb_spec k (-1)) as [->|Hk]; cbn [negb].
  - destruct (find_in_piles "foundation" (foundations s) cid (seqZ 0 4))
      as [[lf|]|] eqn:Ef; cbn [rbind]; [| |discriminate].
    + intros [= <-]. apply find_in_piles_found in Ef as [Htag Hp].
      right. left. auto.
    + intros Et. apply find_in_piles_found in Et as (Htag & p & Hp & _).
      right. right. split; [exact Htag | eauto].
  - intros [= <-]. left. split; [reflexivity|].
    eapply findIndex_from_found; eassumption.
Qed.

Lemma auto_destination_receives s c d :
  auto_destination s c d → receives_cards s d.
Proof.
  intros [[-> H]|(i & -> & H)]; [left|right]; (split; [reflexivity|]); simpl.
  - unfold canPlaceOnFoundation in H.
    destruct (negb _); [discriminate|].
    destruct (js_get (foundations s) _); [eauto | discriminate].
  - unfold canPlaceOnTableau in H.
    destruct (js_get (tableau s) i); [eauto | discriminate].
Qed.

Lemma tryAutoMove_sound cfg cid s :
  sound s → sound (final (tryAutoMove cfg cid s)).
Proof.
  intros Hs.
  destruct (tryAutoMove_cases cfg cid s)
    as [[H|H]|(l & c & d & Hf & _ & Hd & H)]; rewrite H; try exact Hs.
  rewrite bind_unfold.
  pose proof (moveCards_sound cfg l d s Hs) as Hm.
  destruct (moveCards cfg l d s); apply Hm;
    (split; [eapply findCard_takes_cards, Hf
            | eapply auto_destination_receives, Hd]).
Qed.


(** ** The generator (C5) *)

Lemma lcg_never_all_ones (s d : Z) :
  0 ≤ s → s * 1103515245 + 12345 < 2 ^ 53 →
  s * 1103515245 + 12345 = 2 ^ 31 * d + (2 ^ 31 - 1) → False.
Proof. intros H0 H1 H2. change (2 ^ 53) with 9007199254740992 in H1. change (2 ^ 31) with 2147483648 in H2. lia. Qed.

Lemma Qeq_inject_Z (x : Q) (z : Z) :
  (x == inject_Z z)%Q ↔ Qnum x = z * Zpos (Qden x).
Proof. unfold Qeq. simpl. rewrite Z.mul_1_r. reflexivity. Qed.

Lemma round_pos_exact (z : Z) :
  0 < z < 2 ^ 53 → (Double.round_pos z 1 == inject_Z z)%Q.
Proof.
  intros [Hz0 Hz1].
  assert (HL : 0 ≤ Z.log2 z < 53).
  { split; [apply Z.log2_nonneg | apply Z.log2_lt_pow2; lia]. }
  pose proof (Z.log2_spec z Hz0) as [Hlo _].
  unfold Double.round_pos, Double.ilog2, Double.emin.
  change (Z.log2 1) with 0. rewrite Z.sub_0_r.
  replace (Z.max (- Z.log2 z) 0) with 0 by lia.
  replace (Z.max (Z.log2 z) 0) with (Z.log2 z) by lia.
  change (2 ^ 0) with 1. rewrite Z.mul_1_r, Z.mul_1_l.
  destruct (Z.ltb_spec z (2 ^ Z.log2 z)) as [Hlt|_]; [lia|].
  replace (Z.max (Z.log2 z - 52) (-1074)) with (Z.log2 z - 52) by lia.
  set (e := Z.log2 z - 52).
  replace (Z.max (- e) 0) with (- e) by lia.
  replace (Z.max e 0) with 0 by lia.
  change (2 ^ 0) with 1. rewrite Z.div_1_r, Z.mod_1_r.
  change (2 * 0 <? 1) with true. cbv iota.
  assert (Hp : 0 < 2 ^ (- e)) by (apply Z.pow_pos_nonneg; lia).
  destruct (Z.leb_spec 0 e) as [He|He].
  - assert (e = 0) as -> by lia. change (2 ^ (- 0)) with 1.
    change (2 ^ 0) with 1. rewrite !Z.mul_1_r. reflexivity.
  - apply Qeq_inject_Z. simpl. rewrite Z2Pos.id by exact Hp. reflexivity.
Qed.

Lemma round_exact (x : Q) (z : Z) :
  (x == inject_Z z)%Q → 0 ≤ z < 2 ^ 53 → (Double.round x == inject_Z z)%Q.
Proof.
  intros Hx [Hz0 Hz1]. apply Qeq_inject_Z in Hx.
  unfold Double.round. rewrite Hx.
  set (d := Zpos (Qden x)). assert (Hd : 0 < d) by (subst d; lia).
  replace (Z.gcd (z * d) d) with d
    by (rewrite Z.gcd_comm, (Z.mul_comm z d), Z.gcd_mul_diag_l; lia).
  rewrite Z.div_mul, Z.div_same by lia.
  destruct z as [|p|p]; [reflexivity | | lia].
  apply round_pos_exact. lia.
Qed.

Lemma ToInt32_integer (x : Q) (z : Z) :
  (x == inject_Z z)%Q →
  Double.ToInt32 x = (z + 2 ^ 31) mod 2 ^ 32 - 2 ^ 31.
Proof.
  intros Hx. apply Qeq_inject_Z in Hx. unfold Double.ToInt32.
  rewrite Hx, Z.quot_mul by lia. reflexivity.
Qed.

Lemma band_low_31 (z : Z) :
  Z.land ((z + 2 ^ 31) mod 2 ^ 32 - 2 ^ 31) 2147483647 = z mod 2 ^ 31.
Proof.
  change 2147483647 with (Z.ones 31). rewrite Z.land_ones by lia.
  rewrite (Z.mod_eq (z + 2 ^ 31) (2 ^ 32)) by lia.
  replace (z + 2 ^ 31 - 2 ^ 32 * ((z + 2 ^ 31) / 2 ^ 32) - 2 ^ 31)
    with (z + (- 2 * ((z + 2 ^ 31) / 2 ^ 32)) * 2 ^ 31)
    by (change (2 ^ 32) with (2 * 2 ^ 31); ring).
  apply Z_mod_plus_full.
Qed.

(** The state update of [next], where the arithmetic is exact. *)
Lemma next_seed_exact (s : Z) :
  0 ≤ s → s * 1103515245 + 12345 < 2 ^ 53 →
  Double.band
    (Double.add (Double.mul (inject_Z s) (inject_Z 1103515245)) (inject_Z 12345))
    (inject_Z 2147483647)
  = (s * 1103515245 + 12345) mod 2 ^ 31.
Proof.
  intros H0 H1. unfold Double.band, Double.add, Double.mul.
  rewrite (ToInt32_integer _ (s * 1103515245 + 12345)).
  - rewrite (ToInt32_integer (inject_Z 2147483647) 2147483647) by reflexivity.
    change ((2147483647 + 2 ^ 31) mod 2 ^ 32 - 2 ^ 31) with 2147483647.
    apply band_low_31.
  - apply round_exact; [|lia].
    rewrite (round_exact _ (s * 1103515245));
      [|rewrite inject_Z_mult; reflexivity|lia].
    rewrite inject_Z_plus. reflexivity.
Qed.

Lemma round_pos_below_one (n d : Z) :
  0 < n < d → d < 2 ^ 52 →
  (0 <= Double.round_pos n d)%Q ∧ (Double.round_pos n d < 1)%Q.
Proof.
  intros [Hn Hnd] Hd.
  assert (Hk : Double.ilog2 n d ≤ 0).
  { unfold Double.ilog2.
    pose proof (Z.log2_le_mono n d ltac:(lia)).
    destruct (_ <? _); lia. }
  unfold Double.round_pos, Double.emin.
  set (e := Z.max (Double.ilog2 n d - 52) (-1074)).
  assert (He : -1074 ≤ e ≤ -52) by lia.
  replace (Z.max (- e) 0) with (- e) by lia.
  replace (Z.max e 0) with 0 by lia.
  change (2 ^ 0) with 1. rewrite Z.mul_1_r.
  assert (Hp : 2 ^ 52 ≤ 2 ^ (- e)) by (apply Z.pow_le_mono_r; lia).
  set (P := 2 ^ (- e)) in *.
  assert (Hq0 : 0 ≤ n * P / d) by (apply Z.div_pos; nia).
  assert (Hq1 : n * P / d < P - 1).
  { apply Z.div_lt_upper_bound; [lia|]. nia. }
  set (q := n * P / d) in *.
  set (m := if 2 * (n * P mod d) <? d then q
            else if d <? 2 * (n * P mod d) then q + 1
            else if Z.even q then q else q + 1).
  assert (Hm : 0 ≤ m < P).
  { subst m. repeat destruct (_ <? _); try destruct (Z.even q); lia. }
  destruct (Z.leb_spec 0 e); [lia|].
  unfold Qle, Qlt. simpl. rewrite Z2Pos.id by lia. lia.
Qed.

(** The value returned by [next] for a state below [2^31 - 1]. *)
Lemma next_value_range (s' : Z) :
  0 ≤ s' < 2147483647 →
  let x := Double.div (inject_Z s') (inject_Z 2147483647) in
  (0 <= x)%Q ∧ (x < 1)%Q.
Proof.
  intros [H0 H1]. unfold Double.div, Double.round.
  change (Qnum (inject_Z s' / inject_Z 2147483647)) with (s' * 1).
  change (Zpos (Qden (inject_Z s' / inject_Z 2147483647))) with 2147483647.
  rewrite Z.mul_1_r.
  pose proof (Z.gcd_divide_l s' 2147483647) as [n Hn].
  pose proof (Z.gcd_divide_r s' 2147483647) as [d Hd].
  pose proof (Z.gcd_nonneg s' 2147483647) as Hg0.
  set (g := Z.gcd s' 2147483647) in *.
  assert (Hg : 0 < g) by (destruct (Z.eq_dec g 0) as [E|E]; [rewrite E in Hd|]; lia).
  assert (En : s' / g = n) by (rewrite Hn; apply Z.div_mul; lia).
  assert (Ed : 2147483647 / g = d)
    by (transitivity (d * g / g); [f_equal; exact Hd | apply Z.div_mul; lia]).
  rewrite En, Ed.
  assert (0 ≤ n < d) by nia. assert (d ≤ 2147483647) by nia.
  destruct n as [|p|p]; [split; [apply Qle_refl | reflexivity] | | lia].
  apply round_pos_below_one; [lia|].
  change (2 ^ 52) with 4503599627370496. lia.
Qed.

(** C5 as stated fails: the value returned is the seed divided by
    [2^31 - 1], not by [2^31] (seed 0 gives 12345/2147483647); and past the
    exact range the product is rounded to binary64 before the reduction, so
    the new seed is not the residue modulo [2^31] (from 262857199, the
    state after the first call of a game seeded with 11982, the code goes
    to 712193280 where the formula gives 712193276). *)
Lemma next_departs_from_specified :
  ¬ ((seededRandom.next (seededRandom.mkRng 0)).1 == (next_as_specified 0).1)%Q
  ∧ ((seededRandom.next (seededRandom.mkRng 0)).1 * inject_Z 2147483647
     == Double.round (12345 # 2147483647) * inject_Z 2147483647)%Q
  ∧ seededRandom.seed (seededRandom.next (seededRandom.mkRng 262857199)).2
    = 712193280
  ∧ (next_as_specified 262857199).2 = 712193276.
Proof.
  split; [|split; [|split]].
  - intros H. apply Qeq_bool_iff in H. revert H. vm_compute. discriminate.
  - vm_compute. reflexivity.
  - vm_compute. reflexivity.
  - vm_compute. reflexivity.
Qed.


(** *** Every call of the generator *)

Lemma ilog2_upper (n d b : Z) :
  0 < n → 0 < d → 0 ≤ b → n < 2 ^ b * d → Double.ilog2 n d ≤ b.
Proof.
  intros Hn Hd Hb Hlt.
  pose proof (Z.log2_spec n Hn) as [Hn1 _].
  pose proof (Z.log2_spec d Hd) as [_ Hd2].
  pose proof (Z.log2_nonneg n). pose proof (Z.log2_nonneg d).
  assert (Hk0 : Z.log2 n - Z.log2 d ≤ b).
  { destruct (Z.le_gt_cases (Z.log2 n - Z.log2 d) b) as [|Hgt]; [assumption|].
    exfalso.
    assert (Hp : 2 ^ (Z.succ (Z.log2 d) + b) ≤ 2 ^ Z.log2 n)
      by (apply Z.pow_le_mono_r; lia).
    rewrite Z.pow_add_r in Hp by lia.
    assert (0 < 2 ^ b) by (apply Z.pow_pos_nonneg; lia).
    nia. }
  unfold Double.ilog2. destruct (_ <? _); lia.
Qed.

Lemma round_pos_fraction (n d b : Z) :
  0 < n → 0 < d → 0 ≤ b ≤ 51 → n < 2 ^ b * d →
  ∃ m t, 52 - b ≤ t
         ∧ Double.round_pos n d = Qmake m (Z.to_pos (2 ^ t))
         ∧ 0 ≤ m ∧ m * d ≤ n * 2 ^ t + d.
Proof.
  intros Hn Hd Hb Hlt.
  pose proof (ilog2_upper n d b Hn Hd ltac:(lia) Hlt) as Hk.
  unfold Double.round_pos, Double.emin.
  set (e := Z.max (Double.ilog2 n d - 52) (-1074)).
  assert (He : -1074 ≤ e ≤ b - 52) by lia.
  replace (Z.max (- e) 0) with (- e) by lia.
  replace (Z.max e 0) with 0 by lia.
  change (2 ^ 0) with 1. rewrite Z.mul_1_r.
  assert (Hp : 0 < 2 ^ (- e)) by (apply Z.pow_pos_nonneg; lia).
  set (P := 2 ^ (- e)) in *.
  assert (Hq0 : 0 ≤ n * P / d) by (apply Z.div_pos; nia).
  assert (Hq1 : d * (n * P / d) ≤ n * P) by (apply Z.mul_div_le; lia).
  set (q := n * P / d) in *.
  set (m := if 2 * (n * P mod d) <? d then q
            else if d <? 2 * (n * P mod d) then q + 1
            else if Z.even q then q else q + 1).
  assert (Hm : q ≤ m ≤ q + 1).
  { subst m. repeat destruct (_ <? _); try destruct (Z.even q); lia. }
  destruct (Z.leb_spec 0 e); [lia|].
  exists m, (- e). fold P. split; [lia|]. split; [reflexivity|]. split; nia.
Qed.

Lemma ilog2_integer (z : Z) : 0 < z → Double.ilog2 z 1 = Z.log2 z.
Proof.
  intros Hz. pose proof (Z.log2_spec z Hz) as [Hlo _].
  pose proof (Z.log2_nonneg z).
  unfold Double.ilog2. change (Z.log2 1) with 0. rewrite Z.sub_0_r.
  replace (Z.max (- Z.log2 z) 0) with 0 by lia.
  replace (Z.max (Z.log2 z) 0) with (Z.log2 z) by lia.
  change (2 ^ 0) with 1. rewrite Z.mul_1_r, Z.mul_1_l.
  destruct (Z.ltb_spec z (2 ^ Z.log2 z)); [lia | reflexivity].
Qed.

(** Past [2^53] a rounded integer is even. *)
Lemma round_pos_integer_even (z : Z) :
  2 ^ 53 ≤ z →
  ∃ z', Double.round_pos z 1 = inject_Z z' ∧ Z.even z' = true ∧ 2 ^ 53 ≤ z'.
Proof.
  intros Hz. assert (Hz0 : 0 < z) by (change (2 ^ 53) with 9007199254740992 in Hz; lia).
  pose proof (Z.log2_spec z Hz0) as [Hlo _].
  assert (HL : 53 ≤ Z.log2 z) by (apply Z.log2_le_pow2; lia).
  unfold Double.round_pos, Double.emin. rewrite (ilog2_integer z Hz0).
  set (e := Z.log2 z - 52) in *.
  replace (Z.max e (-1074)) with e by lia.
  replace (Z.max (- e) 0) with 0 by lia.
  replace (Z.max e 0) with e by lia.
  change (2 ^ 0) with 1. rewrite Z.mul_1_r, Z.mul_1_l.
  assert (Hp : 2 ≤ 2 ^ e).
  { change 2 with (2 ^ 1) at 1. apply Z.pow_le_mono_r; lia. }
  assert (Hq : 2 ^ 52 ≤ z / 2 ^ e).
  { apply Z.div_le_lower_bound; [lia|].
    replace (Z.log2 z) with (e + 52) in Hlo by lia.
    rewrite Z.pow_add_r in Hlo by lia. lia. }
  set (q := z / 2 ^ e) in *.
  set (m := if 2 * (z mod 2 ^ e) <? 2 ^ e then q
            else if 2 ^ e <? 2 * (z mod 2 ^ e) then q + 1
            else if Z.even q then q else q + 1).
  assert (Hm : q ≤ m).
  { subst m. repeat destruct (_ <? _); try destruct (Z.even q); lia. }
  destruct (Z.leb_spec 0 e); [|lia].
  exists (m * 2 ^ e). split; [reflexivity|]. split.
  - rewrite Z.even_mul, (Z.even_pow 2 e) by lia. apply orb_true_r.
  - change (2 ^ 53) with (2 ^ 52 * 2). nia.
Qed.

Lemma round_integer (x : Q) (z : Z) :
  (x == inject_Z z)%Q → 0 < z → Double.round x = Double.round_pos z 1.
Proof.
  intros Hx Hz. apply Qeq_inject_Z in Hx. unfold Double.round. rewrite Hx.
  set (d := Zpos (Qden x)). assert (Hd : 0 < d) by (subst d; lia).
  replace (Z.gcd (z * d) d) with d
    by (rewrite Z.gcd_comm, (Z.mul_comm z d), Z.gcd_mul_diag_l; lia).
  rewrite Z.div_mul, Z.div_same by lia.
  destruct z; [lia | reflexivity | lia].
Qed.

Lemma band_inject_Z (z : Z) :
  Double.band (inject_Z z) (inject_Z 2147483647) = z mod 2 ^ 31.
Proof.
  unfold Double.band.
  rewrite (ToInt32_integer (inject_Z z) z) by reflexivity.
  rewrite (ToInt32_integer (inject_Z 2147483647) 2147483647) by reflexivity.
  change ((2147483647 + 2 ^ 31) mod 2 ^ 32 - 2 ^ 31) with 2147483647.
  apply band_low_31.
Qed.

Lemma even_not_all_ones (z : Z) :
  Z.even z = true → 0 ≤ z mod 2 ^ 31 < 2147483647.
Proof.
  intros He. apply Z.even_spec in He as [t ->].
  pose proof (Z.mod_pos_bound (2 * t) (2 ^ 31) ltac:(lia)) as Hb.
  pose proof (Z.div_mod (2 * t) (2 ^ 31) ltac:(lia)) as Hdm.
  change (2 ^ 31) with 2147483648 in *. lia.
Qed.

(** The state after [next()] is never [0x7fffffff]. *)
Lemma next_seed_range (s : Z) :
  0 ≤ s →
  0 ≤ Double.band
        (Double.add (Double.mul (inject_Z s) (inject_Z 1103515245))
                    (inject_Z 12345))
        (inject_Z 2147483647) < 2147483647.
Proof.
  intros Hs.
  destruct (Z.lt_ge_cases (s * 1103515245 + 12345) (2 ^ 53)) as [Hsmall|Hbig].
  { rewrite (next_seed_exact s Hs Hsmall).
    pose proof (Z.mod_pos_bound (s * 1103515245 + 12345) (2 ^ 31) ltac:(lia)) as Hb.
    pose proof (Z.div_mod (s * 1103515245 + 12345) (2 ^ 31) ltac:(lia)) as Hdm.
    set (s' := (s * 1103515245 + 12345) mod 2 ^ 31) in *.
    change (2 ^ 31) with 2147483648 in Hb.
    destruct (Z.eq_dec s' 2147483647) as [E|E]; [|lia].
    exfalso.
    apply (lcg_never_all_ones s ((s * 1103515245 + 12345) / 2 ^ 31) Hs Hsmall).
    rewrite Hdm at 1. rewrite E. reflexivity. }
  assert (Hprod : ∃ z1, (Double.mul (inject_Z s) (inject_Z 1103515245)
                         == inject_Z z1)%Q
                        ∧ 2 ^ 53 ≤ z1 + 12345
                        ∧ 0 < z1 + 12345).
  { unfold Double.mul.
    destruct (Z.lt_ge_cases (s * 1103515245) (2 ^ 53)) as [H1|H1].
    - exists (s * 1103515245). split; [|change (2 ^ 53) with 9007199254740992 in *; lia].
      apply round_exact; [rewrite inject_Z_mult; reflexivity | lia].
    - destruct (round_pos_integer_even _ H1) as (z1 & E1 & _ & Hz1).
      exists z1. rewrite (round_integer _ (s * 1103515245)), E1;
        [|rewrite inject_Z_mult; reflexivity
         |change (2 ^ 53) with 9007199254740992 in H1; lia].
      split; [reflexivity|]. change (2 ^ 53) with 9007199254740992 in *. lia. }
  destruct Hprod as (z1 & Ez1 & Hz1 & Hz1').
  destruct (round_pos_integer_even _ Hz1) as (z2 & E2 & Heven & _).
  unfold Double.add.
  rewrite (round_integer _ (z1 + 12345)), E2;
    [|rewrite Ez1, inject_Z_plus; reflexivity | exact Hz1'].
  rewrite band_inject_Z. apply even_not_all_ones, Heven.
Qed.

(** The value returned by [next], as a fraction. *)
Lemma div_fraction (s' : Z) :
  0 ≤ s' < 2147483647 →
  let x := Double.div (inject_Z s') (inject_Z 2147483647) in
  x = 0%Q
  ∨ ∃ m t, x = Qmake m (Z.to_pos (2 ^ t)) ∧ 52 ≤ t ∧ 0 ≤ m
           ∧ m * 2147483647 ≤ s' * 2 ^ t + 2147483647.
Proof.
  intros [H0 H1]. unfold Double.div, Double.round.
  change (Qnum (inject_Z s' / inject_Z 2147483647)) with (s' * 1).
  change (Zpos (Qden (inject_Z s' / inject_Z 2147483647))) with 2147483647.
  rewrite Z.mul_1_r.
  pose proof (Z.gcd_divide_l s' 2147483647) as [n Hn].
  pose proof (Z.gcd_divide_r s' 2147483647) as [d Hd].
  pose proof (Z.gcd_nonneg s' 2147483647) as Hg0.
  set (g := Z.gcd s' 2147483647) in *.
  assert (Hg : 0 < g) by (destruct (Z.eq_dec g 0) as [E|E]; [rewrite E in Hd|]; lia).
  assert (En : s' / g = n) by (rewrite Hn; apply Z.div_mul; lia).
  assert (Ed : 2147483647 / g = d)
    by (transitivity (d * g / g); [f_equal; exact Hd | apply Z.div_mul; lia]).
  rewrite En, Ed.
  assert (0 ≤ n < d) by nia.
  destruct n as [|p|p]; [left; reflexivity | right | lia].
  destruct (round_pos_fraction (Z.pos p) d 0) as (m & t & Ht & E & Hm0 & Hm);
    [lia | lia | lia | change (2 ^ 0) with 1; lia |].
  exists m, t. split; [exact E|]. split; [lia|]. split; [exact Hm0|].
  assert (Hmg : m * d * g ≤ (Z.pos p * 2 ^ t + d) * g) by nia.
  set (T := 2 ^ t) in *. nia.
Qed.

Lemma Qfloor_fraction (m : Z) (p : positive) : Qfloor (Qmake m p) = m / Zpos p.
Proof. reflexivity. Qed.

(** [nextInt(max)] stays below [max]. *)
Lemma nextInt_value_range (s' max : Z) :
  0 ≤ s' < 2147483647 → 1 ≤ max ≤ 2 ^ 20 →
  0 ≤ Double.floor
        (Double.mul (Double.div (inject_Z s') (inject_Z 2147483647))
                    (inject_Z max)) < max.
Proof.
  intros Hs [Hmax0 Hmax1].
  destruct (div_fraction s' Hs) as [->|(m & t & -> & Ht & Hm0 & Hm)].
  { change (0 ≤ 0 < max). lia. }
  assert (HP : 2 ^ 52 ≤ 2 ^ t) by (apply Z.pow_le_mono_r; lia).
  assert (HP0 : 0 < 2 ^ t) by (apply Z.pow_pos_nonneg; lia).
  unfold Double.mul, Double.round, Double.floor.
  change (Qnum (Qmake m (Z.to_pos (2 ^ t)) * inject_Z max)) with (m * max).
  change (Qden (Qmake m (Z.to_pos (2 ^ t)) * inject_Z max))
    with (Z.to_pos (2 ^ t) * 1)%positive.
  rewrite Pos.mul_1_r, Z2Pos.id by exact HP0.
  set (P := 2 ^ t) in *.
  assert (Hm' : m * 2147483647 ≤ 2147483646 * P + 2147483647) by nia.
  assert (HmP : m < P).
  { change (2 ^ 52) with 4503599627370496 in HP. lia. }
  pose proof (Z.gcd_divide_l (m * max) P) as [n2 Hn2].
  pose proof (Z.gcd_divide_r (m * max) P) as [d2 Hd2].
  pose proof (Z.gcd_nonneg (m * max) P) as Hg0.
  set (g := Z.gcd (m * max) P) in *.
  assert (Hg : 0 < g) by (destruct (Z.eq_dec g 0) as [E|E]; [rewrite E in Hd2|]; lia).
  assert (En : (m * max) / g = n2) by (rewrite Hn2; apply Z.div_mul; lia).
  assert (Ed : P / g = d2)
    by (transitivity (d2 * g / g); [f_equal; exact Hd2 | apply Z.div_mul; lia]).
  rewrite En, Ed.
  assert (Hd0 : 0 < d2) by nia.
  assert (Hn0 : 0 ≤ n2) by nia.
  destruct n2 as [|p|p]; [change (Qfloor 0) with 0; lia | | lia].
  destruct (round_pos_fraction (Z.pos p) d2 20) as (m2 & t2 & Ht2 & E & Hm20 & Hm2);
    [lia | lia | lia | | ].
  { change (2 ^ 20) with 1048576 in *.
    assert (Z.pos p * g < 1048576 * d2 * g) by (rewrite <- Hn2; nia). nia. }
  rewrite E, Qfloor_fraction.
  assert (HP2 : 2 ^ 32 ≤ 2 ^ t2) by (apply Z.pow_le_mono_r; lia).
  assert (HP20 : 0 < 2 ^ t2) by (apply Z.pow_pos_nonneg; lia).
  rewrite Z2Pos.id by exact HP20.
  set (P2 := 2 ^ t2) in *.
  split; [apply Z.div_pos; lia|].
  apply Z.div_lt_upper_bound; [lia|].
  destruct (Z.lt_ge_cases m2 (P2 * max)) as [|Hge]; [assumption|]. exfalso.
  set (W := P2 * max) in *.
  assert (HW : 2 ^ 32 ≤ W) by (subst W; nia).
  assert (H5 : m2 * P ≤ m * W + P).
  { assert (m2 * d2 * g ≤ (Z.pos p * P2 + d2) * g) by nia.
    replace (m2 * d2 * g) with (m2 * P) in * by (rewrite Hd2; ring).
    replace ((Z.pos p * P2 + d2) * g) with (m * W + P) in *
      by (subst W; rewrite Hd2 at 1; replace (m * (P2 * max)) with ((m * max) * P2) by ring;
          rewrite Hn2; ring).
    assumption. }
  assert (HA : W * (P - m) ≤ P) by nia.
  assert (HA2 : 2 ^ 32 * (P - m) ≤ P) by nia.
  change (2 ^ 32) with 4294967296 in *.
  change (2 ^ 52) with 4503599627370496 in *.
  lia.
Qed.

(** C5 (amended). For every integer seed [s ≥ 0], [next()] returns the
    binary64 quotient of the new seed by [2^31 - 1], a value in [0,1), and
    [nextInt(max)] is the floor of that value times [max]; and where
    [s * 1103515245 + 12345] is computed exactly (below [2^53]), the new
    seed is [(s * 1103515245 + 12345) mod 2^31]. *)
Theorem next_and_nextInt (s max : Z) :
  0 ≤ s →
  ∃ s' x,
    seededRandom.next (seededRandom.mkRng s) = (x, seededRandom.mkRng s')
    ∧ x = Double.div (inject_Z s') (inject_Z 2147483647)
    ∧ (0 <= x)%Q ∧ (x < 1)%Q
    ∧ seededRandom.nextInt max (seededRandom.mkRng s)
      = (Double.floor (Double.mul x (inject_Z max)), seededRandom.mkRng s')
    ∧ (s * 1103515245 + 12345 < 2 ^ 53 →
       s' = (s * 1103515245 + 12345) mod 2 ^ 31).
Proof.
  intros H0.
  set (s' := Double.band
               (Double.add (Double.mul (inject_Z s) (inject_Z 1103515245))
                           (inject_Z 12345))
               (inject_Z 2147483647)).
  exists s', (Double.div (inject_Z s') (inject_Z 2147483647)).
  assert (Hn : seededRandom.next (seededRandom.mkRng s)
               = (Double.div (inject_Z s') (inject_Z 2147483647),
                  seededRandom.mkRng s')) by reflexivity.
  destruct (next_value_range s' (next_seed_range s H0)) as [Hx0 Hx1].
  split; [exact Hn|]. split; [reflexivity|].
  split; [exact Hx0|]. split; [exact Hx1|]. split.
  - unfold seededRandom.nextInt. rewrite Hn. reflexivity.
  - intros H1. exact (next_seed_exact s H0 H1).
Qed.

Lemma next_and_nextInt_witness :
  ∃ s' x,
    seededRandom.next (seededRandom.mkRng 11982) = (x, seededRandom.mkRng s')
    ∧ x = Double.div (inject_Z s') (inject_Z 2147483647)
    ∧ (0 <= x)%Q ∧ (x < 1)%Q
    ∧ seededRandom.nextInt 52 (seededRandom.mkRng 11982)
      = (Double.floor (Double.mul x (inject_Z 52)), seededRandom.mkRng s')
    ∧ s' = 262857199.
Proof.
  assert (H0 : 0 ≤ 11982) by lia.
  assert (H1 : 11982 * 1103515245 + 12345 < 2 ^ 53) by (vm_compute; reflexivity).
  destruct (next_and_nextInt 11982 52 H0)
    as (s' & x & Hn & Hx & Hx0 & Hx1 & Hi & Hs).
  exists s', x.
  refine (conj Hn (conj Hx (conj Hx0 (conj Hx1 (conj Hi _))))).
  rewrite (Hs H1). vm_compute. reflexivity.
Defined.

Lemma nextInt_range (s max : Z) :
  0 ≤ s → 1 ≤ max ≤ 2 ^ 20 →
  0 ≤ (seededRandom.nextInt max (seededRandom.mkRng s)).1 < max
  ∧ 0 ≤ seededRandom.seed (seededRandom.nextInt max (seededRandom.mkRng s)).2.
Proof.
  intros Hs Hmax. pose proof (next_seed_range s Hs) as Hr.
  unfold seededRandom.nextInt, seededRandom.next.
  cbn [fst snd seededRandom.seed].
  split; [apply nextInt_value_range; assumption | lia].
Qed.

(** *** Shuffling *)

Lemma swap_Permutation (a : pile) (i j : Z) :
  0 ≤ i < Z.of_nat (length a) → 0 ≤ j < Z.of_nat (length a) →
  swap a i j ≡ₚ a.
Proof.
  intros Hi Hj. unfold swap, js_read, js_write, js_get.
  destruct (Z.ltb_spec i 0); [lia|]. destruct (Z.ltb_spec j 0); [lia|].
  destruct (lookup_lt_is_Some_2 a (Z.to_nat i)) as [xi Exi]; [lia|].
  destruct (lookup_lt_is_Some_2 a (Z.to_nat j)) as [xj Exj]; [lia|].
  rewrite Exi, Exj. cbn [default from_option Datatypes.id].
  destruct (Nat.ltb_spec (Z.to_nat i) (length a)); [|exfalso; lia].
  rewrite length_insert.
  destruct (Nat.ltb_spec (Z.to_nat j) (length a)); [|exfalso; lia].
  set (ni := Z.to_nat i) in *. set (nj := Z.to_nat j) in *.
  apply Permutation_inj. split; [rewrite !length_insert; reflexivity|].
  exists (λ k, if decide (k = ni) then nj else if decide (k = nj) then ni else k).
  split.
  - intros k1 k2. repeat case_decide; lia.
  - intros k. destruct (decide (k = nj)) as [->|Hnj].
    + rewrite list_lookup_insert_eq by (rewrite length_insert; lia).
      case_decide; congruence.
    + rewrite list_lookup_insert_ne by congruence.
      destruct (decide (k = ni)) as [->|Hni].
      * rewrite list_lookup_insert_eq by lia. congruence.
      * rewrite list_lookup_insert_ne by congruence. reflexivity.
Qed.

Lemma shuffle_loop_Permutation (i : nat) (a : pile) (r : seededRandom.rng) :
  (i < length a)%nat → Z.of_nat (length a) ≤ 2 ^ 20 → 0 ≤ seededRandom.seed r →
  (shuffle_loop i a r).1 ≡ₚ a.
Proof.
  revert a r. induction i as [|i IH]; intros a [s] Hi Hlen Hs; [reflexivity|].
  cbn [shuffle_loop seededRandom.seed] in *.
  pose proof (nextInt_range s (Z.of_nat (S i) + 1) Hs ltac:(lia)) as [Hj Hs'].
  destruct (seededRandom.nextInt (Z.of_nat (S i) + 1) (seededRandom.mkRng s))
    as [j r'].
  cbn [fst snd] in *.
  assert (Hsw : swap a (Z.of_nat (S i)) j ≡ₚ a) by (apply swap_Permutation; lia).
  rewrite IH; [exact Hsw | | | exact Hs'].
  - rewrite Hsw. lia.
  - rewrite Hsw. exact Hlen.
Qed.

Lemma shuffle_Permutation (deck : pile) (sd : Z) :
  deck ≠ [] → Z.of_nat (length deck) ≤ 2 ^ 20 → 0 ≤ sd →
  (shuffle deck sd).1 ≡ₚ deck.
Proof.
  intros Hne Hlen Hsd. unfold shuffle.
  apply shuffle_loop_Permutation; [|exact Hlen|exact Hsd].
  destruct deck; [congruence | simpl; lia].
Qed.

(** *** Dealing *)

Lemma alter_as_insert {A} (f : A → A) (l : list A) (i : nat) (x : A) :
  l !! i = Some x → alter f i l = <[i := f x]> l.
Proof.
  intros Hx. apply list_eq. intros k.
  pose proof (lookup_lt_Some _ _ _ Hx).
  destruct (decide (k = i)) as [->|Hne].
  - rewrite list_lookup_alter_eq, list_lookup_insert_eq, Hx by assumption.
    reflexivity.
  - rewrite list_lookup_alter_ne, list_lookup_insert_ne by congruence.
    reflexivity.
Qed.

Lemma deal_cards (cs : list (nat * nat)) (k : nat) (deck : pile) (t : list pile) :
  (∀ x, x ∈ deck → ∃ c, x = Card c) →
  Forall (λ cell, (cell.1 < length t)%nat) cs →
  (k + length cs ≤ length deck)%nat →
  ∃ t', deal cs k deck t = ((k + length cs)%nat, t', true)
        ∧ same_cards (concat t') (concat t ++ take (length cs) (drop k deck))
        ∧ length t' = length t.
Proof.
  intros Hcards. revert k t.
  induction cs as [|[col row] cs IH]; intros k t Hcols Hlen.
  - exists t. simpl. rewrite Nat.add_0_r, app_nil_r.
    split; [reflexivity|]. split; reflexivity.
  - apply Forall_cons in Hcols as [Hcol Hcols]. simpl in Hcol, Hlen.
    destruct (lookup_lt_is_Some_2 deck k) as [x Hx]; [lia|].
    destruct (Hcards x (list_elem_of_lookup_2 _ _ _ Hx)) as [c ->].
    destruct (lookup_lt_is_Some_2 t col Hcol) as [p Hp].
    cbn [deal]. unfold js_read, js_get.
    destruct (Z.ltb_spec (Z.of_nat k) 0); [lia|].
    rewrite Nat2Z.id, Hx. cbn [default from_option Datatypes.id].
    rewrite (alter_as_insert _ t col p Hp).
    destruct (IH (S k) (<[col := p ++ [Card (set_faceUp (row =? col)%nat c)]]> t))
      as (t' & E & Hsame & Hl).
    { rewrite length_insert. exact Hcols. }
    { lia. }
    exists t'. split; [|split].
    + rewrite E. f_equal. f_equal. simpl. lia.
    + rewrite Hsame. rewrite length_insert in Hl.
      assert (H1 : same_cards
                (concat (<[col := p ++ [Card (set_faceUp (row =? col)%nat c)]]> t)
                 ++ [])
                (concat t ++ [Card c])).
      { eapply concat_insert_cards; [exact Hp|]. rewrite app_nil_r.
        apply same_cards_keys. rewrite !fmap_app. reflexivity. }
      rewrite app_nil_r in H1. rewrite H1.
      simpl length. rewrite (drop_S deck (Card c) k Hx). simpl.
      rewrite <- app_assoc. reflexivity.
    + rewrite Hl, length_insert. reflexivity.
Qed.

Lemma cells_columns : Forall (λ cell : nat * nat, (cell.1 < 7)%nat) cells.
Proof. apply (bool_decide_unpack _). vm_compute. exact I. Qed.

Lemma createDeck_keys : slot_key <$> (Card <$> createDeck) = deck_keys.
Proof. unfold deck_keys. rewrite <- list_fmap_compose. reflexivity. Qed.

Lemma newGame_sound_any_seed (sd now : Z) :
  0 ≤ sd → sound (final (newGame sd now)).
Proof.
  intros Hsd. unfold newGame.
  assert (Hne : Card <$> createDeck ≠ []).
  { intros H. apply (f_equal length) in H. discriminate H. }
  assert (Hsz : Z.of_nat (length (Card <$> createDeck)) ≤ 2 ^ 20).
  { change (52 ≤ 1048576). lia. }
  pose proof (shuffle_Permutation (Card <$> createDeck) sd Hne Hsz Hsd) as Hperm.
  change (fst (shuffle (Card <$> createDeck) sd))
    with (shuffle (Card <$> createDeck) sd).1.
  generalize dependent (shuffle (Card <$> createDeck) sd).1.
  intros deck Hperm.
  assert (Hlen : length deck = 52%nat) by (rewrite Hperm; reflexivity).
  destruct (deal_cards cells 0 deck (tableau (fresh sd now)))
    as (t' & E & Hsame & _).
  { intros x Hx. rewrite Hperm in Hx.
    apply list_elem_of_fmap in Hx as (c & -> & _). eauto. }
  { exact cells_columns. }
  { rewrite Hlen. vm_compute. lia. }
  cbv zeta. rewrite E. cbn [final Nat.add]. split; [|constructor].
  unfold full_deck. rewrite <- createDeck_keys, <- Hperm.
  change (same_cards (drop (length cells) deck ++ concat t') deck).
  rewrite Hsame. cbn [tableau fresh concat app]. rewrite drop_0.
  rewrite <- (take_drop (length cells) deck) at 3.
  apply same_cards_Permutation. solve_Permutation.
Qed.

Lemma winnable_seeds_nonnegative : Forall (λ sd, 0 ≤ sd) WINNABLE_SEEDS.
Proof. apply (bool_decide_unpack _). vm_compute. exact I. Qed.

Lemma newGame_sound sd now :
  sd ∈ WINNABLE_SEEDS → sound (final (newGame sd now)).
Proof.
  intros Hsd. apply newGame_sound_any_seed.
  exact (proj1 (Forall_forall _ _) winnable_seeds_nonnegative sd Hsd).
Qed.

(** *** Every reachable state *)

Lemma reachable_sound s : reachable s → sound s.
Proof.
  induction 1.
  - apply newGame_sound; assumption.
  - apply drawFromStock_sound; assumption.
  - apply moveCards_sound; assumption.
  - apply tryAutoMove_sound; assumption.
  - apply undo_sound; assumption.
Qed.

Lemma deck_keys_distinct : NoDup deck_keys ∧ length deck_keys = 52%nat.
Proof. split; [apply (bool_decide_unpack _); vm_compute; exact I | reflexivity]. Qed.

(** C1. In every state reached from [newGame] by [drawFromStock],
    [moveCards] on arguments that name cards to take and a pile to put them
    on (as every caller-validated legal move does), [tryAutoMove] and
    [undo], the stock, the waste, the four foundations and the seven
    tableau piles together hold each of the 52 (suit, rank) cards of the
    deck exactly once: 52 cards, no two alike. *)
Theorem partition_invariant (s : state) :
  reachable s →
  slot_key <$> all_slots s ≡ₚ deck_keys
  ∧ NoDup (slot_key <$> all_slots s)
  ∧ length (all_slots s) = 52%nat.
Proof.
  intros Hr. apply reachable_sound in Hr as [Hd _]. unfold full_deck in Hd.
  destruct deck_keys_distinct as [Hnd Hlen].
  split; [exact Hd|]. split.
  - rewrite Hd. exact Hnd.
  - rewrite <- (length_fmap slot_key), Hd. exact Hlen.
Qed.

Lemma partition_invariant_witness :
  slot_key <$> all_slots taken_back ≡ₚ deck_keys
  ∧ NoDup (slot_key <$> all_slots taken_back)
  ∧ length (all_slots taken_back) = 52%nat.
Proof.
  apply partition_invariant.
  apply reach_undo, reach_moveCards.
  - apply reach_tryAutoMove, reach_drawFromStock, reach_newGame.
    apply list_elem_of_here.
  - split.
    + right. right. split; [reflexivity|]. eexists. vm_compute. reflexivity.
    + right. split; [reflexivity|]. eexists. vm_compute. reflexivity.
Defined.

(** On the first seeds of [WINNABLE_SEEDS], through the 51 calls of a
    shuffle, the rounding written out in [Double] gives what hardware
    binary64 arithmetic gives: same states, same values, same indices. *)
Lemma generator_agrees_with_binary64 :
  forallb (agrees_with_binary64 51) (take 4 WINNABLE_SEEDS) = true.
Proof. vm_compute. reflexivity. Qed.

(** ** The tableau-to-tableau stage of [getHint] (C7) *)

Lemma find_app {A} (f : A → bool) (l1 l2 : list A) :
  find f (l1 ++ l2)
  = match find f l1 with Some x => Some x | None => find f l2 end.
Proof.
  induction l1 as [|x l1 IH]; simpl; [reflexivity|].
  destruct (f x); [reflexivity | exact IH].
Qed.

Lemma elem_of_seqZ_0 (n k : Z) : k ∈ seqZ 0 n → 0 ≤ k < n.
Proof. rewrite elem_of_seqZ. lia. Qed.

Lemma forallb_is_card (p : pile) (x : slot) :
  forallb is_card p = true → x ∈ p → ∃ c, x = Card c.
Proof.
  rewrite forallb_forall. intros H Hx. apply list_elem_of_In in Hx.
  specialize (H x Hx). destruct x; try discriminate. eauto.
Qed.

Lemma tidy_pile s i :
  tidy_tableau s → 0 ≤ i < 7 →
  js_get (tableau s) i = Some (pile_at s i)
  ∧ forallb is_card (pile_at s i) = true.
Proof.
  intros [Hlen Hall] Hi. unfold pile_at.
  destruct (proj2 (js_get_is_Some (tableau s) i)) as [p Hp]; [lia|].
  rewrite Hp. split; [reflexivity|]. simpl.
  unfold js_get in Hp. destruct (i <? 0); [discriminate|].
  rewrite forallb_forall in Hall. apply Hall.
  apply list_elem_of_In. eapply list_elem_of_lookup_2, Hp.
Qed.

Lemma tidy_read s i j :
  tidy_tableau s → 0 ≤ i < 7 → 0 ≤ j < Z.of_nat (length (pile_at s i)) →
  ∃ c, js_read (pile_at s i) j = Card c.
Proof.
  intros Ht Hi Hj. destruct (tidy_pile s i Ht Hi) as [_ Hall].
  destruct (proj2 (js_get_is_Some (pile_at s i) j) Hj) as [x Hx].
  unfold js_read. rewrite Hx. simpl.
  apply (forallb_is_card _ _ Hall).
  unfold js_get in Hx. destruct (j <? 0); [discriminate|].
  eapply list_elem_of_lookup_2, Hx.
Qed.

Lemma tidy_canPlace s c k :
  tidy_tableau s → 0 ≤ k < 7 →
  canPlaceOnTableau s c k = Ok (can_place s c k).
Proof.
  intros Ht Hk. destruct (tidy_pile s k Ht Hk) as [Hp Hall].
  unfold can_place, canPlaceOnTableau. rewrite Hp.
  destruct (length (pile_at s k) =? 0)%nat eqn:E; [reflexivity|].
  destruct (last (pile_at s k)) as [x|] eqn:El.
  - destruct (forallb_is_card _ x Hall (last_elem_of _ _ El)) as [t ->].
    reflexivity.
  - apply last_None_nil in El. rewrite El in E. discriminate.
Qed.

Lemma hint_destination_find s i j c ks :
  tidy_tableau s → (∀ k, k ∈ ks → 0 ≤ k < 7) →
  hint_destination s i j c ks = Ok (find (destination_ok s i j c) ks).
Proof.
  intros Ht. induction ks as [|k ks IH]; intros Hks; [reflexivity|].
  assert (Hk : 0 ≤ k < 7) by (apply Hks; left).
  assert (IH' := IH (λ k' H, Hks k' (list_elem_of_further _ _ _ H))).
  cbn [hint_destination find]. unfold destination_ok at 1.
  destruct (k =? i); [exact IH'|].
  rewrite (tidy_canPlace s c k Ht Hk). cbn [rbind negb andb].
  destruct (can_place s c k); [|exact IH'].
  fold (pile_at s k). cbn [andb].
  destruct (_ && _); [exact IH' | reflexivity].
Qed.

(** The moves of one card, in order of destination. *)
Lemma find_offered_card s i j c ks :
  js_read (pile_at s i) j = Card c →
  find (offered s) (k ← ks; [(i, j, k)])
  = (λ k, (i, j, k)) <$> (if faceUp c then find (destination_ok s i j c) ks
                          else None).
Proof.
  intros Hc. induction ks as [|k ks IH].
  - destruct (faceUp c); reflexivity.
  - rewrite bind_cons. cbn [app find]. unfold offered at 1. rewrite Hc, IH.
    destruct (faceUp c); cbn [andb]; [|reflexivity].
    destruct (destination_ok s i j c k); reflexivity.
Qed.

Lemma hint_cards_find s i js :
  tidy_tableau s → 0 ≤ i < 7 →
  (∀ j, j ∈ js → 0 ≤ j < Z.of_nat (length (pile_at s i))) →
  hint_cards s i (pile_at s i) js
  = Ok (find (offered s) (j ← js; k ← seqZ 0 7; [(i, j, k)])
        ≫= hint_of_move s).
Proof.
  intros Ht Hi. induction js as [|j js IH]; intros Hjs; [reflexivity|].
  assert (Hj : 0 ≤ j < Z.of_nat (length (pile_at s i))) by (apply Hjs; left).
  assert (IH' := IH (λ j' H, Hjs j' (list_elem_of_further _ _ _ H))).
  destruct (tidy_read s i j Ht Hi Hj) as [c Hc].
  rewrite bind_cons, find_app, (find_offered_card s i j c _ Hc).
  cbn [hint_cards]. rewrite Hc.
  destruct (faceUp c) eqn:Ef; cbn [negb]; [|exact IH'].
  assert (Hexp : (if 0 <? j
                  then match js_read (pile_at s i) (j - 1) with
                       | Card below => Ok (negb (faceUp below))
                       | _ => TypeError
                       end
                  else Ok false) = Ok (exposes (pile_at s i) j)).
  { unfold exposes. destruct (Z.ltb_spec 0 j) as [Hpos|]; [|reflexivity].
    destruct (tidy_read s i (j - 1) Ht Hi ltac:(lia)) as [b ->]. reflexivity. }
  rewrite Hexp. cbn [rbind].
  rewrite (hint_destination_find s i j c (seqZ 0 7) Ht (elem_of_seqZ_0 7)).
  cbn [rbind].
  destruct (find (destination_ok s i j c) (seqZ 0 7)) as [k|]; [|exact IH'].
  cbn [fmap option_fmap option_map mbind option_bind hint_of_move].
  rewrite Hc. reflexivity.
Qed.

Lemma offered_hint s m : offered s m = true → is_Some (hint_of_move s m).
Proof.
  destruct m as [[i j] k]. unfold offered, hint_of_move.
  destruct (js_read (pile_at s i) j); try discriminate. eauto.
Qed.

Lemma hint_tableau_tableau_find s ixs :
  tidy_tableau s → (∀ i, i ∈ ixs → 0 ≤ i < 7) →
  hint_tableau_tableau s ixs
  = Ok (find (offered s) (candidates s ixs) ≫= hint_of_move s).
Proof.
  intros Ht. induction ixs as [|i ixs IH]; intros Hixs; [reflexivity|].
  assert (Hi : 0 ≤ i < 7) by (apply Hixs; left).
  assert (IH' := IH (λ i' H, Hixs i' (list_elem_of_further _ _ _ H))).
  destruct (tidy_pile s i Ht Hi) as [Hp _].
  unfold candidates in *. rewrite bind_cons, find_app.
  cbn [hint_tableau_tableau]. rewrite Hp.
  rewrite (hint_cards_find s i _ Ht Hi (elem_of_seqZ_0 _)).
  unfold or_else. cbn [rbind].
  destruct (find (offered s)
              (j ← seqZ 0 (Z.of_nat (length (pile_at s i)));
               k ← seqZ 0 7; [(i, j, k)])) as [m|] eqn:Em; [|exact IH'].
  apply find_some in Em as [_ Hoff].
  destruct (offered_hint s m Hoff) as [h Hh].
  cbn [mbind option_bind]. rewrite Hh. reflexivity.
Qed.

(** C7 (amended). When the earlier stages give no hint, [getHint] returns
    the first offered move in this order: source piles 0..6, within a pile
    the face-up cards by index upwards from 0 (from the deepest towards the
    top card), destination piles 0..6 other than the source.  A
    destination is passed over only where the card is a King at index 0 of
    its pile (alone or not) and the destination pile is empty.  Without an
    offered move the draw and reset hints follow. *)
Theorem getHint_tableau_stage (s : state) :
  tidy_tableau s →
  hint_waste_foundation s = Ok None →
  hint_tableau_foundation s (seqZ 0 7) = Ok None →
  hint_waste_tableau s = Ok None →
  getHint s = match first_offered s ≫= hint_of_move s with
              | Some h => Ok (Some h)
              | None => hint_draw s
              end.
Proof.
  intros Ht H1 H2 H3. unfold getHint, first_offered.
  rewrite H1, H2, H3,
    (hint_tableau_tableau_find s (seqZ 0 7) Ht (elem_of_seqZ_0 7)).
  reflexivity.
Qed.

Lemma getHint_tableau_stage_witness :
  getHint eight_under_seven
  = Ok (hint_of_move eight_under_seven (0, 0, 2)).
Proof.
  rewrite (getHint_tableau_stage eight_under_seven).
  - reflexivity.
  - split; reflexivity.
  - reflexivity.
  - reflexivity.
  - reflexivity.
Defined.

(** C7 as stated fails on both counts.  With the eight of hearts under
    the seven of spades, [getHint] moves the eight (index 0) to pile 2,
    where a scan from the top card down would first move the seven to
    pile 1.  With a King under a Queen and an empty pile, [getHint] offers
    no tableau move, although the King is not alone in its pile. *)
Lemma getHint_scans_upwards_skips_bottom_kings :
  getHint eight_under_seven
  = Ok (hint_of_move eight_under_seven (0, 0, 2))
  ∧ first_as_specified eight_under_seven = Some (0, 1, 1)
  ∧ getHint king_and_queen = Ok None
  ∧ first_as_specified king_and_queen = Some (0, 0, 1).
Proof. repeat split; vm_compute; reflexivity. Qed.

(** ** Auxiliary facts *)

Lemma elem_of_seqZ_range (n k : Z) : 0 ≤ k < n → k ∈ seqZ 0 n.
Proof. intros H. apply elem_of_seqZ. lia. Qed.

Lemma js_read_Card (p : pile) (j : Z) (c : card) :
  js_read p j = Card c → js_get p j = Some (Card c).
Proof.
  unfold js_read. destruct (js_get p j) as [x|]; cbn; [congruence | discriminate].
Qed.

Lemma full_deck_length (l : pile) : full_deck l → length l = 52%nat.
Proof.
  intros H. apply Permutation_length in H. rewrite length_fmap in H.
  rewrite H. apply deck_keys_distinct.
Qed.

Lemma nonempty_length {A} (l : list A) : (0 <? length l)%nat = false → l = [].
Proof. destruct l; [reflexivity | discriminate]. Qed.

Lemma getFoundationIndex_range (x : suit) :
  0 ≤ getFoundationIndex x < 4 ∧ js_get SUITS (getFoundationIndex x) = Some x.
Proof.
  destruct x; (split; [|reflexivity]);
    [change (0 ≤ 0 < 4) | change (0 ≤ 1 < 4) | change (0 ≤ 2 < 4)
     | change (0 ≤ 3 < 4)]; lia.
Qed.

(** ** The generator and the shuffle *)

(** X1. [nextInt(max)] stays in range: for every seed that is a whole
    number not below 0 and every [max] from 1 to 2^20, the result is one of
    0, ..., [max - 1], in spite of the rounding of the product and of the
    two roundings in [next() * max]; and the seed left behind is again a
    whole number from 0 to 2^31 - 2, so the same holds of the next call. *)
Theorem nextInt_in_range (s max : Z) :
  0 ≤ s → 1 ≤ max ≤ 2 ^ 20 →
  0 ≤ (seededRandom.nextInt max (seededRandom.mkRng s)).1 < max
  ∧ 0 ≤ seededRandom.seed (seededRandom.nextInt max (seededRandom.mkRng s)).2
    < 2147483647.
Proof.
  intros Hs Hmax. split; [apply (nextInt_range s max Hs Hmax)|].
  unfold seededRandom.nextInt, seededRandom.next.
  cbn [fst snd seededRandom.seed]. apply next_seed_range, Hs.
Qed.

Lemma nextInt_in_range_witness :
  0 ≤ (seededRandom.nextInt 52 (seededRandom.mkRng 262857199)).1 < 52
  ∧ 0 ≤ seededRandom.seed (seededRandom.nextInt 52 (seededRandom.mkRng 262857199)).2
    < 2147483647.
Proof.
  apply (nextInt_in_range 262857199 52); [lia|].
  change (2 ^ 20) with 1048576. lia.
Defined.

(** X2. [shuffle] returns a permutation of the deck it is given: the same
    elements, each as often, for every seed that is a whole number not
    below 0 and every deck of up to 2^20 elements, the empty deck
    included. *)
Theorem shuffle_permutes (deck : pile) (sd : Z) :
  0 ≤ sd → Z.of_nat (length deck) ≤ 2 ^ 20 →
  (shuffle deck sd).1 ≡ₚ deck ∧ length (shuffle deck sd).1 = length deck.
Proof.
  intros Hsd Hlen.
  assert (H : (shuffle deck sd).1 ≡ₚ deck).
  { destruct deck as [|x deck]; [reflexivity|].
    apply shuffle_Permutation; [discriminate | exact Hlen | exact Hsd]. }
  split; [exact H | apply Permutation_length, H].
Qed.

Lemma shuffle_permutes_witness :
  (shuffle [Card (createCard hearts 1); Card (createCard hearts 2);
            Card (createCard hearts 3)] 11982).1
  ≡ₚ [Card (createCard hearts 1); Card (createCard hearts 2);
      Card (createCard hearts 3)]
  ∧ length (shuffle [Card (createCard hearts 1); Card (createCard hearts 2);
                     Card (createCard hearts 3)] 11982).1 = 3%nat.
Proof.
  apply (shuffle_permutes
           [Card (createCard hearts 1); Card (createCard hearts 2);
            Card (createCard hearts 3)] 11982); [lia|].
  change (2 ^ 20) with 1048576. cbn. lia.
Defined.

(** ** Cards and their ids *)

Lemma suit_name_inj (s s' : suit) (x y : string) :
  suit_name s +:+ x = suit_name s' +:+ y → s = s' ∧ x = y.
Proof.
  destruct s, s'; cbn; intros H; try discriminate H;
    (split; [reflexivity|]); repeat (injection H as H); exact H.
Qed.

(** X3. An id names one card: for ranks that are whole numbers below 2^53
    in magnitude, [createCard] gives cards that differ in suit or rank
    different ids; and [createDeck] makes 52 cards, all face down, with 52
    different ids. *)
Theorem createCard_id_identifies :
  (∀ s r s' r', - 2 ^ 53 < r < 2 ^ 53 → - 2 ^ 53 < r' < 2 ^ 53 →
                (s, r) ≠ (s', r') →
                id (createCard s r) ≠ id (createCard s' r'))
  ∧ length createDeck = 52%nat
  ∧ NoDup (id <$> createDeck)
  ∧ Forall (λ c, faceUp c = false) createDeck.
Proof.
  split; [|split; [reflexivity|split]].
  - intros s r s' r' _ _ Hne H. apply Hne.
    cbn [id createCard] in H.
    apply suit_name_inj in H as [-> H].
    injection H as H. apply pretty_Z_inj in H. rewrite H. reflexivity.
  - apply (bool_decide_unpack (NoDup (id <$> createDeck))). vm_compute. exact Logic.I.
  - apply Forall_forall. intros c Hc.
    unfold createDeck in Hc. apply list_elem_of_bind in Hc as (s & Hc & _).
    apply list_elem_of_fmap in Hc as (r & -> & _). reflexivity.
Qed.

(** The ace and the jack of hearts, whose ids begin alike, and the queens
    of hearts and spades. *)
Lemma createCard_id_identifies_witness :
  id (createCard hearts 1) ≠ id (createCard hearts 11)
  ∧ id (createCard hearts 12) ≠ id (createCard spades 12)
  ∧ id (createCard hearts 11) = "hearts-11"%string.
Proof.
  destruct createCard_id_identifies as (H & _).
  split; [|split; [|reflexivity]].
  - apply (H hearts 1 hearts 11); [lia | lia | intros E; discriminate E].
  - apply (H hearts 12 spades 12); [lia | lia | intros E; discriminate E].
Defined.

(** ** Whole-number division in binary64 *)

Lemma ilog2_lower (n d : Z) :
  0 < n → 0 < d →
  d * 2 ^ Z.max (Double.ilog2 n d) 0 ≤ n * 2 ^ Z.max (- Double.ilog2 n d) 0.
Proof.
  intros Hn Hd.
  pose proof (Z.log2_spec n Hn) as [Hn1 _].
  pose proof (Z.log2_spec d Hd) as [_ Hd2].
  pose proof (Z.log2_nonneg n). pose proof (Z.log2_nonneg d).
  unfold Double.ilog2. set (k0 := Z.log2 n - Z.log2 d).
  destruct (Z.ltb_spec (n * 2 ^ Z.max (- k0) 0) (d * 2 ^ Z.max k0 0)) as [Hlt|Hge];
    [|exact Hge].
  destruct (Z.le_gt_cases k0 0) as [Hk|Hk].
  - replace (Z.max (k0 - 1) 0) with 0 by lia.
    replace (Z.max (- (k0 - 1)) 0) with (1 - k0) by lia.
    change (2 ^ 0) with 1. rewrite Z.mul_1_r.
    assert (Hp : 2 ^ Z.succ (Z.log2 d) ≤ 2 ^ (Z.log2 n + (1 - k0)))
      by (apply Z.pow_le_mono_r; lia).
    rewrite Z.pow_add_r in Hp by lia.
    assert (0 < 2 ^ (1 - k0)) by (apply Z.pow_pos_nonneg; lia).
    nia.
  - replace (Z.max (k0 - 1) 0) with (k0 - 1) by lia.
    replace (Z.max (- (k0 - 1)) 0) with 0 by lia.
    change (2 ^ 0) with 1. rewrite Z.mul_1_r.
    assert (Hp : 2 ^ (Z.succ (Z.log2 d) + (k0 - 1)) ≤ 2 ^ Z.log2 n)
      by (apply Z.pow_le_mono_r; lia).
    rewrite Z.pow_add_r in Hp by lia.
    assert (0 < 2 ^ (k0 - 1)) by (apply Z.pow_pos_nonneg; lia).
    nia.
Qed.

Lemma nearest_same_quotient (n d P m : Z) :
  0 < d → 0 ≤ n → 0 < P → d < 2 * P →
  2 * (m * d - n * P) ≤ d → 2 * (n * P - m * d) ≤ d →
  m / P = n / d.
Proof.
  intros Hd Hn HP HdP H1 H2.
  pose proof (Z.div_mod n d ltac:(lia)) as Hdm.
  pose proof (Z.mod_pos_bound n d ltac:(lia)) as Hr.
  set (Q0 := n / d) in *. set (R0 := n mod d) in *. clearbody Q0 R0.
  symmetry. apply (Z.div_unique_pos m P Q0 (m - P * Q0)); [|lia].
  split; nia.
Qed.

(** Rounding [n/d] to binary64 and then taking the floor gives the whole
    quotient: the rounding error is below [1/d]. *)
Lemma floor_round_pos (n d : Z) :
  0 < n < 2 ^ 53 → 0 < d ≤ 2 ^ 53 →
  Qfloor (Double.round_pos n d) = n / d.
Proof.
  intros Hn Hd.
  pose proof (ilog2_lower n d ltac:(lia) ltac:(lia)) as Hlow.
  unfold Double.round_pos, Double.emin.
  set (k := Double.ilog2 n d) in *.
  assert (Hk : k ≤ 52).
  { destruct (Z.le_gt_cases k 52) as [|Hgt]; [assumption|]. exfalso.
    replace (Z.max k 0) with k in Hlow by lia.
    replace (Z.max (- k) 0) with 0 in Hlow by lia.
    change (2 ^ 0) with 1 in Hlow.
    assert (2 ^ 53 ≤ 2 ^ k) by (apply Z.pow_le_mono_r; lia). nia. }
  set (e := Z.max (k - 52) (-1074)).
  assert (He : -1074 ≤ e ≤ 0) by lia.
  replace (Z.max (- e) 0) with (- e) by lia.
  replace (Z.max e 0) with 0 by lia.
  change (2 ^ 0) with 1. rewrite Z.mul_1_r.
  assert (HP : 0 < 2 ^ (- e)) by (apply Z.pow_pos_nonneg; lia).
  assert (HdP : d < 2 * 2 ^ (- e)).
  { destruct (Z.le_gt_cases (k - 52) (-1074)) as [Hsub|Hnorm].
    - assert (2 ^ 53 ≤ 2 ^ (- e)) by (apply Z.pow_le_mono_r; lia). lia.
    - replace e with (k - 52) by lia.
      replace (2 * 2 ^ (- (k - 52))) with (2 ^ (53 - k))
        by (replace (53 - k) with (1 + - (k - 52)) by lia;
            rewrite Z.pow_add_r by lia; reflexivity).
      destruct (Z.le_gt_cases 0 k) as [Hk0|Hk0].
      + replace (Z.max k 0) with k in Hlow by lia.
        replace (Z.max (- k) 0) with 0 in Hlow by lia.
        change (2 ^ 0) with 1 in Hlow.
        assert (Hs : 2 ^ 53 = 2 ^ k * 2 ^ (53 - k))
          by (rewrite <- Z.pow_add_r by lia; f_equal; lia).
        assert (0 < 2 ^ k) by (apply Z.pow_pos_nonneg; lia).
        assert (0 < 2 ^ (53 - k)) by (apply Z.pow_pos_nonneg; lia).
        nia.
      + replace (Z.max k 0) with 0 in Hlow by lia.
        replace (Z.max (- k) 0) with (- k) in Hlow by lia.
        change (2 ^ 0) with 1 in Hlow.
        assert (Hs : 2 ^ (53 - k) = 2 ^ 53 * 2 ^ (- k))
          by (rewrite <- Z.pow_add_r by lia; f_equal; lia).
        assert (0 < 2 ^ (- k)) by (apply Z.pow_pos_nonneg; lia).
        nia. }
  set (P := 2 ^ (- e)) in *.
  pose proof (Z.div_mod (n * P) d ltac:(lia)) as Hdm.
  pose proof (Z.mod_pos_bound (n * P) d ltac:(lia)) as Hr.
  set (q := n * P / d) in *. set (r := (n * P) mod d) in *.
  set (m := if 2 * r <? d then q
            else if d <? 2 * r then q + 1
            else if Z.even q then q else q + 1).
  assert (Hm : 2 * (m * d - n * P) ≤ d ∧ 2 * (n * P - m * d) ≤ d).
  { subst m. destruct (Z.ltb_spec (2 * r) d); [lia|].
    destruct (Z.ltb_spec d (2 * r)); [lia|]. destruct (Z.even q); lia. }
  pose proof (nearest_same_quotient n d P m ltac:(lia) ltac:(lia) HP HdP
                (proj1 Hm) (proj2 Hm)) as Hfloor.
  destruct (Z.leb_spec 0 e).
  - assert (E0 : e = 0) by lia. subst P. rewrite E0 in *.
    change (2 ^ (- 0)) with 1 in Hfloor. change (2 ^ 0) with 1.
    rewrite Z.div_1_r in Hfloor. rewrite Z.mul_1_r, Qfloor_Z. exact Hfloor.
  - rewrite Qfloor_fraction. subst P. rewrite Z2Pos.id by lia. exact Hfloor.
Qed.

(** [Math.floor(n / k)] on whole numbers is the whole quotient. *)
Lemma floor_div_whole (n k : Z) :
  0 ≤ n < 2 ^ 53 → 0 < k ≤ 2 ^ 53 →
  Double.floor (Double.div (inject_Z n) (inject_Z k)) = n / k.
Proof.
  intros Hn Hk. destruct k as [|p|p]; try lia.
  unfold Double.floor, Double.div, Double.round.
  unfold Qdiv, Qmult, Qinv, inject_Z. cbn [Qnum Qden].
  rewrite Z.mul_1_r, Pos.mul_1_l.
  set (g := Z.gcd n (Z.pos p)).
  assert (Hg : 0 < g).
  { pose proof (Z.gcd_nonneg n (Z.pos p)).
    destruct (Z.eq_dec g 0) as [E|E]; [|lia].
    apply Z.gcd_eq_0_r in E. lia. }
  destruct (Z.gcd_divide_l n (Z.pos p)) as [n' Hn'].
  destruct (Z.gcd_divide_r n (Z.pos p)) as [d' Hd'].
  fold g in Hn', Hd'.
  assert (En : n / g = n') by (rewrite Hn' at 1; apply Z.div_mul; lia).
  assert (Ed : Z.pos p / g = d') by (rewrite Hd' at 1; apply Z.div_mul; lia).
  assert (Hq : n / Z.pos p = n' / d').
  { rewrite Hn', Hd'. apply Z.div_mul_cancel_r; lia. }
  rewrite En, Ed, Hq.
  assert (Hd0 : 0 < d') by nia. assert (Hn0 : 0 ≤ n') by nia.
  destruct n' as [|n'|n']; [|apply floor_round_pos; nia|lia].
  rewrite Z.div_0_l by lia. reflexivity.
Qed.

(** The decimal digits of a number below 60, after [padStart(2, '0')]. *)
Lemma two_digits (r : Z) :
  0 ≤ r < 60 →
  padStart 2 "0" (pretty r) = pretty (r / 10) +:+ pretty (r mod 10).
Proof.
  intros Hr.
  assert (H : forallb (λ r, bool_decide (padStart 2 "0" (pretty r)
                                         = pretty (r / 10) +:+ pretty (r mod 10)))
                      (seqZ 0 60) = true) by (vm_compute; reflexivity).
  rewrite forallb_forall in H.
  specialize (H r (proj1 (list_elem_of_In _ _) (elem_of_seqZ_range 60 r Hr))).
  cbv beta in H. apply bool_decide_eq_true in H. exact H.
Qed.

(** X4. [formatTime] on a whole number of seconds (up to 2^53) writes the
    whole minutes in decimal, a colon, and the remaining seconds in exactly
    two decimal digits; minutes are not folded into hours.  The division
    by 60 is done in binary64 and is exact over this range. *)
Theorem formatTime_minutes_seconds (seconds : Z) :
  0 ≤ seconds < 2 ^ 53 →
  formatTime seconds
  = pretty (seconds / 60) +:+ ":"
    +:+ pretty (seconds mod 60 / 10) +:+ pretty (seconds mod 60 mod 10)
  ∧ 0 ≤ seconds mod 60 / 10 ≤ 5 ∧ 0 ≤ seconds mod 60 mod 10 ≤ 9.
Proof.
  intros Hs. unfold formatTime. cbv zeta.
  rewrite floor_div_whole by (change (2 ^ 53) with 9007199254740992; lia).
  rewrite Z.rem_mod_nonneg by lia.
  pose proof (Z.mod_pos_bound seconds 60 ltac:(lia)) as Hr.
  rewrite (two_digits _ Hr). split; [reflexivity|].
  pose proof (Z.mod_pos_bound (seconds mod 60) 10 ltac:(lia)).
  pose proof (Z.div_pos (seconds mod 60) 10 ltac:(lia) ltac:(lia)).
  assert (seconds mod 60 / 10 < 6) by (apply Z.div_lt_upper_bound; lia).
  lia.
Qed.

Lemma formatTime_minutes_seconds_witness :
  formatTime 3725 = "62:05"%string.
Proof.
  destruct (formatTime_minutes_seconds 3725) as [H _];
    [change (2 ^ 53) with 9007199254740992; lia|].
  rewrite H. vm_compute. reflexivity.
Defined.

(** X5. [getElapsedTime] gives the whole seconds between the start of the
    game and the clock reading, for a clock that has not run backwards:
    the division by 1000 in binary64 is exact on whole milliseconds.  It
    gives 0 when there is no game, and also for a game whose [startTime]
    is 0, which the test [!this.state.startTime] takes for a missing
    one. *)
Theorem getElapsedTime_whole_seconds (s : state) (now : Z) :
  (startTime s ≠ 0 → startTime s ≤ now → now - startTime s < 2 ^ 53 →
   getElapsedTime (Some s) now = (now - startTime s) / 1000)
  ∧ (startTime s = 0 → getElapsedTime (Some s) now = 0)
  ∧ getElapsedTime None now = 0.
Proof.
  split; [|split; [|reflexivity]].
  - intros Hne Hle Hlt. unfold getElapsedTime.
    destruct (Z.eqb_spec (startTime s) 0) as [|_]; [contradiction|].
    apply floor_div_whole; change (2 ^ 53) with 9007199254740992 in *; lia.
  - intros E. unfold getElapsedTime. rewrite E. reflexivity.
Qed.

Lemma getElapsedTime_whole_seconds_witness :
  getElapsedTime (Some (set_stock [] (mkState [] [] [] [] [] 0 0 1700000000000 1)))
                 1700000061999 = 61
  ∧ getElapsedTime (Some (fresh 0 0)) 1700000061999 = 0.
Proof.
  destruct (getElapsedTime_whole_seconds
              (set_stock [] (mkState [] [] [] [] [] 0 0 1700000000000 1))
              1700000061999) as (H1 & _ & _).
  destruct (getElapsedTime_whole_seconds (fresh 0 0) 1700000061999)
    as (_ & H2 & _).
  split.
  - rewrite H1; [reflexivity | discriminate | cbn; lia
                 | cbn; change (2 ^ 53) with 9007199254740992; lia].
  - apply H2. reflexivity.
Defined.

(** ** Picking a seed *)

Lemma ilog2_at_least (n d b : Z) :
  0 < n → 0 < d → d * 2 ^ Z.max b 0 ≤ n * 2 ^ Z.max (- b) 0 →
  b ≤ Double.ilog2 n d.
Proof.
  intros Hn Hd Hb.
  pose proof (Z.log2_spec n Hn) as [_ Hn2].
  pose proof (Z.log2_spec d Hd) as [Hd1 _].
  pose proof (Z.log2_nonneg n). pose proof (Z.log2_nonneg d).
  assert (Hpos : ∀ z, 0 < 2 ^ Z.max z 0) by (intros; apply Z.pow_pos_nonneg; lia).
  set (k0 := Z.log2 n - Z.log2 d).
  assert (Hk0 : b ≤ k0).
  { destruct (Z.le_gt_cases b k0) as [|Hgt]; [assumption|]. exfalso.
    destruct (Z.le_gt_cases 0 b) as [Hb0|Hb0].
    - replace (Z.max b 0) with b in Hb by lia.
      replace (Z.max (- b) 0) with 0 in Hb by lia.
      change (2 ^ 0) with 1 in Hb.
      assert (Hp : 2 ^ Z.succ (Z.log2 n) ≤ 2 ^ (Z.log2 d + b))
        by (apply Z.pow_le_mono_r; lia).
      rewrite Z.pow_add_r in Hp by lia.
      assert (0 < 2 ^ b) by (apply Z.pow_pos_nonneg; lia). nia.
    - replace (Z.max b 0) with 0 in Hb by lia.
      replace (Z.max (- b) 0) with (- b) in Hb by lia.
      change (2 ^ 0) with 1 in Hb.
      assert (Hp : 2 ^ (Z.succ (Z.log2 n) + - b) ≤ 2 ^ Z.log2 d)
        by (apply Z.pow_le_mono_r; lia).
      rewrite Z.pow_add_r in Hp by lia.
      assert (0 < 2 ^ (- b)) by (apply Z.pow_pos_nonneg; lia). nia. }
  unfold Double.ilog2. fold k0.
  destruct (Z.ltb_spec (n * 2 ^ Z.max (- k0) 0) (d * 2 ^ Z.max k0 0)) as [Hlt|Hge];
    [|exact Hk0].
  destruct (Z.eq_dec b k0) as [->|]; [lia|lia].
Qed.

(** The value of [round_pos]: a significand over a power of two, nearest
    to [n/d]. *)
Lemma round_pos_nearest (n d : Z) :
  0 < n → 0 < d → n < 2 ^ 53 * d →
  ∃ m e, e = Z.max (Double.ilog2 n d - 52) (-1074) ∧ e ≤ 0
         ∧ (Double.round_pos n d == Qmake m (Z.to_pos (2 ^ (- e))))%Q
         ∧ 2 * (m * d - n * 2 ^ (- e)) ≤ d
         ∧ 2 * (n * 2 ^ (- e) - m * d) ≤ d.
Proof.
  intros Hn Hd Hlt.
  pose proof (ilog2_lower n d Hn Hd) as Hlow.
  unfold Double.round_pos, Double.emin.
  set (k := Double.ilog2 n d) in *.
  assert (Hk : k ≤ 52).
  { destruct (Z.le_gt_cases k 52) as [|Hgt]; [assumption|]. exfalso.
    replace (Z.max k 0) with k in Hlow by lia.
    replace (Z.max (- k) 0) with 0 in Hlow by lia.
    change (2 ^ 0) with 1 in Hlow.
    assert (2 ^ 53 ≤ 2 ^ k) by (apply Z.pow_le_mono_r; lia). nia. }
  set (e := Z.max (k - 52) (-1074)).
  assert (He : -1074 ≤ e ≤ 0) by lia.
  replace (Z.max (- e) 0) with (- e) by lia.
  replace (Z.max e 0) with 0 by lia.
  change (2 ^ 0) with 1. rewrite Z.mul_1_r.
  assert (HP : 0 < 2 ^ (- e)) by (apply Z.pow_pos_nonneg; lia).
  set (P := 2 ^ (- e)) in *.
  pose proof (Z.div_mod (n * P) d ltac:(lia)) as Hdm.
  pose proof (Z.mod_pos_bound (n * P) d ltac:(lia)) as Hr.
  set (q := n * P / d) in *. set (r := (n * P) mod d) in *.
  set (m := if 2 * r <? d then q
            else if d <? 2 * r then q + 1
            else if Z.even q then q else q + 1).
  assert (Hm : 2 * (m * d - n * P) ≤ d ∧ 2 * (n * P - m * d) ≤ d).
  { subst m. destruct (Z.ltb_spec (2 * r) d); [lia|].
    destruct (Z.ltb_spec d (2 * r)); [lia|]. destruct (Z.even q); lia. }
  exists m, e. split; [reflexivity|]. split; [lia|]. split; [|exact Hm].
  destruct (Z.leb_spec 0 e); [|reflexivity].
  assert (E0 : e = 0) by lia. subst P. rewrite E0.
  change (2 ^ 0) with 1. change (2 ^ (- 0)) with 1. rewrite Z.mul_1_r.
  reflexivity.
Qed.

(** A positive rational is rounded through its lowest terms. *)
Lemma round_positive (x : Q) :
  (0 < x)%Q →
  ∃ n d, 0 < n ∧ 0 < d ∧ Qnum x * d = n * Zpos (Qden x)
         ∧ Double.round x = Double.round_pos n d.
Proof.
  intros Hx. unfold Qlt in Hx. cbn in Hx. rewrite Z.mul_1_r in Hx.
  unfold Double.round.
  set (g := Z.gcd (Qnum x) (Z.pos (Qden x))).
  assert (Hg : 0 < g).
  { pose proof (Z.gcd_nonneg (Qnum x) (Z.pos (Qden x))).
    destruct (Z.eq_dec g 0) as [E|E]; [|lia].
    apply Z.gcd_eq_0_r in E. lia. }
  destruct (Z.gcd_divide_l (Qnum x) (Z.pos (Qden x))) as [n Hn].
  destruct (Z.gcd_divide_r (Qnum x) (Z.pos (Qden x))) as [d Hd].
  fold g in Hn, Hd.
  assert (En : Qnum x / g = n) by (rewrite Hn at 1; apply Z.div_mul; lia).
  assert (Ed : Z.pos (Qden x) / g = d) by (rewrite Hd at 1; apply Z.div_mul; lia).
  rewrite En, Ed. exists n, d.
  assert (Hn0 : 0 < n) by nia. assert (Hd0 : 0 < d) by nia.
  split; [exact Hn0|]. split; [exact Hd0|].
  split; [clearbody g; rewrite Hn, Hd; ring|].
  destruct n; [lia | reflexivity | lia].
Qed.

(** A binary64 value below 1 is at most [1 - 2^-53]. *)
Lemma representable_below_one (u : Q) :
  (0 < u)%Q → (u < 1)%Q → (Double.round u == u)%Q →
  Qnum u * 2 ^ 53 ≤ (2 ^ 53 - 1) * Zpos (Qden u).
Proof.
  intros H0 H1 Hr.
  destruct (round_positive u H0) as (n & d & Hn & Hd & Hu & E).
  rewrite E in Hr. clear E.
  unfold Qlt in H1. cbn in H1. rewrite Z.mul_1_r, Z.mul_1_l in H1.
  assert (Hnd : n < d) by nia.
  change (2 ^ 53) with 9007199254740992.
  destruct (Z.le_gt_cases d (2 * n)) as [Hhalf|Hsmall]; [|nia].
  destruct (round_pos_nearest n d Hn Hd) as (m & e & He & He0 & Hv & _ & _).
  { change (2 ^ 53) with 9007199254740992. lia. }
  assert (Hk : Double.ilog2 n d = -1).
  { apply Z.le_antisymm.
    - pose proof (ilog2_lower n d Hn Hd) as Hlow.
      destruct (Z.le_gt_cases (Double.ilog2 n d) (-1)) as [|Hgt]; [assumption|].
      exfalso. replace (Z.max (Double.ilog2 n d) 0) with (Double.ilog2 n d)
        in Hlow by lia.
      replace (Z.max (- Double.ilog2 n d) 0) with 0 in Hlow by lia.
      change (2 ^ 0) with 1 in Hlow.
      assert (0 < 2 ^ Double.ilog2 n d) by (apply Z.pow_pos_nonneg; lia). nia.
    - apply ilog2_at_least; [assumption..|]. change (d * 1 ≤ n * 2). lia. }
  rewrite Hk in He. change (Z.max (-1 - 52) (-1074)) with (-53) in He. subst e.
  change (2 ^ (- -53)) with 9007199254740992 in Hv.
  rewrite Hv in Hr. unfold Qeq in Hr. cbn in Hr.
  assert (Hm : m * d = n * 9007199254740992) by nia.
  assert (m < 9007199254740992) by nia.
  nia.
Qed.

Lemma winnable_seeds_200 : length WINNABLE_SEEDS = 200%nat.
Proof. reflexivity. Qed.

Lemma floor_200 (u : Q) :
  (0 <= u)%Q → (u < 1)%Q → (Double.round u == u)%Q →
  0 ≤ Double.floor (Double.mul u (inject_Z 200)) < 200.
Proof.
  intros H0 H1 Hr.
  destruct (Qle_lt_or_eq _ _ H0) as [Hpos|Hzero].
  2:{ assert (E : Qnum u = 0).
      { unfold Qeq in Hzero. cbn in Hzero. lia. }
      unfold Double.floor, Double.mul, Double.round, Qmult. cbn [Qnum Qden inject_Z].
      rewrite E, Z.mul_0_l, Zdiv_0_l. change (0 ≤ 0 < 200). lia. }
  pose proof (representable_below_one u Hpos H1 Hr) as Hu.
  unfold Double.floor, Double.mul.
  assert (Hy : (0 < u * inject_Z 200)%Q).
  { unfold Qlt in *. cbn in *. lia. }
  destruct (round_positive _ Hy) as (n & d & Hn & Hd & Hnd & ->).
  cbn [Qmult Qnum Qden inject_Z] in Hnd. rewrite Pos.mul_1_r in Hnd.
  set (a := Qnum u) in *. set (b := Z.pos (Qden u)) in *.
  assert (Hb : 0 < b) by (subst b; lia).
  change (2 ^ 53) with 9007199254740992 in Hu.
  assert (Hle : n * 9007199254740992 ≤ 200 * 9007199254740991 * d) by nia.
  destruct (round_pos_nearest n d Hn Hd) as (m & e & He & He0 & Hv & Hup & Hdn).
  { change (2 ^ 53) with 9007199254740992. nia. }
  assert (Hk7 : Double.ilog2 n d ≤ 7).
  { pose proof (ilog2_lower n d Hn Hd) as Hlow.
    destruct (Z.le_gt_cases (Double.ilog2 n d) 7) as [|Hgt]; [assumption|].
    exfalso. replace (Z.max (Double.ilog2 n d) 0) with (Double.ilog2 n d)
      in Hlow by lia.
    replace (Z.max (- Double.ilog2 n d) 0) with 0 in Hlow by lia.
    change (2 ^ 0) with 1 in Hlow.
    assert (2 ^ 8 ≤ 2 ^ Double.ilog2 n d) by (apply Z.pow_le_mono_r; lia).
    change (2 ^ 8) with 256 in *. nia. }
  assert (HP : 2 ^ 45 ≤ 2 ^ (- e)) by (apply Z.pow_le_mono_r; lia).
  change (2 ^ 45) with 35184372088832 in HP.
  set (P := 2 ^ (- e)) in *.
  rewrite (Qfloor_comp _ _ Hv), Qfloor_fraction, Z2Pos.id by lia.
  assert (Hm0 : 0 ≤ m) by nia.
  assert (Hm200 : m < 200 * P) by nia.
  split; [apply Z.div_pos; lia | apply Z.div_lt_upper_bound; lia].
Qed.

(** X6. [getRandomWinnableSeed] always returns one of the winnable seeds.
    Whatever value in [0, 1) [Math.random()] gives, the index
    [Math.floor(u * 200)] computed in binary64 is one of 0..199; even the
    largest value below 1 does not round up to index 200, where the array
    would give [undefined]. *)
Theorem getRandomWinnableSeed_in_list (u : Q) :
  (0 <= u)%Q → (u < 1)%Q → (Double.round u == u)%Q →
  ∃ sd, getRandomWinnableSeed u = Some sd ∧ sd ∈ WINNABLE_SEEDS.
Proof.
  intros H0 H1 Hr. unfold getRandomWinnableSeed.
  rewrite winnable_seeds_200. change (Z.of_nat 200) with 200.
  pose proof (floor_200 u H0 H1 Hr) as Hi.
  destruct (proj2 (js_get_is_Some WINNABLE_SEEDS
                     (Double.floor (Double.mul u (inject_Z 200)))))
    as [sd Hsd]; [rewrite winnable_seeds_200; lia|].
  exists sd. split; [exact Hsd|].
  unfold js_get in Hsd. destruct (_ <? 0); [discriminate|].
  eapply list_elem_of_lookup_2, Hsd.
Qed.

Lemma getRandomWinnableSeed_in_list_witness :
  ∃ sd, getRandomWinnableSeed (9007199254740991 # 9007199254740992) = Some sd
        ∧ sd ∈ WINNABLE_SEEDS.
Proof.
  apply (getRandomWinnableSeed_in_list (9007199254740991 # 9007199254740992)).
  - discriminate.
  - reflexivity.
  - apply Qeq_bool_iff. vm_compute. reflexivity.
Defined.

(** ** The deal *)

Lemma omap_card_of (cs : list card) : omap card_of (Card <$> cs) = cs.
Proof. induction cs as [|c cs IH]; [reflexivity|]. cbn. rewrite IH. reflexivity. Qed.

Lemma shuffled_deck (sd : Z) :
  0 ≤ sd →
  ∃ cs, (shuffle (Card <$> createDeck) sd).1 = Card <$> cs
        ∧ cs ≡ₚ createDeck.
Proof.
  intros Hsd.
  assert (Hp : (shuffle (Card <$> createDeck) sd).1 ≡ₚ Card <$> createDeck).
  { apply shuffle_Permutation; [discriminate| |exact Hsd].
    change (52 ≤ 1048576). lia. }
  revert Hp. generalize ((shuffle (Card <$> createDeck) sd).1). intros deck Hp.
  exists (omap card_of deck). split.
  - assert (Hall : Forall (λ x, ∃ c, x = Card c) deck).
    { rewrite Hp. apply Forall_fmap, Forall_forall. intros c _. eauto. }
    clear Hp. induction Hall as [|x deck [c ->] _ IH]; [reflexivity|].
    cbn. rewrite <- IH. reflexivity.
  - rewrite Hp. rewrite omap_card_of. reflexivity.
Qed.

Lemma newGame_dealt (sd now : Z) :
  0 ≤ sd →
  ∃ cs s,
    (shuffle (Card <$> createDeck) sd).1 = Card <$> cs
    ∧ cs ≡ₚ createDeck
    ∧ newGame sd now = Returns s s
    ∧ tableau s = dealt_column cs <$> seq 0 7
    ∧ stock s = Card <$> drop 28 cs
    ∧ length (stock s) = 24%nat
    ∧ Forall (λ x, ∃ c, x = Card c ∧ faceUp c = false) (stock s)
    ∧ waste s = [] ∧ foundations s = [[]; []; []; []]
    ∧ history s = [] ∧ moves s = 0 ∧ score s = 0
    ∧ startTime s = now ∧ seed s = sd.
Proof.
  intros Hsd. destruct (shuffled_deck sd Hsd) as (cs & Hcs & Hp).
  exists cs. unfold newGame. rewrite Hcs. clear Hcs.
  assert (Hlen : length cs = 52%nat) by (rewrite Hp; reflexivity).
  assert (Hdown : Forall (λ c, faceUp c = false) cs).
  { rewrite Hp. apply Forall_forall. intros c Hc.
    unfold createDeck in Hc. apply list_elem_of_bind in Hc as (s & Hc & _).
    apply list_elem_of_fmap in Hc as (r & -> & _). reflexivity. }
  assert (Hstock : length (Card <$> drop 28 cs) = 24%nat
                   ∧ Forall (λ x, ∃ c, x = Card c ∧ faceUp c = false)
                            (Card <$> drop 28 cs)).
  { split; [rewrite length_fmap, length_drop, Hlen; reflexivity|].
    apply Forall_fmap, Forall_drop. eapply Forall_impl; [exact Hdown|].
    intros c Hc. exists c. auto. }
  clear Hdown. revert Hp Hstock. generalize createDeck. intros deck0 Hp Hstock.
  do 52 (destruct cs as [|? cs]; [discriminate Hlen|]).
  destruct cs; [|discriminate Hlen]. clear Hlen.
  eexists. split; [reflexivity|]. split; [exact Hp|].
  split; [vm_compute; reflexivity|].
  split; [vm_compute; reflexivity|].
  split; [vm_compute; reflexivity|].
  split; [exact (proj1 Hstock)|]. split; [exact (proj2 Hstock)|].
  repeat split; reflexivity.
Qed.

(** The rows of a dealt column: the cards of the shuffle from position
    [col (col + 1) / 2] on, the last of them face up and the others face
    down. *)
Lemma dealt_column_rows (cs : list card) (col : nat) :
  (col * (col + 1) / 2 + col < length cs)%nat →
  length (dealt_column cs col) = S col
  ∧ ∀ row x, dealt_column cs col !! row = Some x →
             ∃ c0, cs !! (col * (col + 1) / 2 + row)%nat = Some c0
                   ∧ shown (bool_decide (row = col)) c0 x.
Proof.
  intros Hlen. unfold dealt_column.
  set (start := (col * (col + 1) / 2)%nat) in *. clearbody start.
  assert (HA : length (take col (drop start cs)) = col)
    by (rewrite length_take, length_drop; lia).
  destruct (lookup_lt_is_Some_2 cs (start + col) Hlen) as [c1 Hc1].
  assert (HB : take 1 (drop (start + col) cs) = [c1]).
  { rewrite <- (take_drop_middle cs (start + col) c1 Hc1) at 1.
    rewrite drop_app_length'; [reflexivity|].
    rewrite length_take. lia. }
  rewrite HB. split.
  { rewrite length_app, !length_fmap, HA. cbn. lia. }
  intros row x H. destruct (decide (row < col)%nat) as [Hlt|Hge].
  - rewrite lookup_app_l in H by (rewrite !length_fmap, HA; exact Hlt).
    rewrite !list_lookup_fmap in H.
    destruct (take col (drop start cs) !! row) as [c0|] eqn:Ec; [|discriminate].
    injection H as <-. exists c0. split.
    + rewrite lookup_take_lt, lookup_drop in Ec by exact Hlt. exact Ec.
    + rewrite bool_decide_eq_false_2 by lia. apply shown_set_faceUp.
  - rewrite lookup_app_r in H by (rewrite !length_fmap, HA; lia).
    rewrite !length_fmap, HA in H.
    destruct (row - col)%nat as [|n] eqn:En; [|destruct n; discriminate H].
    injection H as <-. assert (row = col) as -> by lia.
    exists c1. split; [exact Hc1|].
    rewrite bool_decide_eq_true_2 by reflexivity. apply shown_set_faceUp.
Qed.

(** X7. The deal.  For every seed that is a whole number not below 0,
    [newGame] returns, with the shuffled cards [cs] (a permutation of the
    52 cards of [createDeck]) laid out in order on seven tableau piles:
    pile [col] has [col + 1] cards, row [row] being the card at position
    [col (col + 1) / 2 + row] of the shuffle, with [faceUp] equal to
    [true] for the last row and to [false] for the others; the remaining
    24 cards make the stock, face down, the last card of the shuffle on
    top; waste, foundations and history are empty, score and move count
    are 0, [startTime] is the clock reading and [seed] the seed. *)
Theorem newGame_deals (sd now : Z) :
  0 ≤ sd →
  ∃ cs s,
    (shuffle (Card <$> createDeck) sd).1 = Card <$> cs
    ∧ cs ≡ₚ createDeck
    ∧ newGame sd now = Returns s s
    ∧ length (tableau s) = 7%nat
    ∧ (∀ col p, tableau s !! col = Some p →
         length p = S col
         ∧ ∀ row x, p !! row = Some x →
             ∃ c0, cs !! (col * (col + 1) / 2 + row)%nat = Some c0
                   ∧ shown (bool_decide (row = col)) c0 x)
    ∧ stock s = Card <$> drop 28 cs
    ∧ length (stock s) = 24%nat
    ∧ Forall (λ x, ∃ c, x = Card c ∧ faceUp c = false) (stock s)
    ∧ waste s = [] ∧ foundations s = [[]; []; []; []]
    ∧ history s = [] ∧ moves s = 0 ∧ score s = 0
    ∧ startTime s = now ∧ seed s = sd.
Proof.
  intros Hsd.
  destruct (newGame_dealt sd now Hsd) as (cs & s & H1 & Hp & H3 & Ht & Hrest).
  exists cs, s. split; [exact H1|]. split; [exact Hp|]. split; [exact H3|].
  split; [rewrite Ht, length_fmap; reflexivity|]. split; [|exact Hrest].
  intros col p Hcol. rewrite Ht, list_lookup_fmap in Hcol.
  destruct (seq 0 7 !! col) as [col'|] eqn:Ec; [|discriminate].
  apply lookup_seq in Ec as [-> Hlt]. injection Hcol as <-.
  apply dealt_column_rows.
  assert (Hlen : length cs = 52%nat) by (rewrite Hp; reflexivity).
  rewrite Hlen. cbn [Nat.add].
  do 7 (destruct col as [|col]; [apply Nat.ltb_lt; reflexivity|]). lia.
Qed.

(** The deal of seed 11982: pile 2 has three cards, the first face down
    and the last face up. *)
Lemma newGame_deals_witness :
  ∃ s p, newGame 11982 0 = Returns s s
         ∧ tableau s !! 2%nat = Some p ∧ length p = 3%nat
         ∧ (∃ c, p !! 0%nat = Some (Card c) ∧ faceUp c = false)
         ∧ (∃ c, p !! 2%nat = Some (Card c) ∧ faceUp c = true)
         ∧ length (stock s) = 24%nat
         ∧ startTime s = 0 ∧ seed s = 11982.
Proof.
  destruct (newGame_deals 11982 0)
    as (cs & s & _ & _ & H3 & H7 & Hrows & _ & H24 & _ & _ & _ & _ & _ & _ & Hst & Hsd);
    [lia|].
  destruct (lookup_lt_is_Some_2 (tableau s) 2) as [p Hp]; [rewrite H7; lia|].
  destruct (Hrows 2%nat p Hp) as [Hlen Hrow].
  destruct (lookup_lt_is_Some_2 p 0) as [x0 H0]; [rewrite Hlen; lia|].
  destruct (lookup_lt_is_Some_2 p 2) as [x2 H2]; [rewrite Hlen; lia|].
  destruct (Hrow 0%nat x0 H0) as (c0 & _ & (c & -> & _ & _ & _ & Hf0)).
  destruct (Hrow 2%nat x2 H2) as (c2 & _ & (c' & -> & _ & _ & _ & Hf2)).
  exists s, p. split; [exact H3|]. split; [exact Hp|]. split; [exact Hlen|].
  split; [exists c; split; [exact H0 | exact Hf0]|].
  split; [exists c'; split; [exact H2 | exact Hf2]|].
  split; [exact H24|]. split; [exact Hst | exact Hsd].
Defined.

(** ** Invariants of a game in progress *)

Lemma preserves_ret {A} (Inv : state → Prop) (a : A) : preserves Inv (ret a).
Proof. intros s Hs. exact Hs. Qed.

Lemma preserves_lift {A} (Inv : state → Prop) (r : state → result A) :
  preserves Inv (lift r).
Proof. intros s Hs. unfold lift. destruct (r s); exact Hs. Qed.

Lemma preserves_modify (Inv : state → Prop) (g : state → state) :
  (∀ s, Inv s → Inv (g s)) → preserves Inv (modify g).
Proof. intros Hg s Hs. apply Hg, Hs. Qed.

Lemma preserves_bind {A B} (Inv : state → Prop) (m : M A) (k : A → M B) :
  preserves Inv m → (∀ a, preserves Inv (k a)) → preserves Inv (bind m k).
Proof.
  intros Hm Hk s Hs. specialize (Hm s Hs). unfold bind.
  destruct (m s) as [a s'|s']; cbn [final] in Hm |- *; [apply Hk, Hm | exact Hm].
Qed.

(** What holds of a property that the primitive steps of the commands
    preserve. *)
Section invariant.

Variable Inv : state → Prop.
Hypothesis Inv_saveState : ∀ s, Inv s → Inv (saveState s).
Hypothesis Inv_counted : ∀ s, Inv s → Inv (set_moves (moves s + 1) s).
Hypothesis Inv_remove : ∀ l, preserves Inv (remove_from_source l).
Hypothesis Inv_add : ∀ cfg l cards b, preserves Inv (add_to_destination cfg l cards b).
Hypothesis Inv_draw : ∀ cfg, preserves Inv (drawFromStock cfg).
Hypothesis Inv_undo : ∀ s, Inv s → Inv (final (undo s)).

Lemma moveCards_preserves cfg l1 l2 : preserves Inv (moveCards cfg l1 l2).
Proof.
  unfold moveCards.
  apply preserves_bind; [apply preserves_modify, Inv_saveState|]. intros _.
  apply preserves_bind; [apply Inv_remove|]. intros r.
  apply preserves_bind; [apply Inv_add|]. intros _.
  apply preserves_bind; [apply preserves_modify, Inv_counted|]. intros _.
  apply preserves_ret.
Qed.

Lemma auto_foundation_preserves cfg l c : preserves Inv (auto_foundation cfg l c).
Proof.
  unfold auto_foundation.
  apply preserves_bind; [apply preserves_lift|]. intros [|]; [|apply preserves_ret].
  apply preserves_bind; [apply preserves_lift|]. intros [|]; [|apply preserves_ret].
  apply preserves_bind; [apply moveCards_preserves|]. intros _. apply preserves_ret.
Qed.

Lemma auto_tableau_preserves cfg l c ixs : preserves Inv (auto_tableau cfg l c ixs).
Proof.
  induction ixs as [|i rest IH]; cbn [auto_tableau]; [apply preserves_ret|].
  destruct (_ && _); [exact IH|].
  apply preserves_bind; [apply preserves_lift|]. intros [|]; [|exact IH].
  apply preserves_bind; [apply moveCards_preserves|]. intros _. apply preserves_ret.
Qed.

Lemma tryAutoMove_preserves cfg cid : preserves Inv (tryAutoMove cfg cid).
Proof.
  unfold tryAutoMove.
  apply preserves_bind; [apply preserves_lift|]. intros [l|]; [|apply preserves_ret].
  apply preserves_bind; [apply preserves_lift|].
  intros [| |c]; try (intros s Hs; exact Hs).
  destruct (_ && _); [apply preserves_ret|].
  apply preserves_bind.
  - destruct (negb _); [apply auto_foundation_preserves | apply preserves_ret].
  - intros [d|]; [apply preserves_ret | apply auto_tableau_preserves].
Qed.

Lemma perform_preserves o s : Inv s → Inv (perform o s).
Proof.
  intros Hs. destruct o; cbn [perform].
  - apply Inv_draw, Hs.
  - apply moveCards_preserves, Hs.
  - apply tryAutoMove_preserves, Hs.
  - apply Inv_undo, Hs.
  - apply Inv_saveState, Hs.
Qed.

Lemma perform_all_preserves ops s : Inv s → Inv (perform_all ops s).
Proof.
  unfold perform_all. revert s.
  induction ops as [|o ops IH]; intros s Hs; cbn [fold_left]; [exact Hs|].
  apply IH, perform_preserves, Hs.
Qed.

End invariant.

(** The branches of a command written out as a function of the state. *)
Ltac branches :=
  repeat match goal with
         | |- context [match ?x with _ => _ end] => destruct x eqn:?
         end.

(** *** The history is bounded *)

Lemma saveState_bounded s : bounded_history s → bounded_history (saveState s).
Proof.
  unfold bounded_history, saveState. intros H. cbn [history set_history].
  set (x := snapshot_of s). clearbody x.
  destruct (Nat.ltb_spec 50 (length (history s ++ [x]))) as [Hlt|Hge]; [|exact Hge].
  rewrite length_app in Hlt. cbn in Hlt.
  destruct (history s) as [|y h]; cbn in *; [lia|]. rewrite length_app. cbn. lia.
Qed.

Lemma undo_bounded s : bounded_history s → bounded_history (final (undo s)).
Proof.
  unfold bounded_history, undo. intros H.
  destruct (last (history s)) as [x|] eqn:E; cbn [final history]; [|exact H].
  apply last_removelast in E. rewrite E in H. rewrite length_app in H.
  cbn in H. lia.
Qed.

Lemma perform_all_bounded ops s :
  bounded_history s → bounded_history (perform_all ops s).
Proof.
  apply (perform_all_preserves bounded_history).
  - apply saveState_bounded.
  - intros s0 H. exact H.
  - intros l s0 H. unfold bounded_history.
    rewrite (remove_from_source_keeps history history_off_table). exact H.
  - intros cfg l cards b s0 H. unfold bounded_history.
    rewrite (add_to_destination_keeps history history_off_table). exact H.
  - intros cfg s0 H. unfold bounded_history.
    destruct (drawFromStock_keeps history history_off_table cfg s0) as [E|E];
      rewrite E; [exact H | apply saveState_bounded, H].
  - apply undo_bounded.
Qed.

(** X8. However many commands are run, at most 50 snapshots are kept for
    [undo]: from a state with at most 50 snapshots, any sequence of
    [drawFromStock], [moveCards], [tryAutoMove], [undo] and [saveState],
    with any arguments and settings, returning or raising, leaves at most
    50. *)
Theorem history_at_most_50 (ops : list op) (s : state) :
  (length (history s) ≤ 50)%nat →
  (length (history (perform_all ops s)) ≤ 50)%nat.
Proof. apply perform_all_bounded. Qed.

Lemma history_at_most_50_witness :
  (length (history (perform_all (replicate 60 (Draw standard_draw1) ++ [Save])
                                lone_stock_card)) ≤ 50)%nat.
Proof.
  apply (history_at_most_50 (replicate 60 (Draw standard_draw1) ++ [Save])
           lone_stock_card).
  cbn. lia.
Defined.

(** *** Score and move count are never negative *)

Lemma Forall_tail {A} (P : A → Prop) (l : list A) : Forall P l → Forall P (tail l).
Proof. intros H. destruct H; [constructor | assumption]. Qed.

Lemma Forall_removelast {A} (P : A → Prop) (l : list A) :
  Forall P l → Forall P (removelast l).
Proof.
  induction 1 as [|x l Hx Hl IH]; [constructor|].
  destruct l; [constructor|]. cbn [removelast] in *. constructor; assumption.
Qed.

Lemma Forall_last {A} (P : A → Prop) (l : list A) (x : A) :
  Forall P l → last l = Some x → P x.
Proof.
  intros H E. apply last_elem_of in E. rewrite Forall_forall in H. apply H, E.
Qed.

(** What [saveState] does to a property of the snapshots. *)
Lemma saveState_history (P : snapshot → Prop) (s : state) :
  Forall P (history s) → P (snapshot_of s) → Forall P (history (saveState s)).
Proof.
  intros Hh Hx. unfold saveState. cbn [history set_history].
  assert (H : Forall P (history s ++ [snapshot_of s])).
  { apply Forall_app. split; [exact Hh | constructor; [exact Hx | constructor]]. }
  destruct (_ <? _)%nat; [apply Forall_tail, H | exact H].
Qed.

Lemma saveState_nonneg s : nonneg_counts s → nonneg_counts (saveState s).
Proof.
  intros [Hc Hh]. split; [exact Hc|].
  apply saveState_history; [exact Hh | exact Hc].
Qed.

Lemma undo_nonneg s : nonneg_counts s → nonneg_counts (final (undo s)).
Proof.
  intros [Hc Hh]. unfold undo.
  destruct (last (history s)) as [x|] eqn:E; cbn [final]; [|split; assumption].
  split; cbn [score moves history].
  - apply (Forall_last _ _ _ Hh E).
  - apply Forall_removelast, Hh.
Qed.

Lemma draw_loop_nonneg n : preserves nonneg_counts (draw_loop n).
Proof.
  induction n as [|n IH]; intros s Hs; cbn [draw_loop]; [exact Hs|].
  destruct (js_pop (stock s)) as [x rest].
  destruct x; cbn [final]; try exact Hs. apply IH, Hs.
Qed.

Lemma remove_from_source_nonneg l : preserves nonneg_counts (remove_from_source l).
Proof. intros s Hs. unfold remove_from_source. branches; exact Hs. Qed.

Lemma add_to_destination_nonneg cfg l cards b :
  preserves nonneg_counts (add_to_destination cfg l cards b).
Proof.
  intros s [[Hsc Hm] Hh]. unfold add_to_destination.
  branches; cbn [final]; (split; [split|]); cbn; try assumption; lia.
Qed.

Lemma drawFromStock_nonneg cfg : preserves nonneg_counts (drawFromStock cfg).
Proof.
  intros s Hs. unfold drawFromStock.
  destruct (length (stock s) =? 0)%nat.
  - destruct (length (waste s) =? 0)%nat; [exact Hs|].
    apply saveState_nonneg in Hs. destruct Hs as [[Hsc Hm] Hh].
    destruct (flip_down _) as [w ok]. destruct ok; cbn [final].
    + destruct (String.eqb _ _); (split; [split|]); cbn; try assumption; lia.
    + split; [split|]; assumption.
  - apply saveState_nonneg in Hs. cbv zeta.
    generalize (Z.to_nat (Z.min (drawCount cfg)
                            (Z.of_nat (length (stock (saveState s)))))).
    intros n. revert Hs. generalize (saveState s).
    apply (preserves_bind nonneg_counts); [apply draw_loop_nonneg|]. intros _.
    apply (preserves_bind nonneg_counts); [|intros _; apply preserves_ret].
    apply preserves_modify. intros s1 [[Hsc Hm] Hh].
    split; [split|]; cbn; try assumption; lia.
Qed.

Lemma perform_all_nonneg ops s : nonneg_counts s → nonneg_counts (perform_all ops s).
Proof.
  apply (perform_all_preserves nonneg_counts).
  - apply saveState_nonneg.
  - intros s0 [[Hsc Hm] Hh]. split; [split|]; cbn; try assumption; lia.
  - apply remove_from_source_nonneg.
  - apply add_to_destination_nonneg.
  - apply drawFromStock_nonneg.
  - apply undo_nonneg.
Qed.

(** X9. Score and move count never go below zero: when they and the
    scores and counts of the snapshots kept are not negative, they are not
    negative after any sequence of commands, under any scoring mode, an
    [undo] and the Vegas penalty of a stock reset included. *)
Theorem score_and_moves_not_negative (ops : list op) (s : state) :
  0 ≤ score s → 0 ≤ moves s →
  Forall (λ x, 0 ≤ snap_score x ∧ 0 ≤ snap_moves x) (history s) →
  0 ≤ score (perform_all ops s) ∧ 0 ≤ moves (perform_all ops s).
Proof.
  intros Hsc Hm Hh.
  apply (perform_all_nonneg ops s). split; [split|]; assumption.
Qed.

Lemma score_and_moves_not_negative_witness :
  0 ≤ score (perform_all [Draw vegas_draw1; Undo; Draw vegas_draw1]
                         (ace_of_spades_waste 50))
  ∧ 0 ≤ moves (perform_all [Draw vegas_draw1; Undo; Draw vegas_draw1]
                           (ace_of_spades_waste 50)).
Proof.
  apply (score_and_moves_not_negative
           [Draw vegas_draw1; Undo; Draw vegas_draw1] (ace_of_spades_waste 50)).
  - cbn. lia.
  - cbn. lia.
  - constructor.
Defined.

(** *** The board keeps its shape *)

Lemma saveState_shaped s : well_shaped s → well_shaped (saveState s).
Proof.
  intros [Hb Hh]. split; [exact Hb|].
  apply saveState_history; [exact Hh|].
  destruct Hb as [Hf Ht]. split; cbn; rewrite length_fmap; assumption.
Qed.

Lemma undo_shaped s : well_shaped s → well_shaped (final (undo s)).
Proof.
  intros [Hb Hh]. unfold undo.
  destruct (last (history s)) as [x|] eqn:E; cbn [final]; [|split; assumption].
  split; cbn [foundations tableau history].
  - apply (Forall_last _ _ _ Hh E).
  - apply Forall_removelast, Hh.
Qed.

Lemma draw_loop_shaped n : preserves well_shaped (draw_loop n).
Proof.
  induction n as [|n IH]; intros s Hs; cbn [draw_loop]; [exact Hs|].
  destruct (js_pop (stock s)) as [x rest].
  destruct x; cbn [final]; try exact Hs. apply IH, Hs.
Qed.

Lemma remove_from_source_shaped l : preserves well_shaped (remove_from_source l).
Proof.
  intros s [[Hf Ht] Hh]. unfold remove_from_source.
  branches; cbn [final]; (split; [split|]); cbn;
    rewrite ?length_js_store; assumption.
Qed.

Lemma add_to_destination_shaped cfg l cards b :
  preserves well_shaped (add_to_destination cfg l cards b).
Proof.
  intros s [[Hf Ht] Hh]. unfold add_to_destination.
  branches; cbn [final]; (split; [split|]); cbn;
    rewrite ?length_js_store; assumption.
Qed.

Lemma drawFromStock_shaped cfg : preserves well_shaped (drawFromStock cfg).
Proof.
  intros s Hs. unfold drawFromStock.
  destruct (length (stock s) =? 0)%nat.
  - destruct (length (waste s) =? 0)%nat; [exact Hs|].
    apply saveState_shaped in Hs.
    destruct (flip_down _) as [w ok]. destruct ok; cbn [final]; [|exact Hs].
    destruct (String.eqb _ _); exact Hs.
  - apply saveState_shaped in Hs. cbv zeta.
    generalize (Z.to_nat (Z.min (drawCount cfg)
                            (Z.of_nat (length (stock (saveState s)))))).
    intros n. revert Hs. generalize (saveState s).
    apply (preserves_bind well_shaped); [apply draw_loop_shaped|]. intros _.
    apply (preserves_bind well_shaped); [|intros _; apply preserves_ret].
    apply preserves_modify. intros s1 Hs1. exact Hs1.
Qed.




(** ** Cards are only moved and turned *)

Section every_card.

Variable P : card → Prop.
Hypothesis P_turned : ∀ b c, P c → P (set_faceUp b c).

Lemma pile_has_json (p : pile) : pile_has P p → pile_has P (json_pile p).
Proof.
  unfold pile_has, json_pile. intros H. apply Forall_fmap.
  eapply Forall_impl; [exact H|]. intros [| |c]; auto.
Qed.

Lemma piles_have_json (ps : list pile) :
  Forall (pile_has P) ps → Forall (pile_has P) (json_pile <$> ps).
Proof.
  intros H. apply Forall_fmap. eapply Forall_impl; [exact H|].
  intros p. apply pile_has_json.
Qed.

Lemma saveState_every s : every_card P s → every_card P (saveState s).
Proof.
  intros [Hb Hh]. split; [exact Hb|].
  apply saveState_history; [exact Hh|].
  destruct Hb as (H1 & H2 & H3 & H4).
  split; [apply pile_has_json, H1|]. split; [apply pile_has_json, H2|].
  split; [apply piles_have_json, H3 | apply piles_have_json, H4].
Qed.

Lemma undo_every s : every_card P s → every_card P (final (undo s)).
Proof.
  intros [Hb Hh]. unfold undo.
  destruct (last (history s)) as [x|] eqn:E; cbn [final]; [|split; assumption].
  split; cbn [stock waste foundations tableau history].
  - apply (Forall_last _ _ _ Hh E).
  - apply Forall_removelast, Hh.
Qed.

Lemma pile_has_pop (p : pile) :
  pile_has P p →
  match (js_pop p).1 with Card c => P c | _ => True end
  ∧ pile_has P (js_pop p).2.
Proof.
  intros H. unfold js_pop. cbn [fst snd]. split; [|apply Forall_removelast, H].
  destruct (last p) as [x|] eqn:E; [|exact Logic.I].
  cbn. apply (Forall_last _ _ _ H E).
Qed.

Lemma draw_loop_every n : preserves (every_card P) (draw_loop n).
Proof.
  induction n as [|n IH]; intros s Hs; cbn [draw_loop]; [exact Hs|].
  destruct Hs as [(H1 & H2 & H3 & H4) Hh].
  pose proof (pile_has_pop (stock s) H1) as [Hx Hrest].
  destruct (js_pop (stock s)) as [x rest]. cbn [fst snd] in Hx, Hrest.
  destruct x as [| |c]; cbn [final];
    try (split; [split; [exact Hrest | auto] | exact Hh]).
  apply IH. split; [|exact Hh]. split; [exact Hrest|].
  split; [|auto]. cbn [waste set_waste].
  apply Forall_app. split; [exact H2|].
  constructor; [apply P_turned, Hx | constructor].
Qed.

Lemma pile_has_flip_down (p : pile) : pile_has P p → pile_has P (flip_down p).1.
Proof.
  induction 1 as [|x p Hx Hp IH]; [constructor|].
  destruct x as [| |c]; cbn [flip_down]; try (constructor; assumption).
  destruct (flip_down p) as [r ok]. cbn [fst] in *.
  constructor; [apply P_turned, Hx | exact IH].
Qed.

Lemma drawFromStock_every cfg : preserves (every_card P) (drawFromStock cfg).
Proof.
  intros s Hs. unfold drawFromStock.
  destruct (length (stock s) =? 0)%nat.
  - destruct (length (waste s) =? 0)%nat; [exact Hs|].
    apply saveState_every in Hs. destruct Hs as [(H1 & H2 & H3 & H4) Hh].
    assert (Hw : pile_has P (flip_down (reverse (waste (saveState s)))).1).
    { apply pile_has_flip_down. unfold pile_has. apply Forall_reverse, H2. }
    destruct (flip_down _) as [w ok]. cbn [fst] in Hw.
    destruct ok; cbn [final].
    + destruct (String.eqb _ _);
        (split; [split; [exact Hw|]; split; [constructor | auto] | exact Hh]).
    + split; [split; [exact H1|]; split; [exact Hw | auto] | exact Hh].
  - apply saveState_every in Hs. cbv zeta.
    generalize (Z.to_nat (Z.min (drawCount cfg)
                            (Z.of_nat (length (stock (saveState s)))))).
    intros n. revert Hs. generalize (saveState s).
    apply (preserves_bind (every_card P)); [apply draw_loop_every|]. intros _.
    apply (preserves_bind (every_card P)); [|intros _; apply preserves_ret].
    apply preserves_modify. intros s1 Hs1. exact Hs1.
Qed.

Lemma piles_have_index (ps : list pile) (i : option Z) (p : pile) :
  Forall (pile_has P) ps → js_index ps i = Some p → pile_has P p.
Proof.
  intros H Hp. apply js_index_Some in Hp as (z & _ & _ & Hz).
  apply (Forall_lookup_1 _ _ _ _ H Hz).
Qed.

Lemma piles_have_store (ps : list pile) (i : option Z) (p : pile) :
  Forall (pile_has P) ps → pile_has P p → Forall (pile_has P) (js_store ps i p).
Proof.
  intros H Hp. destruct i as [z|]; cbn [js_store]; [|exact H].
  apply Forall_insert; assumption.
Qed.

Lemma remove_from_source_every l s :
  every_card P s →
  every_card P (final (remove_from_source l s))
  ∧ ∀ r s', remove_from_source l s = Returns r s' → pile_has P r.1.
Proof.
  intros [(H1 & H2 & H3 & H4) Hh]. unfold remove_from_source.
  destruct (String.eqb (location l) "waste").
  { pose proof (pile_has_pop (waste s) H2) as [Hx Hrest].
    destruct (js_pop (waste s)) as [x rest]. cbn [fst snd final] in *.
    split; [split; [auto | exact Hh]|].
    intros r s' [= <- _]. constructor; [exact Hx | constructor]. }
  destruct (String.eqb (location l) "foundation").
  { destruct (js_index (foundations s) (pileIndex l)) as [p|] eqn:Ep.
    - pose proof (pile_has_pop p (piles_have_index _ _ _ H3 Ep)) as [Hx Hrest].
      destruct (js_pop p) as [x rest]. cbn [fst snd final] in *.
      split.
      + split; [|exact Hh]. split; [exact H1|]. split; [exact H2|].
        split; [apply piles_have_store; assumption | exact H4].
      + intros r s' [= <- _]. constructor; [exact Hx | constructor].
    - split; [split; [auto | exact Hh] | discriminate]. }
  destruct (String.eqb (location l) "tableau").
  2:{ split; [split; [auto | exact Hh]|]. intros r s' [= <- _]. constructor. }
  destruct (js_index (tableau s) (pileIndex l)) as [p|] eqn:Ep.
  2:{ split; [split; [auto | exact Hh] | discriminate]. }
  pose proof (piles_have_index _ _ _ H4 Ep) as Hp.
  unfold js_splice. set (k := splice_start (length p) (index l)).
  assert (Hcards : pile_has P (drop k p)) by apply Forall_drop, Hp.
  assert (Hrest : pile_has P (take k p)) by apply Forall_take, Hp.
  assert (Hkeep : every_card P
            (set_tableau (js_store (tableau s) (pileIndex l) (take k p)) s)).
  { split; [|exact Hh]. split; [exact H1|]. split; [exact H2|].
    split; [exact H3 | apply piles_have_store; assumption]. }
  destruct (0 <? length (take k p))%nat.
  2:{ split; [exact Hkeep|]. intros r s' [= <- _]. exact Hcards. }
  destruct (last (take k p)) as [[| |top]|] eqn:El;
    try (split; [exact Hkeep | discriminate]).
  destruct (negb (faceUp top)).
  2:{ split; [exact Hkeep|]. intros r s' [= <- _]. exact Hcards. }
  split.
  - split; [|exact Hh]. split; [exact H1|]. split; [exact H2|].
    split; [exact H3|]. apply piles_have_store; [exact H4|].
    apply Forall_app. split; [apply Forall_removelast, Hrest|].
    constructor; [|constructor]. apply P_turned.
    apply (Forall_last _ _ _ Hrest El).
  - intros r s' [= <- _]. exact Hcards.
Qed.

Lemma add_to_destination_every cfg l cards b s :
  every_card P s → pile_has P cards →
  every_card P (final (add_to_destination cfg l cards b s)).
Proof.
  intros [(H1 & H2 & H3 & H4) Hh] Hc. unfold add_to_destination.
  destruct (String.eqb (location l) "foundation").
  { destruct (js_index (foundations s) (pileIndex l)) as [p|] eqn:Ep;
      [|split; [auto | exact Hh]].
    assert (Hf : Forall (pile_has P)
                   (js_store (foundations s) (pileIndex l) (p ++ cards))).
    { apply piles_have_store; [exact H3|]. apply Forall_app.
      split; [apply (piles_have_index _ _ _ H3 Ep) | exact Hc]. }
    cbv zeta. repeat destruct (String.eqb _ _); cbn [final];
      (split; [split; [exact H1|]; split; [exact H2|]; split; [exact Hf | exact H4]
              | exact Hh]). }
  destruct (String.eqb (location l) "tableau"); [|split; [auto | exact Hh]].
  destruct (js_index (tableau s) (pileIndex l)) as [p|] eqn:Ep;
    [|split; [auto | exact Hh]].
  assert (Ht : Forall (pile_has P)
                 (js_store (tableau s) (pileIndex l) (p ++ cards))).
  { apply piles_have_store; [exact H4|]. apply Forall_app.
    split; [apply (piles_have_index _ _ _ H4 Ep) | exact Hc]. }
  cbv zeta. destruct (_ && _); cbn [final];
    (split; [split; [exact H1|]; split; [exact H2|]; split; [exact H3 | exact Ht]
            | exact Hh]).
Qed.

Lemma moveCards_every cfg l1 l2 : preserves (every_card P) (moveCards cfg l1 l2).
Proof.
  intros s Hs. apply saveState_every in Hs.
  unfold moveCards. rewrite bind_unfold. cbn [modify]. rewrite bind_unfold.
  destruct (remove_from_source_every l1 (saveState s) Hs) as [H1 Hcards].
  destruct (remove_from_source l1 (saveState s)) as [r s1|s1]; cbn [final] in *;
    [|exact H1].
  specialize (Hcards r s1 eq_refl).
  rewrite bind_unfold.
  pose proof (add_to_destination_every cfg l2 r.1 r.2 s1 H1 Hcards) as H2.
  destruct (add_to_destination cfg l2 r.1 r.2 s1) as [u s2|s2]; cbn [final] in *;
    [|exact H2].
  rewrite bind_unfold. cbn [modify ret final]. exact H2.
Qed.

Lemma perform_every o s : every_card P s → every_card P (perform o s).
Proof.
  intros Hs. destruct o as [cfg|cfg l1 l2|cfg cid| |]; cbn [perform].
  - apply drawFromStock_every, Hs.
  - apply moveCards_every, Hs.
  - destruct (tryAutoMove_cases cfg cid s)
      as [[H|H]|(l & c & d & _ & _ & _ & H)]; rewrite H; try exact Hs.
    rewrite bind_unfold. pose proof (moveCards_every cfg l d s Hs) as Hm.
    destruct (moveCards cfg l d s); exact Hm.
  - apply undo_every, Hs.
  - apply saveState_every, Hs.
Qed.

Lemma perform_all_every ops s : every_card P s → every_card P (perform_all ops s).
Proof.
  unfold perform_all. revert s.
  induction ops as [|o ops IH]; intros s Hs; cbn [fold_left]; [exact Hs|].
  apply IH, perform_every, Hs.
Qed.

End every_card.

(** X11. The commands only move cards and turn them over.  A property of
    cards that does not depend on the face shown (such as having a given
    suit, rank or id, or the id that goes with suit and rank), once true of
    every card object on the board and in the snapshots kept, stays true
    after any sequence of [drawFromStock], [moveCards], [tryAutoMove],
    [undo] and [saveState], with any arguments, returning or raising: no
    command makes a card object or changes the suit, rank or id of one. *)
Theorem cards_only_moved_and_turned (P : card → Prop) (ops : list op)
    (s : state) :
  (∀ b c, P c → P (set_faceUp b c)) →
  every_card P s → every_card P (perform_all ops s).
Proof. intros HP. apply perform_all_every, HP. Qed.

Lemma cards_only_moved_and_turned_witness :
  every_card (λ c, id c = id_of c) (perform_all four_moves ace_or_eight).
Proof.
  apply (cards_only_moved_and_turned (λ c, id c = id_of c) four_moves
           ace_or_eight).
  - intros b c H. exact H.
  - split; [|constructor].
    repeat split; repeat constructor.
Defined.

(** *** Ids in a game *)

Lemma deal_every (P : card → Prop) (cs : list (nat * nat)) (k : nat)
    (deck : pile) (t : list pile) :
  (∀ b c, P c → P (set_faceUp b c)) →
  pile_has P deck → Forall (pile_has P) t →
  Forall (pile_has P) (deal cs k deck t).1.2.
Proof.
  intros HP Hdeck. revert k t.
  induction cs as [|[col row] rest IH]; intros k t Ht; cbn [deal]; [exact Ht|].
  destruct (js_read deck (Z.of_nat k)) as [| |c] eqn:Ec; try exact Ht.
  apply IH. apply Forall_alter; [exact Ht|]. intros p _ Hp.
  apply Forall_app. split; [exact Hp|]. constructor; [|constructor].
  apply HP. apply js_read_Card in Ec. unfold js_get in Ec.
  destruct (Z.of_nat k <? 0); [discriminate|].
  apply (Forall_lookup_1 _ _ _ _ Hdeck Ec).
Qed.

Lemma createDeck_ids : Forall (λ c, id c = id_of c) createDeck.
Proof.
  apply Forall_forall. intros c Hc.
  unfold createDeck in Hc. apply list_elem_of_bind in Hc as (s & Hc & _).
  apply list_elem_of_fmap in Hc as (r & -> & _). reflexivity.
Qed.

Lemma newGame_ids sd now :
  0 ≤ sd → every_card (λ c, id c = id_of c) (final (newGame sd now)).
Proof.
  intros Hsd. destruct (shuffled_deck sd Hsd) as (cs & Hcs & Hp).
  unfold newGame. rewrite Hcs. cbv zeta.
  assert (Hdeck : pile_has (λ c, id c = id_of c) (Card <$> cs)).
  { unfold pile_has. apply Forall_fmap. rewrite Hp. exact createDeck_ids. }
  pose proof (deal_every (λ c, id c = id_of c) cells 0 (Card <$> cs)
                (tableau (fresh sd now)) (λ b c H, H) Hdeck) as Ht.
  destruct (deal cells 0 (Card <$> cs) _) as [[k t] ok]. cbn [fst snd] in Ht.
  assert (Ht' : Forall (pile_has (λ c, id c = id_of c)) t).
  { apply Ht. repeat constructor. }
  destruct ok; cbn [final]; (split; [|constructor]).
  - split; [apply Forall_drop, Hdeck|]. split; [constructor|].
    split; [repeat constructor | exact Ht'].
  - split; [constructor|]. split; [constructor|].
    split; [repeat constructor | exact Ht'].
Qed.

Lemma reachable_ids s : reachable s → every_card (λ c, id c = id_of c) s.
Proof.
  induction 1 as [sd now Hsd | cfg s Hr IH | cfg l1 l2 s Hr IH Hm
                 | cfg cid s Hr IH | s Hr IH].
  - apply newGame_ids.
    apply (proj1 (Forall_forall _ _) winnable_seeds_nonnegative sd Hsd).
  - apply (perform_every (λ c, id c = id_of c) (λ b c H, H) (Draw cfg) s IH).
  - apply (perform_every (λ c, id c = id_of c) (λ b c H, H) (Move cfg l1 l2) s IH).
  - apply (perform_every (λ c, id c = id_of c) (λ b c H, H) (AutoMove cfg cid) s IH).
  - apply (perform_every (λ c, id c = id_of c) (λ b c H, H) Undo s IH).
Qed.

Lemma key_id_inj : Inj eq eq key_id.
Proof.
  intros [[s r]|] [[s' r']|]; cbn; try discriminate; [|reflexivity].
  intros [= H]. apply suit_name_inj in H as [-> H].
  injection H as H. apply pretty_Z_inj in H. congruence.
Qed.

Lemma every_card_all_slots (P : card → Prop) (s : state) :
  every_card P s → pile_has P (all_slots s).
Proof.
  intros [(H1 & H2 & H3 & H4) _]. unfold all_slots, pile_has.
  rewrite !Forall_app. split; [exact H1|]. split; [exact H2|].
  split; apply Forall_concat; assumption.
Qed.

(** X12. During a game no two cards share an id: in every state reached
    from [newGame], the ids of the cards in stock, waste, foundations and
    tableau are 52 different strings, each the one that goes with the
    card's suit and rank.  So the id that [findCard] and [tryAutoMove] are
    given names at most one card. *)
Theorem ids_distinct_in_play (s : state) :
  reachable s →
  NoDup (slot_id <$> all_slots s)
  ∧ slot_id <$> all_slots s = key_id <$> (slot_key <$> all_slots s)
  ∧ length (all_slots s) = 52%nat.
Proof.
  intros Hr.
  pose proof (every_card_all_slots _ s (reachable_ids s Hr)) as Hids.
  pose proof (proj1 (reachable_sound s Hr)) as Hdeck.
  assert (E : slot_id <$> all_slots s = key_id <$> (slot_key <$> all_slots s)).
  { rewrite <- list_fmap_compose. apply Forall_fmap_ext.
    eapply Forall_impl; [exact Hids|]. intros [| |c]; cbn; try reflexivity.
    intros ->. reflexivity. }
  split; [|split; [exact E | apply full_deck_length, Hdeck]].
  rewrite E. apply (NoDup_fmap_2 key_id (Inj0 := key_id_inj)). unfold full_deck in Hdeck.
  rewrite Hdeck. apply deck_keys_distinct.
Qed.

Lemma ids_distinct_in_play_witness :
  NoDup (slot_id <$> all_slots after_ace)
  ∧ slot_id <$> all_slots after_ace
    = key_id <$> (slot_key <$> all_slots after_ace)
  ∧ length (all_slots after_ace) = 52%nat.
Proof.
  apply ids_distinct_in_play.
  apply reach_tryAutoMove, reach_drawFromStock, reach_newGame.
  apply list_elem_of_here.
Defined.

(** ** Drawing *)

Lemma draw_loop_cards (cs : list card) (s : state) (rest : pile) :
  stock s = rest ++ (Card <$> cs) →
  draw_loop (length cs) s
  = Returns tt
      (set_waste (waste s ++ (Card <$> (set_faceUp true <$> reverse cs)))
                 (set_stock rest s)).
Proof.
  revert s. induction cs as [|c cs IH] using rev_ind; intros s Hs.
  - cbn in *. rewrite app_nil_r in *. destruct s; cbn in *. subst. reflexivity.
  - rewrite length_app, Nat.add_comm. cbn [length Nat.add draw_loop].
    rewrite Hs, fmap_app, app_assoc. cbn [fmap list_fmap].
    rewrite js_pop_snoc.
    rewrite IH by reflexivity. cbn [waste stock set_waste set_stock].
    rewrite reverse_app. cbn [reverse rev_append app fmap list_fmap].
    rewrite <- app_assoc. destruct s; reflexivity.
Qed.

(** X13. A draw from a stock that is not empty.  With [n] the smaller of
    [drawCount] and the number of stock cards (none when [drawCount] is not
    positive), [drawFromStock] takes the [n] last cards of the stock and
    puts them on the waste, the last stock card first, so that their order
    is reversed, each with [faceUp] equal to [true]; it pushes the snapshot
    of the state before on the history (dropping the oldest beyond 50),
    counts one move whatever [n] is, leaves score, foundations and tableau
    alone and returns [true]. *)
Theorem drawFromStock_draws (cfg : settings) (s : state) (rest : pile)
    (cs : list card) :
  stock s = rest ++ (Card <$> cs) → stock s ≠ [] →
  Z.of_nat (length cs)
  = Z.max 0 (Z.min (drawCount cfg) (Z.of_nat (length (stock s)))) →
  ∃ s' drawn, drawFromStock cfg s = Returns true s'
        ∧ stock s' = rest
        ∧ waste s' = waste s ++ drawn
        ∧ Forall2 (shown true) (reverse cs) drawn
        ∧ moves s' = moves s + 1
        ∧ score s' = score s
        ∧ history s'
          = (let h := history s ++ [snapshot_of s] in
             if (50 <? length h)%nat then tail h else h)
        ∧ foundations s' = foundations s
        ∧ tableau s' = tableau s.
Proof.
  intros Hs Hne Hn. unfold drawFromStock.
  destruct (length (stock s) =? 0)%nat eqn:E.
  { apply Nat.eqb_eq, length_zero_iff_nil in E. contradiction. }
  cbv zeta. change (stock (saveState s)) with (stock s).
  replace (Z.to_nat (Z.min (drawCount cfg) (Z.of_nat (length (stock s)))))
    with (length cs) by lia.
  rewrite bind_unfold.
  rewrite (draw_loop_cards cs (saveState s) rest Hs).
  eexists _, (Card <$> (set_faceUp true <$> reverse cs)).
  split; [reflexivity|]. split; [reflexivity|]. split; [reflexivity|].
  split; [apply shown_cards|]. repeat split; reflexivity.
Qed.

(** Two cards of the stock, face down, drawn three at a time: both come
    to the waste face up, the two first. *)
Lemma drawFromStock_draws_witness :
  faceUp (createCard hearts 1) = false ∧ faceUp (createCard hearts 2) = false
  ∧ ∃ s' c2 c1,
      drawFromStock (mkSettings 3 "standard")
        (set_stock [Card (createCard hearts 1); Card (createCard hearts 2)]
                   (fresh 0 0))
      = Returns true s'
      ∧ stock s' = []
      ∧ waste s' = [Card c2; Card c1]
      ∧ rank c2 = 2 ∧ faceUp c2 = true
      ∧ rank c1 = 1 ∧ faceUp c1 = true
      ∧ length (history s') = 1%nat
      ∧ moves s' = 1.
Proof.
  split; [reflexivity|]. split; [reflexivity|].
  destruct (drawFromStock_draws (mkSettings 3 "standard")
              (set_stock [Card (createCard hearts 1); Card (createCard hearts 2)]
                         (fresh 0 0))
              [] [createCard hearts 1; createCard hearts 2])
    as (s' & drawn & H & Hst & Hw & Hd & Hm & _ & Hh & _);
    [reflexivity | discriminate | reflexivity|].
  apply Forall2_cons_inv_l in Hd as (x2 & d1 & (c2 & -> & _ & Hr2 & _ & Hf2) & Hd & ->).
  apply Forall2_cons_inv_l in Hd as (x1 & d0 & (c1 & -> & _ & Hr1 & _ & Hf1) & Hd & ->).
  apply Forall2_nil_inv_l in Hd. subst d0.
  exists s', c2, c1. split; [exact H|]. split; [exact Hst|].
  split; [exact Hw|]. split; [exact Hr2|]. split; [exact Hf2|].
  split; [exact Hr1|]. split; [exact Hf1|].
  split; [rewrite Hh; reflexivity | exact Hm].
Defined.

(** *** The order of the cards that come round *)

Lemma draw_loop_round n s u s' :
  draw_loop n s = Returns u s' →
  slot_key <$> (waste s' ++ reverse (stock s'))
  = slot_key <$> (waste s ++ reverse (stock s)).
Proof.
  revert s. induction n as [|n IH]; intros s; cbn [draw_loop].
  { intros [= _ <-]. reflexivity. }
  unfold js_pop. destruct (last (stock s)) as [x|] eqn:El; cbn [default];
    [|discriminate].
  destruct x as [| |c]; try discriminate.
  intros H. rewrite (IH _ H). cbn [waste stock set_waste set_stock].
  rewrite (last_removelast _ _ El) at 2.
  rewrite reverse_app. cbn [reverse rev_append app].
  rewrite <- app_assoc, !fmap_app. reflexivity.
Qed.

(** X14. [drawFromStock] never changes the order in which the cards of
    stock and waste come round: read by suit and rank, the waste followed
    by the stock from its top card down is the same list before and after
    every call that returns, a draw of any number of cards and a reset
    alike.  So a pass through the stock followed by a reset brings the same
    cards back in the same order. *)
Theorem drawFromStock_keeps_round (cfg : settings) (s s' : state) (b : bool) :
  drawFromStock cfg s = Returns b s' →
  slot_key <$> (waste s' ++ reverse (stock s'))
  = slot_key <$> (waste s ++ reverse (stock s)).
Proof.
  unfold drawFromStock.
  destruct (length (stock s) =? 0)%nat eqn:E.
  - destruct (length (waste s) =? 0)%nat; [intros [= _ <-]; reflexivity|].
    apply Nat.eqb_eq, length_zero_iff_nil in E.
    change (waste (saveState s)) with (waste s).
    pose proof (flip_down_cards_kept (reverse (waste s))) as Hk.
    destruct (flip_down (reverse (waste s))) as [w ok]. cbn [fst] in Hk.
    destruct ok; [|discriminate].
    assert (Hr : slot_key <$> reverse w = slot_key <$> waste s).
    { rewrite fmap_reverse, Hk, <- fmap_reverse, reverse_involutive.
      reflexivity. }
    rewrite E. cbn [reverse rev_append]. rewrite app_nil_r.
    destruct (String.eqb _ _); intros [= _ <-]; exact Hr.
  - cbv zeta. rewrite bind_unfold.
    destruct (draw_loop _ (saveState s)) as [u s1|] eqn:Ed; [|discriminate].
    rewrite bind_unfold. cbn [modify ret]. intros [= _ <-].
    apply (draw_loop_round _ _ _ _ Ed).
Qed.

(** Three cards on the waste and an empty stock: the reset puts them on
    the stock in reverse order, and a draw of three brings them back to
    the waste in the order they had. *)
Lemma drawFromStock_keeps_round_witness :
  slot_key <$> stock waste_turned_over
  = [Some (hearts, 3); Some (hearts, 2); Some (hearts, 1)]
  ∧ waste waste_turned_over = []
  ∧ slot_key <$> (waste waste_turned_over ++ reverse (stock waste_turned_over))
    = [Some (hearts, 1); Some (hearts, 2); Some (hearts, 3)]
  ∧ stock waste_dealt_again = []
  ∧ slot_key <$> (waste waste_dealt_again ++ reverse (stock waste_dealt_again))
    = [Some (hearts, 1); Some (hearts, 2); Some (hearts, 3)].
Proof.
  split; [reflexivity|]. split; [reflexivity|].
  assert (H1 : slot_key <$> (waste waste_turned_over
                             ++ reverse (stock waste_turned_over))
               = slot_key <$> (waste three_on_waste
                               ++ reverse (stock three_on_waste))).
  { apply (drawFromStock_keeps_round standard_draw3 three_on_waste
             waste_turned_over true).
    reflexivity. }
  assert (H2 : slot_key <$> (waste waste_dealt_again
                             ++ reverse (stock waste_dealt_again))
               = slot_key <$> (waste waste_turned_over
                               ++ reverse (stock waste_turned_over))).
  { apply (drawFromStock_keeps_round standard_draw3 waste_turned_over
             waste_dealt_again true).
    reflexivity. }
  split; [exact H1|]. split; [reflexivity|].
  rewrite H2. exact H1.
Defined.

(** ** Finding a card *)

Lemma findIndex_from_spec cid (l : pile) (i k : Z) :
  findIndex_from cid l i = Ok k →
  (k = -1 ∧ ∀ c, Card c ∈ l → id c ≠ cid)
  ∨ (∃ n c, k = i + Z.of_nat n ∧ l !! n = Some (Card c) ∧ id c = cid).
Proof.
  revert i. induction l as [|x l IH]; intros i; cbn [findIndex_from].
  - intros [= <-]. left. split; [reflexivity|]. intros c Hc. inversion Hc.
  - destruct x as [| |c]; try discriminate.
    destruct (String.eqb_spec (id c) cid) as [E|E].
    + intros [= <-]. right. exists 0%nat, c. split; [lia|]. split; [reflexivity | exact E].
    + intros H. destruct (IH _ H) as [[-> Hno]|(n & c' & -> & Hn & Hid)].
      * left. split; [reflexivity|]. intros c' Hc'.
        apply elem_of_cons in Hc' as [[= ->]|Hc']; [exact E | apply Hno, Hc'].
      * right. exists (S n), c'. split; [lia|]. split; assumption.
Qed.

Lemma findIndex_spec cid (l : pile) (k : Z) :
  findIndex cid l = Ok k →
  (k = -1 ∧ ∀ c, Card c ∈ l → id c ≠ cid)
  ∨ (k ≠ -1 ∧ ∃ c, js_get l k = Some (Card c) ∧ id c = cid).
Proof.
  intros H. apply findIndex_from_spec in H as [H|(n & c & -> & Hn & Hid)];
    [left; exact H|].
  right. split; [lia|]. exists c. split; [|exact Hid].
  unfold js_get. destruct (Z.ltb_spec (0 + Z.of_nat n) 0); [lia|].
  rewrite Z.add_0_l, Nat2Z.id. exact Hn.
Qed.

Lemma find_in_piles_spec tag (piles : list pile) cid ixs :
  match find_in_piles tag piles cid ixs with
  | Ok (Some l) =>
      ∃ i k p c, l = mkLoc tag (Some i) (Some k) ∧ i ∈ ixs
                 ∧ js_get piles i = Some p ∧ js_get p k = Some (Card c)
                 ∧ id c = cid
  | Ok None =>
      ∀ i p c, i ∈ ixs → js_get piles i = Some p → Card c ∈ p → id c ≠ cid
  | TypeError => True
  end.
Proof.
  induction ixs as [|i rest IH]; cbn [find_in_piles].
  - intros i p c Hi. inversion Hi.
  - destruct (js_get piles i) as [p|] eqn:Ep; [|exact Logic.I].
    destruct (findIndex cid p) as [k|] eqn:Ek; cbn [rbind]; [|exact Logic.I].
    apply findIndex_spec in Ek as [[-> Hno]|[Hk (c & Hc & Hid)]].
    + cbn [Z.eqb negb]. change (-1 =? -1) with true. cbn [negb].
      destruct (find_in_piles tag piles cid rest) as [[l|]|].
      * destruct IH as (i' & k & p' & c & -> & Hi' & IH).
        exists i', k, p', c. split; [reflexivity|]. split; [right; exact Hi' | exact IH].
      * intros i' p' c Hi' Hp' Hc.
        apply elem_of_cons in Hi' as [->|Hi'].
        -- rewrite Ep in Hp'. injection Hp' as <-. apply Hno, Hc.
        -- eapply IH; eassumption.
      * exact Logic.I.
    + destruct (Z.eqb_spec k (-1)) as [|_]; [contradiction|]. cbn [negb].
      exists i, k, p, c. split; [reflexivity|]. split; [left|]. split; [exact Ep|].
      split; assumption.
Qed.


(** Where [findCard] finds a card. *)
Lemma findCard_place (s : state) (cid : string) (l : loc) :
  findCard s cid = Ok (Some l) →
  ∃ k c, id c = cid
         ∧ ((l = mkLoc "waste" None (Some k) ∧ js_get (waste s) k = Some (Card c))
            ∨ (∃ i p, 0 ≤ i < 4 ∧ l = mkLoc "foundation" (Some i) (Some k)
                      ∧ js_get (foundations s) i = Some p
                      ∧ js_get p k = Some (Card c))
            ∨ (∃ i p, 0 ≤ i < 7 ∧ l = mkLoc "tableau" (Some i) (Some k)
                      ∧ js_get (tableau s) i = Some p
                      ∧ js_get p k = Some (Card c))).
Proof.
  unfold findCard.
  destruct (findIndex cid (waste s)) as [k|] eqn:Ek; cbn [rbind]; [|discriminate].
  apply findIndex_spec in Ek as [[-> Hno]|[Hk (c & Hc & Hid)]].
  - change (negb (-1 =? -1)) with false. cbv iota.
    pose proof (find_in_piles_spec "foundation" (foundations s) cid (seqZ 0 4)) as Hf.
    destruct (find_in_piles "foundation" _ _ _) as [[lf|]|]; cbn [rbind];
      [| |discriminate].
    + intros [= <-]. destruct Hf as (i & k & p & c & -> & Hi & Hp & Hc & Hid).
      apply elem_of_seqZ_0 in Hi.
      exists k, c. split; [exact Hid|]. right. left. exists i, p. auto.
    + clear Hf.
      pose proof (find_in_piles_spec "tableau" (tableau s) cid (seqZ 0 7)) as Ht.
      destruct (find_in_piles "tableau" _ _ _) as [[lt|]|]; try discriminate.
      intros [= <-]. destruct Ht as (i & k & p & c & -> & Hi & Hp & Hc & Hid).
      apply elem_of_seqZ_0 in Hi.
      exists k, c. split; [exact Hid|]. right. right. exists i, p. auto.
  - destruct (Z.eqb_spec k (-1)) as [|_]; [contradiction|]. cbn [negb].
    intros [= <-]. exists k, c. split; [exact Hid|]. left. auto.
Qed.

Lemma findCard_card (s : state) (cid : string) (l : loc) :
  findCard s cid = Ok (Some l) →
  known_tag (location l) ∧ ∃ c, card_at s l = Ok (Card c) ∧ id c = cid.
Proof.
  intros H. apply findCard_place in H as (k & c & Hid & H).
  destruct H as [[-> Hc]|[(i & p & _ & -> & Hp & Hc)|(i & p & _ & -> & Hp & Hc)]].
  - split; [left; reflexivity|]. exists c. split; [|exact Hid].
    unfold card_at, js_read_at, js_index. cbn. rewrite Hc. reflexivity.
  - split; [right; left; reflexivity|]. exists c. split; [|exact Hid].
    unfold card_at, js_read_at, js_index. cbn. rewrite Hp. cbn. rewrite Hc.
    reflexivity.
  - split; [right; right; reflexivity|]. exists c. split; [|exact Hid].
    unfold card_at, js_read_at, js_index. cbn. rewrite Hp. cbn. rewrite Hc.
    reflexivity.
Qed.

(** X15. [findCard] answers with the place of a card that has the id asked
    for, in the waste, a foundation or a tableau pile; it answers [null]
    only when none of the waste, of the foundations 0..3 and of the tableau
    piles 0..6 holds a card with that id; and the stock is not looked at. *)
Theorem findCard_finds (s : state) (cid : string) :
  (∀ l, findCard s cid = Ok (Some l) →
        known_tag (location l)
        ∧ ∃ c, card_at s l = Ok (Card c) ∧ id c = cid)
  ∧ (findCard s cid = Ok None →
     (∀ c, Card c ∈ waste s → id c ≠ cid)
     ∧ (∀ i p c, 0 ≤ i < 4 → js_get (foundations s) i = Some p →
                 Card c ∈ p → id c ≠ cid)
     ∧ (∀ i p c, 0 ≤ i < 7 → js_get (tableau s) i = Some p →
                 Card c ∈ p → id c ≠ cid))
  ∧ (∀ x, findCard (set_stock x s) cid = findCard s cid).
Proof.
  split; [|split; [|reflexivity]].
  - intros l. apply findCard_card.
  - unfold findCard.
    destruct (findIndex cid (waste s)) as [k|] eqn:Ek; cbn [rbind]; [|discriminate].
    apply findIndex_spec in Ek as [[-> Hno]|[Hk _]].
    + change (negb (-1 =? -1)) with false. cbv iota.
      pose proof (find_in_piles_spec "foundation" (foundations s) cid (seqZ 0 4)) as Hf.
      destruct (find_in_piles "foundation" _ _ _) as [[lf|]|]; cbn [rbind];
        try discriminate.
      pose proof (find_in_piles_spec "tableau" (tableau s) cid (seqZ 0 7)) as Ht.
      destruct (find_in_piles "tableau" _ _ _) as [[lt|]|]; try discriminate.
      intros _. split; [exact Hno|]. split.
      * intros i p c Hi. apply Hf, elem_of_seqZ_range, Hi.
      * intros i p c Hi. apply Ht, elem_of_seqZ_range, Hi.
    + destruct (Z.eqb_spec k (-1)) as [|_]; [contradiction|]. discriminate.
Qed.

Lemma findCard_finds_witness :
  (known_tag "tableau"
   ∧ ∃ c, card_at ace_or_eight (mkLoc "tableau" (Some 0) (Some 0)) = Ok (Card c)
          ∧ id c = "hearts-8"%string)
  ∧ (∀ c, Card c ∈ waste lone_stock_card → id c ≠ "spades-1"%string).
Proof.
  destruct (findCard_finds ace_or_eight "hearts-8") as (H1 & _ & _).
  destruct (findCard_finds lone_stock_card "spades-1") as (_ & H2 & _).
  split.
  - apply (H1 (mkLoc "tableau" (Some 0) (Some 0))). vm_compute. reflexivity.
  - apply H2. vm_compute. reflexivity.
Defined.

(** ** Auto-move *)

Lemma moveCards_true cfg l d s b s' :
  moveCards cfg l d s = Returns b s' → b = true.
Proof.
  unfold moveCards. rewrite bind_unfold. cbn [modify]. rewrite bind_unfold.
  destruct (remove_from_source l (saveState s)) as [r s1|]; [|discriminate].
  rewrite bind_unfold.
  destruct (add_to_destination cfg d r.1 r.2 s1) as [u s2|]; [|discriminate].
  rewrite bind_unfold. cbn [modify ret]. intros [= <- _]. reflexivity.
Qed.

Lemma other_pile_decide (l : loc) (i : Z) :
  String.eqb (location l) "tableau" && bool_decide (pileIndex l = Some i) = false
  ↔ other_pile l i.
Proof.
  unfold other_pile. destruct (String.eqb_spec (location l) "tableau") as [E|E];
    cbn [andb].
  - rewrite bool_decide_eq_false. split; [intros H _; exact H | intros H; exact (H E)].
  - split; [intros _ H; contradiction | reflexivity].
Qed.

(** The tableau loop of [tryAutoMove], from pile [n] on. *)
Lemma auto_tableau_first cfg l c (ixs : list Z) s r s' :
  auto_tableau cfg l c ixs s = Returns r s' →
  match r with
  | None => s' = s
  | Some d =>
      ∃ before i after,
        ixs = before ++ i :: after ∧ d = mkLoc "tableau" (Some i) None
        ∧ other_pile l i ∧ canPlaceOnTableau s c i = Ok true
        ∧ (∀ k, k ∈ before → other_pile l k → canPlaceOnTableau s c k = Ok false)
        ∧ moveCards cfg l d s = Returns true s'
  end.
Proof.
  induction ixs as [|i rest IH]; cbn [auto_tableau].
  { intros [= <- <-]. reflexivity. }
  destruct (_ && _) eqn:Eown.
  - intros H. specialize (IH H). destruct r as [d|]; [|exact IH].
    destruct IH as (before & i' & after & -> & Hd & Ho & Hc & Hb & Hm).
    exists (i :: before), i', after. split; [reflexivity|].
    split; [exact Hd|]. split; [exact Ho|]. split; [exact Hc|].
    split; [|exact Hm]. intros k Hk Hok.
    apply elem_of_cons in Hk as [->|Hk]; [|apply Hb; assumption].
    apply other_pile_decide in Hok. congruence.
  - rewrite bind_lift.
    destruct (canPlaceOnTableau s c i) as [[|]|] eqn:Ec; [| |discriminate].
    + rewrite bind_unfold.
      destruct (moveCards cfg l _ s) as [b s1|] eqn:Em; [|discriminate].
      intros [= <- <-]. exists [], i, rest. split; [reflexivity|].
      split; [reflexivity|]. split; [apply other_pile_decide, Eown|].
      split; [exact Ec|]. split; [intros k Hk; inversion Hk|].
      rewrite (moveCards_true _ _ _ _ _ _ Em) in Em. exact Em.
    + intros H. specialize (IH H). destruct r as [d|]; [|exact IH].
      destruct IH as (before & i' & after & -> & Hd & Ho & Hc' & Hb & Hm).
      exists (i :: before), i', after. split; [reflexivity|].
      split; [exact Hd|]. split; [exact Ho|]. split; [exact Hc'|].
      split; [|exact Hm]. intros k Hk Hok.
      apply elem_of_cons in Hk as [->|Hk]; [exact Ec | apply Hb; assumption].
Qed.

Lemma seqZ_split (n : Z) (before after : list Z) (i : Z) :
  seqZ 0 n = before ++ i :: after →
  0 ≤ i < n ∧ ∀ k, 0 ≤ k < i → k ∈ before.
Proof.
  intros E.
  assert (Hi : i ∈ seqZ 0 n) by (rewrite E; apply elem_of_app; right; left).
  apply elem_of_seqZ_0 in Hi. split; [exact Hi|]. intros k Hk.
  assert (Hlen : Z.of_nat (length before) = i).
  { assert (H : seqZ 0 n !! length before = Some i)
      by (rewrite E; apply list_lookup_middle; reflexivity).
    apply lookup_seqZ in H. lia. }
  assert (H : seqZ 0 n !! Z.to_nat k = Some k).
  { apply lookup_seqZ. lia. }
  rewrite E, lookup_app_l in H by lia.
  eapply list_elem_of_lookup_2, H.
Qed.

(** [tryAutoMove] from the point where the card [c] was found at [l]. *)
Lemma tryAutoMove_found cfg l c s r s' :
  (if String.eqb (location l) "tableau" && negb (faceUp c) then ret None
   else
     let* moved :=
       (if negb (String.eqb (location l) "foundation")
        then auto_foundation cfg l c else ret None) in
     match moved with
     | Some dest => ret (Some dest)
     | None => auto_tableau cfg l c (seqZ 0 7)
     end) s = Returns r s' →
  match r with
  | None => s' = s
  | Some d =>
      (location l = "tableau"%string → faceUp c = true)
      ∧ auto_choice s l c d
      ∧ moveCards cfg l d s = Returns true s'
  end.
Proof.
  destruct (String.eqb (location l) "tableau" && negb (faceUp c)) eqn:Eface.
  { intros [= <- <-]. reflexivity. }
  assert (Hface : location l = "tableau"%string → faceUp c = true).
  { intros E. rewrite E in Eface. cbn in Eface.
    destruct (faceUp c); [reflexivity | discriminate]. }
  assert (Htab :
    ¬ (location l ≠ "foundation"%string ∧ isSingleCard s l = Ok true
       ∧ canPlaceOnFoundation s c (getFoundationIndex (c_suit c)) = Ok true) →
    auto_tableau cfg l c (seqZ 0 7) s = Returns r s' →
    match r with
    | None => s' = s
    | Some d =>
        (location l = "tableau"%string → faceUp c = true)
        ∧ auto_choice s l c d
        ∧ moveCards cfg l d s = Returns true s'
    end).
  { intros Hno H. apply auto_tableau_first in H.
    destruct r as [d|]; [|exact H].
    destruct H as (before & i & after & Hsplit & -> & Ho & Hc & Hb & Hm).
    apply seqZ_split in Hsplit as [Hi Hbefore].
    split; [exact Hface|]. split; [|exact Hm].
    exists (getFoundationIndex (c_suit c)).
    split; [apply getFoundationIndex_range|].
    right. exists i. split; [reflexivity|]. split; [exact Hi|].
    split; [exact Hno|]. split; [exact Ho|]. split; [exact Hc|].
    intros k Hk. apply Hb, Hbefore, Hk. }
  rewrite bind_unfold.
  destruct (String.eqb_spec (location l) "foundation") as [Eloc|Eloc]; cbn [negb].
  { cbn [ret]. apply Htab. intros [H _]. contradiction. }
  unfold auto_foundation. rewrite bind_lift.
  destruct (isSingleCard s l) as [[|]|] eqn:Es; [| |discriminate].
  2:{ cbn [ret]. apply Htab. intros (_ & H & _). discriminate. }
  rewrite bind_lift.
  destruct (canPlaceOnFoundation s c _) as [[|]|] eqn:Eok; [| |discriminate].
  2:{ cbn [ret]. apply Htab. intros (_ & _ & H). congruence. }
  rewrite bind_unfold.
  destruct (moveCards cfg l _ s) as [b s1|] eqn:Em; [|discriminate].
  cbn [ret]. intros [= <- <-].
  split; [exact Hface|].
  split.
  { exists (getFoundationIndex (c_suit c)).
    split; [apply getFoundationIndex_range|].
    left; split; [reflexivity|]; split; [exact Eloc|]; split; assumption. }
  rewrite (moveCards_true _ _ _ _ _ _ Em) in Em. exact Em.
Qed.

Lemma tryAutoMove_result cfg cid s r s' :
  tryAutoMove cfg cid s = Returns r s' →
  match r with
  | None => s' = s
  | Some d =>
      ∃ l c, findCard s cid = Ok (Some l) ∧ card_at s l = Ok (Card c)
             ∧ (location l = "tableau"%string → faceUp c = true)
             ∧ auto_choice s l c d
             ∧ moveCards cfg l d s = Returns true s'
  end.
Proof.
  intros H. unfold tryAutoMove in H. rewrite bind_lift in H.
  destruct (findCard s cid) as [[l|]|] eqn:Ef; [| |discriminate].
  2:{ injection H as <- <-. reflexivity. }
  rewrite bind_lift in H.
  destruct (card_at s l) as [[| |c]|] eqn:Ec; try discriminate.
  apply tryAutoMove_found in H. destruct r as [d|]; [|exact H].
  exists l, c. split; [reflexivity|]. split; [exact Ec | exact H].
Qed.

(** X16. What a returning [tryAutoMove] did.  When it answers [null] the
    state is untouched: no snapshot is pushed and no move counted.  When it
    answers a destination, the id named a card that [findCard] found, face
    up if on the tableau; the destination is the foundation of its suit
    (foundation [fi] with [SUITS[fi]] the card's suit) when the card is the
    waste card or the top card of a tableau pile and that foundation
    accepts it, and otherwise the lowest-numbered tableau pile, other than
    the card's own, that accepts it; and the state is the one [moveCards]
    leaves for that source and destination. *)
Theorem tryAutoMove_outcome (cfg : settings) (cid : string) (s s' : state) :
  (tryAutoMove cfg cid s = Returns None s' → s' = s)
  ∧ (∀ d, tryAutoMove cfg cid s = Returns (Some d) s' →
          ∃ l c, findCard s cid = Ok (Some l) ∧ card_at s l = Ok (Card c)
                 ∧ (location l = "tableau"%string → faceUp c = true)
                 ∧ auto_choice s l c d
                 ∧ moveCards cfg l d s = Returns true s').
Proof.
  split.
  - intros H. exact (tryAutoMove_result cfg cid s None s' H).
  - intros d H. exact (tryAutoMove_result cfg cid s (Some d) s' H).
Qed.

(** The nine of spades has nowhere to go; the eight of hearts goes on the
    nine of spades; the ace of spades goes to foundation 3, the foundation
    of spades. *)
Lemma tryAutoMove_outcome_witness :
  final (tryAutoMove standard_draw1 "spades-9" ace_or_eight) = ace_or_eight
  ∧ (∃ l c, findCard ace_or_eight "hearts-8" = Ok (Some l)
            ∧ card_at ace_or_eight l = Ok (Card c)
            ∧ (location l = "tableau"%string → faceUp c = true)
            ∧ auto_choice ace_or_eight l c (mkLoc "tableau" (Some 1) None)
            ∧ moveCards standard_draw1 l (mkLoc "tableau" (Some 1) None)
                ace_or_eight
              = Returns true
                  (final (tryAutoMove standard_draw1 "hearts-8" ace_or_eight)))
  ∧ (∃ l c, findCard spade_ace_or_eight "spades-1" = Ok (Some l)
            ∧ card_at spade_ace_or_eight l = Ok (Card c)
            ∧ (location l = "tableau"%string → faceUp c = true)
            ∧ auto_choice spade_ace_or_eight l c
                (mkLoc "foundation" (Some 3) None)
            ∧ moveCards standard_draw1 l (mkLoc "foundation" (Some 3) None)
                spade_ace_or_eight
              = Returns true
                  (final (tryAutoMove standard_draw1 "spades-1"
                            spade_ace_or_eight))).
Proof.
  split; [|split].
  - apply (tryAutoMove_outcome standard_draw1 "spades-9" ace_or_eight
             (final (tryAutoMove standard_draw1 "spades-9" ace_or_eight))).
    vm_compute. reflexivity.
  - apply (tryAutoMove_outcome standard_draw1 "hearts-8" ace_or_eight
             (final (tryAutoMove standard_draw1 "hearts-8" ace_or_eight))).
    vm_compute. reflexivity.
  - apply (tryAutoMove_outcome standard_draw1 "spades-1" spade_ace_or_eight
             (final (tryAutoMove standard_draw1 "spades-1" spade_ace_or_eight))).
    vm_compute. reflexivity.
Defined.

(** ** Moving cards *)

Lemma remove_tableau_run (s : state) (i : Z) (rest above : pile) :
  js_get (tableau s) i = Some (rest ++ above) → card_on_top rest →
  remove_from_source (mkLoc "tableau" (Some i) (Some (Z.of_nat (length rest)))) s
  = Returns (above, top_down rest)
      (set_tableau (<[Z.to_nat i := top_up rest]> (tableau s)) s).
Proof.
  intros Hp Htop. unfold remove_from_source. cbn [location pileIndex index].
  change (String.eqb "tableau" "waste") with false.
  change (String.eqb "tableau" "foundation") with false.
  change (String.eqb "tableau" "tableau") with true. cbv iota.
  cbn [js_index mbind option_bind]. rewrite Hp.
  unfold js_splice, splice_start.
  destruct (Z.ltb_spec (Z.of_nat (length rest)) 0) as [|_]; [lia|].
  replace (Z.to_nat (Z.min (Z.of_nat (length rest))
                       (Z.of_nat (length (rest ++ above)))))
    with (length rest) by (rewrite length_app; lia).
  rewrite drop_app_length, take_app_length. cbn [js_store].
  unfold top_up, top_down, card_on_top in *.
  destruct (0 <? length rest)%nat eqn:El.
  - destruct (last rest) as [[| |t]|] eqn:Et; try contradiction.
    + destruct (faceUp t); cbn [negb]; reflexivity.
    + apply last_None_nil in Et. rewrite Et in El. discriminate.
  - apply nonempty_length in El. rewrite El. cbn [last]. reflexivity.
Qed.

Lemma add_tableau (cfg : settings) (s : state) (k : Z) (pk cards : pile)
    (flipped : bool) :
  js_get (tableau s) k = Some pk →
  add_to_destination cfg (mkLoc "tableau" (Some k) None) cards flipped s
  = Returns tt
      (let s' := set_tableau (<[Z.to_nat k := pk ++ cards]> (tableau s)) s in
       if flipped && String.eqb (scoring cfg) "standard"
       then set_score (score s' + 5) s' else s').
Proof.
  intros Hp. unfold add_to_destination. cbn [location pileIndex].
  change (String.eqb "tableau" "foundation") with false.
  change (String.eqb "tableau" "tableau") with true. cbv iota.
  cbn [js_index mbind option_bind]. rewrite Hp. reflexivity.
Qed.

Lemma add_foundation (cfg : settings) (s : state) (k : Z) (f cards : pile)
    (flipped : bool) :
  js_get (foundations s) k = Some f →
  add_to_destination cfg (mkLoc "foundation" (Some k) None) cards flipped s
  = Returns tt
      (let s' := set_foundations (<[Z.to_nat k := f ++ cards]> (foundations s)) s in
       set_score (score s' + foundation_points cfg) s').
Proof.
  intros Hp. unfold add_to_destination, foundation_points.
  cbn [location pileIndex].
  change (String.eqb "foundation" "foundation") with true. cbv iota.
  cbn [js_index mbind option_bind]. rewrite Hp. cbv zeta.
  destruct (String.eqb (scoring cfg) "standard"); [reflexivity|].
  destruct (String.eqb (scoring cfg) "vegas"); [reflexivity|].
  rewrite Z.add_0_r. destruct s; reflexivity.
Qed.

Lemma js_get_insert_ne {A} (l : list A) (i k : Z) (x : A) :
  0 ≤ i → k ≠ i → js_get (<[Z.to_nat i := x]> l) k = js_get l k.
Proof.
  intros Hi Hne. unfold js_get. destruct (Z.ltb_spec k 0); [reflexivity|].
  apply list_lookup_insert_ne. lia.
Qed.

Lemma js_get_nonneg {A} (l : list A) (i : Z) (x : A) : js_get l i = Some x → 0 ≤ i.
Proof. unfold js_get. destruct (Z.ltb_spec i 0); [discriminate | lia]. Qed.

Lemma top_up_turned (rest : pile) : top_turned_up rest (top_up rest).
Proof.
  unfold top_turned_up, top_up.
  destruct (last rest) as [[| |t]|] eqn:El; try reflexivity.
  destruct (faceUp t) eqn:Ef.
  - exists (Card t). split; [apply last_removelast, El|].
    exists t. split; [reflexivity|]. repeat split; exact Ef.
  - eexists. split; [reflexivity|]. apply shown_set_faceUp.
Qed.

(** X17. Moving a run of cards between tableau piles.  For pile [i]
    holding [rest] with the cards [above] on top, and another pile [k]
    holding [pk], [moveCards] from index [length rest] of pile [i] to pile
    [k] puts [above] on [pk] in the same order and leaves on pile [i] the
    cards of [rest], the top one of them with [faceUp] equal to [true] and
    the others as they were; it counts one move, pushes the snapshot of
    the state before and returns [true]; the score grows by 5 exactly when
    the top card of [rest] lay face down and the scoring mode is
    [standard]. *)
Theorem moveCards_tableau_run (cfg : settings) (s : state) (i k : Z)
    (rest above pk : pile) :
  js_get (tableau s) i = Some (rest ++ above) → card_on_top rest →
  js_get (tableau s) k = Some pk → k ≠ i →
  ∃ s' rest',
    moveCards cfg (mkLoc "tableau" (Some i) (Some (Z.of_nat (length rest))))
      (mkLoc "tableau" (Some k) None) s = Returns true s'
    ∧ top_turned_up rest rest'
    ∧ tableau s'
      = <[Z.to_nat k := pk ++ above]> (<[Z.to_nat i := rest']> (tableau s))
    ∧ score s'
      = score s + (if top_down rest && String.eqb (scoring cfg) "standard"
                   then 5 else 0)
    ∧ moves s' = moves s + 1
    ∧ history s'
      = (let h := history s ++ [snapshot_of s] in
         if (50 <? length h)%nat then tail h else h)
    ∧ stock s' = stock s ∧ waste s' = waste s
    ∧ foundations s' = foundations s.
Proof.
  intros Hi Htop Hk Hne. unfold moveCards.
  rewrite bind_unfold. cbn [modify]. rewrite bind_unfold.
  rewrite (remove_tableau_run (saveState s) i rest above Hi Htop).
  rewrite bind_unfold. cbn [fst snd].
  rewrite (add_tableau cfg _ k pk above (top_down rest)).
  2:{ cbn [tableau set_tableau saveState set_history].
      rewrite (js_get_insert_ne _ i k _ (js_get_nonneg _ _ _ Hi) Hne). exact Hk. }
  rewrite bind_unfold. cbn [modify ret]. eexists _, (top_up rest).
  split; [reflexivity|]. split; [apply top_up_turned|].
  cbv zeta. destruct (top_down rest && String.eqb (scoring cfg) "standard");
    repeat split; cbn; try reflexivity; lia.
Qed.

(** The eight of hearts and the seven of spades moved from the face-down
    nine of clubs to the nine of spades: the nine of clubs is turned up
    and 5 points are scored. *)
Lemma moveCards_tableau_run_witness :
  (∃ c0, tableau nine_face_down !! 0%nat
         = Some [Card c0; Card (mkCard hearts 8 true "hearts-8");
                 Card (mkCard spades 7 true "spades-7")]
         ∧ faceUp c0 = false)
  ∧ ∃ s' c, moveCards standard_draw1 (mkLoc "tableau" (Some 0) (Some 1))
              (mkLoc "tableau" (Some 2) None) nine_face_down = Returns true s'
            ∧ tableau s' !! 0%nat = Some [Card c]
            ∧ c_suit c = clubs ∧ rank c = 9 ∧ faceUp c = true
            ∧ tableau s' !! 2%nat
              = Some [Card (mkCard spades 9 true "spades-9");
                      Card (mkCard hearts 8 true "hearts-8");
                      Card (mkCard spades 7 true "spades-7")]
            ∧ score s' = 5 ∧ moves s' = 1.
Proof.
  split; [eexists; split; reflexivity|].
  destruct (moveCards_tableau_run standard_draw1 nine_face_down 0 2
              [Card (mkCard clubs 9 false "clubs-9")]
              [Card (mkCard hearts 8 true "hearts-8");
               Card (mkCard spades 7 true "spades-7")]
              [Card (mkCard spades 9 true "spades-9")])
    as (s' & rest' & H & Hturn & Ht & Hsc & Hm & _);
    [reflexivity | exact Logic.I | reflexivity | discriminate|].
  destruct Hturn as (x & -> & c & -> & Hsu & Hr & _ & Hf).
  exists s', c. split; [exact H|]. rewrite Ht.
  split; [reflexivity|]. split; [exact Hsu|]. split; [exact Hr|].
  split; [exact Hf|]. split; [reflexivity|]. split; [exact Hsc | exact Hm].
Defined.

(** X18. Moving tableau cards to a foundation.  [moveCards] from index
    [length rest] of tableau pile [i] to foundation [k] puts everything
    from that index up on the foundation and leaves on the pile the cards
    of [rest], the top one of them with [faceUp] equal to [true] and the
    others as they were; it counts one move, pushes the snapshot of the
    state before and returns [true].  The score grows by 10 under
    [standard] scoring, by 5 under [vegas] and not otherwise; turning a
    card up earns nothing here, the 5 points for that being given only
    when the destination is a tableau pile. *)
Theorem moveCards_tableau_to_foundation (cfg : settings) (s : state) (i k : Z)
    (rest above f : pile) :
  js_get (tableau s) i = Some (rest ++ above) → card_on_top rest →
  js_get (foundations s) k = Some f →
  ∃ s' rest',
    moveCards cfg (mkLoc "tableau" (Some i) (Some (Z.of_nat (length rest))))
      (mkLoc "foundation" (Some k) None) s = Returns true s'
    ∧ top_turned_up rest rest'
    ∧ tableau s' = <[Z.to_nat i := rest']> (tableau s)
    ∧ foundations s' = <[Z.to_nat k := f ++ above]> (foundations s)
    ∧ score s' = score s + foundation_points cfg
    ∧ moves s' = moves s + 1
    ∧ history s'
      = (let h := history s ++ [snapshot_of s] in
         if (50 <? length h)%nat then tail h else h)
    ∧ stock s' = stock s ∧ waste s' = waste s.
Proof.
  intros Hi Htop Hk. unfold moveCards.
  rewrite bind_unfold. cbn [modify]. rewrite bind_unfold.
  rewrite (remove_tableau_run (saveState s) i rest above Hi Htop).
  rewrite bind_unfold. cbn [fst snd].
  rewrite (add_foundation cfg _ k f above (top_down rest)) by exact Hk.
  rewrite bind_unfold. cbn [modify ret]. eexists _, (top_up rest).
  split; [reflexivity|]. split; [apply top_up_turned|].
  repeat split; reflexivity.
Qed.

(** The three of hearts moved from the face-down nine of clubs to the
    foundation of hearts: the nine of clubs is turned up, and the score is
    the 10 points of the foundation, without the 5 points for the turn. *)
Lemma moveCards_tableau_to_foundation_witness :
  (∃ c0, tableau three_on_nine !! 0%nat
         = Some [Card c0; Card (mkCard hearts 3 true "hearts-3")]
         ∧ faceUp c0 = false)
  ∧ ∃ s' c, moveCards standard_draw1 (mkLoc "tableau" (Some 0) (Some 1))
              (mkLoc "foundation" (Some 0) None) three_on_nine = Returns true s'
            ∧ tableau s' !! 0%nat = Some [Card c]
            ∧ c_suit c = clubs ∧ rank c = 9 ∧ faceUp c = true
            ∧ foundations s' !! 0%nat
              = Some [Card (mkCard hearts 1 true "hearts-1");
                      Card (mkCard hearts 2 true "hearts-2");
                      Card (mkCard hearts 3 true "hearts-3")]
            ∧ score s' = 10.
Proof.
  split; [eexists; split; reflexivity|].
  destruct (moveCards_tableau_to_foundation standard_draw1 three_on_nine 0 0
              [Card (mkCard clubs 9 false "clubs-9")]
              [Card (mkCard hearts 3 true "hearts-3")]
              [Card (mkCard hearts 1 true "hearts-1");
               Card (mkCard hearts 2 true "hearts-2")])
    as (s' & rest' & H & Hturn & Ht & Hf & Hsc & _);
    [reflexivity | exact Logic.I | reflexivity|].
  destruct Hturn as (x & -> & c & -> & Hsu & Hr & _ & Hfu).
  exists s', c. split; [exact H|]. rewrite Ht, Hf.
  split; [reflexivity|]. split; [exact Hsu|]. split; [exact Hr|].
  split; [exact Hfu|]. split; [reflexivity | exact Hsc].
Defined.

Lemma moveCards_waste_foundation cfg (l : loc) (s : state) (k : Z) (p : pile) :
  location l = "waste"%string → js_get (foundations s) k = Some p →
  moveCards cfg l (mkLoc "foundation" (Some k) None) s
  = Returns true
      (set_moves (moves s + 1)
         (set_score (score s + foundation_points cfg)
            (set_foundations
               (<[Z.to_nat k := p ++ [default Undefined (last (waste s))]]>
                  (foundations s))
               (set_waste (removelast (waste s)) (saveState s))))).
Proof.
  intros Hl Hk. unfold moveCards.
  rewrite bind_unfold. cbn [modify]. rewrite bind_unfold.
  unfold remove_from_source at 1. rewrite Hl. cbn [js_pop].
  change (String.eqb "waste" "waste") with true. cbv iota.
  rewrite bind_unfold. cbn [fst snd].
  rewrite (add_foundation cfg _ k p _ false) by exact Hk.
  rewrite bind_unfold. cbn [modify ret]. reflexivity.
Qed.

Lemma moveCards_waste_tableau cfg (l : loc) (s : state) (k : Z) (p : pile) :
  location l = "waste"%string → js_get (tableau s) k = Some p →
  moveCards cfg l (mkLoc "tableau" (Some k) None) s
  = Returns true
      (set_moves (moves s + 1)
         (set_tableau
            (<[Z.to_nat k := p ++ [default Undefined (last (waste s))]]>
               (tableau s))
            (set_waste (removelast (waste s)) (saveState s)))).
Proof.
  intros Hl Hk. unfold moveCards.
  rewrite bind_unfold. cbn [modify]. rewrite bind_unfold.
  unfold remove_from_source at 1. rewrite Hl. cbn [js_pop].
  change (String.eqb "waste" "waste") with true. cbv iota.
  rewrite bind_unfold. cbn [fst snd].
  rewrite (add_tableau cfg _ k p _ false) by exact Hk.
  rewrite bind_unfold. cbn [modify ret]. reflexivity.
Qed.

(** X19. Playing the waste card.  [moveCards] from the waste takes the
    last waste card and puts it on the pile named: on foundation [k] the
    score grows by 10 ([standard]), 5 ([vegas]) or nothing; on tableau
    pile [k] the score is unchanged.  On an empty waste nothing is checked:
    the call still returns [true] and counts a move, and what it puts on
    the pile is [undefined]. *)
Theorem moveCards_from_waste (cfg : settings) (s : state) (k : Z) (p : pile) :
  let x := default Undefined (last (waste s)) in
  (js_get (foundations s) k = Some p →
   ∃ s', moveCards cfg (mkLoc "waste" None None)
           (mkLoc "foundation" (Some k) None) s = Returns true s'
         ∧ waste s' = removelast (waste s)
         ∧ foundations s' = <[Z.to_nat k := p ++ [x]]> (foundations s)
         ∧ tableau s' = tableau s
         ∧ score s' = score s + foundation_points cfg
         ∧ moves s' = moves s + 1)
  ∧ (js_get (tableau s) k = Some p →
     ∃ s', moveCards cfg (mkLoc "waste" None None)
             (mkLoc "tableau" (Some k) None) s = Returns true s'
           ∧ waste s' = removelast (waste s)
           ∧ tableau s' = <[Z.to_nat k := p ++ [x]]> (tableau s)
           ∧ foundations s' = foundations s
           ∧ score s' = score s
           ∧ moves s' = moves s + 1)
  ∧ (waste s = [] → x = Undefined).
Proof.
  cbv zeta. split; [|split].
  - intros Hk.
    rewrite (moveCards_waste_foundation cfg (mkLoc "waste" None None) s k p eq_refl Hk).
    eexists. split; [reflexivity|]. repeat split; reflexivity.
  - intros Hk.
    rewrite (moveCards_waste_tableau cfg (mkLoc "waste" None None) s k p eq_refl Hk).
    eexists. split; [reflexivity|]. repeat split; reflexivity.
  - intros ->. reflexivity.
Qed.

Lemma moveCards_from_waste_witness :
  (∃ s', moveCards vegas_draw1 (mkLoc "waste" None None)
           (mkLoc "foundation" (Some 3) None) (ace_of_spades_waste 0)
         = Returns true s'
         ∧ waste s' = []
         ∧ foundations s' = [[]; []; []; [Card (face_up spades 1)]]
         ∧ score s' = 5)
  ∧ (∃ s', moveCards standard_draw1 (mkLoc "waste" None None)
             (mkLoc "tableau" (Some 0) None) (fresh 0 0) = Returns true s'
           ∧ tableau s' = [[Undefined]; []; []; []; []; []; []]
           ∧ moves s' = 1).
Proof.
  destruct (moveCards_from_waste vegas_draw1 (ace_of_spades_waste 0) 3 [])
    as (H1 & _ & _).
  destruct (moveCards_from_waste standard_draw1 (fresh 0 0) 0 [])
    as (_ & H2 & _).
  split.
  - destruct (H1 ltac:(reflexivity)) as (s' & H & Hw & Hf & _ & Hsc & _).
    exists s'. split; [exact H|]. split; [exact Hw|]. split; [exact Hf | exact Hsc].
  - destruct (H2 ltac:(reflexivity)) as (s' & H & _ & Ht & _ & _ & Hm).
    exists s'. split; [exact H|]. split; [exact Ht | exact Hm].
Defined.

(** *** The card that [tryAutoMove] moves *)

Lemma findIndex_from_first cid (w above : pile) (c : card) (i : Z) :
  forallb is_card w = true → (∀ c', Card c' ∈ w → id c' ≠ cid) → id c = cid →
  findIndex_from cid (w ++ Card c :: above) i = Ok (i + Z.of_nat (length w)).
Proof.
  intros Hw Hno Hc. revert i.
  induction w as [|x w IH]; intros i; cbn [app findIndex_from length].
  - rewrite Hc, String.eqb_refl. f_equal. lia.
  - cbn [forallb] in Hw. apply andb_prop in Hw as [Hx Hw].
    destruct x as [| |c']; try discriminate.
    destruct (String.eqb_spec (id c') cid) as [E|_].
    + exfalso. apply (Hno c'); [left | exact E].
    + rewrite IH; [f_equal; lia | exact Hw |].
      intros c'' Hc''. apply Hno. right. exact Hc''.
Qed.

(** X20. [tryAutoMove] moves the top card of the waste, whichever waste
    card the id names.  When the id is that of a waste card [c] which the
    foundation of its suit accepts (foundation [fi] with [SUITS[fi]] the
    suit of [c]), the call puts the last waste card on that foundation and
    returns the foundation: the card [c] itself if it is on top, and
    otherwise the card on top of the waste, about which no question was
    asked, while [c] stays where it was. *)
Theorem tryAutoMove_moves_top_waste_card (cfg : settings) (s : state)
    (w above f : pile) (c : card) (fi : Z) :
  js_get SUITS fi = Some (c_suit c) →
  waste s = w ++ Card c :: above →
  forallb is_card w = true → (∀ c', Card c' ∈ w → id c' ≠ id c) →
  js_get (foundations s) fi = Some f →
  canPlaceOnFoundation s c fi = Ok true →
  ∃ s', tryAutoMove cfg (id c) s
        = Returns (Some (mkLoc "foundation" (Some fi) None)) s'
        ∧ waste s' = removelast (waste s)
        ∧ foundations s'
          = <[Z.to_nat fi := f ++ [default Undefined (last (waste s))]]>
              (foundations s)
        ∧ (above ≠ [] → Card c ∈ waste s'
                        ∧ last (waste s) = last above).
Proof.
  intros Hfi Hw Hcards Hno Hf Hok. apply getFoundationIndex_SUITS in Hfi.
  assert (Hfind : findCard s (id c)
                  = Ok (Some (mkLoc "waste" None (Some (Z.of_nat (length w)))))).
  { unfold findCard, findIndex.
    rewrite Hw, (findIndex_from_first (id c) w above c 0 Hcards Hno eq_refl).
    cbn [rbind]. rewrite Z.add_0_l.
    destruct (Z.eqb_spec (Z.of_nat (length w)) (-1)) as [E|_]; [lia|].
    reflexivity. }
  assert (Hat : card_at s (mkLoc "waste" None (Some (Z.of_nat (length w))))
                = Ok (Card c)).
  { unfold card_at, js_read_at, js_index, js_get. cbn [location index mbind option_bind].
    change (String.eqb "waste" "waste") with true. cbv iota.
    destruct (Z.ltb_spec (Z.of_nat (length w)) 0) as [|_]; [lia|].
    rewrite Nat2Z.id, Hw, list_lookup_middle by reflexivity. reflexivity. }
  unfold tryAutoMove. rewrite bind_lift, Hfind, bind_lift, Hat.
  cbn [location]. change (String.eqb "waste" "tableau") with false.
  change (String.eqb "waste" "foundation") with false. cbn [andb negb].
  rewrite bind_unfold. unfold auto_foundation. rewrite bind_lift.
  unfold isSingleCard at 1. cbn [location].
  change (String.eqb "waste" "waste") with true. cbv iota.
  rewrite bind_lift. rewrite Hfi, Hok. cbv zeta. rewrite bind_unfold.
  rewrite (moveCards_waste_foundation cfg
             (mkLoc "waste" None (Some (Z.of_nat (length w)))) s fi f eq_refl Hf).
  cbn [ret]. eexists. split; [reflexivity|].
  split; [reflexivity|]. split; [reflexivity|].
  intros Hab. cbn [waste set_moves set_score set_foundations set_waste].
  destruct (nonempty_snoc above Hab) as (above' & x & ->).
  rewrite Hw. split.
  - replace (w ++ Card c :: above' ++ [x]) with ((w ++ Card c :: above') ++ [x])
      by (rewrite <- app_assoc; reflexivity).
    rewrite removelast_last. apply elem_of_app. right. left.
  - replace (w ++ Card c :: above' ++ [x]) with ((w ++ Card c :: above') ++ [x])
      by (rewrite <- app_assoc; reflexivity).
    rewrite !last_snoc. reflexivity.
Qed.

(** Asked to move the ace of spades, which lies under the five of clubs
    on the waste, [tryAutoMove] puts the five of clubs on foundation 3,
    the foundation of spades. *)
Lemma tryAutoMove_moves_top_waste_card_witness :
  ∃ s', tryAutoMove standard_draw1 "spades-1" buried_spade_ace
        = Returns (Some (mkLoc "foundation" (Some 3) None)) s'
        ∧ waste s' = [Card (mkCard spades 1 true "spades-1")]
        ∧ foundations s'
          = [[]; []; []; [Card (mkCard clubs 5 true "clubs-5")]].
Proof.
  destruct (tryAutoMove_moves_top_waste_card standard_draw1 buried_spade_ace
              [] [Card (mkCard clubs 5 true "clubs-5")] []
              (mkCard spades 1 true "spades-1") 3)
    as (s' & H & Hw & Hf & _).
  - reflexivity.
  - reflexivity.
  - reflexivity.
  - intros c' Hc'. inversion Hc'.
  - reflexivity.
  - reflexivity.
  - exists s'. split; [exact H|]. split; [exact Hw | exact Hf].
Defined.

(** ** The states of a game *)

Lemma deal_length (cs : list (nat * nat)) (k : nat) (deck : pile) (t : list pile) :
  length (deal cs k deck t).1.2 = length t.
Proof.
  revert k t. induction cs as [|[col row] rest IH]; intros k t; cbn [deal];
    [reflexivity|].
  destruct (js_read deck (Z.of_nat k)); try reflexivity.
  rewrite IH. apply length_alter.
Qed.

Lemma newGame_shaped sd now : well_shaped (final (newGame sd now)).
Proof.
  unfold newGame. cbv zeta.
  pose proof (deal_length cells 0 (shuffle (Card <$> createDeck) sd).1
                (tableau (fresh sd now))) as Hlen.
  destruct (deal cells 0 _ _) as [[k t] ok]. cbn [fst snd] in Hlen.
  destruct ok; cbn [final]; (split; [split|]); cbn; try reflexivity;
    try exact Hlen; constructor.
Qed.

Lemma reachable_shaped s : reachable s → well_shaped s.
Proof.
  induction 1 as [sd now Hsd | cfg s Hr IH | cfg l1 l2 s Hr IH Hm
                 | cfg cid s Hr IH | s Hr IH].
  - apply newGame_shaped.
  - apply drawFromStock_shaped, IH.
  - revert IH. apply (moveCards_preserves well_shaped).
    + apply saveState_shaped.
    + intros s0 Hs0. exact Hs0.
    + apply remove_from_source_shaped.
    + apply add_to_destination_shaped.
  - revert IH. apply (tryAutoMove_preserves well_shaped).
    + apply saveState_shaped.
    + intros s0 Hs0. exact Hs0.
    + apply remove_from_source_shaped.
    + apply add_to_destination_shaped.
  - apply undo_shaped, IH.
Qed.

Lemma cards_forallb (p : pile) :
  (∀ x, x ∈ p → ∃ c, x = Card c) → forallb is_card p = true.
Proof.
  intros H. apply forallb_forall. intros x Hx.
  apply list_elem_of_In in Hx. destruct (H x Hx) as [c ->]. reflexivity.
Qed.

Lemma cards_forallb_piles (ps : list pile) :
  (∀ x, x ∈ concat ps → ∃ c, x = Card c) →
  forallb (forallb is_card) ps = true.
Proof.
  intros H. apply forallb_forall. intros p Hp. apply cards_forallb.
  intros x Hx. apply H. apply list_elem_of_In, in_concat.
  exists p. split; [exact Hp | apply list_elem_of_In, Hx].
Qed.

Lemma full_deck_tidy s :
  full_deck (all_slots s) → board_shape (foundations s) (tableau s) →
  tidy_board s.
Proof.
  intros Hd [Hf Ht].
  assert (H : ∀ x, x ∈ all_slots s → ∃ c, x = Card c)
    by (intros x; apply full_deck_card, Hd).
  unfold all_slots in H. setoid_rewrite elem_of_app in H.
  setoid_rewrite elem_of_app in H. setoid_rewrite elem_of_app in H.
  split; [split; [exact Ht|]|split; [exact Hf|split; [|split]]].
  - apply cards_forallb_piles. intros x Hx. apply H. auto.
  - apply cards_forallb_piles. intros x Hx. apply H. auto.
  - apply cards_forallb. intros x Hx. apply H. auto.
  - apply cards_forallb. intros x Hx. apply H. auto.
Qed.

Lemma reachable_tidy s : reachable s → tidy_board s.
Proof.
  intros Hr. apply full_deck_tidy.
  - apply (reachable_sound s Hr).
  - apply (reachable_shaped s Hr).
Qed.


(** X21. [isWon] means that every card lies on a foundation.  In a state
    that holds each of the 52 cards once on a board with four foundations,
    as every state of a game does, [isWon] is true only when the stock,
    the waste and every tableau pile are empty and each foundation holds 13
    cards. *)
Theorem isWon_all_cards_on_foundations (s : state) :
  full_deck (all_slots s) → length (foundations s) = 4%nat →
  isWon s = true →
  stock s = [] ∧ waste s = [] ∧ Forall (λ p : pile, p = []) (tableau s)
  ∧ Forall (λ f : pile, length f = 13%nat) (foundations s).
Proof.
  intros Hdeck Hf Hw.
  pose proof (full_deck_length _ Hdeck) as Hlen.
  unfold isWon in Hw.
  assert (H13 : Forall (λ f : pile, length f = 13%nat) (foundations s)).
  { apply Forall_forall. intros f Hin.
    apply list_elem_of_In in Hin.
    apply Nat.eqb_eq, (proj1 (forallb_forall _ _) Hw), Hin. }
  assert (H52 : length (concat (foundations s)) = 52%nat).
  { destruct (foundations s) as [|f0 [|f1 [|f2 [|f3 [|]]]]]; try discriminate.
    apply Forall_cons in H13 as [E0 H13]. apply Forall_cons in H13 as [E1 H13].
    apply Forall_cons in H13 as [E2 H13]. apply Forall_cons in H13 as [E3 _].
    cbn [concat]. rewrite !length_app, E0, E1, E2, E3. reflexivity. }
  unfold all_slots in Hlen. rewrite !length_app, H52 in Hlen.
  assert (Hs : length (stock s) = 0%nat) by lia.
  assert (Hwa : length (waste s) = 0%nat) by lia.
  assert (Ht : length (concat (tableau s)) = 0%nat) by lia.
  split; [apply length_zero_iff_nil, Hs|].
  split; [apply length_zero_iff_nil, Hwa|].
  split; [|exact H13].
  apply length_zero_iff_nil in Ht. apply Forall_forall. intros p Hp.
  destruct p as [|x p]; [reflexivity|]. exfalso.
  assert (Hx : x ∈ concat (tableau s)).
  { apply list_elem_of_In, in_concat. exists (x :: p).
    split; [apply list_elem_of_In, Hp | left; reflexivity]. }
  rewrite Ht in Hx. inversion Hx.
Qed.

Lemma isWon_all_cards_on_foundations_witness :
  stock all_played = [] ∧ waste all_played = []
  ∧ Forall (λ p : pile, p = []) (tableau all_played)
  ∧ Forall (λ f : pile, length f = 13%nat) (foundations all_played).
Proof.
  apply isWon_all_cards_on_foundations.
  - unfold full_deck. change (deck_keys ≡ₚ deck_keys). reflexivity.
  - reflexivity.
  - reflexivity.
Defined.

(** ** Remaining moves *)


Lemma tidy_foundation s i :
  tidy_board s → 0 ≤ i < 4 →
  ∃ f, js_get (foundations s) i = Some f ∧ forallb is_card f = true.
Proof.
  intros (_ & Hlen & Hall & _) Hi.
  destruct (proj2 (js_get_is_Some (foundations s) i)) as [f Hf]; [lia|].
  exists f. split; [exact Hf|].
  unfold js_get in Hf. destruct (i <? 0); [discriminate|].
  rewrite forallb_forall in Hall. apply Hall.
  apply list_elem_of_In. eapply list_elem_of_lookup_2, Hf.
Qed.

Lemma tidy_canPlaceOnFoundation s c i :
  tidy_board s → 0 ≤ i < 4 → is_ok (canPlaceOnFoundation s c i).
Proof.
  intros Ht Hi. destruct (tidy_foundation s i Ht Hi) as (f & Hf & Hall).
  unfold canPlaceOnFoundation. rewrite Hf.
  destruct (negb _); [eexists; reflexivity|].
  destruct (length f =? 0)%nat eqn:E; [eexists; reflexivity|].
  destruct (last f) as [x|] eqn:El.
  - destruct (forallb_is_card _ x Hall (last_elem_of _ _ El)) as [t ->].
    eexists; reflexivity.
  - apply last_None_nil in El. rewrite El in E. discriminate.
Qed.

Lemma tidy_on_foundation s c :
  tidy_board s →
  canPlaceOnFoundation s c (getFoundationIndex (c_suit c))
  = Ok (on_foundation s c).
Proof.
  intros Ht. unfold on_foundation.
  destruct (tidy_canPlaceOnFoundation s c (getFoundationIndex (c_suit c)) Ht)
    as [b ->]; [apply getFoundationIndex_range | reflexivity].
Qed.

Lemma valid_destination_existsb s i c ks :
  tidy_tableau s → (∀ k, k ∈ ks → 0 ≤ k < 7) →
  valid_destination s i c ks
  = Ok (existsb (λ k, negb (k =? i) && can_place s c k) ks).
Proof.
  intros Ht. induction ks as [|k ks IH]; intros Hks; [reflexivity|].
  assert (Hk : 0 ≤ k < 7) by (apply Hks; left).
  assert (IH' := IH (λ k' H, Hks k' (list_elem_of_further _ _ _ H))).
  cbn [valid_destination existsb].
  destruct (k =? i); [exact IH'|].
  rewrite (tidy_canPlace s c k Ht Hk). cbn [rbind negb andb].
  destruct (can_place s c k); [reflexivity | exact IH'].
Qed.

Lemma valid_cards_existsb s i js :
  tidy_board s → 0 ≤ i < 7 →
  (∀ j, j ∈ js → 0 ≤ j < Z.of_nat (length (pile_at s i))) →
  valid_cards s i (pile_at s i) js = Ok (existsb (has_move s i) js).
Proof.
  intros Hb Hi. pose proof (proj1 Hb) as Ht.
  induction js as [|j js IH]; intros Hjs; [reflexivity|].
  assert (Hj : 0 ≤ j < Z.of_nat (length (pile_at s i))) by (apply Hjs; left).
  assert (IH' := IH (λ j' H, Hjs j' (list_elem_of_further _ _ _ H))).
  cbn [valid_cards existsb]. unfold has_move at 1.
  destruct (tidy_read s i j Ht Hi Hj) as [c ->].
  destruct (faceUp c); cbn [negb andb orb]; [|exact IH'].
  rewrite (valid_destination_existsb s i c (seqZ 0 7) Ht)
    by (intros k; apply elem_of_seqZ_0).
  destruct (j =? Z.of_nat (length (pile_at s i)) - 1); cbn [andb orb rbind].
  - rewrite (tidy_on_foundation s c Hb). cbn [rbind].
    destruct (on_foundation s c); cbn [orb]; [reflexivity|].
    destruct (existsb _ (seqZ 0 7)); [reflexivity | exact IH'].
  - destruct (existsb _ (seqZ 0 7)); [reflexivity | exact IH'].
Qed.

Lemma valid_tableau_existsb s ixs :
  tidy_board s → (∀ i, i ∈ ixs → 0 ≤ i < 7) →
  valid_tableau s ixs
  = Ok (existsb (λ i, existsb (has_move s i)
                        (seqZ 0 (Z.of_nat (length (pile_at s i))))) ixs).
Proof.
  intros Hb. induction ixs as [|i ixs IH]; intros Hixs; [reflexivity|].
  assert (Hi : 0 ≤ i < 7) by (apply Hixs; left).
  assert (IH' := IH (λ i' H, Hixs i' (list_elem_of_further _ _ _ H))).
  cbn [valid_tableau existsb].
  destruct (tidy_pile s i (proj1 Hb) Hi) as [-> _].
  rewrite (valid_cards_existsb s i _ Hb Hi) by (intros j; apply elem_of_seqZ_0).
  cbn [rbind]. destruct (existsb (has_move s i) _); [reflexivity | exact IH'].
Qed.

Lemma getTopWasteCard_empty s : waste s = [] → getTopWasteCard s = Null.
Proof. intros E. unfold getTopWasteCard. rewrite E. reflexivity. Qed.


Lemma hasValidMoves_tidy (s : state) :
  tidy_board s →
  hasValidMoves s
  = Ok ((0 <? length (stock s))%nat || (0 <? length (waste s))%nat
        || some_tableau_move s).
Proof.
  intros Hb. unfold hasValidMoves.
  destruct (0 <? length (stock s))%nat; [reflexivity|].
  destruct (0 <? length (waste s))%nat eqn:Ew; [reflexivity|].
  cbn [orb]. unfold valid_waste.
  rewrite (getTopWasteCard_empty s (nonempty_length _ Ew)). cbn [rbind].
  apply valid_tableau_existsb; [exact Hb|]. intros i. apply elem_of_seqZ_0.
Qed.



(** ** Hints *)

Lemma or_else_Some {A} (r k : result (option A)) (a : A) :
  or_else r k = Ok (Some a) →
  r = Ok (Some a) ∨ (r = Ok None ∧ k = Ok (Some a)).
Proof.
  unfold or_else. destruct r as [[x|]|]; cbn [rbind]; [|auto|discriminate].
  intros [= ->]. left. reflexivity.
Qed.

Lemma or_else_None {A} (r k : result (option A)) :
  or_else r k = Ok None → r = Ok None ∧ k = Ok None.
Proof.
  unfold or_else. destruct r as [[x|]|]; cbn [rbind]; try discriminate. auto.
Qed.

Lemma hint_waste_foundation_legal s h :
  hint_waste_foundation s = Ok (Some h) → legal_hint s h.
Proof.
  unfold hint_waste_foundation.
  destruct (getTopWasteCard s) as [| |c] eqn:Ew; try discriminate.
  destruct (canPlaceOnFoundation s c _) as [[|]|] eqn:Ec; cbn [rbind];
    try discriminate.
  intros [= <-]. exists c. split; [reflexivity|].
  split; [left; split; [reflexivity | exact Ew]|].
  split; [left; split; [reflexivity | exact Ec]|]. discriminate.
Qed.

Lemma hint_tableau_foundation_legal s ixs h :
  hint_tableau_foundation s ixs = Ok (Some h) → legal_hint s h.
Proof.
  induction ixs as [|i rest IH]; cbn [hint_tableau_foundation]; [discriminate|].
  destruct (js_get (tableau s) i) as [p|] eqn:Ep; [|discriminate].
  destruct (length p =? 0)%nat; [exact IH|].
  destruct (last p) as [[| |c]|] eqn:El; try discriminate.
  destruct (faceUp c) eqn:Ef; cbn [negb]; [|exact IH].
  destruct (canPlaceOnFoundation s c _) as [[|]|] eqn:Ec; cbn [rbind];
    [|exact IH|discriminate].
  intros [= <-]. exists c. split; [reflexivity|]. split.
  - right. left. exists i, p. auto.
  - split; [left; split; [reflexivity | exact Ec]|]. discriminate.
Qed.

Lemma hint_waste_tableau_legal s h :
  hint_waste_tableau s = Ok (Some h) → legal_hint s h.
Proof.
  unfold hint_waste_tableau.
  destruct (getTopWasteCard s) as [| |c] eqn:Ew; try discriminate.
  generalize (seqZ 0 7). intros ixs.
  induction ixs as [|i rest IH]; cbn [hint_waste_tableau_loop]; [discriminate|].
  destruct (canPlaceOnTableau s c i) as [[|]|] eqn:Ec; cbn [rbind];
    [|exact IH|discriminate].
  intros [= <-]. exists c. split; [reflexivity|].
  split; [left; split; [reflexivity | exact Ew]|].
  split; [right; exists i; split; [reflexivity | exact Ec]|]. discriminate.
Qed.

Lemma hint_destination_legal s i j c ks k :
  hint_destination s i j c ks = Ok (Some k) →
  k ≠ i ∧ canPlaceOnTableau s c k = Ok true.
Proof.
  induction ks as [|k' rest IH]; cbn [hint_destination]; [discriminate|].
  destruct (Z.eqb_spec k' i) as [|Hne]; [exact IH|].
  destruct (canPlaceOnTableau s c k') as [[|]|] eqn:Ec; cbn [rbind];
    [|exact IH|discriminate].
  destruct (_ && _); [exact IH|]. intros [= <-]. split; assumption.
Qed.


Lemma hint_cards_legal s i p js h :
  js_get (tableau s) i = Some p →
  hint_cards s i p js = Ok (Some h) → legal_hint s h.
Proof.
  intros Hp. induction js as [|j rest IH]; cbn [hint_cards]; [discriminate|].
  destruct (js_read p j) as [| |c] eqn:Ej; try discriminate.
  destruct (faceUp c) eqn:Ef; cbn [negb]; [|exact IH].
  destruct (if 0 <? j then _ else _) as [e|]; cbn [rbind]; [|discriminate].
  destruct (hint_destination s i j c (seqZ 0 7)) as [[k|]|] eqn:Ed; cbn [rbind];
    [|exact IH|discriminate].
  apply hint_destination_legal in Ed as [Hne Hc].
  intros [= <-]. exists c. split; [reflexivity|]. split.
  - right. right. exists i, j, p. split; [reflexivity|]. split; [exact Hp|].
    split; [apply js_read_Card, Ej | exact Ef].
  - split; [right; exists k; split; [reflexivity | exact Hc]|].
    cbn. intros [= E]. congruence.
Qed.

Lemma hint_tableau_tableau_legal s ixs h :
  hint_tableau_tableau s ixs = Ok (Some h) → legal_hint s h.
Proof.
  induction ixs as [|i rest IH]; cbn [hint_tableau_tableau]; [discriminate|].
  destruct (js_get (tableau s) i) as [p|] eqn:Ep; [|discriminate].
  intros H. apply or_else_Some in H as [H|[_ H]]; [|exact (IH H)].
  eapply hint_cards_legal; eassumption.
Qed.

Lemma hint_draw_legal s h : hint_draw s = Ok (Some h) → legal_hint s h.
Proof.
  unfold hint_draw.
  destruct (0 <? length (stock s))%nat eqn:Es.
  - intros [= <-]. split; [reflexivity|]. left.
    repeat (split; [reflexivity|]). intros E. rewrite E in Es. discriminate.
  - destruct (0 <? length (waste s))%nat eqn:Ew; [|discriminate].
    intros [= <-]. split; [reflexivity|]. right.
    repeat (split; [reflexivity|]).
    split; [apply nonempty_length, Es|]. intros E. rewrite E in Ew. discriminate.
Qed.

(** X23. Every hint can be followed.  A hint of [getHint] that names a
    card names one that lies where the hint says (the top waste card, or a
    face-up tableau card) and a destination, another pile, for which
    [canPlaceOnFoundation] or [canPlaceOnTableau] answers yes; a [draw]
    hint is given only with cards in the stock, a [reset] hint only with an
    empty stock and cards in the waste; and [getHint] answers [null] only
    when stock and waste are both empty. *)
Theorem getHint_is_legal (s : state) :
  (∀ h, getHint s = Ok (Some h) → legal_hint s h)
  ∧ (getHint s = Ok None → stock s = [] ∧ waste s = []).
Proof.
  unfold getHint. split.
  - intros h H.
    apply or_else_Some in H as [H|[_ H]]; [apply hint_waste_foundation_legal, H|].
    apply or_else_Some in H as [H|[_ H]];
      [eapply hint_tableau_foundation_legal, H|].
    apply or_else_Some in H as [H|[_ H]]; [apply hint_waste_tableau_legal, H|].
    apply or_else_Some in H as [H|[_ H]];
      [eapply hint_tableau_tableau_legal, H|].
    apply hint_draw_legal, H.
  - intros H. apply or_else_None in H as [_ H].
    apply or_else_None in H as [_ H]. apply or_else_None in H as [_ H].
    apply or_else_None in H as [_ H]. unfold hint_draw in H.
    destruct (0 <? length (stock s))%nat eqn:Es; [discriminate|].
    destruct (0 <? length (waste s))%nat eqn:Ew; [discriminate|].
    split; apply nonempty_length; assumption.
Qed.

Lemma getHint_is_legal_witness :
  legal_hint eight_under_seven
    (mkHint (Some "hearts-8"%string) (mkLoc "tableau" (Some 0) (Some 0))
            (mkLoc "tableau" (Some 2) None) (Some false) None)
  ∧ stock king_and_queen = [] ∧ waste king_and_queen = [].
Proof.
  destruct (getHint_is_legal eight_under_seven) as [H1 _].
  destruct (getHint_is_legal king_and_queen) as [_ H2].
  split.
  - apply H1. vm_compute. reflexivity.
  - apply H2. vm_compute. reflexivity.
Defined.

(** *** Hints and remaining moves *)

Lemma js_read_last (p : pile) (x : slot) :
  last p = Some x → js_read p (Z.of_nat (length p) - 1) = x.
Proof.
  intros E. rewrite last_lookup in E. unfold js_read, js_get.
  destruct p as [|y p]; [discriminate|].
  cbn [length] in *. destruct (Z.ltb_spec (Z.of_nat (S (length p)) - 1) 0); [lia|].
  replace (Z.to_nat (Z.of_nat (S (length p)) - 1)) with (Nat.pred (S (length p)))
    by lia.
  rewrite E. reflexivity.
Qed.

Lemma js_get_pile_at s i p : js_get (tableau s) i = Some p → pile_at s i = p.
Proof. intros E. unfold pile_at. rewrite E. reflexivity. Qed.

Lemma has_move_some s i j :
  0 ≤ i < 7 → 0 ≤ j < Z.of_nat (length (pile_at s i)) →
  has_move s i j = true → some_tableau_move s = true.
Proof.
  intros Hi Hj H. unfold some_tableau_move. apply existsb_exists.
  exists i. split; [apply list_elem_of_In, elem_of_seqZ_range, Hi|].
  apply existsb_exists. exists j.
  split; [apply list_elem_of_In, elem_of_seqZ_range, Hj | exact H].
Qed.

Lemma some_has_move s :
  some_tableau_move s = true →
  ∃ i j, 0 ≤ i < 7 ∧ 0 ≤ j < Z.of_nat (length (pile_at s i))
         ∧ has_move s i j = true.
Proof.
  unfold some_tableau_move. intros H.
  apply existsb_exists in H as (i & Hi & H).
  apply existsb_exists in H as (j & Hj & H).
  apply list_elem_of_In, elem_of_seqZ_0 in Hi.
  apply list_elem_of_In, elem_of_seqZ_0 in Hj. eauto.
Qed.

(** The second stage of [getHint] on a tidy board. *)
Lemma hint_tableau_foundation_tidy s ixs :
  tidy_board s → (∀ i, i ∈ ixs → 0 ≤ i < 7) →
  match hint_tableau_foundation s ixs with
  | Ok (Some _) =>
      ∃ i, i ∈ ixs ∧ 0 < Z.of_nat (length (pile_at s i))
           ∧ has_move s i (Z.of_nat (length (pile_at s i)) - 1) = true
  | Ok None =>
      ∀ i c, i ∈ ixs → last (pile_at s i) = Some (Card c) →
             faceUp c = true → on_foundation s c = false
  | TypeError => False
  end.
Proof.
  intros Hb. induction ixs as [|i rest IH]; intros Hixs;
    cbn [hint_tableau_foundation].
  { intros i c Hi. inversion Hi. }
  assert (Hi : 0 ≤ i < 7) by (apply Hixs; left).
  assert (IH' := IH (λ i' H, Hixs i' (list_elem_of_further _ _ _ H))).
  assert (Hrest : match hint_tableau_foundation s rest with
                  | Ok (Some _) =>
                      ∃ i0, i0 ∈ i :: rest
                            ∧ 0 < Z.of_nat (length (pile_at s i0))
                            ∧ has_move s i0 (Z.of_nat (length (pile_at s i0)) - 1)
                              = true
                  | Ok None => True
                  | TypeError => False
                  end).
  { destruct (hint_tableau_foundation s rest) as [[h|]|]; [|exact Logic.I|exact IH'].
    destruct IH' as (i0 & H0 & H). exists i0. split; [right; exact H0 | exact H]. }
  destruct (tidy_pile s i (proj1 Hb) Hi) as [-> Hall].
  destruct (length (pile_at s i) =? 0)%nat eqn:El.
  { destruct (hint_tableau_foundation s rest) as [[h|]|]; try exact Hrest.
    intros i' c Hi' Hl. apply elem_of_cons in Hi' as [->|Hi'];
      [|exact (IH' _ _ Hi' Hl)].
    apply Nat.eqb_eq, length_zero_iff_nil in El. rewrite El in Hl. discriminate. }
  destruct (last (pile_at s i)) as [x|] eqn:Ex;
    [|apply last_None_nil in Ex; rewrite Ex in El; discriminate].
  destruct (forallb_is_card _ x Hall (last_elem_of _ _ Ex)) as [c ->].
  destruct (faceUp c) eqn:Ef; cbn [negb].
  - rewrite (tidy_on_foundation s c Hb). cbn [rbind].
    destruct (on_foundation s c) eqn:Eo.
    + exists i. split; [left|]. apply Nat.eqb_neq in El. split; [lia|].
      unfold has_move. rewrite (js_read_last _ _ Ex), Ef, Z.eqb_refl, Eo.
      reflexivity.
    + destruct (hint_tableau_foundation s rest) as [[h|]|]; try exact Hrest.
      intros i' c' Hi' Hl. apply elem_of_cons in Hi' as [->|Hi'];
        [|exact (IH' _ _ Hi' Hl)].
      rewrite Ex in Hl. injection Hl as <-. intros _. exact Eo.
  - destruct (hint_tableau_foundation s rest) as [[h|]|]; try exact Hrest.
    intros i' c' Hi' Hl. apply elem_of_cons in Hi' as [->|Hi'];
      [|exact (IH' _ _ Hi' Hl)].
    rewrite Ex in Hl. injection Hl as <-. congruence.
Qed.

Lemma elem_of_candidates s i j k :
  (i, j, k) ∈ candidates s (seqZ 0 7) ↔
  0 ≤ i < 7 ∧ 0 ≤ j < Z.of_nat (length (pile_at s i)) ∧ 0 ≤ k < 7.
Proof.
  unfold candidates. rewrite list_elem_of_bind. split.
  - intros (i' & H & Hi). apply list_elem_of_bind in H as (j' & H & Hj).
    apply list_elem_of_bind in H as (k' & H & Hk).
    apply list_elem_of_singleton in H. injection H as -> -> ->.
    apply elem_of_seqZ_0 in Hi, Hj, Hk. auto.
  - intros (Hi & Hj & Hk). exists i. split; [|apply elem_of_seqZ_range, Hi].
    apply list_elem_of_bind. exists j. split; [|apply elem_of_seqZ_range, Hj].
    apply list_elem_of_bind. exists k. split; [|apply elem_of_seqZ_range, Hk].
    apply list_elem_of_singleton. reflexivity.
Qed.

Lemma offered_has_move s i j k :
  0 ≤ k < 7 → offered s (i, j, k) = true → has_move s i j = true.
Proof.
  intros Hk. unfold offered, has_move, destination_ok.
  destruct (js_read (pile_at s i) j) as [| |c]; try discriminate.
  destruct (faceUp c); cbn [andb]; [|discriminate].
  intros H. apply andb_prop in H as [H _].
  apply orb_true_intro. right. apply existsb_exists. exists k.
  split; [apply list_elem_of_In, elem_of_seqZ_range, Hk | exact H].
Qed.

Lemma getTopWasteCard_Card s c :
  getTopWasteCard s = Card c → (0 <? length (waste s))%nat = true.
Proof.
  unfold getTopWasteCard. destruct (waste s); [discriminate | reflexivity].
Qed.

Lemma getHint_tidy (s : state) :
  tidy_board s →
  is_ok (getHint s)
  ∧ (∀ h, getHint s = Ok (Some h) → hasValidMoves s = Ok true)
  ∧ (getHint s = Ok None → hasValidMoves s = Ok true →
     ∃ i k c, 0 ≤ i < 7 ∧ 0 ≤ k < 7 ∧ k ≠ i
              ∧ js_read (pile_at s i) 0 = Card c ∧ rank c = 13
              ∧ faceUp c = true ∧ pile_at s k = []).
Proof.
  intros Hb. pose proof (proj1 Hb) as Ht.
  rewrite (hasValidMoves_tidy s Hb).
  pose proof (hint_tableau_foundation_tidy s (seqZ 0 7) Hb
                (λ i, elem_of_seqZ_0 7 i)) as H2.
  pose proof (hint_tableau_tableau_find s (seqZ 0 7) Ht
                (λ i, elem_of_seqZ_0 7 i)) as H4.
  fold (first_offered s) in H4.
  assert (H1 : hint_waste_foundation s = Ok None
               ∨ (∃ h, hint_waste_foundation s = Ok (Some h))
                 ∧ (0 <? length (waste s))%nat = true).
  { unfold hint_waste_foundation.
    destruct (getTopWasteCard s) as [| |c] eqn:Ew; try (left; reflexivity).
    apply getTopWasteCard_Card in Ew.
    rewrite (tidy_on_foundation s c Hb). cbn [rbind].
    destruct (on_foundation s c); [right; eauto | left; reflexivity]. }
  assert (H3 : hint_waste_tableau s = Ok None
               ∨ (∃ h, hint_waste_tableau s = Ok (Some h))
                 ∧ (0 <? length (waste s))%nat = true).
  { unfold hint_waste_tableau.
    destruct (getTopWasteCard s) as [| |c] eqn:Ew; try (left; reflexivity).
    apply getTopWasteCard_Card in Ew.
    assert (H : ∀ ixs, (∀ i, i ∈ ixs → 0 ≤ i < 7) →
                       is_ok (hint_waste_tableau_loop s c ixs)).
    { induction ixs as [|i rest IH]; intros Hixs; [eexists; reflexivity|].
      cbn [hint_waste_tableau_loop].
      rewrite (tidy_canPlace s c i Ht) by (apply Hixs; left). cbn [rbind].
      destruct (can_place s c i); [eexists; reflexivity|].
      apply IH. intros i' Hi'. apply Hixs. right. exact Hi'. }
    destruct (H (seqZ 0 7) (λ i, elem_of_seqZ_0 7 i)) as [[h|] E]; rewrite E;
      [right; eauto | left; reflexivity]. }
  unfold getHint, or_else.
  destruct H1 as [->|[[h1 ->] Ew]]; cbn [rbind].
  2:{ rewrite Ew, orb_true_r. split; [eexists; reflexivity|].
      split; [reflexivity | discriminate]. }
  destruct (hint_tableau_foundation s (seqZ 0 7)) as [[h2|]|]; cbn [rbind];
    [| |contradiction].
  { destruct H2 as (i & Hi & Hlen & Hm). apply elem_of_seqZ_0 in Hi.
    assert (Hj : 0 ≤ Z.of_nat (length (pile_at s i)) - 1
                 < Z.of_nat (length (pile_at s i))) by lia.
    rewrite (has_move_some s i _ Hi Hj Hm), orb_true_r.
    split; [eexists; reflexivity|]. split; [reflexivity | discriminate]. }
  destruct H3 as [->|[[h3 ->] Ew]]; cbn [rbind].
  2:{ rewrite Ew, orb_true_r. split; [eexists; reflexivity|].
      split; [reflexivity | discriminate]. }
  rewrite H4. cbn [rbind].
  destruct (first_offered s) as [[[i j] k]|] eqn:Eo; cbn [mbind option_bind].
  { unfold first_offered in Eo. apply find_some in Eo as [Hin Ho].
    apply list_elem_of_In, elem_of_candidates in Hin as (Hi & Hj & Hk).
    destruct (offered_hint s (i, j, k) Ho) as [h ->].
    rewrite (has_move_some s i j Hi Hj (offered_has_move s i j k Hk Ho)),
      orb_true_r.
    split; [eexists; reflexivity|]. split; [reflexivity | discriminate]. }
  unfold first_offered in Eo.
  pose proof (find_none _ _ Eo) as Hnone. clear Eo.
  split; [unfold hint_draw; repeat destruct (_ <? _)%nat; eexists; reflexivity|].
  split.
  { unfold hint_draw. intros h.
    destruct (0 <? length (stock s))%nat; [reflexivity|].
    destruct (0 <? length (waste s))%nat; [reflexivity | discriminate]. }
  unfold hint_draw.
  destruct (0 <? length (stock s))%nat; [discriminate|].
  destruct (0 <? length (waste s))%nat; [discriminate|].
  intros _ [= Hm]. cbn [orb] in Hm.
  apply some_has_move in Hm as (i & j & Hi & Hj & Hm).
  unfold has_move in Hm.
  destruct (js_read (pile_at s i) j) as [| |c] eqn:Ej; try discriminate.
  destruct (faceUp c) eqn:Ef; cbn [andb] in Hm; [|discriminate].
  apply orb_prop in Hm as [Hm|Hm].
  - exfalso. apply andb_prop in Hm as [Hj' Ho]. apply Z.eqb_eq in Hj'.
    assert (Hl : last (pile_at s i) = Some (Card c)).
    { destruct (last (pile_at s i)) as [x|] eqn:El.
      - apply js_read_last in El. rewrite <- Hj', Ej in El. congruence.
      - apply last_None_nil in El. rewrite El in Hj. cbn in Hj. lia. }
    rewrite (H2 i c (elem_of_seqZ_range 7 i Hi) Hl Ef) in Ho. discriminate.
  - apply existsb_exists in Hm as (k & Hk & Hm).
    apply list_elem_of_In, elem_of_seqZ_0 in Hk.
    apply andb_prop in Hm as [Hne Hc].
    assert (Hoff : offered s (i, j, k) = false).
    { apply Hnone, list_elem_of_In, elem_of_candidates. auto. }
    unfold offered, destination_ok in Hoff.
    rewrite Ej, Ef, Hne, Hc in Hoff. cbn [andb] in Hoff.
    apply negb_false_iff in Hoff.
    apply andb_prop in Hoff as [Hoff Hempty].
    apply andb_prop in Hoff as [Hking Hj0].
    apply Z.eqb_eq in Hking, Hj0. subst j.
    apply Nat.eqb_eq, length_zero_iff_nil in Hempty.
    exists i, k, c. apply negb_true_iff, Z.eqb_neq in Hne. auto 10.
Qed.



(** ** No command raises during a game *)

Lemma findIndex_from_ok cid (l : pile) (i : Z) :
  forallb is_card l = true → is_ok (findIndex_from cid l i).
Proof.
  revert i. induction l as [|x l IH]; intros i H; [eexists; reflexivity|].
  cbn [forallb] in H. apply andb_prop in H as [Hx Hl].
  destruct x as [| |c]; try discriminate. cbn [findIndex_from].
  destruct (String.eqb (id c) cid); [eexists; reflexivity | apply IH, Hl].
Qed.

Lemma find_in_piles_ok tag (piles : list pile) cid ixs :
  forallb (forallb is_card) piles = true →
  (∀ i, i ∈ ixs → 0 ≤ i < Z.of_nat (length piles)) →
  is_ok (find_in_piles tag piles cid ixs).
Proof.
  intros Hall. induction ixs as [|i rest IH]; intros Hixs; [eexists; reflexivity|].
  cbn [find_in_piles].
  destruct (proj2 (js_get_is_Some piles i)) as [p Hp]; [apply Hixs; left|].
  rewrite Hp.
  assert (Hcards : forallb is_card p = true).
  { unfold js_get in Hp. destruct (i <? 0); [discriminate|].
    rewrite forallb_forall in Hall. apply Hall, list_elem_of_In.
    eapply list_elem_of_lookup_2, Hp. }
  destruct (findIndex_from_ok cid p 0 Hcards) as [k Hk].
  unfold findIndex. rewrite Hk. cbn [rbind].
  destruct (negb _); [eexists; reflexivity|].
  apply IH. intros i' Hi'. apply Hixs. right. exact Hi'.
Qed.

Lemma findCard_ok s cid : tidy_board s → is_ok (findCard s cid).
Proof.
  intros ([Htl Ht] & Hfl & Hf & Hw & _). unfold findCard, findIndex.
  destruct (findIndex_from_ok cid (waste s) 0 Hw) as [k ->]. cbn [rbind].
  destruct (negb _); [eexists; reflexivity|].
  destruct (find_in_piles_ok "foundation" (foundations s) cid (seqZ 0 4) Hf)
    as [[l|] ->]; cbn [rbind].
  - intros i Hi. apply elem_of_seqZ_0 in Hi. lia.
  - eexists; reflexivity.
  - apply find_in_piles_ok; [exact Ht|].
    intros i Hi. apply elem_of_seqZ_0 in Hi. lia.
Qed.

Lemma flip_down_ok (l : pile) : forallb is_card l = true → (flip_down l).2 = true.
Proof.
  induction l as [|x l IH]; intros H; [reflexivity|].
  cbn [forallb] in H. apply andb_prop in H as [Hx Hl].
  destruct x as [| |c]; try discriminate. cbn [flip_down].
  specialize (IH Hl). destruct (flip_down l). exact IH.
Qed.

Lemma forallb_reverse {A} (f : A → bool) (l : list A) :
  forallb f (reverse l) = forallb f l.
Proof.
  apply eq_true_iff_eq. rewrite !forallb_forall.
  setoid_rewrite <- list_elem_of_In. setoid_rewrite elem_of_reverse.
  reflexivity.
Qed.

Lemma forallb_removelast {A} (f : A → bool) (l : list A) :
  forallb f l = true → forallb f (removelast l) = true.
Proof.
  induction l as [|x l IH]; [reflexivity|]. cbn [forallb]. intros H.
  apply andb_prop in H as [Hx Hl]. destruct l as [|y l]; [reflexivity|].
  cbn [removelast forallb] in *. rewrite Hx. exact (IH Hl).
Qed.

Lemma draw_loop_returns n s :
  (n ≤ length (stock s))%nat → forallb is_card (stock s) = true →
  returns (draw_loop n s).
Proof.
  revert s. induction n as [|n IH]; intros s Hn Hall; [eexists _, _; reflexivity|].
  cbn [draw_loop]. unfold js_pop.
  destruct (last (stock s)) as [x|] eqn:El.
  - destruct (forallb_is_card _ x Hall (last_elem_of _ _ El)) as [c ->].
    cbn [default]. apply IH; cbn [stock set_waste set_stock].
    + rewrite (last_removelast _ _ El), length_app in Hn. cbn in Hn. lia.
    + apply forallb_removelast, Hall.
  - apply last_None_nil in El. rewrite El in Hn. cbn in Hn. lia.
Qed.

Lemma drawFromStock_returns cfg s : tidy_board s → returns (drawFromStock cfg s).
Proof.
  intros (_ & _ & _ & Hw & Hst). unfold drawFromStock.
  destruct (length (stock s) =? 0)%nat.
  - destruct (length (waste s) =? 0)%nat; [eexists _, _; reflexivity|].
    change (waste (saveState s)) with (waste s).
    pose proof (flip_down_ok (reverse (waste s))) as Hok.
    rewrite forallb_reverse in Hok. specialize (Hok Hw).
    destruct (flip_down (reverse (waste s))) as [w ok]. cbn [snd] in Hok.
    rewrite Hok. eexists _, _; reflexivity.
  - cbv zeta. rewrite bind_unfold.
    destruct (draw_loop_returns
                (Z.to_nat (Z.min (drawCount cfg)
                             (Z.of_nat (length (stock (saveState s))))))
                (saveState s)) as (u & s1 & ->).
    + change (stock (saveState s)) with (stock s). lia.
    + exact Hst.
    + rewrite bind_unfold. cbn [modify ret]. eexists _, _; reflexivity.
Qed.

Lemma moveCards_returns cfg l1 l2 s :
  names_pile s l1 → names_pile s l2 → leaves_card_on_top s l1 →
  ∃ s', moveCards cfg l1 l2 s = Returns true s'.
Proof.
  intros Hfrom Hto Htop. unfold moveCards, bind, modify.
  destruct (remove_from_source_returns l1 (saveState s))
    as (cards & b & s2 & E2 & Hh2 & Hm2 & Hlf & Hlt & Hunk);
    [exact Hfrom | exact Htop |].
  rewrite E2. cbn [fst snd].
  destruct (add_to_destination_returns cfg l2 cards b s2)
    as (s3 & E3 & _).
  { eapply names_pile_lengths; [..|exact Hto]; assumption. }
  rewrite E3. eexists. reflexivity.
Qed.

Lemma last_take_elem_of {A} (l : list A) (n : nat) (x : A) :
  last (take n l) = Some x → x ∈ l.
Proof.
  intros H. apply last_elem_of in H.
  apply list_elem_of_lookup in H as [i Hi].
  rewrite lookup_take_Some in Hi. eapply list_elem_of_lookup_2, (proj1 Hi).
Qed.

(** The place of a card found on a tidy board can be the source of a
    move. *)
Lemma found_is_source s cid l :
  tidy_board s → findCard s cid = Ok (Some l) →
  names_pile s l ∧ leaves_card_on_top s l
  ∧ is_ok (isSingleCard s l) ∧ ∃ c, card_at s l = Ok (Card c).
Proof.
  intros Hb Hf.
  destruct (findCard_card s cid l Hf) as [_ (c & Hc & _)].
  apply findCard_place in Hf as (k & c' & _ & H).
  destruct H as [[-> _]|[(i & p & Hi & -> & Hp & _)|(i & p & Hi & -> & Hp & _)]].
  - split; [split; discriminate|]. split; [intros E; discriminate|].
    split; [eexists; reflexivity | eauto].
  - split; [split; [intros _; cbn; rewrite Hp; eauto | discriminate]|].
    split; [intros E; discriminate|]. split; [eexists; reflexivity | eauto].
  - split; [split; [discriminate | intros _; cbn; rewrite Hp; eauto]|].
    split; [|split; [unfold isSingleCard; cbn; rewrite Hp; eexists; reflexivity
                    | eauto]].
    intros _ p'. cbn [pileIndex index js_index mbind option_bind].
    rewrite Hp. intros [= <-]. unfold js_splice. cbn [snd].
    destruct (last (take _ p)) as [x|] eqn:El; [|exact Logic.I].
    apply last_take_elem_of in El.
    destruct (tidy_pile s i (proj1 Hb) Hi) as [Hp' Hall].
    rewrite Hp in Hp'. injection Hp' as Hp'. rewrite <- Hp' in Hall.
    destruct (forallb_is_card _ x Hall El) as [t ->]. exact Logic.I.
Qed.

Lemma tidy_names_tableau s i :
  tidy_board s → 0 ≤ i < 7 → names_pile s (mkLoc "tableau" (Some i) None).
Proof.
  intros Hb Hi. split; [discriminate|]. intros _. cbn.
  destruct (tidy_pile s i (proj1 Hb) Hi) as [-> _]. eauto.
Qed.

Lemma tidy_names_foundation s i :
  tidy_board s → 0 ≤ i < 4 → names_pile s (mkLoc "foundation" (Some i) None).
Proof.
  intros Hb Hi. split; [|discriminate]. intros _. cbn.
  destruct (tidy_foundation s i Hb Hi) as (f & -> & _). eauto.
Qed.

Lemma auto_tableau_returns cfg l c ixs s :
  tidy_board s → names_pile s l → leaves_card_on_top s l →
  (∀ i, i ∈ ixs → 0 ≤ i < 7) →
  returns (auto_tableau cfg l c ixs s).
Proof.
  intros Hb Hn Htop. induction ixs as [|i rest IH]; intros Hixs;
    [eexists _, _; reflexivity|].
  assert (Hi : 0 ≤ i < 7) by (apply Hixs; left).
  assert (IH' := IH (λ i' H, Hixs i' (list_elem_of_further _ _ _ H))).
  cbn [auto_tableau]. destruct (_ && _); [exact IH'|].
  rewrite bind_lift, (tidy_canPlace s c i (proj1 Hb) Hi).
  destruct (can_place s c i); [|exact IH'].
  rewrite bind_unfold.
  destruct (moveCards_returns cfg l (mkLoc "tableau" (Some i) None) s Hn
              (tidy_names_tableau s i Hb Hi) Htop) as [s' ->].
  eexists _, _; reflexivity.
Qed.

Lemma tryAutoMove_returns cfg cid s :
  tidy_board s → returns (tryAutoMove cfg cid s).
Proof.
  intros Hb. unfold tryAutoMove. rewrite bind_lift.
  destruct (findCard_ok s cid Hb) as [[l|] Ef]; rewrite Ef;
    [|eexists _, _; reflexivity].
  destruct (found_is_source s cid l Hb Ef) as (Hn & Htop & [single Es] & c & Ec).
  rewrite bind_lift, Ec.
  destruct (_ && _); [eexists _, _; reflexivity|].
  rewrite bind_unfold.
  assert (Htab : returns (auto_tableau cfg l c (seqZ 0 7) s)).
  { apply auto_tableau_returns; try assumption. intros i. apply elem_of_seqZ_0. }
  destruct (negb _); [|exact Htab].
  unfold auto_foundation. rewrite bind_lift, Es.
  destruct single; [|exact Htab].
  rewrite bind_lift, (tidy_on_foundation s c Hb).
  destruct (on_foundation s c); [|exact Htab].
  rewrite bind_unfold.
  destruct (moveCards_returns cfg l
              (mkLoc "foundation" (Some (getFoundationIndex (c_suit c))) None) s Hn
              (tidy_names_foundation s _ Hb (proj1 (getFoundationIndex_range _)))
              Htop) as [s' ->].
  eexists _, _; reflexivity.
Qed.

(** X25. Every state of a game is tidy: whatever sequence of
    [drawFromStock], [moveCards] (from a place that has cards to an
    existing pile), [tryAutoMove] and [undo] follows [newGame], the board
    has four foundations and seven tableau piles and every element of every
    pile is a card object, never [undefined] or [null]. *)
Theorem reachable_states_are_tidy (s : state) : reachable s → tidy_board s.
Proof. apply reachable_tidy. Qed.

Lemma reachable_states_are_tidy_witness : tidy_board after_ace.
Proof.
  apply reachable_states_are_tidy.
  apply reach_tryAutoMove, reach_drawFromStock, reach_newGame.
  apply list_elem_of_here.
Defined.

(** X26. On a tidy board nothing raises: [findCard] answers for every
    id, [canPlaceOnFoundation] and [canPlaceOnTableau] for every card and
    every pile index in range, [getHint] and [hasValidMoves] answer, and
    [drawFromStock] and [tryAutoMove] return, under any settings and for
    any id. *)
Theorem no_TypeError_on_tidy_board (s : state) :
  tidy_board s →
  (∀ cid, is_ok (findCard s cid))
  ∧ (∀ c i, 0 ≤ i < 4 → is_ok (canPlaceOnFoundation s c i))
  ∧ (∀ c i, 0 ≤ i < 7 → is_ok (canPlaceOnTableau s c i))
  ∧ is_ok (getHint s) ∧ is_ok (hasValidMoves s)
  ∧ (∀ cfg, returns (drawFromStock cfg s))
  ∧ (∀ cfg cid, returns (tryAutoMove cfg cid s)).
Proof.
  intros Hb. split; [intros cid; apply findCard_ok, Hb|].
  split; [intros c i Hi; apply tidy_canPlaceOnFoundation; assumption|].
  split; [intros c i Hi; rewrite (tidy_canPlace s c i (proj1 Hb) Hi);
          eexists; reflexivity|].
  split; [apply (getHint_tidy s Hb)|].
  split; [rewrite (hasValidMoves_tidy s Hb); eexists; reflexivity|].
  split; [intros cfg; apply drawFromStock_returns, Hb|].
  intros cfg cid. apply tryAutoMove_returns, Hb.
Qed.

Lemma no_TypeError_on_tidy_board_witness :
  is_ok (findCard eight_under_seven "spades-7")
  ∧ is_ok (getHint eight_under_seven)
  ∧ returns (tryAutoMove standard_draw1 "spades-7" eight_under_seven).
Proof.
  destruct (no_TypeError_on_tidy_board eight_under_seven)
    as (H1 & _ & _ & H4 & _ & _ & H7).
  - vm_compute. repeat split; reflexivity.
  - split; [apply H1|]. split; [exact H4 | apply H7].
Defined.

(** ** The layout of a game played with the pointer *)

Lemma built_down_app (l1 l2 : list card) :
  built_down (l1 ++ l2)
  ↔ built_down l1 ∧ built_down l2
    ∧ ∀ a b, last l1 = Some a → head l2 = Some b → fits_on a b.
Proof.
  induction l1 as [|x l1 IH].
  - cbn [app last built_down]. split.
    + intros H. split; [exact Logic.I|]. split; [exact H|]. discriminate.
    + intros (_ & H & _). exact H.
  - destruct l1 as [|y l1].
    + cbn [app last]. destruct l2 as [|b l2]; cbn [built_down head].
      * split; [intros _|auto]. split; [exact Logic.I|]. split; [exact Logic.I|].
        discriminate.
      * split.
        -- intros [Hf Hb]. split; [exact Logic.I|]. split; [exact Hb|].
           intros a b' [= <-] [= <-]. exact Hf.
        -- intros (_ & Hb & Hf). split; [apply Hf; reflexivity | exact Hb].
    + change (built_down ((x :: y :: l1) ++ l2))
        with (fits_on x y ∧ built_down ((y :: l1) ++ l2)).
      change (built_down (x :: y :: l1)) with (fits_on x y ∧ built_down (y :: l1)).
      change (last (x :: y :: l1)) with (last (y :: l1)).
      rewrite IH. tauto.
Qed.

Lemma built_down_rank (l : list card) (a b : card) :
  built_down (a :: l) → last (a :: l) = Some b → rank b ≤ rank a.
Proof.
  revert a. induction l as [|c l IH]; intros a Hb Hl.
  - injection Hl as <-. lia.
  - destruct Hb as [[_ Hr] Hb]. change (last (a :: c :: l)) with (last (c :: l)) in Hl.
    specialize (IH c Hb Hl). lia.
Qed.

Lemma shows_card (b : bool) (p : pile) :
  Forall (shows b) p → ∃ cs, p = Card <$> cs ∧ Forall (λ c, faceUp c = b) cs.
Proof.
  induction 1 as [|x p Hx _ (cs & -> & Hcs)]; [exists []; split; constructor|].
  destruct x as [| |c]; try contradiction.
  exists (c :: cs). split; [reflexivity | constructor; assumption].
Qed.

Lemma card_shows (b : bool) (cs : list card) :
  Forall (λ c, faceUp c = b) cs → Forall (shows b) (Card <$> cs).
Proof. intros H. apply Forall_fmap. exact H. Qed.

Lemma json_pile_cards (cs : list card) : json_pile (Card <$> cs) = Card <$> cs.
Proof.
  unfold json_pile. rewrite <- list_fmap_compose. reflexivity.
Qed.

Lemma json_pile_shows (b : bool) (p : pile) : Forall (shows b) p → json_pile p = p.
Proof. intros H. apply shows_card in H as (cs & -> & _). apply json_pile_cards. Qed.

Lemma json_pile_foundation (su : suit) (f : pile) :
  foundation_ok su f → json_pile f = f.
Proof. intros [H _]. exact (json_pile_shows true f H). Qed.

Lemma json_pile_tableau (p : pile) : tableau_pile_ok p → json_pile p = p.
Proof. intros (down & up & -> & _). apply json_pile_cards. Qed.

Lemma layout_snapshot (s : state) :
  layout (stock s) (waste s) (foundations s) (tableau s) →
  snapshot_of s
  = mkSnapshot (stock s) (waste s) (foundations s) (tableau s) (moves s) (score s).
Proof.
  intros (Hst & Hw & Hf & _ & Ht). unfold snapshot_of.
  rewrite (json_pile_shows _ _ Hst), (json_pile_shows _ _ Hw).
  f_equal.
  - clear -Hf. induction Hf as [|su f sus fs H _ IH]; [reflexivity|].
    cbn [fmap list_fmap]. f_equal; [apply (json_pile_foundation su f H) | exact IH].
  - clear -Ht. induction Ht as [|p ts H _ IH]; [reflexivity|].
    cbn [fmap list_fmap]. f_equal; [apply json_pile_tableau, H | exact IH].
Qed.

Lemma saveState_klondike (s : state) : klondike s → klondike (saveState s).
Proof.
  intros [Hl Hh]. split; [exact Hl|].
  unfold saveState. cbn [history set_history].
  assert (H : Forall (λ x, layout (snap_stock x) (snap_waste x)
                             (snap_foundations x) (snap_tableau x))
                (history s ++ [snapshot_of s])).
  { apply Forall_app. split; [exact Hh|]. constructor; [|constructor].
    rewrite (layout_snapshot s Hl). exact Hl. }
  destruct (50 <? _)%nat; [|exact H].
  destruct (history s ++ [snapshot_of s]) as [|x h]; [exact H|].
  cbn [tail]. apply Forall_cons in H as [_ H]. exact H.
Qed.

Lemma undo_klondike (s : state) : klondike s → klondike (final (undo s)).
Proof.
  intros [Hl Hh]. unfold undo.
  destruct (last (history s)) as [x|] eqn:E; cbn [final]; [|split; assumption].
  apply last_Some in E as [h E]. rewrite E in Hh |- *.
  apply Forall_app in Hh as [Hh Hx]. apply Forall_cons in Hx as [Hx _].
  split; cbn [stock waste foundations tableau history]; [exact Hx|].
  rewrite removelast_last. exact Hh.
Qed.

Lemma draw_loop_klondike (n : nat) : preserves klondike (draw_loop n).
Proof.
  induction n as [|n IH]; intros s Hs; [exact Hs|].
  cbn [draw_loop]. unfold js_pop.
  destruct Hs as [(Hst & Hw & Hf & Ht) Hh].
  destruct (last (stock s)) as [x|] eqn:E; cbn [default].
  - apply last_Some in E as [rest E]. rewrite E in Hst |- *.
    apply Forall_app in Hst as [Hrest Hx]. apply Forall_cons in Hx as [Hx _].
    destruct x as [| |c]; try contradiction.
    rewrite removelast_last. apply IH. split; [|exact Hh].
    cbn [stock waste foundations tableau set_waste set_stock].
    split; [exact Hrest|]. split; [|split; assumption].
    apply Forall_app. split; [exact Hw|]. constructor; [reflexivity|constructor].
  - apply last_None in E. rewrite E. cbn [removelast final].
    split; [|exact Hh]. cbn [stock waste foundations tableau set_stock].
    split; [constructor|]. split; [exact Hw|]. split; assumption.
Qed.

Lemma flip_down_shows (b : bool) (p : pile) :
  Forall (shows b) p →
  (flip_down p).2 = true ∧ Forall (shows false) (flip_down p).1.
Proof.
  induction 1 as [|x p Hx _ [IH1 IH2]]; [split; [reflexivity|constructor]|].
  destruct x as [| |c]; try contradiction. cbn [flip_down].
  destruct (flip_down p) as [r ok]. cbn [fst snd] in *.
  split; [exact IH1|]. constructor; [reflexivity | exact IH2].
Qed.

Lemma drawFromStock_klondike (cfg : settings) : preserves klondike (drawFromStock cfg).
Proof.
  intros s Hs. unfold drawFromStock.
  pose proof (saveState_klondike s Hs) as Hs1.
  destruct (length (stock s) =? 0)%nat eqn:Est.
  - destruct (length (waste s) =? 0)%nat; [exact Hs|].
    destruct Hs1 as [(Hst & Hw & Hf & Ht) Hh].
    change (waste (saveState s)) with (waste s) in *.
    destruct (flip_down_shows true (reverse (waste s))) as [Hok Hdown];
      [apply Forall_reverse, Hw|].
    destruct (flip_down (reverse (waste s))) as [w ok]. cbn [fst snd] in Hok, Hdown.
    subst ok. cbn [final].
    assert (H : klondike (set_waste [] (set_stock w (saveState s)))).
    { split; [|exact Hh].
      cbn [stock waste foundations tableau set_waste set_stock].
      split; [exact Hdown|]. split; [constructor|]. split; assumption. }
    destruct (String.eqb (scoring cfg) "vegas"); exact H.
  - rewrite !bind_unfold.
    pose proof (draw_loop_klondike
                  (Z.to_nat (Z.min (drawCount cfg)
                               (Z.of_nat (length (stock (saveState s))))))
                  (saveState s) Hs1) as H.
    destruct (draw_loop _ (saveState s)) as [u s2|s2]; cbn [final] in H |- *;
      [|exact H].
    rewrite bind_unfold. cbn [modify ret final]. exact H.
Qed.

Lemma dealt_column_ok (cs : list card) (col : nat) :
  (col * (col + 1) / 2 + col < length cs)%nat →
  tableau_pile_ok (dealt_column cs col).
Proof.
  intros Hlen. unfold dealt_column.
  set (start := (col * (col + 1) / 2)%nat) in *. clearbody start.
  exists (set_faceUp false <$> take col (drop start cs)),
         (set_faceUp true <$> take 1 (drop (start + col) cs)).
  assert (Hup : ∃ c, take 1 (drop (start + col) cs) = [c]).
  { destruct (drop (start + col) cs) as [|c r] eqn:E; [|exists c; reflexivity].
    apply (f_equal length) in E. rewrite length_drop in E.
    change (length (@nil card)) with 0%nat in E. lia. }
  destruct Hup as [c ->].
  split; [rewrite fmap_app; reflexivity|].
  split; [apply Forall_fmap, Forall_forall; intros; reflexivity|].
  split; [repeat constructor|]. split; [exact Logic.I|]. discriminate.
Qed.

Lemma newGame_klondike (sd now : Z) :
  sd ∈ WINNABLE_SEEDS → klondike (final (newGame sd now)).
Proof.
  intros Hsd.
  assert (H0 : 0 ≤ sd).
  { pose proof winnable_seeds_nonnegative as H.
    rewrite Forall_forall in H. apply H, Hsd. }
  destruct (newGame_dealt sd now H0)
    as (cs & s & _ & Hp & -> & Ht & Hst & _ & Hdown & Hw & Hf & Hh & _).
  assert (Hlen : length cs = 52%nat) by (rewrite Hp; reflexivity).
  cbn [final]. split; [|rewrite Hh; constructor].
  rewrite Hw, Hf, Ht.
  split.
  { eapply Forall_impl; [exact Hdown|]. intros x (c & -> & Hc). exact Hc. }
  split; [constructor|].
  split.
  { repeat constructor. }
  split; [reflexivity|].
  apply Forall_fmap, Forall_forall. intros col Hcol.
  apply dealt_column_ok. rewrite Hlen.
  apply elem_of_seq in Hcol.
  do 7 (destruct col as [|col]; [apply Nat.ltb_lt; reflexivity|]). lia.
Qed.

(** *** Moves that were validated *)

Lemma canPlaceOnTableau_true (s : state) (c : card) (k : Z) :
  canPlaceOnTableau s c k = Ok true →
  ∃ p, js_get (tableau s) k = Some p
       ∧ ((p = [] ∧ rank c = 13)
          ∨ ∃ t, last p = Some (Card t) ∧ faceUp t = true ∧ fits_on t c).
Proof.
  unfold canPlaceOnTableau.
  destruct (js_get (tableau s) k) as [p|]; [|discriminate].
  intros H. exists p. split; [reflexivity|].
  destruct p as [|x p].
  - left. cbn in H. injection H as H. split; [reflexivity | lia].
  - right. change (length (x :: p) =? 0)%nat with false in H. cbv iota in H.
    destruct (last (x :: p)) as [[| |t]|]; try discriminate.
    injection H as H. apply andb_prop in H as [H Hr].
    apply andb_prop in H as [Hf Ho].
    exists t. split; [reflexivity|]. split; [exact Hf|].
    split; [exact Ho | lia].
Qed.

Lemma canPlaceOnFoundation_true (s : state) (c : card) (k : Z) :
  canPlaceOnFoundation s c k = Ok true →
  ∃ f, js_get (foundations s) k = Some f ∧ js_get SUITS k = Some (c_suit c)
       ∧ ((f = [] ∧ rank c = 1)
          ∨ ∃ t, last f = Some (Card t) ∧ rank c = rank t + 1).
Proof.
  unfold canPlaceOnFoundation. cbv zeta.
  destruct (bool_decide_reflect (Some (c_suit c) = js_get SUITS k)) as [E|E];
    cbn [negb]; [|discriminate].
  destruct (js_get (foundations s) k) as [f|]; [|discriminate].
  intros H. exists f. split; [reflexivity|]. split; [symmetry; exact E|].
  destruct f as [|x f].
  - left. cbn in H. injection H as H. split; [reflexivity | lia].
  - right. change (length (x :: f) =? 0)%nat with false in H. cbv iota in H.
    destruct (last (x :: f)) as [[| |t]|]; try discriminate.
    injection H as H. exists t. split; [reflexivity | lia].
Qed.

(** A card is never accepted by the pile it lies on. *)
Lemma not_on_own_foundation (s : state) (i : Z) (f : pile) (c : card) :
  js_get (foundations s) i = Some (f ++ [Card c]) →
  canPlaceOnFoundation s c i ≠ Ok true.
Proof.
  intros Hf H. apply canPlaceOnFoundation_true in H as (f' & Hf' & _ & H).
  rewrite Hf in Hf'. injection Hf' as <-.
  destruct H as [[H _]|(t & Ht & Hr)].
  - destruct f; discriminate H.
  - rewrite last_snoc in Ht. injection Ht as <-. lia.
Qed.

Lemma not_on_own_tableau (s : state) (i : Z) (rest : pile) (c : card)
    (hc : list card) :
  js_get (tableau s) i = Some (rest ++ (Card <$> c :: hc)) →
  built_down (c :: hc) →
  canPlaceOnTableau s c i ≠ Ok true.
Proof.
  intros Hp Hb H. apply canPlaceOnTableau_true in H as (p & Hp' & H).
  rewrite Hp in Hp'. injection Hp' as <-.
  destruct H as [[H _]|(t & Ht & _ & _ & Hr)].
  - destruct rest; discriminate H.
  - change (last (rest ++ (Card <$> c :: hc)) = Some (Card t)) in Ht.
    rewrite last_app, fmap_last in Ht.
    destruct (last (c :: hc)) as [t'|] eqn:E; cbn in Ht.
    + injection Ht as <-. pose proof (built_down_rank hc c t' Hb E). lia.
    + apply last_None in E. discriminate E.
Qed.

(** The cards picked up from a tableau pile, and what is left of it. *)
Lemma picked_run (rest above : pile) (c : card) :
  tableau_pile_ok (rest ++ Card c :: above) → faceUp c = true →
  ∃ down k hc,
    rest = Card <$> (down ++ k) ∧ above = Card <$> hc
    ∧ Forall (λ c, faceUp c = false) down
    ∧ Forall (λ c, faceUp c = true) (k ++ c :: hc)
    ∧ built_down (k ++ c :: hc).
Proof.
  intros (down & up & E & Hdown & Hup & Hb & _) Hc.
  symmetry in E. apply fmap_app_inv in E as (l1 & l2 & -> & E2 & E).
  symmetry in E2. apply fmap_cons_inv in E2 as (c' & hc & [= <-] & -> & ->).
  apply app_eq_inv in E as [(k & -> & E)|(k & -> & ->)].
  - destruct k as [|c' k].
    + cbn [app] in E. subst up. exists l1, [], hc. rewrite !app_nil_r in *.
      cbn [app]. auto 10.
    + injection E as <- E. apply Forall_app in Hdown as [_ Hd].
      apply Forall_cons in Hd as [Hd _]. congruence.
  - exists down, k, hc. auto 10.
Qed.

Lemma top_up_ok (down k : list card) :
  Forall (λ c, faceUp c = false) down → Forall (λ c, faceUp c = true) k →
  built_down k →
  card_on_top (Card <$> (down ++ k))
  ∧ tableau_pile_ok (top_up (Card <$> (down ++ k))).
Proof.
  intros Hd Hk Hb. unfold card_on_top, top_up. rewrite fmap_last.
  destruct (last (down ++ k)) as [t|] eqn:E; cbn [fmap option_fmap option_map].
  2:{ split; [exact Logic.I|]. apply last_None in E.
      apply app_eq_nil in E as [-> ->]. exists [], [].
      split; [reflexivity|]. split; [constructor|]. split; [constructor|].
      split; [exact Logic.I|]. intros H. contradiction H. reflexivity. }
  split; [exact Logic.I|].
  rewrite last_app in E. destruct (last k) as [t'|] eqn:Ek.
  - injection E as <-.
    assert (Ht : faceUp t' = true).
    { apply last_Some in Ek as [k' ->]. apply Forall_app in Hk as [_ H].
      apply Forall_cons in H as [H _]. exact H. }
    rewrite Ht. exists down, k. split; [reflexivity|].
    split; [exact Hd|]. split; [exact Hk|]. split; [exact Hb|].
    intros _ ->. discriminate Ek.
  - apply last_None in Ek. subst k. rewrite app_nil_r in *.
    apply last_Some in E as [d' ->]. apply Forall_app in Hd as [Hd' Ht].
    apply Forall_cons in Ht as [Ht _]. rewrite Ht. cbn [negb].
    rewrite fmap_snoc, removelast_last.
    exists d', [set_faceUp true t].
    split; [rewrite fmap_snoc; reflexivity|].
    split; [exact Hd'|]. split; [repeat constructor|].
    split; [exact Logic.I|]. discriminate.
Qed.

Lemma foundation_ok_pop (su : suit) (f : pile) (x : slot) :
  foundation_ok su (f ++ [x]) → foundation_ok su f.
Proof.
  intros [Hs Hk]. apply Forall_app in Hs as [Hs _]. split; [exact Hs|].
  rewrite length_app, Nat.add_1_r, seqZ_S, !fmap_app in Hk.
  apply app_inj_1 in Hk as [Hk _]; [exact Hk|].
  rewrite !length_fmap, length_seqZ. lia.
Qed.

Lemma foundation_ok_push (su : suit) (f : pile) (c : card) :
  foundation_ok su f → c_suit c = su → faceUp c = true →
  (f = [] ∧ rank c = 1) ∨ (∃ t, last f = Some (Card t) ∧ rank c = rank t + 1) →
  foundation_ok su (f ++ [Card c]).
Proof.
  intros [Hs Hk] Hsu Hc H. split.
  { apply Forall_app. split; [exact Hs|]. constructor; [exact Hc | constructor]. }
  rewrite length_app, Nat.add_1_r, seqZ_S, !fmap_app, Hk. f_equal.
  cbn [fmap list_fmap slot_key]. rewrite Hsu. do 3 f_equal.
  destruct H as [[-> Hr]|(t & Ht & Hr)]; [cbn; lia|].
  apply last_Some in Ht as [f' ->].
  rewrite length_app, Nat.add_1_r, seqZ_S, !fmap_app in Hk.
  apply app_inj_2 in Hk as [_ Hk]; [|reflexivity].
  cbn [fmap list_fmap slot_key] in Hk. injection Hk as _ Hk.
  rewrite length_app, Nat.add_1_r. lia.
Qed.

Lemma tableau_pile_push (pk : pile) (c : card) (hc : list card) :
  tableau_pile_ok pk →
  Forall (λ c, faceUp c = true) (c :: hc) → built_down (c :: hc) →
  (pk = [] ∧ rank c = 13)
  ∨ (∃ t, last pk = Some (Card t) ∧ faceUp t = true ∧ fits_on t c) →
  tableau_pile_ok (pk ++ (Card <$> c :: hc)).
Proof.
  intros (down & up & -> & Hd & Hu & Hb & Hne) Hf Hbh H.
  exists down, (up ++ c :: hc).
  split; [rewrite <- fmap_app, app_assoc; reflexivity|].
  split; [exact Hd|]. split; [apply Forall_app; split; assumption|].
  split.
  - apply built_down_app. split; [exact Hb|]. split; [exact Hbh|].
    intros a b Ha [= <-].
    destruct H as [[E _]|(t & Ht & Hft & Hfit)].
    + apply fmap_nil_inv in E. apply app_eq_nil in E as [_ ->]. discriminate Ha.
    + rewrite fmap_last, last_app, Ha in Ht. cbn in Ht. injection Ht as <-.
      exact Hfit.
  - intros _ E. apply app_eq_nil in E as [_ E]. discriminate E.
Qed.

Lemma js_get_lookup {A} (l : list A) (i : Z) (x : A) :
  js_get l i = Some x → l !! Z.to_nat i = Some x.
Proof. unfold js_get. destruct (i <? 0); [discriminate | auto]. Qed.

(** Taking the picked cards off their pile. *)
Lemma remove_picked (s : state) (l : loc) (c : card) (hand : pile) :
  layout (stock s) (waste s) (foundations s) (tableau s) →
  can_pick s l c hand →
  ∃ b s1 hc,
    remove_from_source l s = Returns (hand, b) s1
    ∧ hand = Card <$> c :: hc
    ∧ Forall (λ c, faceUp c = true) (c :: hc) ∧ built_down (c :: hc)
    ∧ layout (stock s1) (waste s1) (foundations s1) (tableau s1)
    ∧ history s1 = history s
    ∧ (∀ k, canPlaceOnFoundation s c k = Ok true →
            js_get (foundations s1) k = js_get (foundations s) k)
    ∧ (∀ k, canPlaceOnTableau s c k = Ok true →
            js_get (tableau s1) k = js_get (tableau s) k).
Proof.
  intros (Hst & Hw & Hf & Htl & Ht) [(w & -> & Ew & ->)|[H|H]].
  - rewrite Ew in Hw. apply Forall_app in Hw as [Hw Hc].
    apply Forall_cons in Hc as [Hc _].
    exists false, (set_waste w s), [].
    split.
    { unfold remove_from_source. cbn [location].
      change (String.eqb "waste" "waste") with true. cbv iota.
      unfold js_pop. rewrite Ew, last_snoc, removelast_last. reflexivity. }
    split; [reflexivity|]. split; [repeat constructor; exact Hc|].
    split; [exact Logic.I|]. split; [|auto].
    cbn [stock waste foundations tableau set_waste]. repeat split; assumption.
  - destruct H as (i & f & -> & Ef & ->).
    pose proof (js_get_nonneg _ _ _ Ef) as Hi.
    pose proof (js_get_lookup _ _ _ Ef) as Ef'.
    destruct (Forall2_lookup_r _ _ _ _ _ Hf Ef') as (su & Hsu & Hok).
    assert (Hc : faceUp c = true).
    { destruct Hok as [Hok _]. apply Forall_app in Hok as [_ Hok].
      apply Forall_cons in Hok as [Hok _]. exact Hok. }
    exists false, (set_foundations (<[Z.to_nat i := f]> (foundations s)) s), [].
    split.
    { unfold remove_from_source. cbn [location pileIndex].
      change (String.eqb "foundation" "waste") with false.
      change (String.eqb "foundation" "foundation") with true. cbv iota.
      cbn [js_index mbind option_bind]. rewrite Ef.
      unfold js_pop. rewrite last_snoc, removelast_last. reflexivity. }
    split; [reflexivity|]. split; [repeat constructor; exact Hc|].
    split; [exact Logic.I|]. split; [|split; [reflexivity|split]].
    + cbn [stock waste foundations tableau set_foundations].
      split; [exact Hst|]. split; [exact Hw|]. split; [|split; assumption].
      rewrite <- (list_insert_id SUITS (Z.to_nat i) su Hsu).
      apply Forall2_insert; [exact Hf|]. eapply foundation_ok_pop, Hok.
    + intros k Hk. cbn [foundations set_foundations].
      apply js_get_insert_ne; [exact Hi|]. intros ->.
      exact (not_on_own_foundation s i f c Ef Hk).
    + intros k _. reflexivity.
  - destruct H as (i & rest & above & -> & Ep & -> & Hc).
    pose proof (js_get_nonneg _ _ _ Ep) as Hi.
    pose proof (js_get_lookup _ _ _ Ep) as Ep'.
    pose proof (Forall_lookup_1 _ _ _ _ Ht Ep') as Hok.
    destruct (picked_run rest above c Hok Hc)
      as (down & k & hc & -> & -> & Hdown & Hup & Hb).
    apply Forall_app in Hup as [Hk Hup].
    apply built_down_app in Hb as (Hbk & Hbh & _).
    destruct (top_up_ok down k Hdown Hk Hbk) as [Htop Hrest].
    eexists _, _, hc.
    split; [exact (remove_tableau_run s i _ _ Ep Htop)|].
    split; [reflexivity|]. split; [exact Hup|]. split; [exact Hbh|].
    split; [|split; [reflexivity|split]].
    + cbn [stock waste foundations tableau set_tableau].
      split; [exact Hst|]. split; [exact Hw|]. split; [exact Hf|].
      split; [rewrite length_insert; exact Htl|].
      apply Forall_insert; assumption.
    + intros k' _. reflexivity.
    + intros k' Hk'. cbn [tableau set_tableau].
      apply js_get_insert_ne; [exact Hi|]. intros ->.
      exact (not_on_own_tableau s i _ c hc Ep Hbh Hk').
Qed.

(** A move of picked cards to a pile that accepted them returns, and
    leaves the board laid out by the rules. *)
Lemma validated_move (cfg : settings) (s : state) (l d : loc) (c : card)
    (hand : pile) :
  klondike s → can_pick s l c hand → accepted s c hand d →
  ∃ s', moveCards cfg l d s = Returns true s' ∧ klondike s'.
Proof.
  intros Hs Hpick Hacc.
  apply saveState_klondike in Hs. destruct Hs as [Hl Hh].
  unfold moveCards. rewrite bind_unfold. cbn [modify]. rewrite bind_unfold.
  destruct (remove_picked (saveState s) l c hand Hl Hpick)
    as (b & s1 & hc & -> & -> & Hfaces & Hb & Hl1 & Hh1 & Hff & Hft).
  rewrite bind_unfold. cbn [fst snd].
  destruct Hl1 as (Hst & Hw & Hf & Htl & Ht).
  destruct Hacc as [(k & -> & Hone & Hk)|(k & -> & Hk)].
  - destruct hc as [|? ?]; [|discriminate Hone].
    specialize (Hff k Hk).
    apply canPlaceOnFoundation_true in Hk as (f & Ef & Esu & Hrank).
    change (js_get (foundations (saveState s)) k) with (js_get (foundations s) k)
      in Hff.
    rewrite Ef in Hff.
    rewrite (add_foundation cfg s1 k f _ b Hff).
    rewrite bind_unfold. cbn [modify ret].
    eexists. split; [reflexivity|].
    split; [|rewrite <- Hh1 in Hh; exact Hh].
    cbn [stock waste foundations tableau set_moves set_score set_foundations].
    split; [exact Hst|]. split; [exact Hw|]. split; [|split; assumption].
    pose proof (js_get_lookup _ _ _ Esu) as Hsu.
    rewrite <- (list_insert_id SUITS (Z.to_nat k) _ Hsu).
    apply Forall2_insert; [exact Hf|].
    apply Forall_cons in Hfaces as [Hc _].
    apply foundation_ok_push; [|reflexivity|exact Hc|exact Hrank].
    exact (Forall2_lookup_lr _ _ _ _ _ _ Hf Hsu (js_get_lookup _ _ _ Hff)).
  - specialize (Hft k Hk).
    apply canPlaceOnTableau_true in Hk as (pk & Ep & Hfit).
    change (js_get (tableau (saveState s)) k) with (js_get (tableau s) k) in Hft.
    rewrite Ep in Hft.
    rewrite (add_tableau cfg s1 k pk _ b Hft).
    rewrite bind_unfold. cbn [modify ret].
    eexists. split; [reflexivity|].
    assert (Hnew : Forall tableau_pile_ok
                     (<[Z.to_nat k := pk ++ (Card <$> c :: hc)]> (tableau s1))).
    { apply Forall_insert; [exact Ht|].
      apply tableau_pile_push; try assumption.
      exact (Forall_lookup_1 _ _ _ _ Ht (js_get_lookup _ _ _ Hft)). }
    split.
    + destruct (b && _);
        cbn [stock waste foundations tableau set_moves set_score set_tableau];
        (split; [exact Hst|]; split; [exact Hw|]; split; [exact Hf|];
         split; [rewrite length_insert; exact Htl | exact Hnew]).
    + destruct (b && _); cbn [history set_moves set_score set_tableau];
        rewrite Hh1; exact Hh.
Qed.

(** *** Presses on cards *)

Lemma js_get_middle {A} (l1 l2 : list A) (x : A) :
  js_get (l1 ++ x :: l2) (Z.of_nat (length l1)) = Some x.
Proof.
  unfold js_get. destruct (Z.ltb_spec (Z.of_nat (length l1)) 0); [lia|].
  rewrite Nat2Z.id. apply list_lookup_middle. reflexivity.
Qed.

Lemma js_get_split {A} (p : list A) (k : Z) (x : A) :
  js_get p k = Some x →
  ∃ rest above, p = rest ++ x :: above ∧ k = Z.of_nat (length rest)
                ∧ drop (Z.to_nat k) p = x :: above.
Proof.
  intros H. pose proof (js_get_nonneg _ _ _ H) as Hk.
  apply js_get_lookup in H.
  exists (take (Z.to_nat k) p), (drop (S (Z.to_nat k)) p).
  pose proof (lookup_lt_Some _ _ _ H) as Hlt.
  split; [symmetry; apply take_drop_middle, H|].
  split; [rewrite length_take; lia|].
  apply drop_S, H.
Qed.

Lemma js_get_top {A} (p : list A) (k : Z) (x : A) :
  js_get p k = Some x → k = Z.of_nat (length p) - 1 →
  ∃ rest, p = rest ++ [x] ∧ k = Z.of_nat (length rest).
Proof.
  intros H Hk. apply js_get_split in H as (rest & above & -> & E & _).
  exists rest. rewrite length_app in Hk. cbn [length] in Hk.
  destruct above; [split; [reflexivity | exact E]|cbn [length] in Hk; lia].
Qed.

Lemma pick_reads (s : state) (l : loc) (c : card) (hand : pile) :
  can_pick s l c hand →
  getCardFromLocation s l = Ok (Card c) ∧ card_at s l = Ok (Card c).
Proof.
  intros [(w & -> & Ew & _)|[(i & f & -> & Ef & _)|(i & rest & above & -> & Ep & -> & _)]];
    unfold getCardFromLocation, card_at, js_read_at;
    cbn [location pileIndex index js_index mbind option_bind].
  - change (String.eqb "waste" "waste") with true. cbv iota.
    rewrite Ew, js_get_middle. split; reflexivity.
  - change (String.eqb "foundation" "waste") with false.
    change (String.eqb "foundation" "tableau") with false.
    change (String.eqb "foundation" "foundation") with true. cbv iota.
    rewrite Ef. cbn [js_index mbind option_bind]. rewrite js_get_middle.
    split; reflexivity.
  - change (String.eqb "tableau" "waste") with false.
    change (String.eqb "tableau" "foundation") with false.
    change (String.eqb "tableau" "tableau") with true. cbv iota.
    rewrite Ep. cbn [js_index mbind option_bind]. rewrite js_get_middle.
    split; reflexivity.
Qed.

Lemma pick_face_up (s : state) (l : loc) (c : card) (hand : pile) :
  klondike s → can_pick s l c hand → faceUp c = true.
Proof.
  intros [(_ & Hw & Hf & _) _]
    [(w & _ & Ew & _)|[(i & f & _ & Ef & _)|(i & rest & above & _ & _ & _ & Hc)]].
  - rewrite Ew in Hw. apply Forall_app in Hw as [_ Hw].
    apply Forall_cons in Hw as [Hw _]. exact Hw.
  - apply js_get_lookup in Ef.
    destruct (Forall2_lookup_r _ _ _ _ _ Hf Ef) as (su & _ & [Hok _]).
    apply Forall_app in Hok as [_ Hok]. apply Forall_cons in Hok as [Hok _].
    exact Hok.
  - exact Hc.
Qed.

Lemma shows_forallb (b : bool) (p : pile) :
  Forall (shows b) p → forallb is_card p = true.
Proof.
  intros H. apply forallb_forall. intros x Hx. apply list_elem_of_In in Hx.
  rewrite Forall_forall in H. specialize (H x Hx).
  destruct x; [contradiction..|reflexivity].
Qed.

Lemma klondike_tidy (s : state) : klondike s → tidy_board s.
Proof.
  intros [(Hst & Hw & Hf & Htl & Ht) _].
  split; [split; [exact Htl|]|split; [|split; [|split]]].
  - apply forallb_forall. intros p Hp. apply list_elem_of_In in Hp.
    rewrite Forall_forall in Ht. destruct (Ht p Hp) as (down & up & -> & _).
    apply forallb_forall. intros x Hx. apply list_elem_of_In in Hx.
    apply list_elem_of_fmap in Hx as (c & -> & _). reflexivity.
  - apply Forall2_length in Hf. rewrite <- Hf. reflexivity.
  - apply forallb_forall. intros p Hp. apply list_elem_of_In in Hp.
    apply list_elem_of_lookup in Hp as [i Hp].
    destruct (Forall2_lookup_r _ _ _ _ _ Hf Hp) as (su & _ & [Hok _]).
    exact (shows_forallb true p Hok).
  - exact (shows_forallb true _ Hw).
  - exact (shows_forallb false _ Hst).
Qed.

(** What [tryAutoMove] chose is a pile that accepted the card. *)
Lemma auto_choice_accepted (s : state) (l d : loc) (c : card) (hand : pile) :
  can_pick s l c hand → auto_choice s l c d → accepted s c hand d.
Proof.
  intros Hpick (fi & _ & [(-> & Hnf & Hsingle & Hok)|(k & -> & _ & _ & _ & Hok & _)]).
  2:{ right. exists k. auto. }
  left. eexists. split; [reflexivity|]. split; [|exact Hok].
  destruct Hpick
    as [(w & _ & _ & ->)|[(i & f & _ & _ & ->)|(i & rest & above & -> & Ep & -> & _)]];
    [reflexivity..|].
  unfold isSingleCard in Hsingle. cbn [location pileIndex index] in Hsingle.
  change (String.eqb "tableau" "waste") with false in Hsingle.
  change (String.eqb "tableau" "tableau") with true in Hsingle.
  cbv iota in Hsingle. cbn [js_index mbind option_bind] in Hsingle.
  rewrite Ep in Hsingle. injection Hsingle as Hsingle.
  apply bool_decide_eq_true in Hsingle. injection Hsingle as Hsingle.
  rewrite length_app in Hsingle. cbn [length] in *. lia.
Qed.

(** On a board laid out by the rules [onPointerDown] returns without
    changing anything, and what it records is a card that can be picked
    up. *)
Lemma onPointerDown_picks (cfg : settings) (cid : string) (s : state) :
  klondike s →
  ∃ r, onPointerDown cfg cid s = Returns r s
       ∧ ∀ d, r = Some d →
              ∃ c, findCard s cid = Ok (Some (sourceLocation d))
                   ∧ can_pick s (sourceLocation d) c (draggedCardElements d).
Proof.
  intros Hs. unfold onPointerDown. rewrite bind_lift.
  destruct (findCard_ok s cid (klondike_tidy s Hs)) as [[l|] Efind];
    rewrite Efind; [|exists None; split; [reflexivity | discriminate]].
  destruct (findCard_place s cid l Efind) as (k & c & _ & H).
  rewrite bind_lift.
  destruct H as [[-> Hc]|[(i & p & _ & -> & Hp & Hc)|(i & p & _ & -> & Hp & Hc)]].
  - assert (Eg : getCardFromLocation s (mkLoc "waste" None (Some k)) = Ok (Card c)).
    { unfold getCardFromLocation, js_read_at. cbn. rewrite Hc. reflexivity. }
    rewrite Eg. cbn [location pileIndex index].
    change (String.eqb "waste" "stock") with false.
    change (String.eqb "waste" "tableau") with false.
    change (String.eqb "waste" "waste") with true. cbv iota.
    destruct (faceUp c); cbn [negb];
      [|exists None; split; [reflexivity | discriminate]].
    case_bool_decide as Ek; [|exists None; split; [reflexivity | discriminate]].
    eexists. split; [reflexivity|]. intros d [= <-]. exists c.
    cbn [sourceLocation draggedCardElements].
    split; [reflexivity|]. left. injection Ek as Ek.
    destruct (js_get_top _ _ _ Hc Ek) as (w & Ew & ->).
    exists w. split; [reflexivity|]. split; [exact Ew|].
    reflexivity.
  - assert (Eg : getCardFromLocation s (mkLoc "foundation" (Some i) (Some k))
                 = Ok (Card c)).
    { unfold getCardFromLocation, js_read_at. cbn. rewrite Hp. cbn. rewrite Hc.
      reflexivity. }
    rewrite Eg. cbn [location pileIndex index].
    change (String.eqb "foundation" "stock") with false.
    change (String.eqb "foundation" "tableau") with false.
    change (String.eqb "foundation" "waste") with false.
    change (String.eqb "foundation" "foundation") with true. cbv iota.
    destruct (faceUp c); cbn [negb];
      [|exists None; split; [reflexivity | discriminate]].
    cbn [js_index mbind option_bind]. rewrite Hp.
    case_bool_decide as Ek; [|exists None; split; [reflexivity | discriminate]].
    eexists. split; [reflexivity|]. intros d [= <-]. exists c.
    cbn [sourceLocation draggedCardElements].
    split; [reflexivity|]. right; left. injection Ek as Ek.
    destruct (js_get_top _ _ _ Hc Ek) as (f & -> & ->).
    exists i, f. split; [reflexivity|]. split; [exact Hp|]. reflexivity.
  - assert (Eg : getCardFromLocation s (mkLoc "tableau" (Some i) (Some k))
                 = Ok (Card c)).
    { unfold getCardFromLocation, js_read_at. cbn. rewrite Hp. cbn. rewrite Hc.
      reflexivity. }
    rewrite Eg. cbn [location pileIndex index].
    change (String.eqb "tableau" "stock") with false.
    change (String.eqb "tableau" "tableau") with true.
    change (String.eqb "tableau" "waste") with false.
    change (String.eqb "tableau" "foundation") with false. cbv iota.
    destruct (faceUp c) eqn:Eface; cbn [negb]; cbv beta.
    2:{ cbn [js_index mbind option_bind]. rewrite Hp.
        exists None; split; [reflexivity | discriminate]. }
    eexists. split; [reflexivity|]. intros d [= <-]. exists c.
    cbn [sourceLocation draggedCardElements].
    split; [reflexivity|]. right; right.
    destruct (js_get_split _ _ _ Hc) as (rest & above & -> & -> & Edrop).
    exists i, rest, above. split; [reflexivity|].
    unfold getCardsToMove. cbn [location pileIndex index].
    change (String.eqb "tableau" "tableau") with true. cbv iota.
    cbn [js_index mbind option_bind]. rewrite Hp, Edrop.
    split; [reflexivity|]. split; [reflexivity | exact Eface].
Qed.

Lemma canPlaceOnFoundation_ok (s : state) (c : card) (k : Z) :
  tidy_board s → is_ok (canPlaceOnFoundation s c k).
Proof.
  intros Hs. destruct (decide (0 ≤ k < 4)) as [Hk|Hk];
    [apply tidy_canPlaceOnFoundation; assumption|].
  unfold canPlaceOnFoundation. cbv zeta.
  assert (E : js_get SUITS k = None).
  { unfold js_get. destruct (Z.ltb_spec k 0); [reflexivity|].
    apply lookup_ge_None. change (length SUITS) with 4%nat. lia. }
  rewrite E. rewrite bool_decide_eq_false_2 by discriminate.
  eexists. reflexivity.
Qed.

(** What a press does on a board laid out by the rules: nothing, or one
    validated move; it raises only for a drop on a tableau pile that does
    not exist. *)
Lemma press_cases (cfg : settings) (cid : string) (r : release) (s : state) :
  klondike s →
  press cfg cid r s = Returns tt s
  ∨ (press cfg cid r s = Throws s
     ∧ ∃ k, r = Drop (Some ("tableau"%string, k)) ∧ ¬ 0 ≤ k < 7)
  ∨ ∃ l d s', validated s cid l d
              ∧ moveCards cfg l d s = Returns true s'
              ∧ klondike s'
              ∧ press cfg cid r s = Returns tt s'.
Proof.
  intros Hs. unfold press. rewrite bind_unfold.
  destruct (onPointerDown_picks cfg cid s Hs) as ([d|] & -> & H);
    [|left; reflexivity].
  destruct (H d eq_refl) as (c & Hfind & Hpick). clear H.
  destruct (pick_reads _ _ _ _ Hpick) as [Eread Ecard].
  pose proof (pick_face_up _ _ _ _ Hs Hpick) as Hface.
  pose proof (klondike_tidy s Hs) as Htidy.
  destruct r as [|[[ty k]|]]; cbn [onPointerUp]; [| |left; reflexivity].
  - unfold handleClick. rewrite bind_lift, Hfind, bind_lift, Eread.
    rewrite Hface. cbn [negb andb]. rewrite bind_unfold. cbn [ret].
    rewrite bind_unfold.
    destruct (tryAutoMove_returns cfg cid s Htidy) as (res & s' & E).
    rewrite E.
    pose proof (tryAutoMove_result cfg cid s res s' E) as H.
    destruct res as [dest|]; [|subst; left; reflexivity].
    destruct H as (l' & c' & Hfind' & Hcard & _ & Hchoice & Hmove).
    rewrite Hfind in Hfind'. injection Hfind' as <-.
    rewrite Ecard in Hcard. injection Hcard as <-.
    pose proof (auto_choice_accepted s _ dest c _ Hpick Hchoice) as Hacc.
    destruct (validated_move cfg s _ dest c _ Hs Hpick Hacc) as (s'' & Hmove' & Hk).
    rewrite Hmove in Hmove'. injection Hmove' as <-.
    right; right. exists (sourceLocation d), dest, s'.
    split; [exists c, (draggedCardElements d); auto|]. auto.
  - rewrite bind_lift, Eread, bind_lift. cbn [placeOnFoundation placeOnTableau].
    destruct (String.eqb_spec ty "foundation") as [->|_].
    + destruct (length (draggedCardElements d) =? 1)%nat eqn:Eone;
        [|left; reflexivity].
      destruct (canPlaceOnFoundation_ok s c k Htidy) as [[|] Eok]; rewrite Eok;
        [|left; reflexivity].
      assert (Hacc : accepted s c (draggedCardElements d)
                       (mkLoc "foundation" (Some k) None)).
      { left. exists k. split; [reflexivity|].
        split; [apply Nat.eqb_eq, Eone | exact Eok]. }
      destruct (validated_move cfg s _ _ c _ Hs Hpick Hacc) as (s' & Hmove & Hk).
      rewrite bind_unfold, Hmove. cbn [ret].
      right; right. exists (sourceLocation d), (mkLoc "foundation" (Some k) None), s'.
      split; [exists c, (draggedCardElements d); auto|]. auto.
    + destruct (String.eqb_spec ty "tableau") as [->|_]; [|left; reflexivity].
      destruct (canPlaceOnTableau s c k) as [[|]|] eqn:Eok; [|left; reflexivity|].
      * assert (Hacc : accepted s c (draggedCardElements d)
                         (mkLoc "tableau" (Some k) None)).
        { right. exists k. split; [reflexivity | exact Eok]. }
        destruct (validated_move cfg s _ _ c _ Hs Hpick Hacc) as (s' & Hmove & Hk).
        rewrite bind_unfold, Hmove. cbn [ret].
        right; right. exists (sourceLocation d), (mkLoc "tableau" (Some k) None), s'.
        split; [exists c, (draggedCardElements d); auto|]. auto.
      * right; left. split; [reflexivity|]. exists k. split; [reflexivity|].
        intros Hk. rewrite (tidy_canPlace s c k (proj1 Htidy) Hk) in Eok.
        discriminate Eok.
Qed.

Lemma press_klondike (cfg : settings) (cid : string) (r : release) :
  preserves klondike (press cfg cid r).
Proof.
  intros s Hs.
  destruct (press_cases cfg cid r s Hs)
    as [->|[[-> _]|(l & d & s' & _ & _ & Hk & ->)]]; cbn [final]; assumption.
Qed.

Lemma played_klondike (s : state) : played s → klondike s.
Proof.
  induction 1 as [sd now Hsd|cfg s _ IH|s _ IH|cfg cid r s _ IH].
  - apply newGame_klondike, Hsd.
  - apply drawFromStock_klondike, IH.
  - apply undo_klondike, IH.
  - apply press_klondike, IH.
Qed.

(** *** The rules of Klondike in a game played with the pointer *)

Lemma foundation_ok_lookup (su : suit) (f : pile) (j : nat) (x : slot) :
  foundation_ok su f → f !! j = Some x →
  ∃ c, x = Card c ∧ c_suit c = su ∧ rank c = Z.of_nat j + 1 ∧ faceUp c = true.
Proof.
  intros [Hs Hk] Hx.
  pose proof (Forall_lookup_1 _ _ _ _ Hs Hx) as Hface.
  destruct x as [| |c]; try contradiction. exists c.
  apply (f_equal (λ l, l !! j)) in Hk.
  rewrite !list_lookup_fmap, Hx in Hk. cbn [fmap option_fmap option_map slot_key] in Hk.
  pose proof (lookup_lt_Some _ _ _ Hx) as Hlt.
  rewrite (lookup_seqZ_lt 1 (Z.of_nat (length f)) j) in Hk by lia.
  injection Hk as Hsu Hr. split; [reflexivity|]. split; [exact Hsu|].
  split; [lia | exact Hface].
Qed.

Lemma won_foundations (fs : list pile) :
  Forall2 foundation_ok SUITS fs →
  forallb (λ f : pile, (length f =? 13)%nat) fs = true →
  Forall2 (λ su f, slot_key <$> f = (λ r, Some (su, r)) <$> RANKS) SUITS fs.
Proof.
  generalize SUITS. intros sus H.
  induction H as [|su f sus fs [_ Hk] _ IH]; intros Hw; [constructor|].
  cbn [forallb] in Hw. apply andb_prop in Hw as [Hlen Hw].
  constructor; [|apply IH, Hw].
  apply Nat.eqb_eq in Hlen. rewrite Hlen in Hk. exact Hk.
Qed.

(** X27. The foundations are built up by the rules.  In every state of a
    game played with the controls of the page there are four foundations;
    the card at position [j] of foundation [i] is the card of rank [j + 1]
    of the suit [SUITS[i]], face up: each foundation starts with the ace
    of its suit and goes up one rank at a time.  When [isWon] holds, each
    foundation holds its suit from the ace to the king. *)
Theorem foundations_built_up_by_suit (s : state) :
  played s →
  length (foundations s) = 4%nat
  ∧ (∀ (i j : nat) (f : pile) (x : slot),
       foundations s !! i = Some f → f !! j = Some x →
       ∃ c, x = Card c ∧ SUITS !! i = Some (c_suit c)
            ∧ rank c = Z.of_nat j + 1 ∧ faceUp c = true)
  ∧ (isWon s = true →
     Forall2 (λ su f, slot_key <$> f = (λ r, Some (su, r)) <$> RANKS)
             SUITS (foundations s)).
Proof.
  intros Hp. destruct (played_klondike s Hp) as [(_ & _ & Hf & _) _].
  split; [symmetry; exact (Forall2_length _ _ _ Hf)|].
  split; [|apply won_foundations, Hf].
  intros i j f x Hi Hx.
  destruct (Forall2_lookup_r _ _ _ _ _ Hf Hi) as (su & Hsu & Hok).
  destruct (foundation_ok_lookup su f j x Hok Hx) as (c & -> & <- & Hr & Hc).
  exists c. auto.
Qed.

(** After the click on the ace of hearts the first foundation, that of
    hearts, holds one card: of hearts, of rank 1, face up. *)
Lemma foundations_built_up_by_suit_witness :
  length (foundations ace_clicked) = 4%nat
  ∧ ∃ c, foundations ace_clicked !! 0%nat = Some [Card c]
         ∧ SUITS !! 0%nat = Some (c_suit c)
         ∧ rank c = 1 ∧ faceUp c = true.
Proof.
  destruct (foundations_built_up_by_suit ace_clicked) as (H4 & H & _).
  { apply play_press, play_stock, play_newGame, list_elem_of_here. }
  split; [exact H4|].
  assert (E : ∃ x, foundations ace_clicked !! 0%nat = Some [x])
    by (eexists; vm_compute; reflexivity).
  destruct E as [x E].
  destruct (H 0%nat 0%nat [x] x E eq_refl) as (c & -> & Hsu & Hr & Hf).
  exists c. split; [exact E|]. split; [exact Hsu|]. split; [exact Hr | exact Hf].
Defined.

(** X28. Stock, waste and tableau are laid out by the rules.  In every
    state of a game played with the controls of the page the stock cards
    lie face down and the waste cards face up; there are seven tableau
    piles, and each consists of face-down cards with face-up cards on
    them, the face-up cards built down: each of the other colour than the
    card it lies on and one rank lower; a pile that has cards has a
    face-up card on top. *)
Theorem stock_waste_and_tableau_in_order (s : state) :
  played s →
  Forall (shows false) (stock s) ∧ Forall (shows true) (waste s)
  ∧ length (tableau s) = 7%nat
  ∧ ∀ p, p ∈ tableau s →
         ∃ down up : list card,
           p = Card <$> (down ++ up)
           ∧ Forall (λ c, faceUp c = false) down
           ∧ Forall (λ c, faceUp c = true) up
           ∧ built_down up
           ∧ (p ≠ [] → up ≠ []).
Proof.
  intros Hp. destruct (played_klondike s Hp) as [(Hst & Hw & _ & Htl & Ht) _].
  split; [exact Hst|]. split; [exact Hw|]. split; [exact Htl|].
  intros p Hin. rewrite Forall_forall in Ht. exact (Ht p Hin).
Qed.

Lemma stock_waste_and_tableau_in_order_witness :
  Forall (shows false) (stock after_draw) ∧ Forall (shows true) (waste after_draw)
  ∧ length (tableau after_draw) = 7%nat
  ∧ ∀ p, p ∈ tableau after_draw →
         ∃ down up : list card,
           p = Card <$> (down ++ up)
           ∧ Forall (λ c, faceUp c = false) down
           ∧ Forall (λ c, faceUp c = true) up
           ∧ built_down up
           ∧ (p ≠ [] → up ≠ []).
Proof.
  apply (stock_waste_and_tableau_in_order after_draw).
  apply play_stock, play_newGame, list_elem_of_here.
Defined.

(** X29. Presses move cards only as validated.  In a game played with the
    controls of the page a press on a card (a click, or a drag dropped
    anywhere, a tableau drop target being one of the piles 0..6) returns
    without raising, and either leaves the state as it was or makes exactly
    one [moveCards] call: from the place where [findCard] found the card,
    which is the top card of the waste or of a foundation or a face-up
    tableau card taken with the cards on it, to a pile for which
    [canPlaceOnFoundation] (for a single card) or [canPlaceOnTableau]
    returned [true] for that card. *)
Theorem press_moves_only_as_validated (cfg : settings) (cardId : string)
    (r : release) (s : state) :
  played s →
  (∀ k, r = Drop (Some ("tableau"%string, k)) → 0 ≤ k < 7) →
  ∃ s', press cfg cardId r s = Returns tt s'
        ∧ (s' = s
           ∨ ∃ l d, validated s cardId l d
                    ∧ moveCards cfg l d s = Returns true s').
Proof.
  intros Hp Hr.
  destruct (press_cases cfg cardId r s (played_klondike s Hp))
    as [E|[[_ (k & -> & Hk)]|(l & d & s' & Hv & Hm & _ & E)]].
  - exists s. split; [exact E | left; reflexivity].
  - contradiction Hk. apply Hr. reflexivity.
  - exists s'. split; [exact E|]. right. exists l, d. auto.
Qed.

Lemma press_moves_only_as_validated_witness :
  ∃ s', press standard_draw1 "hearts-1"
          (Drop (Some ("tableau"%string, 6))) after_draw = Returns tt s'
        ∧ (s' = after_draw
           ∨ ∃ l d, validated after_draw "hearts-1" l d
                    ∧ moveCards standard_draw1 l d after_draw = Returns true s').
Proof.
  apply (press_moves_only_as_validated standard_draw1 "hearts-1"
           (Drop (Some ("tableau"%string, 6))) after_draw).
  - apply play_stock, play_newGame, list_elem_of_here.
  - intros k [= <-]. lia.
Defined.

Lemma top_face_up (rest : pile) (c : card) :
  tableau_pile_ok (rest ++ [Card c]) → faceUp c = true.
Proof.
  intros (down & up & E & _ & Hup & _ & Hne).
  assert (Hl : last (Card <$> (down ++ up)) = Some (Card c))
    by (rewrite <- E; apply last_snoc).
  rewrite fmap_last, last_app in Hl.
  destruct (last up) as [t|] eqn:Et.
  - injection Hl as <-. apply last_Some in Et as [up' ->].
    apply Forall_app in Hup as [_ Hup]. apply Forall_cons in Hup as [Hup _].
    exact Hup.
  - apply last_None in Et. exfalso.
    apply Hne; [destruct rest; discriminate | exact Et].
Qed.

Lemma handleClick_klondike (cfg : settings) (cid : string) (s : state) :
  klondike s →
  handleClick cfg cid s = (run tryAutoMove cfg cid then ret tt) s.
Proof.
  intros Hs. pose proof (klondike_tidy s Hs) as Htidy.
  destruct Hs as [(_ & Hw & Hf & _ & Ht) _].
  set (rhs := (run tryAutoMove cfg cid then ret tt) s).
  unfold handleClick. rewrite bind_lift.
  destruct (findCard_ok s cid Htidy) as [[l|] Efind]; rewrite Efind.
  2:{ subst rhs. rewrite bind_unfold. unfold tryAutoMove.
      rewrite bind_lift, Efind. reflexivity. }
  destruct (findCard_place s cid l Efind) as (k & c & _ & H).
  rewrite bind_lift.
  assert (Eg : getCardFromLocation s l = Ok (Card c)
               ∧ card_at s l = Ok (Card c)
               ∧ (faceUp c = true
                  ∨ ∃ i p, l = mkLoc "tableau" (Some i) (Some k)
                           ∧ js_get (tableau s) i = Some p
                           ∧ k ≠ Z.of_nat (length p) - 1)).
  { destruct H as [[-> Hc]|[(i & p & _ & -> & Hp & Hc)|(i & p & _ & -> & Hp & Hc)]].
    - split; [|split].
      + unfold getCardFromLocation, js_read_at. cbn. rewrite Hc. reflexivity.
      + unfold card_at, js_read_at. cbn. rewrite Hc. reflexivity.
      + left. apply js_get_lookup in Hc.
        exact (Forall_lookup_1 _ _ _ _ Hw Hc).
    - split; [|split].
      + unfold getCardFromLocation, js_read_at. cbn. rewrite Hp. cbn.
        rewrite Hc. reflexivity.
      + unfold card_at, js_read_at. cbn. rewrite Hp. cbn. rewrite Hc.
        reflexivity.
      + left. apply js_get_lookup in Hc, Hp.
        destruct (Forall2_lookup_r _ _ _ _ _ Hf Hp) as (su & _ & [Hok _]).
        exact (Forall_lookup_1 _ _ _ _ Hok Hc).
    - split; [|split].
      + unfold getCardFromLocation, js_read_at. cbn. rewrite Hp. cbn.
        rewrite Hc. reflexivity.
      + unfold card_at, js_read_at. cbn. rewrite Hp. cbn. rewrite Hc.
        reflexivity.
      + destruct (faceUp c) eqn:Eface; [left; reflexivity|right].
        exists i, p. split; [reflexivity|]. split; [exact Hp|].
        intros Ek. destruct (js_get_top _ _ _ Hc Ek) as (rest & -> & _).
        apply js_get_lookup in Hp.
        pose proof (top_face_up rest c (Forall_lookup_1 _ _ _ _ Ht Hp)).
        congruence. }
  destruct Eg as (Eg & Ecard & Hcase). rewrite Eg.
  destruct (faceUp c) eqn:Eface.
  - cbn [negb andb]. rewrite bind_unfold. cbn [ret]. reflexivity.
  - destruct Hcase as [?|(i & p & -> & Hp & Hk)]; [discriminate|].
    cbn [negb andb location].
    change (String.eqb "tableau" "tableau") with true. cbv iota.
    rewrite bind_unfold. unfold flip_clicked.
    cbn [pileIndex index js_index mbind option_bind]. rewrite Hp.
    rewrite bool_decide_eq_false_2 by congruence.
    cbn [ret]. subst rhs. rewrite bind_unfold. unfold tryAutoMove.
    rewrite bind_lift, Efind, bind_lift, Ecard. cbn [location].
    change (String.eqb "tableau" "tableau") with true.
    rewrite Eface. reflexivity.
Qed.

(** X30. A click never takes the flip branch.  In a game played with the
    controls of the page no tableau pile has a face-down card on top, so
    the branch of [handleClick] that turns such a card up (and counts a
    move and 5 points) is never taken: [handleClick] on the element of a
    card does what [tryAutoMove] does with the card's id, and nothing
    else. *)
Theorem handleClick_is_tryAutoMove (cfg : settings) (cardId : string)
    (s : state) :
  played s →
  handleClick cfg cardId s = (run tryAutoMove cfg cardId then ret tt) s.
Proof. intros Hp. apply handleClick_klondike, played_klondike, Hp. Qed.

Lemma handleClick_is_tryAutoMove_witness :
  handleClick standard_draw1 "hearts-1" after_draw
  = (run tryAutoMove standard_draw1 "hearts-1" then ret tt) after_draw.
Proof.
  apply (handleClick_is_tryAutoMove standard_draw1 "hearts-1" after_draw).
  apply play_stock, play_newGame, list_elem_of_here.
Defined.
